(** * Traffic Bifurcate: the crawler and the content pipeline, verified

    A shallow embedding of the bounded crawler
    ([src/app/api/ai-mirror/route.ts], the sitemap crawl handler), of the
    single-page extractors ([lib/extractor] and [src/app/api/extract/route.ts])
    with their text helpers and MDF formatters, of the helpers of the
    AI-mirror JSON route, of the Markdown sanitizer ([sanitizeMarkdown]) and
    of the Structure Analyzer, followed by the properties the specification
    states about them and by further properties of the same code.

    Conventions.
    - A JavaScript string is a [string] whose characters are the UTF-16 code
      units below 256 (the Latin-1 range); code units above U+00FF are outside
      the model.
    - A JavaScript number is a [JsNumber]: NaN, the two infinities, or a
      finite value held as a rational (only comparisons, [Math.min],
      [Math.max] and [+ 1] on small integers are used, all exact on doubles).
    - An exception is a value of [Result]: [Throw message].
    - The network ([fetch]) and what the runtime does beyond the model
      ([Number] on a string, [new URL] on anything but an absolute http(s)
      text, the Unicode tables of the host parser) are the fields of a
      [World], over which the properties quantify.
    - The crawl loop runs on fuel; that it stops is proved in Part II. *)

From Stdlib Require Import String Ascii List ZArith NArith QArith Lia Bool Arith.
From Stdlib Require Import DecimalString DecimalN DecimalPos Sorted.
From stdpp Require Import gmap strings.

Import ListNotations.
Local Open Scope string_scope.
Local Open Scope list_scope.

(* ================================================================== *)
(** * Part I. The embedding                                             *)
(* ================================================================== *)

(** ** JavaScript values the handlers touch *)

Module Js.

Definition LF : ascii := "010"%char.
Definition CR : ascii := "013"%char.
Definition TAB : ascii := "009"%char.
Definition nl : string := String LF "".

(** [WhiteSpace] and [LineTerminator] code units below 256: TAB, LF, VT,
    FF, CR, SP and NBSP.  This is what [String.prototype.trim] strips and
    what [\s] matches. *)
Definition isWhiteSpace (c : ascii) : bool :=
  let n := nat_of_ascii c in
  (((9 <=? n) && (n <=? 13)) || (n =? 32) || (n =? 160))%nat.

Definition isLineTerminator (c : ascii) : bool :=
  Ascii.eqb c LF || Ascii.eqb c CR.

Definition isDigit (c : ascii) : bool :=
  let n := nat_of_ascii c in ((48 <=? n) && (n <=? 57))%nat.

Definition isUpper (c : ascii) : bool :=
  let n := nat_of_ascii c in ((65 <=? n) && (n <=? 90))%nat.

Definition isLower (c : ascii) : bool :=
  let n := nat_of_ascii c in ((97 <=? n) && (n <=? 122))%nat.

(** [\w] *)
Definition isWordChar (c : ascii) : bool :=
  isDigit c || isUpper c || isLower c || Ascii.eqb c "_"%char.

(** [toLowerCase] on one code unit: A-Z, and the Latin-1 capitals
    U+00C0..U+00DE except the multiplication sign U+00D7. *)
Definition lowerChar (c : ascii) : ascii :=
  let n := nat_of_ascii c in
  if isUpper c then ascii_of_nat (n + 32)
  else if ((192 <=? n) && (n <=? 222) && negb (n =? 215))%nat then ascii_of_nat (n + 32)
  else c.

(** Case folding of the [i] flag for an ASCII pattern character: only
    a-z and A-Z are identified (a code unit of 128 or more never
    canonicalizes to an ASCII one). *)
Definition foldChar (c : ascii) : ascii :=
  if isLower c then ascii_of_nat (nat_of_ascii c - 32) else c.

Fixpoint toLowerCase (s : string) : string :=
  match s with
  | "" => ""
  | String c s' => String (lowerChar c) (toLowerCase s')
  end.

Fixpoint trimStart (s : string) : string :=
  match s with
  | "" => ""
  | String c s' => if isWhiteSpace c then trimStart s' else s
  end.

Fixpoint trimEnd (s : string) : string :=
  match s with
  | "" => ""
  | String c s' =>
      match trimEnd s' with
      | "" => if isWhiteSpace c then "" else String c ""
      | t => String c t
      end
  end.

Definition trim (s : string) : string := trimEnd (trimStart s).

(** [s.startsWith(p)] *)
Fixpoint startsWith (s p : string) : bool :=
  match p, s with
  | "", _ => true
  | String _ _, "" => false
  | String b p', String a s' => Ascii.eqb a b && startsWith s' p'
  end.

(** [s.endsWith(p)] *)
Fixpoint endsWith (s p : string) : bool :=
  String.eqb s p ||
  match s with
  | "" => false
  | String _ s' => endsWith s' p
  end.

(** [s.includes(p)] *)
Fixpoint includes (s p : string) : bool :=
  startsWith s p ||
  match s with
  | "" => false
  | String _ s' => includes s' p
  end.

(** [s.split(sep)] for a one-character separator. *)
Fixpoint splitChar (sep : ascii) (s : string) : list string :=
  match s with
  | "" => [""]
  | String c s' =>
      match splitChar sep s' with
      | [] => [""]
      | piece :: pieces =>
          if Ascii.eqb c sep then "" :: piece :: pieces
          else String c piece :: pieces
      end
  end.

(** [pieces.join(sep)] *)
Fixpoint join (sep : string) (pieces : list string) : string :=
  match pieces with
  | [] => ""
  | [p] => p
  | p :: ps => p ++ sep ++ join sep ps
  end.

(** Numbers. *)
Inductive JsNumber : Type :=
| NaN
| NegInf
| Fin (q : Q)
| PosInf.

Definition ofNat (n : nat) : JsNumber := Fin (inject_Z (Z.of_nat n)).

(** [a <= b]; false as soon as one side is NaN. *)
Definition leb (a b : JsNumber) : bool :=
  match a, b with
  | NaN, _ | _, NaN => false
  | NegInf, _ => true
  | _, PosInf => true
  | Fin x, Fin y => Qle_bool x y
  | _, _ => false
  end.

(** [a < b]; false as soon as one side is NaN. *)
Definition ltb (a b : JsNumber) : bool :=
  match a, b with
  | NaN, _ | _, NaN => false
  | _, _ => negb (leb b a)
  end.

Definition Number_isNaN (v : JsNumber) : bool :=
  match v with NaN => true | _ => false end.

Definition Math_max (a b : JsNumber) : JsNumber :=
  match a, b with
  | NaN, _ | _, NaN => NaN
  | _, _ => if leb a b then b else a
  end.

Definition Math_min (a b : JsNumber) : JsNumber :=
  match a, b with
  | NaN, _ | _, NaN => NaN
  | _, _ => if leb a b then a else b
  end.

(** The values a parsed JSON body can hold in a field; an absent field
    reads as [JUndefined].  An array or an object is carried with the
    string its [ToPrimitive] conversion yields. *)
Inductive JsValue : Type :=
| JUndefined
| JNull
| JBool (b : bool)
| JNum (n : JsNumber)
| JStr (s : string)
| JObject (primitive : string).

(** [a ?? b] *)
Definition nullish (a b : JsValue) : JsValue :=
  match a with
  | JUndefined | JNull => b
  | _ => a
  end.

(** Exceptions: [Throw message] is a thrown [Error]. *)
Inductive Result (A : Type) : Type :=
| Ok (a : A)
| Throw (message : string).
Arguments Ok {A} a.
Arguments Throw {A} message.

Definition bind {A B} (r : Result A) (f : A -> Result B) : Result B :=
  match r with
  | Ok a => f a
  | Throw m => Throw m
  end.

End Js.

Notation "'try!' x ':=' r 'in' k" := (Js.bind r (fun x => k))
  (at level 10, x name, r at level 100, k at level 200).

(** ** Regular expressions

    The handlers lean on JavaScript regular expressions.  [regex] is the
    fragment of the pattern language they use, and [run] is the backtracking
    matcher of ECMA-262 in continuation-passing style: alternatives are tried
    left to right, a greedy quantifier tries one more iteration before it
    tries to stop, and an iteration past the minimum that consumes nothing is
    rejected. *)

Module Regex.

Inductive regex : Type :=
| Empty
| Char (p : ascii -> bool)
| Cat (r1 r2 : regex)
| Or (r1 r2 : regex)
| Repeat (greedy : bool) (lo : nat) (hi : option nat) (r : regex)
| Group (i : nat) (r : regex)
| InputStart
| InputEnd
| LineStart
| LineEnd
| WordBoundary
| NotAhead (r : regex).

(** A position in the subject: the character before it (for [^] and
    [\b]), what is left to read, and the captures made so far. *)
Record cursor : Type := Cursor {
  prev : option ascii;
  rest : string;
  caps : list (nat * string)
}.

Definition Cont : Type := cursor -> option cursor.

Fixpoint take (n : nat) (s : string) : string :=
  match n, s with
  | S n', String a s' => String a (take n' s')
  | _, _ => ""
  end.

Definition consumed (c c' : cursor) : nat :=
  String.length (rest c) - String.length (rest c').

Definition atLineStart (c : cursor) : bool :=
  match prev c with
  | None => true
  | Some a => Js.isLineTerminator a
  end.

Definition atLineEnd (c : cursor) : bool :=
  match rest c with
  | "" => true
  | String a _ => Js.isLineTerminator a
  end.

Definition atWordBoundary (c : cursor) : bool :=
  let before := match prev c with Some a => Js.isWordChar a | None => false end in
  let after := match rest c with String a _ => Js.isWordChar a | "" => false end in
  xorb before after.

Definition orElse (a b : option cursor) : option cursor :=
  match a with
  | Some x => Some x
  | None => b
  end.

Definition decr (hi : option nat) : option nat :=
  match hi with
  | Some n => Some (Nat.pred n)
  | None => None
  end.

Definition exhausted (hi : option nat) : bool :=
  match hi with
  | Some O => true
  | _ => false
  end.

(** [r{lo,hi}] given the matcher [step] of [r].  [budget] bounds the
    number of iterations: the [lo] compulsory ones and then at most one
    per character left, since every further iteration must consume. *)
Fixpoint iterate (step : cursor -> Cont -> option cursor) (greedy : bool)
    (budget lo : nat) (hi : option nat) (c : cursor) (k : Cont) : option cursor :=
  match budget with
  | O => match lo with O => k c | S _ => None end
  | S budget' =>
      match lo with
      | S lo' =>
          if exhausted hi then None
          else step c (fun c' => iterate step greedy budget' lo' (decr hi) c' k)
      | O =>
          if exhausted hi then k c
          else
            let again :=
              step c (fun c' =>
                if (consumed c c' =? 0)%nat then None
                else iterate step greedy budget' O (decr hi) c' k) in
            if greedy then orElse again (k c) else orElse (k c) again
      end
  end.

Fixpoint run (r : regex) (c : cursor) (k : Cont) {struct r} : option cursor :=
  match r with
  | Empty => k c
  | Char p =>
      match rest c with
      | String a s' => if p a then k (Cursor (Some a) s' (caps c)) else None
      | "" => None
      end
  | Cat r1 r2 => run r1 c (fun c' => run r2 c' k)
  | Or r1 r2 => orElse (run r1 c k) (run r2 c k)
  | Repeat greedy lo hi r1 =>
      iterate (run r1) greedy (lo + String.length (rest c)) lo hi c k
  | Group i r1 =>
      run r1 c (fun c' =>
        k (Cursor (prev c') (rest c')
             ((i, take (consumed c c') (rest c)) :: caps c')))
  | InputStart => match prev c with None => k c | Some _ => None end
  | InputEnd => match rest c with "" => k c | String _ _ => None end
  | LineStart => if atLineStart c then k c else None
  | LineEnd => if atLineEnd c then k c else None
  | WordBoundary => if atWordBoundary c then k c else None
  | NotAhead r1 =>
      match run r1 c Some with
      | Some _ => None
      | None => k c
      end
  end.

(** One attempt at a given position. *)
Definition matchAt (r : regex) (before : option ascii) (s : string) : option cursor :=
  run r (Cursor before s []) Some.

(** Text of capture group [i] ([$i]); the empty string when unset. *)
Fixpoint capture (i : nat) (cs : list (nat * string)) : string :=
  match cs with
  | [] => ""
  | (j, t) :: cs' => if (i =? j)%nat then t else capture i cs'
  end.

(** Leftmost match at or after a position: how many characters precede
    it, and the cursor at its end. *)
Fixpoint find (r : regex) (before : option ascii) (s : string) : option (nat * cursor) :=
  match matchAt r before s with
  | Some c => Some (O, c)
  | None =>
      match s with
      | "" => None
      | String a s' =>
          match find r (Some a) s' with
          | Some (n, c) => Some (S n, c)
          | None => None
          end
      end
  end.

(** [r.test(s)] *)
Definition test (r : regex) (s : string) : bool :=
  match find r None s with
  | Some _ => true
  | None => false
  end.

(** [s.replace(r, f)] without the [g] flag: the leftmost match only. *)
Definition replace (r : regex) (f : list (nat * string) -> string) (s : string) : string :=
  match find r None s with
  | None => s
  | Some (n, c) => (take n s ++ f (caps c) ++ rest c)%string
  end.

(** [s.replace(r, f)] with the [g] flag.  [skip] counts the characters
    of the match in progress that are still to be dropped. *)
Fixpoint replaceFrom (r : regex) (f : list (nat * string) -> string)
    (before : option ascii) (s : string) (skip : nat) {struct s} : string :=
  match skip with
  | S skip' =>
      match s with
      | "" => ""
      | String a s' => replaceFrom r f (Some a) s' skip'
      end
  | O =>
      match matchAt r before s with
      | Some c =>
          (f (caps c) ++
           match s with
           | "" => ""
           | String a s' =>
               match String.length s - String.length (rest c) with
               | O => String a (replaceFrom r f (Some a) s' O)
               | S n => replaceFrom r f (Some a) s' n
               end
           end)%string
      | None =>
          match s with
          | "" => ""
          | String a s' => String a (replaceFrom r f (Some a) s' O)
          end
      end
  end.

Definition replaceAll (r : regex) (f : list (nat * string) -> string) (s : string) : string :=
  replaceFrom r f None s O.

(** [s.match(r)] with the [g] flag: the matched texts, left to right. *)
Fixpoint matchesFrom (r : regex) (before : option ascii) (s : string) (skip : nat)
    {struct s} : list string :=
  match skip with
  | S skip' =>
      match s with
      | "" => []
      | String a s' => matchesFrom r (Some a) s' skip'
      end
  | O =>
      match matchAt r before s with
      | Some c =>
          let n := String.length s - String.length (rest c) in
          take n s ::
          match s with
          | "" => []
          | String a s' => matchesFrom r (Some a) s' (Nat.pred n)
          end
      | None =>
          match s with
          | "" => []
          | String a s' => matchesFrom r (Some a) s' O
          end
      end
  end.

Definition matchAll (r : regex) (s : string) : list string := matchesFrom r None s O.

Definition consHead (a : ascii) (pieces : list string) : list string :=
  match pieces with
  | [] => [String a ""]
  | p :: ps => String a p :: ps
  end.

(** [s.split(r)] for a pattern that matches no empty string. *)
Fixpoint splitFrom (r : regex) (before : option ascii) (s : string) (skip : nat)
    {struct s} : list string :=
  match s with
  | "" => [""]
  | String a s' =>
      match skip with
      | S skip' => splitFrom r (Some a) s' skip'
      | O =>
          match matchAt r before s with
          | Some c =>
              match String.length s - String.length (rest c) with
              | O => consHead a (splitFrom r (Some a) s' O)
              | S n => "" :: splitFrom r (Some a) s' n
              end
          | None => consHead a (splitFrom r (Some a) s' O)
          end
      end
  end.

Definition split (r : regex) (s : string) : list string := splitFrom r None s O.

(** Pattern syntax. *)
Definition lit (a : ascii) : regex := Char (Ascii.eqb a).
Definition litCi (a : ascii) : regex :=
  Char (fun b => Ascii.eqb (Js.foldChar b) (Js.foldChar a)).
Definition dot : regex := Char (fun a => negb (Js.isLineTerminator a)).
Definition anyChar : regex := Char (fun _ => true).      (* [\s\S] *)
Definition space : regex := Char Js.isWhiteSpace.        (* \s *)
Definition digit : regex := Char Js.isDigit.             (* \d *)
Definition word : regex := Char Js.isWordChar.           (* \w *)
Definition star (r : regex) : regex := Repeat true 0 None r.
Definition lazyStar (r : regex) : regex := Repeat false 0 None r.
Definition plus (r : regex) : regex := Repeat true 1 None r.
Definition lazyPlus (r : regex) : regex := Repeat false 1 None r.
Definition atLeast (n : nat) (r : regex) : regex := Repeat true n None r.
Definition between (lo hi : nat) (r : regex) : regex := Repeat true lo (Some hi) r.

Fixpoint text (s : string) : regex :=
  match s with
  | "" => Empty
  | String a "" => lit a
  | String a s' => Cat (lit a) (text s')
  end.

Fixpoint textCi (s : string) : regex :=
  match s with
  | "" => Empty
  | String a "" => litCi a
  | String a s' => Cat (litCi a) (textCi s')
  end.

Fixpoint cat (rs : list regex) : regex :=
  match rs with
  | [] => Empty
  | [r] => r
  | r :: rs' => Cat r (cat rs')
  end.

Fixpoint alt (rs : list regex) : regex :=
  match rs with
  | [] => Empty
  | [r] => r
  | r :: rs' => Or r (alt rs')
  end.

(** Runs of characters of a set. *)

(** Length of the run of [p]-characters a string starts with. *)
Fixpoint runLen (p : ascii -> bool) (s : string) : nat :=
  match s with
  | String a s' => if p a then S (runLen p s') else 0
  | "" => 0
  end.

(** What follows that run. *)
Fixpoint dropRun (p : ascii -> bool) (s : string) : string :=
  match s with
  | String a s' => if p a then dropRun p s' else s
  | "" => ""
  end.

(** No run of [lo] or more [p]-characters anywhere in the string. *)
Fixpoint noLongRun (p : ascii -> bool) (lo : nat) (s : string) : bool :=
  (runLen p s <? lo)%nat &&
  match s with
  | String _ s' => noLongRun p lo s'
  | "" => true
  end.

End Regex.

(** ** The platform's [URL] class

    [new URL(...)], the accessors and [toString()] belong to the runtime,
    not to the repository.  They are modelled after the URL Standard for
    what the handlers feed them: absolute [http://] and [https://] inputs are
    parsed by [parseHttp]; every other input (a relative reference resolved
    against a base, another scheme) is left to the parameter
    [World.parseOther] of the crawl.

    [parseHttp] covers: stripping of leading and trailing C0 controls and
    spaces, removal of TAB, LF and CR, the case-insensitive scheme, extra
    slashes before the authority, credentials, the host (percent-decoding,
    lower-casing of an ASCII domain, forbidden code points, the number
    forms of IPv4 addresses, bracketed IPv6 addresses), the port with its
    range and default, backslashes in the path, removal of [.] and [..]
    path segments, percent-encoding of credentials, path and query, and
    the fragment.

    Two steps of the host parser need the Unicode tables and are
    parameters ([Idna]): whether a lower-case ASCII domain with an [xn--]
    label is valid, and what domain-to-ASCII makes of a host that holds
    characters outside ASCII.  Strings are sequences of code units below
    256. *)

Module Url.

Record URL : Type := mkURL {
  scheme : string;            (* lower case, without the colon *)
  username : string;          (* percent-encoded *)
  password : string;          (* percent-encoded *)
  host : option string;       (* serialized; [None]: the null host *)
  port : option N;
  path : string;              (* serialized path *)
  opaque : bool;              (* the URL has an opaque path *)
  query : option string;
  fragment : option string
}.

(** The two steps of domain-to-ASCII that consult the Unicode tables. *)
Record Idna : Type := {
  valid : string -> bool;
    (* a lower-case ASCII domain with an [xn--] label passes the validity
       criteria of Unicode IDNA processing *)
  toASCII : string -> option string
    (* domain-to-ASCII of a host text that, percent-decoded, is not ASCII *)
}.

Definition isSpecial (sch : string) : bool :=
  existsb (String.eqb sch) ["http"; "https"; "ftp"; "ws"; "wss"; "file"].

Definition defaultPort (sch : string) : option N :=
  if String.eqb sch "http" then Some 80%N
  else if String.eqb sch "https" then Some 443%N
  else if String.eqb sch "ftp" then Some 21%N
  else if String.eqb sch "ws" then Some 80%N
  else if String.eqb sch "wss" then Some 443%N
  else None.

Definition optN_eqb (a b : option N) : bool :=
  match a, b with
  | Some x, Some y => N.eqb x y
  | None, None => true
  | _, _ => false
  end.

(** *** Serialization and accessors *)

Definition portText (n : N) : string := NilEmpty.string_of_uint (N.to_uint n).

Definition includesCredentials (u : URL) : bool :=
  negb (String.eqb (username u) "") || negb (String.eqb (password u) "").

Definition credentialsText (user pass : string) : string :=
  if String.eqb user "" && String.eqb pass "" then ""
  else (user ++ (if String.eqb pass "" then "" else ":" ++ pass) ++ "@")%string.

Definition href (u : URL) : string :=
  (scheme u ++ ":" ++
   match host u with
   | Some h =>
       "//" ++ credentialsText (username u) (password u) ++ h ++
       match port u with
       | Some n => ":" ++ portText n
       | None => ""
       end
   | None => ""
   end ++
   path u ++
   match query u with Some q => "?" ++ q | None => "" end ++
   match fragment u with Some f => "#" ++ f | None => "" end)%string.

Definition toString (u : URL) : string := href u.
Definition protocol (u : URL) : string := (scheme u ++ ":")%string.
Definition hostname (u : URL) : string :=
  match host u with Some h => h | None => "" end.
Definition pathname (u : URL) : string := path u.

(** *** Percent-encoding *)

Definition hexDigit (n : nat) : ascii :=
  if (n <? 10)%nat then ascii_of_nat (48 + n) else ascii_of_nat (55 + n).

Definition pctByte (n : nat) : string :=
  String "%" (String (hexDigit (n / 16)) (String (hexDigit (n mod 16)) "")).

(** UTF-8 percent-encoding of a code unit below 256. *)
Definition pctEncode (c : ascii) : string :=
  let n := nat_of_ascii c in
  if (n <? 128)%nat then pctByte n
  else (pctByte (192 + n / 64) ++ pctByte (128 + n mod 64))%string.

Fixpoint encodeWith (inSet : ascii -> bool) (s : string) : string :=
  match s with
  | "" => ""
  | String c s' =>
      if inSet c then (pctEncode c ++ encodeWith inSet s')%string
      else String c (encodeWith inSet s')
  end.

Definition oneOf (cs : string) (c : ascii) : bool :=
  existsb (Ascii.eqb c) (list_ascii_of_string cs).

Definition DQUOTE : ascii := "034"%char.

(** C0 controls and everything above U+007E. *)
Definition inC0Set (c : ascii) : bool :=
  let n := nat_of_ascii c in ((n <=? 31) || (127 <=? n))%nat.
Definition inFragmentSet (c : ascii) : bool :=
  inC0Set c || Ascii.eqb c " " || Ascii.eqb c DQUOTE || oneOf "<>`" c.
Definition inQuerySet (c : ascii) : bool :=
  inC0Set c || Ascii.eqb c " " || Ascii.eqb c DQUOTE || oneOf "#<>" c.
Definition inSpecialQuerySet (c : ascii) : bool :=
  inQuerySet c || Ascii.eqb c "'".
(** The path percent-encode set as the runtime has it: a caret in a path
    is kept. *)
Definition inPathSet (c : ascii) : bool :=
  inQuerySet c || oneOf "?`{}" c.
Definition inUserinfoSet (c : ascii) : bool :=
  inPathSet c || oneOf "/:;=@[\]^|" c.

(** *** Parsing an absolute http(s) URL *)

Definition isC0OrSpace (c : ascii) : bool := (nat_of_ascii c <=? 32)%nat.
Definition isTabOrNewline (c : ascii) : bool :=
  Ascii.eqb c Js.TAB || Ascii.eqb c Js.LF || Ascii.eqb c Js.CR.

Fixpoint dropWhile (p : ascii -> bool) (s : string) : string :=
  match s with
  | "" => ""
  | String c s' => if p c then dropWhile p s' else s
  end.

Fixpoint dropWhileEnd (p : ascii -> bool) (s : string) : string :=
  match s with
  | "" => ""
  | String c s' =>
      match dropWhileEnd p s' with
      | "" => if p c then "" else String c ""
      | t => String c t
      end
  end.

Fixpoint remove (p : ascii -> bool) (s : string) : string :=
  match s with
  | "" => ""
  | String c s' => if p c then remove p s' else String c (remove p s')
  end.

Definition preprocess (input : string) : string :=
  remove isTabOrNewline (dropWhileEnd isC0OrSpace (dropWhile isC0OrSpace input)).

(** Longest prefix of characters outside [stop], and what follows. *)
Fixpoint upTo (stop : ascii -> bool) (s : string) : string * string :=
  match s with
  | "" => ("", "")
  | String c s' =>
      if stop c then ("", s)
      else let (a, b) := upTo stop s' in (String c a, b)
  end.

Definition isSlash (c : ascii) : bool := oneOf "/\" c.

Definition ci (c : ascii) (lower : ascii) : bool := Ascii.eqb (Js.lowerChar c) lower.

(** The scheme and what follows its colon, for [http:] and [https:]
    in any letter case. *)
Definition splitScheme (s : string) : option (string * string) :=
  match s with
  | String h (String t1 (String t2 (String p s4))) =>
      if ci h "h" && ci t1 "t" && ci t2 "t" && ci p "p" then
        match s4 with
        | String ":" s5 => Some ("http", s5)
        | String e (String ":" s6) => if ci e "s" then Some ("https", s6) else None
        | _ => None
        end
      else None
  | _ => None
  end.

Fixpoint every (q : ascii -> bool) (s : string) : bool :=
  match s with
  | "" => true
  | String c s' => q c && every q s'
  end.

Definition tail (s : string) : string :=
  match s with
  | "" => ""
  | String _ s' => s'
  end.

(** **** The authority *)

(** What precedes the last [sep] and what follows it. *)
Fixpoint splitLast (sep : ascii) (s : string) : option (string * string) :=
  match s with
  | "" => None
  | String c s' =>
      match splitLast sep s' with
      | Some (a, b) => Some (String c a, b)
      | None => if Ascii.eqb c sep then Some ("", s') else None
      end
  end.

(** The host state: the host text ends at the first colon that is not
    inside brackets. *)
Fixpoint hostEnd (insideBrackets : bool) (s : string) : string * string :=
  match s with
  | "" => ("", "")
  | String c s' =>
      if Ascii.eqb c ":" && negb insideBrackets then ("", s)
      else
        let inside := if Ascii.eqb c "[" then true
                      else if Ascii.eqb c "]" then false
                      else insideBrackets in
        let (a, b) := hostEnd inside s' in (String c a, b)
  end.

(** **** Numbers in a host *)

Definition isAscii (c : ascii) : bool := (nat_of_ascii c <? 128)%nat.

(** The value of an ASCII hex digit. *)
Definition hexValue (c : ascii) : option N :=
  let n := N_of_ascii c in
  if Js.isDigit c then Some (n - 48)%N
  else if ((97 <=? n) && (n <=? 102))%N then Some (n - 87)%N
  else if ((65 <=? n) && (n <=? 70))%N then Some (n - 55)%N
  else None.

Definition isHexDigit (c : ascii) : bool :=
  Js.isDigit c || oneOf "abcdef" c.

(** The number a string of radix-[radix] digits stands for. *)
Fixpoint digitsValue (radix : N) (s : string) (acc : N) : option N :=
  match s with
  | "" => Some acc
  | String c s' =>
      match hexValue c with
      | Some d => if (d <? radix)%N then digitsValue radix s' (acc * radix + d)%N else None
      | None => None
      end
  end.

(** The IPv4 number parser: [0x] announces hexadecimal, a leading [0]
    octal. *)
Definition ipv4Number (s : string) : option N :=
  match s with
  | "" => None
  | String "0" (String x rest) =>
      if Ascii.eqb (Js.lowerChar x) "x" then digitsValue 16 rest 0
      else digitsValue 8 (String x rest) 0
  | _ => digitsValue 10 s 0
  end.

(** A label the IPv4 parser reads as a number (lower case). *)
Definition numeric (label : string) : bool :=
  match label with
  | "" => false
  | String "0" (String "x" digits) => every isHexDigit digits
  | _ => every Js.isDigit label
  end.

(** The ends-in-a-number checker of the host parser. *)
Definition endsInNumber (h : string) : bool :=
  match rev (Js.splitChar "." h) with
  | [] => false
  | [last] => numeric last
  | "" :: last :: _ => numeric last
  | last :: _ => numeric last
  end.

(** The parts of an IPv4 address: one empty part at the end is dropped. *)
Definition ipv4Parts (d : string) : list string :=
  let parts := Js.splitChar "." d in
  match rev parts with
  | "" :: ((_ :: _) as front) => rev front
  | _ => parts
  end.

Fixpoint allSome {A : Type} (l : list (option A)) : option (list A) :=
  match l with
  | [] => Some []
  | Some a :: l' => option_map (cons a) (allSome l')
  | None :: _ => None
  end.

Fixpoint ipv4Sum (counter : nat) (numbers : list N) : N :=
  match numbers with
  | [] => 0
  | n :: rest => (n * 256 ^ N.of_nat (3 - counter) + ipv4Sum (S counter) rest)%N
  end.

(** The IPv4 parser. *)
Definition parseIPv4 (d : string) : option N :=
  let parts := ipv4Parts d in
  if (4 <? List.length parts)%nat then None
  else
    match allSome (map ipv4Number parts) with
    | None => None
    | Some numbers =>
        match rev numbers with
        | [] => None
        | last :: front =>
            if existsb (fun n => (255 <? n)%N) front then None
            else if (256 ^ N.of_nat (5 - List.length numbers) <=? last)%N then None
            else Some (last + ipv4Sum 0 (rev front))%N
        end
    end.

(** The IPv4 serializer. *)
Definition ipv4Text (address : N) : string :=
  Js.join "."
    (map (fun i => portText ((address / 256 ^ i) mod 256)%N) [3; 2; 1; 0]%N).

(** **** IPv6 addresses *)

(** Up to [budget] hex digits: their value, how many there were, and what
    follows them. *)
Fixpoint readHex (budget : nat) (s : string) (value : N) (length : nat)
    : N * nat * string :=
  match budget, s with
  | S budget', String c s' =>
      match hexValue c with
      | Some d => readHex budget' s' (value * 16 + d)%N (S length)
      | None => (value, length, s)
      end
  | _, _ => (value, length, s)
  end.

(** One decimal number of an IPv4 address inside an IPv6 address: no
    leading zero, at most 255. *)
Fixpoint readIpv4Piece (s : string) (piece : option N) : option (N * string) :=
  match s with
  | String c s' =>
      if Js.isDigit c then
        let number := (N_of_ascii c - 48)%N in
        match piece with
        | None => readIpv4Piece s' (Some number)
        | Some 0%N => None
        | Some p =>
            let p' := (p * 10 + number)%N in
            if (255 <? p')%N then None else readIpv4Piece s' (Some p')
        end
      else option_map (fun p => (p, s)) piece
  | "" => option_map (fun p => (p, s)) piece
  end.

(** The four numbers that end an IPv6 address, [numbersSeen] of which
    were read. *)
Fixpoint readIpv4Tail (fuel numbersSeen : nat) (s : string) (numbers : list N)
    : option (list N) :=
  match fuel with
  | O => None
  | S fuel' =>
      match s with
      | "" => if (numbersSeen =? 4)%nat then Some numbers else None
      | String c s' =>
          let afterDot :=
            if (0 <? numbersSeen)%nat then
              if Ascii.eqb c "." && (numbersSeen <? 4)%nat then Some s' else None
            else Some s in
          match afterDot with
          | None => None
          | Some t =>
              match readIpv4Piece t None with
              | None => None
              | Some (piece, rest) =>
                  readIpv4Tail fuel' (S numbersSeen) rest (numbers ++ [piece])
              end
          end
      end
  end.

(** The main loop of the IPv6 parser: [pieces] are the pieces read so far
    ([pieceIndex] is their number), [compress] the index where [::]
    stood. *)
Fixpoint readPieces (fuel : nat) (s : string) (pieces : list N) (compress : option nat)
    : option (list N * option nat) :=
  match fuel with
  | O => None
  | S fuel' =>
      match s with
      | "" => Some (pieces, compress)
      | String c s' =>
          if (List.length pieces =? 8)%nat then None
          else if Ascii.eqb c ":" then
            match compress with
            | Some _ => None
            | None =>
                readPieces fuel' s' (pieces ++ [0%N]) (Some (S (List.length pieces)))
            end
          else
            let '(value, length, rest) := readHex 4 s 0 0 in
            match rest with
            | "" => Some ((pieces ++ [value])%list, compress)
            | String d rest' =>
                if Ascii.eqb d "." then
                  if (length =? 0)%nat then None
                  else if (6 <? List.length pieces)%nat then None
                  else
                    match readIpv4Tail 5 0 s [] with
                    | Some [a; b; c'; d'] =>
                        Some ((pieces ++ [a * 256 + b; c' * 256 + d'])%N%list, compress)
                    | _ => None
                    end
                else if Ascii.eqb d ":" then
                  match rest' with
                  | "" => None
                  | _ => readPieces fuel' rest' (pieces ++ [value]) compress
                  end
                else None
            end
      end
  end.

(** The IPv6 parser: the eight pieces of the address. *)
Definition parseIPv6 (input : string) : option (list N) :=
  let start :=
    match input with
    | String ":" rest =>
        match rest with
        | String ":" rest' => Some (rest', [0%N], Some 1)
        | _ => None
        end
    | _ => Some (input, [], None)
    end in
  match start with
  | None => None
  | Some (s, pieces, compress) =>
      match readPieces (S (String.length s)) s pieces compress with
      | None => None
      | Some (pieces', Some at_) =>
          Some (firstn at_ pieces' ++ repeat 0%N (8 - List.length pieces')
                ++ skipn at_ pieces')%list
      | Some (pieces', None) =>
          if (List.length pieces' =? 8)%nat then Some pieces' else None
      end
  end.

Definition hexChar (d : N) : ascii :=
  if (d <? 10)%N then ascii_of_N (48 + d) else ascii_of_N (87 + d).

Fixpoint dropZeros (digits : list N) : list N :=
  match digits with
  | 0%N :: rest => dropZeros rest
  | _ => digits
  end.

(** A piece in the shortest lower-case hexadecimal form. *)
Definition hexText (piece : N) : string :=
  string_of_list_ascii
    (map hexChar
       (dropZeros [(piece / 4096) mod 16; (piece / 256) mod 16; (piece / 16) mod 16]%N
        ++ [piece mod 16]%N)).

(** The length of the run of zero pieces at the head. *)
Fixpoint zeroRun (pieces : list N) : nat :=
  match pieces with
  | 0%N :: rest => S (zeroRun rest)
  | _ => O
  end.

(** The first longest run of zero pieces that is longer than one: where
    it starts and how long it is. *)
Fixpoint longestRun (index : nat) (pieces : list N) (best : option (nat * nat))
    : option (nat * nat) :=
  match pieces with
  | [] => best
  | _ :: rest =>
      let run := zeroRun pieces in
      let longer := match best with
                    | Some (_, length) => (length <? run)%nat
                    | None => true
                    end in
      longestRun (S index) rest (if (1 <? run)%nat && longer then Some (index, run) else best)
  end.

Definition findCompress (pieces : list N) : option nat :=
  option_map fst (longestRun 0 pieces None).

Definition optNat_eqb (a : option nat) (b : nat) : bool :=
  match a with Some x => (x =? b)%nat | None => false end.

(** The loop of the IPv6 serializer from piece [index] on. *)
Fixpoint ipv6From (index : nat) (compress : option nat) (ignore0 : bool) (pieces : list N)
    : string :=
  match pieces with
  | [] => ""
  | piece :: rest =>
      if ignore0 && (piece =? 0)%N then ipv6From (S index) compress true rest
      else if optNat_eqb compress index then
        ((if (index =? 0)%nat then "::" else ":") ++ ipv6From (S index) compress true rest)%string
      else
        (hexText piece ++ (if (index =? 7)%nat then "" else ":")
         ++ ipv6From (S index) compress false rest)%string
  end.

Definition ipv6Text (pieces : list N) : string :=
  ipv6From 0 (findCompress pieces) false pieces.

(** **** The host parser *)

(** Forbidden domain code points are excluded. *)
Definition hostChar (c : ascii) : bool :=
  let n := nat_of_ascii c in
  ((33 <=? n) && (n <=? 126))%nat &&
  negb (oneOf "#/:<>?@[\]^|%" c).

(** Percent-decoding: the bytes of the text. *)
Fixpoint percentDecode (s : string) : string :=
  match s with
  | "" => ""
  | String c s' =>
      match s' with
      | String a (String b rest) =>
          if Ascii.eqb c "%" then
            match hexValue a, hexValue b with
            | Some x, Some y => String (ascii_of_N (x * 16 + y)) (percentDecode rest)
            | _, _ => String c (percentDecode s')
            end
          else String c (percentDecode s')
      | _ => String c (percentDecode s')
      end
  end.

Definition hasPunycode (domain : string) : bool :=
  existsb (fun label => Js.startsWith label "xn--") (Js.splitChar "." domain).

(** Domain-to-ASCII of an ASCII domain: lower-casing, unless a label
    announces Punycode; such a domain is kept as it is when it is valid. *)
Definition asciiDomain (I : Idna) (domain : string) : option string :=
  let lower := Js.toLowerCase domain in
  if hasPunycode lower then (if valid I lower then Some lower else None)
  else Some lower.

(** Percent-decoding and domain-to-ASCII.  What the tables return for a
    text outside ASCII is an ASCII domain, and goes the same way. *)
Definition domainToASCII (I : Idna) (text : string) : option string :=
  let decoded := percentDecode text in
  if every isAscii decoded then asciiDomain I decoded
  else match toASCII I text with
       | Some domain => asciiDomain I domain
       | None => None
       end.

Definition dropLast (s : string) : string :=
  string_of_list_ascii (removelast (list_ascii_of_string s)).

(** The host parser, for a special scheme: the serialized host. *)
Definition parseHost (I : Idna) (text : string) : option string :=
  match text with
  | "" => None
  | String "[" inner =>
      if Js.endsWith text "]" then
        option_map (fun pieces => ("[" ++ ipv6Text pieces ++ "]")%string)
          (parseIPv6 (dropLast inner))
      else None
  | _ =>
      match domainToASCII I text with
      | None => None
      | Some domain =>
          if String.eqb domain "" then None
          else if negb (every hostChar domain) then None
          else if endsInNumber domain then option_map ipv4Text (parseIPv4 domain)
          else Some domain
      end
  end.

(** [Some None]: no port or the scheme's default; [None]: failure. *)
Definition parsePort (sch digits : string) : option (option N) :=
  match digits with
  | "" => Some None
  | _ =>
      match NilEmpty.uint_of_string digits with
      | Some d =>
          let n := N.of_uint d in
          if (n <=? 65535)%N
          then Some (if optN_eqb (defaultPort sch) (Some n) then None else Some n)
          else None
      | None => None
      end
  end.

(** **** The path *)

Fixpoint mapChars (f : ascii -> ascii) (s : string) : string :=
  match s with
  | "" => ""
  | String c s' => String (f c) (mapChars f s')
  end.

Definition toSlash (c : ascii) : ascii :=
  if Ascii.eqb c "\" then "/"%char else c.

(** Dot segments, a dot being written [.] or [%2e]. *)
Definition isSingleDot (seg : string) : bool :=
  existsb (String.eqb (Js.toLowerCase seg)) ["."; "%2e"].
Definition isDoubleDot (seg : string) : bool :=
  existsb (String.eqb (Js.toLowerCase seg)) [".."; ".%2e"; "%2e."; "%2e%2e"].
Definition isDot (seg : string) : bool := isSingleDot seg || isDoubleDot seg.

(** The path state over the segments still to read; [stack] is the path
    built so far, last segment first. *)
Fixpoint resolve (stack segs : list string) : list string :=
  match segs with
  | [] => rev stack
  | seg :: rest =>
      let last := match rest with [] => true | _ => false end in
      if isDoubleDot seg then
        resolve (if last then "" :: List.tl stack else List.tl stack) rest
      else if isSingleDot seg then
        resolve (if last then "" :: stack else stack) rest
      else resolve (seg :: stack) rest
  end.

(** The path of a special URL as the path state leaves it: backslashes
    read as slashes, one leading slash skipped, dot segments resolved, the
    path set percent-encoded. *)
Definition canonPath (raw : string) : string :=
  let p := mapChars toSlash raw in
  let body := if Js.startsWith p "/" then tail p else p in
  String "/"
    (Js.join "/" (resolve [] (map (encodeWith inPathSet) (Js.splitChar "/" body)))).

(** **** The parser *)

Definition parseHttp (I : Idna) (input : string) : option URL :=
  match splitScheme (preprocess input) with
  | None => None
  | Some (sch, afterColon) =>
      let (authority, s2) := upTo (oneOf "/\?#") (dropWhile isSlash afterColon) in
      let (credentials, hostAndPort) :=
        match splitLast "@" authority with
        | Some (before, after) => (before, after)
        | None => ("", authority)
        end in
      let (user, pass) := upTo (oneOf ":") credentials in
      let (hostText, portPart) := hostEnd false hostAndPort in
      match parseHost I hostText, parsePort sch (tail portPart) with
      | Some h, Some p =>
          let (rawPath, s3) := upTo (oneOf "?#") s2 in
          let (queryPart, fragmentPart) := upTo (oneOf "#") s3 in
          Some {| scheme := sch;
                  username := encodeWith inUserinfoSet user;
                  password := encodeWith inUserinfoSet (tail pass);
                  host := Some h;
                  port := p;
                  path := canonPath rawPath;
                  opaque := false;
                  query := match queryPart with
                           | "" => None
                           | String _ q => Some (encodeWith inSpecialQuerySet q)
                           end;
                  fragment := match fragmentPart with
                              | "" => None
                              | String _ f => Some (encodeWith inFragmentSet f)
                              end |}
      | _, _ => None
      end
  end.

(** *** Setters

    A setter runs the parser on the new value from a given state; the
    parser first removes TAB, LF and CR from it. *)

(** [u.protocol = v] *)
Definition set_protocol (u : URL) (v : string) : URL :=
  let sch := Js.toLowerCase (fst (upTo (oneOf ":") v)) in
  if negb (Bool.eqb (isSpecial (scheme u)) (isSpecial sch)) then u
  else if String.eqb sch "file"
          && (includesCredentials u || match port u with Some _ => true | None => false end)
       then u
  else if String.eqb (scheme u) "file" && String.eqb (hostname u) "" then u
  else {| scheme := sch;
          username := username u;
          password := password u;
          host := host u;
          port := if optN_eqb (port u) (defaultPort sch) then None else port u;
          path := path u;
          opaque := opaque u;
          query := query u;
          fragment := fragment u |}.

(** [u.hash = v] *)
Definition set_hash (u : URL) (v : string) : URL :=
  {| scheme := scheme u; username := username u; password := password u;
     host := host u; port := port u; path := path u;
     opaque := opaque u; query := query u;
     fragment := match v with
                 | "" => None
                 | String c v' =>
                     Some (encodeWith inFragmentSet
                             (remove isTabOrNewline (if Ascii.eqb c "#" then v' else v)))
                 end |}.

(** [u.search = v] *)
Definition set_search (u : URL) (v : string) : URL :=
  {| scheme := scheme u; username := username u; password := password u;
     host := host u; port := port u; path := path u;
     opaque := opaque u;
     query := match v with
              | "" => None
              | String c v' =>
                  Some (encodeWith
                          (if isSpecial (scheme u) then inSpecialQuerySet else inQuerySet)
                          (remove isTabOrNewline (if Ascii.eqb c "?" then v' else v)))
              end;
     fragment := fragment u |}.

(** [u.pathname = v]; a URL with an opaque path ignores it. *)
Definition set_pathname (u : URL) (v : string) : URL :=
  if opaque u then u
  else {| scheme := scheme u; username := username u; password := password u;
          host := host u; port := port u;
          path := canonPath (remove isTabOrNewline v);
          opaque := false; query := query u; fragment := fragment u |}.

(** *** Parsed http(s) URLs

    What [parseHttp] produces, and what the setters keep: an http(s)
    scheme, credentials that need no encoding, a host that the host parser
    returns for its own text, a port in range that is not the scheme's
    default, a path that starts with a slash, needs no encoding and has no
    dot segment, a query and a fragment that need no encoding. *)

Definition pathChar (c : ascii) : bool := negb (inPathSet c) && negb (Ascii.eqb c "\").
Definition queryChar (c : ascii) : bool := negb (inSpecialQuerySet c).
Definition fragmentChar (c : ascii) : bool := negb (inFragmentSet c).
Definition userinfoChar (c : ascii) : bool := negb (inUserinfoSet c).

Definition pathOk (p : string) : bool :=
  Js.startsWith p "/" && every pathChar p
  && forallb (fun seg => negb (isDot seg)) (Js.splitChar "/" (tail p)).

Definition wellFormed (I : Idna) (u : URL) : Prop :=
  (scheme u = "http" \/ scheme u = "https")
  /\ every userinfoChar (username u) = true
  /\ every userinfoChar (password u) = true
  /\ (exists h, host u = Some h /\ parseHost I h = Some h)
  /\ match port u with
     | Some n => (n <=? 65535)%N = true /\ optN_eqb (defaultPort (scheme u)) (Some n) = false
     | None => True
     end
  /\ pathOk (path u) = true
  /\ opaque u = false
  /\ match query u with
     | Some q => every queryChar q = true
     | None => True
     end
  /\ match fragment u with
     | Some f => every fragmentChar f = true
     | None => True
     end.

End Url.

(** ** The crawl handler ([POST] of the sitemap crawl route) *)

Module Crawl.
Import Js.
Local Open Scope string_scope.

Definition MAX_DEPTH : JsNumber := Fin 4.
Definition MAX_PAGES : nat := 120.
Definition MAX_DOCUMENT_BYTES : N := (2 * 1024 * 1024)%N.

Definition STATIC_EXTENSIONS : list string :=
  [".jpg"; ".jpeg"; ".png"; ".gif"; ".svg"; ".webp"; ".ico"; ".css"; ".js";
   ".pdf"; ".zip"; ".mp4"; ".mp3"; ".woff"; ".woff2"; ".ttf"; ".otf"].

Definition BLOCKED_SEGMENTS : list Regex.regex :=
  let words ws := Regex.Group 1 (Regex.alt (map Regex.textCi ws)) in
  [ Regex.cat [Regex.lit "/";
               words ["login"; "logout"; "signin"; "signup"; "register"; "auth"];
               Regex.WordBoundary];
    Regex.cat [Regex.lit "/"; words ["admin"; "dashboard"]; Regex.WordBoundary];
    Regex.cat [Regex.lit "/"; words ["account"; "profile"]; Regex.WordBoundary];
    Regex.cat [Regex.lit "/"; words ["cart"; "checkout"]; Regex.WordBoundary];
    Regex.cat [Regex.lit "/"; words ["search"; "filter"; "track"; "query"]] ].

Inductive PageType : Type := homepage | article | product | docs | category.

Record PageEntry : Type := {
  url : string;
  ai_url : string;
  type : PageType;
  priority : Q
}.

Record QueueItem : Type := {
  item_url : string;
  depth : nat
}.

(** What the handler reads of a parsed HTML document. *)
Record Document : Type := {
  canonicalHref : option string;   (* href of the first link[rel='canonical'] *)
  anchors : list string;           (* href of every a[href], in document order *)
  ogType : option string;          (* content of meta[property='og:type'] *)
  publishedTime : bool             (* a meta[property='article:published_time'] exists *)
}.

(** A response body: reading it may reject; otherwise its size in bytes,
    its text and the document the HTML parser makes of it. *)
Inductive Body : Type :=
| BodyError (message : string)
| BodyOf (byteLength : N) (text : string) (document : Document).

Record Response : Type := {
  ok : bool;
  status : N;
  contentType : option string;     (* the content-type header *)
  responseUrl : string;            (* response.url, after redirects *)
  body : Body
}.

(** Everything outside the handler: the network, and the runtime's
    conversions that are not modelled. *)
Record World : Type := {
  fetch : string -> option Response;             (* [None]: the promise rejects *)
  StringToNumber : string -> JsNumber;           (* [Number] on a string *)
  idna : Url.Idna;                                (* the Unicode tables of the host parser *)
  parseOther : string -> option string -> option Url.URL
    (* [new URL(input, base)] for inputs that are not absolute http(s) *)
}.

Record FetchResult : Type := {
  finalUrl : string;
  canonical : option string;
  document : Document;
  links : list string
}.

Definition RobotsChecker : Type := string -> bool.

(** [Number(v)] *)
Definition Number (W : World) (v : JsValue) : JsNumber :=
  match v with
  | JUndefined => NaN
  | JNull => Fin 0
  | JBool true => Fin 1
  | JBool false => Fin 0
  | JNum n => n
  | JStr s => StringToNumber W s
  | JObject p => StringToNumber W p
  end.

Definition clamp (value min max : JsNumber) : JsNumber :=
  if Number_isNaN value then min
  else Math_min (Math_max value min) max.

(** [new URL(input, base)]; [None] is the [TypeError] it throws. *)
Definition isHttpAbsolute (input : string) : bool :=
  match Url.splitScheme (Url.preprocess input) with
  | Some (_, String a (String b _)) => Url.isSlash a && Url.isSlash b
  | _ => false
  end.

Definition URL_new (W : World) (input : string) (base : option string) : option Url.URL :=
  if isHttpAbsolute input then Url.parseHttp (idna W) input else parseOther W input base.

Definition newURL (W : World) (input : string) : Result Url.URL :=
  match URL_new W input None with
  | Some u => Ok u
  | None => Throw "Invalid URL"
  end.

(** [/^https?:\/\//i] *)
Definition protocolPattern : Regex.regex :=
  Regex.cat [Regex.InputStart; Regex.textCi "http";
             Regex.Repeat true 0 (Some 1) (Regex.litCi "s"); Regex.text "://"].

(** [/\/+$/] *)
Definition trailingSlashes : Regex.regex :=
  Regex.Cat (Regex.plus (Regex.lit "/")) Regex.InputEnd.

Definition normalizeUrl (W : World) (input : string) (base : option string) : Result string :=
  let hasProtocol := Regex.test protocolPattern input in
  let parsed :=
    if hasProtocol then URL_new W input None
    else match base with
         | Some (String _ _ as b) => URL_new W input (Some b)
         | _ => URL_new W ("https://" ++ input) None
         end in
  match parsed with
  | None => Throw ("Unable to normalize URL: " ++ input)
  | Some target =>
      let target := Url.set_protocol target "https:" in
      let target := Url.set_hash target "" in
      let target := Url.set_search target "" in
      let target :=
        if negb (String.eqb (Url.pathname target) "/") then
          let target :=
            Url.set_pathname target
              (Regex.replace trailingSlashes (fun _ => "") (Url.pathname target)) in
          if String.eqb (Url.pathname target) "" then Url.set_pathname target "/"
          else target
        else target in
      Ok (Url.toString target)
  end.

(** [/^www\./i] *)
Definition wwwPrefix : Regex.regex :=
  Regex.cat [Regex.InputStart; Regex.textCi "www"; Regex.lit "."].

Definition hostKey (value : string) : string :=
  toLowerCase (Regex.replace wwwPrefix (fun _ => "") value).

Definition isSameHost (root candidate : Url.URL) : bool :=
  String.eqb (hostKey (Url.hostname root)) (hostKey (Url.hostname candidate)).

Definition isBlockedPath (u : Url.URL) : bool :=
  let path := toLowerCase (Url.pathname u) in
  if existsb (fun ext => endsWith path ext) STATIC_EXTENSIONS then true
  else existsb (fun pattern => Regex.test pattern path) BLOCKED_SEGMENTS.

Definition contains (needles : list string) (path : string) : bool :=
  Regex.test (Regex.alt (map Regex.text needles)) path.

Definition inferType (u : Url.URL) (d : Document) : PageType :=
  let path := toLowerCase (Url.pathname u) in
  let og := option_map toLowerCase (ogType d) in
  let ogIs t := match og with Some o => String.eqb o t | None => false end in
  if String.eqb path "/" then homepage
  else if ogIs "product" || contains ["/product"; "/pricing"] path then product
  else if ogIs "article" || publishedTime d then article
  else if contains ["/blog"; "/news"] path then article
  else if contains ["/docs"; "/documentation"; "/guide"] path then docs
  else if contains ["/category"; "/collections"; "/topics"] path then category
  else category.

Definition priorityForType (t : PageType) : Q :=
  match t with
  | homepage => 1
  | product | docs => 8 # 10
  | article => 6 # 10
  | category => 5 # 10
  end.

Definition buildAiUrl (u : Url.URL) (domain : string) : string :=
  let path := if String.eqb (Url.pathname u) "/" then "/" else Url.pathname u in
  "https://ai." ++ domain ++ path.

(** *** Fetching one page *)

Definition collectCanonical (d : Document) : option string :=
  option_map trim (canonicalHref d).

Definition extractLinks (d : Document) : list string :=
  List.filter
    (fun href =>
       if String.eqb href "" || startsWith href "#" then false
       else if startsWith href "mailto:" || startsWith href "tel:" then false
       else if startsWith (toLowerCase href) "javascript:" then false
       else true)
    (map trim (anchors d)).

Definition fetchPage (W : World) (target : string) : Result (option FetchResult) :=
  match fetch W target with
  | None => Ok None
  | Some response =>
      if negb (ok response) then Ok None
      else
        let contentType := match contentType response with Some h => h | None => "" end in
        if negb (includes contentType "text/html") then Ok None
        else
          match body response with
          | BodyError message => Throw message
          | BodyOf byteLength _ document =>
              if (byteLength =? 0)%N || (MAX_DOCUMENT_BYTES <? byteLength)%N then Ok None
              else
                Ok (Some {| finalUrl := if String.eqb (responseUrl response) ""
                                        then target else responseUrl response;
                            canonical := collectCanonical document;
                            document := document;
                            links := extractLinks document |})
          end
  end.

(** *** robots.txt *)

Definition defaultRobots : RobotsChecker := fun _ => true.

Definition matchesRule (path rule : string) : bool :=
  match rule with
  | "" => false
  | _ =>
      let normalizedRule := if startsWith rule "/" then rule else "/" ++ rule in
      if String.eqb normalizedRule "/" then true
      else if includes normalizedRule "*" then
        let escaped := map Regex.text (splitChar "*" normalizedRule) in
        let joined :=
          fold_right
            (fun seg acc =>
               match acc with
               | None => Some seg
               | Some r => Some (Regex.Cat seg (Regex.Cat (Regex.star Regex.dot) r))
               end) None escaped in
        match joined with
        | Some r => Regex.test (Regex.Cat Regex.InputStart r) path
        | None => false
        end
      else startsWith path normalizedRule
  end.

Definition matchesAny (path : string) (rules : list string) : bool :=
  existsb (fun rule => matchesRule path rule) rules.

Record RobotsRules : Type := {
  disallow : list string;
  allow : list string;
  applies : bool
}.

Definition robotsLine (acc : RobotsRules) (raw : string) : RobotsRules :=
  let line := trim raw in
  if String.eqb line "" || startsWith line "#" then acc
  else
    let parts := splitChar ":" line in
    let directive := nth 0 parts "" in
    let value := nth 1 parts "" in
    let key := toLowerCase (trim directive) in
    let val := trim value in
    if String.eqb key "user-agent" then
      {| disallow := disallow acc; allow := allow acc; applies := String.eqb val "*" |}
    else if negb (applies acc) then acc
    else
      let nonEmpty := negb (String.eqb val "") in
      {| disallow := if String.eqb key "disallow" && nonEmpty
                     then (disallow acc ++ [val])%list else disallow acc;
         allow := if String.eqb key "allow" && nonEmpty
                  then (allow acc ++ [val])%list else allow acc;
         applies := applies acc |}.

Definition parseRobots (contents : string) : RobotsChecker :=
  let lines :=
    Regex.split (Regex.Cat (Regex.Repeat true 0 (Some 1) (Regex.lit CR)) (Regex.lit LF))
      contents in
  let rules := fold_left robotsLine lines {| disallow := []; allow := []; applies := false |} in
  fun path =>
    let normalized := if String.eqb path "" then "/" else path in
    if matchesAny normalized (allow rules) then true
    else match disallow rules with
         | [] => true
         | _ => negb (matchesAny normalized (disallow rules))
         end.

Definition origin (u : Url.URL) : string :=
  Url.href (Url.mkURL (Url.scheme u) "" "" (Url.host u) (Url.port u) "" false None None).

(** [loadRobots(root).catch(() => defaultRobots())] *)
Definition loadRobots (W : World) (root : Url.URL) : RobotsChecker :=
  match fetch W (origin root ++ "/robots.txt") with
  | None => defaultRobots
  | Some response =>
      if negb (ok response) then defaultRobots
      else match body response with
           | BodyError _ => defaultRobots
           | BodyOf _ text _ => parseRobots text
           end
  end.

(** *** The frontier loop *)

(** What happened so far, for the statements about what is "ever"
    enqueued, fetched or resolved.  The log is bookkeeping of the model:
    nothing in the handler reads it. *)
Inductive Event : Type :=
| Enqueued (item : QueueItem)
| Fetched (item : QueueItem) (target : string)
| Resolved (dequeued canonicalUrl : string).

Record CrawlState : Type := {
  queue : list QueueItem;
  visited : gset string;
  recorded : gset string;
  pages : list PageEntry;
  log : list Event
}.

(** The locals of [POST] the loop only reads. *)
Record Config : Type := {
  root : Url.URL;
  depthLimit : JsNumber;
  siteDomain : string;
  robots : RobotsChecker
}.

Definition setQueue (q : list QueueItem) (s : CrawlState) : CrawlState :=
  {| queue := q; visited := visited s; recorded := recorded s;
     pages := pages s; log := log s |}.

Definition addVisited (u : string) (s : CrawlState) : CrawlState :=
  {| queue := queue s; visited := {[ u ]} ∪ visited s; recorded := recorded s;
     pages := pages s; log := log s |}.

Definition record (p : PageEntry) (s : CrawlState) : CrawlState :=
  {| queue := queue s; visited := visited s; recorded := {[ url p ]} ∪ recorded s;
     pages := (pages s ++ [p])%list; log := log s |}.

Definition enqueue (items : list QueueItem) (s : CrawlState) : CrawlState :=
  {| queue := (queue s ++ items)%list; visited := visited s; recorded := recorded s;
     pages := pages s; log := (log s ++ map Enqueued items)%list |}.

Definition note (e : Event) (s : CrawlState) : CrawlState :=
  {| queue := queue s; visited := visited s; recorded := recorded s;
     pages := pages s; log := (log s ++ [e])%list |}.

(** One [href] of the page in the [for] loop: the queue item it pushes,
    or [None] when a [continue] or the [catch] drops it. *)
Definition discover (W : World) (cfg : Config) (seen : gset string)
    (canonical : Url.URL) (current : QueueItem) (href : string) : option QueueItem :=
  match normalizeUrl W href (Some (Url.href canonical)) with
  | Throw _ => None
  | Ok normalizedLink =>
      match URL_new W normalizedLink None with
      | None => None
      | Some linkUrl =>
          if negb (isSameHost (root cfg) linkUrl) then None
          else if isBlockedPath linkUrl then None
          else if negb (robots cfg (Url.pathname linkUrl)) then None
          else if bool_decide (normalizedLink ∈ seen) then None
          else Some {| item_url := normalizedLink; depth := depth current + 1 |}
      end
  end.

(** The body of the [while] loop for the dequeued item [current]; every
    [continue] returns the state reached so far. *)
Definition iteration (W : World) (cfg : Config) (s : CrawlState) (current : QueueItem)
    : Result CrawlState :=
  try! normalizedCurrent := normalizeUrl W (item_url current) None in
  if bool_decide (normalizedCurrent ∈ visited s) then Ok s
  else
    let s := addVisited normalizedCurrent s in
    try! currentUrl := newURL W normalizedCurrent in
    if negb (isSameHost (root cfg) currentUrl) then Ok s
    else if negb (robots cfg (Url.pathname currentUrl)) then Ok s
    else if isBlockedPath currentUrl then Ok s
    else
      let s := note (Fetched current normalizedCurrent) s in
      try! fetched := fetchPage W normalizedCurrent in
      match fetched with
      | None => Ok s
      | Some page =>
          try! canonicalUrl :=
            normalizeUrl W
              (match canonical page with Some c => c | None => finalUrl page end) None in
          try! canonical := newURL W canonicalUrl in
          let s := note (Resolved normalizedCurrent canonicalUrl) s in
          if negb (isSameHost (root cfg) canonical) then Ok s
          else if isBlockedPath canonical || negb (robots cfg (Url.pathname canonical))
          then Ok s
          else
            let s :=
              if bool_decide (canonicalUrl ∈ recorded s) then s
              else
                let pageType := inferType canonical (document page) in
                record {| url := canonicalUrl;
                          ai_url := buildAiUrl canonical (siteDomain cfg);
                          type := pageType;
                          priority := priorityForType pageType |} s in
            let s :=
              if ltb (ofNat (depth current)) (depthLimit cfg) then
                enqueue (omap (discover W cfg (visited s) canonical current) (links page)) s
              else s in
            Ok s
      end.

Inductive Step : Type :=
| Done                         (* the loop condition is false *)
| Next (s : CrawlState)
| Raised (message : string).   (* the body threw *)

(** [while (queue.length && pages.length < MAX_PAGES)], one turn. *)
Definition step (W : World) (cfg : Config) (s : CrawlState) : Step :=
  match queue s with
  | [] => Done
  | current :: remaining =>
      if (List.length (pages s) <? MAX_PAGES)%nat then
        match iteration W cfg (setQueue remaining s) current with
        | Ok s' => Next s'
        | Throw message => Raised message
        end
      else Done
  end.

Inductive Outcome : Type :=
| Finished (s : CrawlState)
| Failed (message : string)
| Running (s : CrawlState).    (* still looping after [fuel] turns *)

Fixpoint loop (W : World) (cfg : Config) (fuel : nat) (s : CrawlState) : Outcome :=
  match fuel with
  | O => Running s
  | S fuel' =>
      match step W cfg s with
      | Done => Finished s
      | Raised message => Failed message
      | Next s' => loop W cfg fuel' s'
      end
  end.

(** *** The handler *)

Record Payload : Type := {
  p_url : JsValue;
  p_maxDepth : JsValue;
  p_format : JsValue
}.

(** The response: the error body with its status, or the crawl result
    (its [xml], [markdown] and [markdownEntries] renderings are functions
    of [site] and [pages] and are not modelled). *)
Inductive HttpResponse : Type :=
| ErrorJson (status : N) (error : string)
| Sitemap (format site : string) (pages : list PageEntry).

Definition inputUrlOf (payload : Payload) : string :=
  match p_url payload with
  | JStr s => trim s
  | _ => ""
  end.

Definition depthSetting (W : World) (payload : Payload) : JsNumber :=
  Number W (nullish (p_maxDepth payload) (JNum (Fin 3))).

Definition depthLimitOf (W : World) (payload : Payload) : JsNumber :=
  clamp (depthSetting W payload) (Fin 1) MAX_DEPTH.

Definition formatOf (payload : Payload) : string :=
  match p_format payload with
  | JStr s => toLowerCase s
  | _ => "json"
  end.

Definition configOf (W : World) (payload : Payload) (root : Url.URL) : Config :=
  {| root := root;
     depthLimit := depthLimitOf W payload;
     siteDomain := Regex.replace wwwPrefix (fun _ => "") (Url.hostname root);
     robots := loadRobots W root |}.

Definition initial (normalizedRoot : string) : CrawlState :=
  let first := {| item_url := normalizedRoot; depth := 0 |} in
  {| queue := [first]; visited := ∅; recorded := ∅; pages := [];
     log := [Enqueued first] |}.

(** [POST(request)]; [None] only when the loop is still running after
    [fuel] turns. *)
Definition POST (W : World) (fuel : nat) (payload : Payload) : option HttpResponse :=
  let inputUrl := inputUrlOf payload in
  if String.eqb inputUrl "" then Some (ErrorJson 400 "Provide a root URL to crawl.")
  else
    match normalizeUrl W inputUrl None with
    | Throw message => Some (ErrorJson 400 message)
    | Ok normalizedRoot =>
        match newURL W normalizedRoot with
        | Throw message => Some (ErrorJson 400 message)
        | Ok root =>
            let cfg := configOf W payload root in
            match loop W cfg fuel (initial normalizedRoot) with
            | Running _ => None
            | Failed message => Some (ErrorJson 400 message)
            | Finished s => Some (Sitemap (formatOf payload) (siteDomain cfg) (pages s))
            end
        end
    end.

(** *** What the statements about a crawl speak of *)

(** The states the loop passes through, from [s0] on. *)
Inductive reachable (W : World) (cfg : Config) (s0 : CrawlState) : CrawlState -> Prop :=
| reach_start : reachable W cfg s0 s0
| reach_next (s s' : CrawlState) :
    reachable W cfg s0 s -> step W cfg s = Next s' -> reachable W cfg s0 s'.

(** The gates a canonical passes before it is recorded: same host as
    the root, path not blocked, robots allow. *)
Definition admits (W : World) (cfg : Config) (canonicalUrl : string) : bool :=
  match URL_new W canonicalUrl None with
  | Some canonical =>
      isSameHost (root cfg) canonical
      && negb (isBlockedPath canonical || negb (robots cfg (Url.pathname canonical)))
  | None => false
  end.

(** The records of [pages] whose [url] is [canonicalUrl]. *)
Definition recordsFor (canonicalUrl : string) (ps : list PageEntry) : list PageEntry :=
  List.filter (fun p => String.eqb (url p) canonicalUrl) ps.


(** The state the loop is in after [fuel] turns, or where it stopped. *)
Definition stateAfter (W : World) (cfg : Config) (fuel : nat) (s0 : CrawlState)
    : CrawlState :=
  match loop W cfg fuel s0 with
  | Finished s | Running s => s
  | Failed _ => s0
  end.

End Crawl.

(** ** Single-page extraction, library version ([lib/extractor])

    What decides success or failure is modelled; the article content that
    Readability and Turndown produce from a page that was fetched is not. *)

Module Extractor.
Import Js.
Local Open Scope string_scope.

Definition MAX_DOCUMENT_BYTES : N := (3 * 1024 * 1024)%N.

(** What a call can throw: an [ExtractionError] with its status, or
    another error (a rejected body read). *)
Inductive Outcome (A : Type) : Type :=
| Return (a : A)
| ThrowExtractionError (message : string) (status : N)
| ThrowError (message : string).
Arguments Return {A} a.
Arguments ThrowExtractionError {A} message status.
Arguments ThrowError {A} message.

(** Conservative normalization: the query is kept, the fragment dropped. *)
Definition normalizeUrl (W : Crawl.World) (input : string) : Outcome string :=
  let hasProtocol := Regex.test Crawl.protocolPattern input in
  match Crawl.URL_new W (if hasProtocol then input else "https://" ++ input) None with
  | None =>
      ThrowExtractionError
        "Unable to parse the provided URL. Use a valid http(s) address." 400
  | Some u =>
      if negb (existsb (String.eqb (Url.protocol u)) ["http:"; "https:"]) then
        ThrowExtractionError "Only HTTP(S) URLs are supported." 400
      else Return (Url.toString (Url.set_hash u ""))
  end.

Definition statusText (n : N) : string := Url.portText n.

Definition fetchHtml (W : Crawl.World) (targetUrl : string)
    : Outcome (Crawl.Document * string) :=
  match Crawl.fetch W targetUrl with
  | None => ThrowExtractionError "Unable to reach source URL." 502
  | Some response =>
      if negb (Crawl.ok response) then
        let status := if (500 <=? Crawl.status response)%N then 502%N else 400%N in
        ThrowExtractionError
          ("Source responded with status " ++ statusText (Crawl.status response) ++ ".")
          status
      else
        let contentType :=
          match Crawl.contentType response with Some h => h | None => "" end in
        if negb (includes contentType "text/html") then
          ThrowExtractionError "Source did not return HTML content." 400
        else
          match Crawl.body response with
          | Crawl.BodyError message => ThrowError message
          | Crawl.BodyOf byteLength _ document =>
              if (byteLength =? 0)%N then
                ThrowExtractionError "Fetched document was empty." 400
              else if (MAX_DOCUMENT_BYTES <? byteLength)%N then
                ThrowExtractionError "HTML payload exceeds the 3 MB safety limit." 400
              else
                Return (document,
                        if String.eqb (Crawl.responseUrl response) "" then targetUrl
                        else Crawl.responseUrl response)
          end
  end.

(** [extractStructuredContent(inputUrl)], up to the fetched document and
    its final URL. *)
Definition extractStructuredContent (W : Crawl.World) (inputUrl : string)
    : Outcome (Crawl.Document * string) :=
  match normalizeUrl W inputUrl with
  | Return normalizedUrl => fetchHtml W normalizedUrl
  | ThrowExtractionError m s => ThrowExtractionError m s
  | ThrowError m => ThrowError m
  end.

(** The status the error carries ([error.status]), if the call failed
    with an [ExtractionError]. *)
Definition errorStatus {A} (o : Outcome A) : option N :=
  match o with
  | ThrowExtractionError _ status => Some status
  | _ => None
  end.

End Extractor.

(** ** Single-page extraction, the route's own version
    ([src/app/api/extract/route.ts]) *)

Module ExtractRoute.
Import Js.
Local Open Scope string_scope.

(** [extractStructuredContent(url)] of the route file: no URL
    normalization, no content-type or size check. *)
Definition extractStructuredContent (W : Crawl.World) (target : string)
    : Extractor.Outcome Crawl.Document :=
  match Crawl.fetch W target with
  | None => Extractor.ThrowExtractionError "Unable to fetch URL." 502
  | Some response =>
      if negb (Crawl.ok response) then
        Extractor.ThrowExtractionError
          ("Upstream error: " ++ Extractor.statusText (Crawl.status response)) 502
      else
        match Crawl.body response with
        | Crawl.BodyError message => Extractor.ThrowError message
        | Crawl.BodyOf _ _ document => Extractor.Return document
        end
  end.

(** The response of [POST]: its status, and for an error its message. *)
Inductive HttpResponse : Type :=
| Mdf (document : Crawl.Document)             (* 200, the formatted page *)
| ErrorJson (status : N) (error : string).

Definition POST (W : Crawl.World) (payloadUrl : JsValue) : HttpResponse :=
  let inputUrl := match payloadUrl with JStr s => trim s | _ => "" end in
  if String.eqb inputUrl "" then ErrorJson 400 "Provide a valid URL in the request body."
  else
    match extractStructuredContent W inputUrl with
    | Extractor.Return document => Mdf document
    | Extractor.ThrowExtractionError message status => ErrorJson status message
    | Extractor.ThrowError message => ErrorJson 502 message
    end.

End ExtractRoute.

(** ** The Markdown sanitizer ([sanitizeMarkdown]) *)

Module Sanitizer.
Import Js.
Local Open Scope string_scope.

Definition noisePhrases : list string :=
  [ "Please Wait";
    "Why not use this time to clean your screen";
    "Rome wasn't built in a day";
    "Look at the pink disk closely";
    "Don't rush it";
    "We'd let you in now";
    "Drag and drop" ].

Definition erase : list (nat * string) -> string := fun _ => "".

(** [new RegExp(`.*${phrase}.*`, 'i')]: no [g] flag. *)
Definition noiseLine (phrase : string) : Regex.regex :=
  Regex.cat [Regex.star Regex.dot; Regex.textCi phrase; Regex.star Regex.dot].

(** Pass 1 *)
Definition removeNoise (clean : string) : string :=
  fold_left (fun clean phrase => Regex.replace (noiseLine phrase) erase clean)
    noisePhrases clean.

(** Pass 2, [/-{20,}/g] *)
Definition dashRun : Regex.regex := Regex.atLeast 20 (Regex.lit "-").
Definition removeDashes (clean : string) : string :=
  Regex.replaceAll dashRun erase clean.

(** Pass 3, [/explore more\s*-/gi] *)
Definition exploreMore : Regex.regex :=
  Regex.cat [Regex.textCi "explore more"; Regex.star Regex.space; Regex.lit "-"].
Definition removeFooter (clean : string) : string :=
  Regex.replaceAll exploreMore erase clean.

Definition sectionLabels : list string :=
  [ "What You'll Do"; "Requirements"; "Benefits"; "Location"; "Key Responsibility";
    "What You'll Be Doing"; "Skills & Personal Qualities"; "Job Description"; "Notes" ].

Definition h3 (cs : list (nat * string)) : string := "### " ++ Regex.capture 1 cs.

(** Pass 4, list items that are section headers *)
Definition listItemHeader : Regex.regex :=
  Regex.cat [ Regex.LineStart; Regex.star Regex.space; Regex.lit "-"; Regex.star Regex.space;
              Regex.Group 1
                (Regex.cat [ Regex.plus Regex.digit; Regex.lit "."; Regex.plus Regex.space;
                             Regex.alt (map Regex.text sectionLabels) ]) ].
Definition promoteListHeaders (clean : string) : string :=
  Regex.replaceAll listItemHeader h3 clean.

(** Pass 5, [/^(?![-\d])([A-Z][a-zA-Z0-9\s&/\\\(\)\-\.\,]{4,70})$/gm] *)
Definition titleChar (c : ascii) : bool :=
  isLower c || isUpper c || isDigit c || isWhiteSpace c || Url.oneOf "&/\()-.," c.
Definition titleLine : Regex.regex :=
  Regex.cat [ Regex.LineStart;
              Regex.NotAhead (Regex.Char (fun c => Ascii.eqb c "-" || isDigit c));
              Regex.Group 1
                (Regex.Cat (Regex.Char isUpper) (Regex.between 4 70 (Regex.Char titleChar)));
              Regex.LineEnd ].
Definition promoteTitles (clean : string) : string :=
  Regex.replaceAll titleLine h3 clean.

(** Pass 6, paragraph separation *)
Definition paragraphBreak (cs : list (nat * string)) : string :=
  Regex.capture 1 cs ++ nl ++ nl ++ Regex.capture 2 cs.
Definition lowerThenUpper : Regex.regex :=
  Regex.cat [ Regex.Group 1 (Regex.Char (fun c => isLower c || isDigit c));
              Regex.lit LF; Regex.Group 2 (Regex.Char isUpper) ].
Definition sentenceThenUpper : Regex.regex :=
  Regex.cat [ Regex.Group 1 (Regex.Char (Url.oneOf ".!?"));
              Regex.star Regex.space; Regex.lit LF; Regex.star Regex.space;
              Regex.Group 2 (Regex.Char isUpper) ].
Definition separateParagraphs (clean : string) : string :=
  Regex.replaceAll sentenceThenUpper paragraphBreak
    (Regex.replaceAll lowerThenUpper paragraphBreak clean).

(** Pass 7, [/\n{3,}/g] *)
Definition blankLines : Regex.regex := Regex.atLeast 3 (Regex.lit LF).
Definition collapseBlankLines (clean : string) : string :=
  Regex.replaceAll blankLines (fun _ => nl ++ nl) clean.

Definition sanitizeMarkdown (text : string) : string :=
  let clean := text in
  let clean := removeNoise clean in
  let clean := removeDashes clean in
  let clean := removeFooter clean in
  let clean := promoteListHeaders clean in
  let clean := promoteTitles clean in
  let clean := separateParagraphs clean in
  let clean := collapseBlankLines clean in
  trim clean.

End Sanitizer.

(** ** The Structure Analyzer ([analyzeMarkdownStructure]) *)

Module Analyzer.
Import Js.
Local Open Scope string_scope.

Record MDFSections : Type := {
  hasTitle : bool;
  hasUrl : bool;
  hasContent : bool;
  hasMetadata : bool;
  hasFrontmatter : bool
}.

Record ContentMetrics : Type := {
  wordCount : nat;
  paragraphCount : nat;
  headingCount : nat;
  listCount : nat;
  codeBlockCount : nat;
  linkCount : nat
}.

Inductive Severity : Type := error | warning | info.

Record ValidationWarning : Type := {
  severity : Severity;
  message : string;
  section : string
}.

Inductive Grade : Type := Excellent | Good | Fair | Poor.

Record HealthScore : Type := {
  score : Z;
  grade : Grade;
  color : string;
  description : string
}.

Record Readability : Type := {
  r_score : Z;
  issues : list string;
  strengths : list string
}.

Record HeadingInfo : Type := {
  level : nat;
  text : string;
  line : nat
}.

Record StructureAnalysis : Type := {
  sections : MDFSections;
  metrics : ContentMetrics;
  headings : list HeadingInfo;
  warnings : list ValidationWarning;
  health : HealthScore;
  aiReadability : Readability
}.

(** The patterns of the analyzer. *)
Definition fence : string := "```".
Definition frontmatterBlock : Regex.regex :=                 (* /^---[\s\S]*?---/ *)
  Regex.cat [Regex.InputStart; Regex.text "---"; Regex.lazyStar Regex.anyChar;
             Regex.text "---"].
Definition h1Line : Regex.regex :=                           (* /^#\s+.+/m *)
  Regex.cat [Regex.LineStart; Regex.lit "#"; Regex.plus Regex.space; Regex.plus Regex.dot].
Definition h2Named (name : string) : Regex.regex :=          (* /##\s*name/i *)
  Regex.cat [Regex.text "##"; Regex.star Regex.space; Regex.textCi name].
Definition sourceLine : Regex.regex :=                       (* /source:\s*https?:\/\//i *)
  Regex.cat [Regex.textCi "source:"; Regex.star Regex.space; Regex.textCi "http";
             Regex.Repeat true 0 (Some 1) (Regex.litCi "s"); Regex.text "://"].
Definition metadataWords : Regex.regex :=        (* /author:|published|updated|language:/i *)
  Regex.alt (map Regex.textCi ["author:"; "published"; "updated"; "language:"]).
Definition wordToken : Regex.regex :=                        (* /\b\w+\b/g *)
  Regex.cat [Regex.WordBoundary; Regex.plus Regex.word; Regex.WordBoundary].
Definition blankLineRun : Regex.regex :=                     (* /\n\n+/ *)
  Regex.Cat (Regex.lit LF) (Regex.plus (Regex.lit LF)).
Definition headingLine : Regex.regex :=                      (* /^#{1,6}\s+.+$/gm *)
  Regex.cat [Regex.LineStart; Regex.between 1 6 (Regex.lit "#"); Regex.plus Regex.space;
             Regex.plus Regex.dot; Regex.LineEnd].
Definition listLine : Regex.regex :=                         (* /^[\s]*[-*+]\s+.+$/gm *)
  Regex.cat [Regex.LineStart; Regex.star Regex.space; Regex.Char (Url.oneOf "-*+");
             Regex.plus Regex.space; Regex.plus Regex.dot; Regex.LineEnd].
Definition codeBlock : Regex.regex :=                        (* /```[\s\S]*?```/g *)
  Regex.cat [Regex.text fence; Regex.lazyStar Regex.anyChar; Regex.text fence].
Definition inlineLink : Regex.regex :=                       (* /\[.+?\]\(.+?\)/g *)
  Regex.cat [Regex.lit "["; Regex.lazyPlus Regex.dot; Regex.text "]("; Regex.lazyPlus Regex.dot;
             Regex.lit ")"].
Definition uiNoise : Regex.regex :=
  Regex.alt (map Regex.textCi
               ["skip to content"; "accept cookies"; "gdpr"; "subscribe now"]).

Definition nonEmpty (s : string) : bool := negb (String.eqb s "").

Definition extractSections (markdown : string) : MDFSections :=
  let lines := toLowerCase markdown in
  {| hasFrontmatter := Regex.test frontmatterBlock markdown;
     hasTitle := Regex.test h1Line markdown;
     hasUrl := Regex.test (h2Named "url") lines || Regex.test sourceLine lines;
     hasContent :=
       Regex.test (h2Named "content") lines ||
       (5 <? List.length (List.filter (fun l => nonEmpty (trim l)) (splitChar LF markdown)))%nat;
     hasMetadata := Regex.test (h2Named "metadata") lines || Regex.test metadataWords lines |}.

Definition calculateMetrics (markdown : string) : ContentMetrics :=
  let words := Regex.matchAll wordToken markdown in
  let paragraphs :=
    List.filter
      (fun p =>
         let trimmed := trim p in
         nonEmpty trimmed && negb (startsWith trimmed "#") && negb (startsWith trimmed "-"))
      (Regex.split blankLineRun markdown) in
  {| wordCount := List.length words;
     paragraphCount := List.length paragraphs;
     headingCount := List.length (Regex.matchAll headingLine markdown);
     listCount := List.length (Regex.matchAll listLine markdown);
     codeBlockCount := List.length (Regex.matchAll codeBlock markdown);
     linkCount := List.length (Regex.matchAll inlineLink markdown) |}.

(** [/^(#{1,6})\s+(.+)$/] on one line *)
Definition headingOfLine : Regex.regex :=
  Regex.cat [Regex.InputStart; Regex.Group 1 (Regex.between 1 6 (Regex.lit "#"));
             Regex.plus Regex.space; Regex.Group 2 (Regex.plus Regex.dot); Regex.InputEnd].

(** [lines.forEach((line, index) => ...)] from [index] on. *)
Fixpoint headingsFrom (index : nat) (lines : list string) : list HeadingInfo :=
  match lines with
  | [] => []
  | l :: rest =>
      (match Regex.find headingOfLine None l with
       | Some (_, c) =>
           [{| level := String.length (Regex.capture 1 (Regex.caps c));
               text := trim (Regex.capture 2 (Regex.caps c));
               line := index + 1 |}]
       | None => []
       end ++ headingsFrom (S index) rest)%list
  end.

Definition extractHeadings (markdown : string) : list HeadingInfo :=
  headingsFrom 0 (splitChar LF markdown).

Definition when (b : bool) (w : ValidationWarning) : list ValidationWarning :=
  if b then [w] else [].

Definition validateStructure (markdown : string) (sections : MDFSections)
    (metrics : ContentMetrics) : list ValidationWarning :=
  let paragraphs := Regex.split blankLineRun markdown in
  let longParagraphs :=
    List.filter (fun p => (200 <? List.length (Regex.matchAll wordToken p))%nat) paragraphs in
  (when (negb (hasTitle sections))
     {| severity := error; message := "Missing main title (H1 heading)";
        section := "Title" |} ++
   when (negb (hasContent sections) && (paragraphCount metrics <? 3)%nat)
     {| severity := error; message := "Insufficient content - AI needs more context";
        section := "Content" |} ++
   when (negb (hasUrl sections) && negb (hasFrontmatter sections))
     {| severity := warning; message := "Missing source URL - AI can't verify origin";
        section := "URL" |} ++
   when (negb (hasMetadata sections))
     {| severity := info;
        message := "Consider adding metadata (author, date, language) for better AI context";
        section := "Metadata" |} ++
   when (wordCount metrics <? 50)%nat
     {| severity := warning;
        message := "Low word count - may not provide enough information for AI";
        section := "Content" |} ++
   when (headingCount metrics =? 0)%nat
     {| severity := warning;
        message := "No headings found - structure helps AI understand hierarchy";
        section := "Structure" |} ++
   when (0 <? List.length longParagraphs)%nat
     {| severity := info;
        message := "Some paragraphs are very long - consider breaking them up for better AI parsing";
        section := "Content" |})%list.

Definition isError (w : ValidationWarning) : bool :=
  match severity w with error => true | _ => false end.
Definition isWarning (w : ValidationWarning) : bool :=
  match severity w with warning => true | _ => false end.

(** [if (b) score += k] *)
Definition bonus (b : bool) (k : Z) : Z := if b then k else 0%Z.

Definition calculateHealthScore (sections : MDFSections) (metrics : ContentMetrics)
    (warnings : list ValidationWarning) : HealthScore :=
  let score := 0%Z in
  (* Section completeness (40 points) *)
  let score := (score + bonus (hasTitle sections) 10)%Z in
  let score := (score + bonus (hasFrontmatter sections) 10)%Z in
  let score := (score + bonus (hasUrl sections) 10)%Z in
  let score := (score + bonus (hasContent sections) 5)%Z in
  let score := (score + bonus (hasMetadata sections) 5)%Z in
  (* Content richness (40 points) *)
  let score := (score + bonus (100 <? wordCount metrics)%nat 10)%Z in
  let score := (score + bonus (300 <? wordCount metrics)%nat 5)%Z in
  let score := (score + bonus (0 <? headingCount metrics)%nat 10)%Z in
  let score := (score + bonus (3 <? headingCount metrics)%nat 5)%Z in
  let score := (score + bonus (2 <? paragraphCount metrics)%nat 5)%Z in
  let score := (score + bonus (0 <? listCount metrics)%nat 5)%Z in
  (* Warning penalties (20 points) *)
  let errors := Z.of_nat (List.length (List.filter isError warnings)) in
  let warningCount := Z.of_nat (List.length (List.filter isWarning warnings)) in
  let score := (score + Z.max 0 (20 - errors * 10 - warningCount * 3))%Z in
  if (85 <=? score)%Z then
    {| score := score; grade := Excellent; color := "emerald";
       description := "Perfect for AI consumption - well-structured with rich content" |}
  else if (70 <=? score)%Z then
    {| score := score; grade := Good; color := "blue";
       description := "Good structure - AI can easily extract information" |}
  else if (50 <=? score)%Z then
    {| score := score; grade := Fair; color := "amber";
       description := "Acceptable but could be improved for better AI understanding" |}
  else
    {| score := score; grade := Poor; color := "red";
       description :=
         "Needs improvement - AI may struggle to extract meaningful information" |}.

Definition say (b : bool) (text : string) : list string := if b then [text] else [].

Definition analyzeAIReadability (markdown : string) (sections : MDFSections)
    (metrics : ContentMetrics) : Readability :=
  let score := 100%Z in
  let score := if hasFrontmatter sections then score else (score - 10)%Z in
  let score :=
    if (3 <=? headingCount metrics)%nat then score
    else if (headingCount metrics =? 0)%nat then (score - 15)%Z
    else score in
  let score := if (100 <=? wordCount metrics)%nat then score else (score - 10)%Z in
  let noisy := Regex.test uiNoise markdown in
  let score := if noisy then (score - 5)%Z else score in
  {| r_score := Z.max 0 (Z.min 100 score);
     issues :=
       (say (negb (hasFrontmatter sections))
          "Missing frontmatter - AI prefers structured metadata" ++
        say ((headingCount metrics <? 3)%nat && (headingCount metrics =? 0)%nat)
          "No headings - AI can't understand content hierarchy" ++
        say (wordCount metrics <? 100)%nat "Content too short - AI needs more context" ++
        say noisy "Contains UI noise that should be removed")%list;
     strengths :=
       (say (hasFrontmatter sections) "Has frontmatter with structured metadata" ++
        say (3 <=? headingCount metrics)%nat
          "Good heading structure for hierarchical understanding" ++
        say (0 <? listCount metrics)%nat "Contains lists for structured information" ++
        say (100 <=? wordCount metrics)%nat "Sufficient content length for context" ++
        say (includes markdown fence) "Properly formatted code blocks" ++
        say (0 <? List.length (Regex.matchAll inlineLink markdown))%nat
          "Contains properly formatted links")%list |}.

Definition analyzeMarkdownStructure (markdown : string) : StructureAnalysis :=
  let sections := extractSections markdown in
  let metrics := calculateMetrics markdown in
  let headings := extractHeadings markdown in
  let warnings := validateStructure markdown sections metrics in
  let health := calculateHealthScore sections metrics warnings in
  let aiReadability := analyzeAIReadability markdown sections metrics in
  {| sections := sections; metrics := metrics; headings := headings;
     warnings := warnings; health := health; aiReadability := aiReadability |}.

End Analyzer.

(** ** Concrete worlds and requests used as examples *)

Module Scenario.
Import Js Crawl.
Local Open Scope string_scope.

Definition htmlPage (canonicalHref : option string) (anchors : list string) : Response :=
  {| ok := true; status := 200%N;
     contentType := Some "text/html; charset=utf-8";
     responseUrl := "";
     body := BodyOf 512%N ""
               {| canonicalHref := canonicalHref; anchors := anchors;
                  ogType := None; publishedTime := false |} |}.

Definition notFound : Response :=
  {| ok := false; status := 404%N; contentType := Some "text/html";
     responseUrl := ""; body := BodyOf 9%N "Not Found" 
       {| canonicalHref := None; anchors := []; ogType := None; publishedTime := false |} |}.

Fixpoint lookupUrl (target : string) (site : list (string * Response)) : option Response :=
  match site with
  | [] => None
  | (u, r) :: site' => if String.eqb target u then Some r else lookupUrl target site'
  end.

(** The Unicode tables, as far as the examples go: [bücher.example]. *)
Definition buecher : string := String "b" (String "252" "cher.example").
Definition tables : Url.Idna :=
  {| Url.valid := fun domain => String.eqb domain "xn--bcher-kva.example";
     Url.toASCII := fun text =>
       if String.eqb (toLowerCase text) buecher || String.eqb (toLowerCase text) "b%c3%bccher.example"
       then Some "xn--bcher-kva.example" else None |}.

(** A world that serves the listed pages and nothing else; [resolve] is
    [new URL(input, base)] for the relative references of its pages. *)
Definition serveWith (resolve : string -> option string -> option Url.URL)
    (site : list (string * Response)) : World :=
  {| fetch := fun target => lookupUrl target site;
     StringToNumber := fun _ => NaN;
     idna := tables;
     parseOther := resolve |}.

Definition serve (site : list (string * Response)) : World :=
  serveWith (fun _ _ => None) site.

Definition request (target : string) (maxDepth : JsValue) : Payload :=
  {| p_url := JStr target; p_maxDepth := maxDepth; p_format := JUndefined |}.

Definition home : string := "https://example.com/".

(** The home page carries [<link rel="canonical" href="">]. *)
Definition emptyCanonical : World :=
  serve [ (home, htmlPage (Some "") []) ].

(** The home page links to one more page. *)
Definition oneLink : World :=
  serve [ (home, htmlPage None ["https://example.com/a"]);
          ("https://example.com/a", htmlPage None []) ].

(** The home page links to a page that links to a third one. *)
Definition chain : World :=
  serve [ (home, htmlPage None ["https://example.com/a"]);
          ("https://example.com/a", htmlPage None ["https://example.com/b"]);
          ("https://example.com/b", htmlPage None []) ].

(** Two pages declare the same canonical, which the path denylist blocks. *)
Definition blockedCanonical : World :=
  serve [ (home, htmlPage None ["https://example.com/a"; "https://example.com/b"]);
          ("https://example.com/a", htmlPage (Some "https://example.com/login") []);
          ("https://example.com/b", htmlPage (Some "https://example.com/login") []) ].


(** [new URL(input, base)] for a path-absolute [input] ([/c], not [//c])
    and an http(s) [base] without credentials: the origin of the base,
    followed by the input. *)
Definition resolvePathAbsolute (input : string) (base : option string) : option Url.URL :=
  match base with
  | Some b =>
      match Url.parseHttp tables b with
      | Some u =>
          if startsWith input "/"
             && negb (startsWith input "//") && negb (startsWith input "/\")
             && negb (Url.includesCredentials u)
          then Url.parseHttp tables (origin u ++ input)
          else None
      | None => None
      end
  | None => None
  end.

(** Two pages declare the same canonical, with a relative reference. *)
Definition relativePage : Document :=
  {| canonicalHref := Some "/c"; anchors := []; ogType := None; publishedTime := false |}.

Definition relativeCanonical : World :=
  serveWith resolvePathAbsolute
    [ (home, htmlPage None ["https://example.com/a"; "https://example.com/b"]);
      ("https://example.com/a", htmlPage (Some "/c") []);
      ("https://example.com/b", htmlPage (Some "/c") []) ].

(** The home page declares a canonical that carries a user name. *)
Definition credentialedCanonical : World :=
  serve [ (home, htmlPage (Some "https://user@example.com/x") []) ].

(** The home page links to a page that carries
    [<link rel="canonical" href="">]. *)
Definition laterEmptyCanonical : World :=
  serve [ (home, htmlPage None ["https://example.com/a"]);
          ("https://example.com/a", htmlPage (Some "") []) ].

(** The origin answers 404 for one address and serves JSON at another. *)
Definition jsonFeed : Response :=
  {| ok := true; status := 200%N; contentType := Some "application/json";
     responseUrl := "";
     body := BodyOf 2%N "{}"
               {| canonicalHref := None; anchors := []; ogType := None;
                  publishedTime := false |} |}.

Definition missingPage : World :=
  serve [ ("https://example.com/missing", notFound);
          ("https://example.com/feed.json", jsonFeed) ].

(** A page whose anchors carry upper-case [mailto:] and [tel:] schemes. *)
Definition contactPage : Document :=
  {| canonicalHref := None;
     anchors := [ "MAILTO:sales@example.com"; " Tel:+15550100 "; "JavaScript:void(0)";
                  "mailto:a@example.com"; "tel:+15550101"; "#top"; ""; "/pricing" ];
     ogType := None; publishedTime := false |}.

Definition rootOf (W : World) (target : string) : Url.URL :=
  match URL_new W target None with
  | Some u => u
  | None => Url.mkURL "" "" "" None None "" false None None
  end.

Definition n : string := nl.
Definition dashes10 : string := "----------".

End Scenario.

(** ** The library extractor: text helpers and the MDF formatter
    ([lib/extractor]) *)

Module ExtractorText.
Import Js.
Local Open Scope string_scope.

Record ExtractedMetadata : Type := {
  m_canonical : option string;
  author : option string;
  published : option string;
  updated : option string;
  language : option string;
  contentType : option string;
  primaryTopics : list string;
  entities : list string
}.

Record ExtractionResult : Type := {
  title : string;
  url : string;
  canonical : string;
  markdown : string;
  metadata : ExtractedMetadata
}.

(** [/\s+/g] *)
Definition spaces : Regex.regex := Regex.plus Regex.space.

Definition sanitizeLine (value : string) : string :=
  trim (Regex.replaceAll spaces (fun _ => " ") value).

(** [/[,;]|\n/] *)
Definition listSeparator : Regex.regex :=
  Regex.Or (Regex.Char (Url.oneOf ",;")) (Regex.lit LF).

Definition extractListContent (value : string) : list string :=
  List.filter (fun item => (0 <? String.length item)%nat)
    (map (fun item => sanitizeLine item) (Regex.split listSeparator value)).

(** The body of the loop of [dedupe], on [ordered] and [seen]. *)
Definition dedupeStep (acc : list string * gset string) (raw : string)
    : list string * gset string :=
  let normalized := trim raw in
  if String.eqb normalized "" then acc
  else
    let key := toLowerCase normalized in
    if bool_decide (key ∈ snd acc) then acc
    else (List.app (fst acc) [normalized], {[ key ]} ∪ snd acc).

Definition dedupe (values : list string) : list string :=
  fst (fold_left dedupeStep values ([], ∅)).

(** [value ?? ""] *)
Definition orEmpty (value : option string) : string :=
  match value with
  | Some s => s
  | None => ""
  end.

(** [/\n{3,}/g] *)
Definition blankLines : Regex.regex := Regex.atLeast 3 (Regex.lit LF).

Definition formatAsMdf (result : ExtractionResult) : string :=
  let lines :=
    [ "# " ++ title result;
      "";
      "## URL";
      url result;
      "";
      "## Canonical";
      canonical result;
      "";
      "## Content";
      markdown result;
      "";
      "## Metadata";
      "- Author: " ++ orEmpty (author (metadata result));
      "- Published Date: " ++ orEmpty (published (metadata result));
      "- Updated Date: " ++ orEmpty (updated (metadata result));
      "- Language: " ++ orEmpty (language (metadata result));
      "";
      "## Schema Hints";
      "- Content Type: " ++ orEmpty (contentType (metadata result));
      "- Primary Topics: " ++ join ", " (primaryTopics (metadata result));
      "- Entities Mentioned: " ++ join ", " (entities (metadata result)) ] in
  trim (Regex.replaceAll blankLines (fun _ => nl ++ nl) (join nl lines)) ++ nl.

End ExtractorText.

(** ** The library extractor: reading the document ([lib/extractor]) *)

Module ExtractorDom.
Import Js.
Local Open Scope string_scope.

(** [collectCanonical(document)] of the library: the canonical link,
    resolved against the address of the document, without its fragment. *)
Definition collectCanonical (W : Crawl.World) (document : Crawl.Document)
    (documentURL : string) : option string :=
  match option_map trim (Crawl.canonicalHref document) with
  | Some (String c s) =>
      match Crawl.URL_new W (String c s) (Some documentURL) with
      | Some canonicalUrl => Some (Url.toString (Url.set_hash canonicalUrl ""))
      | None => None
      end
  | _ => None
  end.

End ExtractorDom.

(** ** The MDF formatter of the extract route
    ([src/app/api/extract/route.ts]) *)

Module ExtractMdf.
Import Js.
Local Open Scope string_scope.

Record Heading : Type := { level : nat; text : string }.
Record CodeBlock : Type := { language : option string; code : string }.
Record Link : Type := { l_text : string; href : string }.

Record StructuredContent : Type := {
  url : string;
  title : option string;
  description : option string;
  headings : list Heading;
  paragraphs : list string;
  lists : list (list string);
  codeBlocks : list CodeBlock;
  links : list Link;
  lastModified : option string
}.

Definition quote : string := String Url.DQUOTE "".

(** [text.replace(/"/g, '\\"')] *)
Definition escape (text : string) : string :=
  Regex.replaceAll (Regex.lit Url.DQUOTE) (fun _ => "\" ++ quote) text.

(** [if (value) md.push(line(value))] for an optional string. *)
Definition pushIf (value : option string) (line : string -> string) : list string :=
  match value with
  | Some (String c s) => [line (String c s)]
  | _ => []
  end.

(** ["#".repeat(n)] *)
Fixpoint hashes (n : nat) : string :=
  match n with
  | O => ""
  | S n' => "#" ++ hashes n'
  end.

Definition fence : string := "```".

Definition formatAsMdf (content : StructuredContent) : string :=
  let md :=
    List.concat
      [ ["---"];
        pushIf (title content) (fun t => "title: " ++ quote ++ escape t ++ quote);
        pushIf (lastModified content) (fun m => "lastmod: " ++ m);
        ["source: " ++ url content];
        ["---" ++ nl];
        pushIf (title content) (fun t => "# " ++ t ++ nl);
        pushIf (description content) (fun d => d ++ nl);
        map (fun h => hashes (level h) ++ " " ++ text h) (headings content);
        map (fun p => nl ++ p) (paragraphs content);
        flat_map (fun list => "" :: map (fun item => "- " ++ item) list) (lists content);
        map (fun block =>
               nl ++ fence ++ match language block with
                              | Some (String c s) => String c s
                              | _ => ""
                              end
               ++ nl ++ trim (code block) ++ nl ++ fence)
          (codeBlocks content);
        match links content with
        | [] => []
        | _ :: _ =>
            (nl ++ "## Links")
            :: map (fun l => "- [" ++ l_text l ++ "](" ++ href l ++ ")") (links content)
        end ] in
  trim (join nl md).

End ExtractMdf.

(** ** The AI-mirror JSON route ([api/ai-mirror], JSON version)

    The helpers that turn the extracted page into the response fields. *)

Module Mirror.
Import Js.
Local Open Scope string_scope.

(** [url.search]: the query with its question mark, or nothing. *)
Definition search (u : Url.URL) : string :=
  match Url.query u with
  | Some (String c q) => "?" ++ String c q
  | _ => ""
  end.

Definition buildMirrorUrl (W : Crawl.World) (url : string) : string :=
  match Crawl.URL_new W url None with
  | Some parsed =>
      let host := Regex.replace Crawl.wwwPrefix (fun _ => "") (Url.hostname parsed) in
      "https://ai." ++ host ++ Url.pathname parsed ++ search parsed
  | None => ""
  end.

Definition isNot (a c : ascii) : bool := negb (Ascii.eqb c a).

Definition fence : string := "```".
Definition backtick : ascii := "`"%char.

(** The patterns of [stripMarkdown]. *)
Definition codeFence : Regex.regex :=                        (* /```[\s\S]*?```/g *)
  Regex.cat [Regex.text fence; Regex.lazyStar Regex.anyChar; Regex.text fence].
Definition inlineCode : Regex.regex :=                       (* /`([^`]+)`/g *)
  Regex.cat [Regex.lit backtick; Regex.Group 1 (Regex.plus (Regex.Char (isNot backtick)));
             Regex.lit backtick].
Definition inlineLink : Regex.regex :=                  (* /\[([^\]]+)\]\([^\)]+\)/g *)
  Regex.cat [Regex.lit "["; Regex.Group 1 (Regex.plus (Regex.Char (isNot "]")));
             Regex.text "]("; Regex.plus (Regex.Char (isNot ")")); Regex.lit ")"].
Definition marks : Regex.regex := Regex.Char (Url.oneOf "*_~#>-").      (* /[*_~#>-]/g *)
Definition spaces : Regex.regex := Regex.plus Regex.space.              (* /\s+/g *)

Definition first (cs : list (nat * string)) : string := Regex.capture 1 cs.   (* "$1" *)
Definition blank (cs : list (nat * string)) : string := " ".

Definition stripMarkdown (source : string) : string :=
  let source := Regex.replaceAll codeFence blank source in
  let source := Regex.replaceAll inlineCode first source in
  let source := Regex.replaceAll inlineLink first source in
  let source := Regex.replaceAll marks blank source in
  let source := Regex.replaceAll spaces blank source in
  trim source.

(** [s.split(/(?<=[p])r/)]: as [Regex.splitFrom], a match being tried
    only behind a character of [p]. *)
Fixpoint splitBehind (p : ascii -> bool) (r : Regex.regex) (before : option ascii)
    (s : string) (skip : nat) {struct s} : list string :=
  match s with
  | "" => [""]
  | String a s' =>
      match skip with
      | S skip' => splitBehind p r (Some a) s' skip'
      | O =>
          let behind := match before with Some b => p b | None => false end in
          match (if behind then Regex.matchAt r before s else None) with
          | Some c =>
              match String.length s - String.length (Regex.rest c) with
              | O => Regex.consHead a (splitBehind p r (Some a) s' O)
              | S n => "" :: splitBehind p r (Some a) s' n
              end
          | None => Regex.consHead a (splitBehind p r (Some a) s' O)
          end
      end
  end.

Definition truthy (s : string) : bool := negb (String.eqb s "").

(** [text.split(/(?<=[.!?])\s+/).map(trim).filter(Boolean)] *)
Definition splitSentences (text : string) : list string :=
  List.filter truthy
    (map (fun sentence => trim sentence)
       (splitBehind (Url.oneOf ".!?") spaces None text 0)).

Definition buildSummary (sentences : list string) : string :=
  match sentences with
  | [] => ""
  | _ :: _ => join " " (firstn 4 sentences)
  end.

Record Section : Type := { section : string; facts : list string }.

(** [/\n(?=##\s)/] *)
Definition sectionBreak : Regex.regex :=
  Regex.Cat (Regex.lit LF)
    (Regex.NotAhead (Regex.NotAhead (Regex.Cat (Regex.text "##") Regex.space))).
(** [/\n+/] *)
Definition lineBreaks : Regex.regex := Regex.plus (Regex.lit LF).
(** [/^#+\s*/] *)
Definition headingMarks : Regex.regex :=
  Regex.cat [Regex.InputStart; Regex.plus (Regex.lit "#"); Regex.star Regex.space].

(** The callback of [sections.map]: the entry of one block, or
    [undefined]. *)
Definition sectionOf (index : nat) (block : string) : option Section :=
  let trimmed := trim block in
  if negb (truthy trimmed) then None
  else
    let lines := Regex.split lineBreaks trimmed in
    let title := trim (Regex.replace headingMarks (fun _ => "") (nth 0 lines "")) in
    let title :=
      if negb (truthy title) then (if (index =? 0)%nat then "Overview" else "Section")
      else title in
    let body := stripMarkdown (join " " (List.tl lines)) in
    let facts := firstn 5 (splitSentences body) in
    match facts with
    | [] => None
    | _ :: _ => Some {| section := title; facts := facts |}
    end.

(** [sections.map((block, index) => ...)] from [index] on, filtered. *)
Fixpoint sectionsFrom (index : nat) (blocks : list string) : list Section :=
  match blocks with
  | [] => []
  | block :: more =>
      match sectionOf index block with
      | Some entry => entry :: sectionsFrom (S index) more
      | None => sectionsFrom (S index) more
      end
  end.

Definition buildStructuredContent (markdown : string) (fallbackSentences : list string)
    : list Section :=
  let sections := Regex.split sectionBreak markdown in
  let structured := sectionsFrom 0 sections in
  match structured with
  | _ :: _ => structured
  | [] =>
      let fallbackFacts := firstn 5 fallbackSentences in
      match fallbackFacts with
      | _ :: _ => [{| section := "Overview"; facts := fallbackFacts |}]
      | [] => [{| section := "Overview"; facts := [] |}]
      end
  end.

End Mirror.

(** ** Rendering the crawl result ([api/ai-mirror], sitemap version) *)

Module Sitemap.
Import Js.
Local Open Scope string_scope.

Definition escapeXml (value : string) : string :=
  let value := Regex.replaceAll (Regex.lit "&") (fun _ => "&amp;") value in
  let value := Regex.replaceAll (Regex.lit "<") (fun _ => "&lt;") value in
  let value := Regex.replaceAll (Regex.lit ">") (fun _ => "&gt;") value in
  let value := Regex.replaceAll (Regex.lit Url.DQUOTE) (fun _ => "&quot;") value in
  Regex.replaceAll (Regex.lit "'") (fun _ => "&apos;") value.

(** [value.replace(/\|/g, "\\|")] inside [[label](value)] *)
Definition formatMarkdownLink (value : string) : string :=
  let label := Regex.replaceAll (Regex.lit "|") (fun _ => "\|") value in
  "[" ++ label ++ "](" ++ value ++ ")".

End Sitemap.

(* ================================================================== *)
(** * Part II. Properties                                               *)
(* ================================================================== *)

(** ** The depth setting (claim C10) *)

Section DepthSetting.
Import Js Crawl.
Variable W : World.




End DepthSetting.



(** ** Scores of the Structure Analyzer (claim C9) *)

Section Scores.
Import Analyzer.
Local Open Scope Z_scope.

Lemma bonus_range (b : bool) (k : Z) : 0 <= k -> 0 <= bonus b k <= k.
Proof. destruct b; simpl; lia. Qed.

(** The score does not depend on the grade chosen from it. *)
Lemma score_calculateHealthScore sections metrics warnings :
  score (calculateHealthScore sections metrics warnings) =
    bonus (hasTitle sections) 10 + bonus (hasFrontmatter sections) 10
    + bonus (hasUrl sections) 10 + bonus (hasContent sections) 5
    + bonus (hasMetadata sections) 5
    + bonus (100 <? wordCount metrics)%nat 10 + bonus (300 <? wordCount metrics)%nat 5
    + bonus (0 <? headingCount metrics)%nat 10 + bonus (3 <? headingCount metrics)%nat 5
    + bonus (2 <? paragraphCount metrics)%nat 5 + bonus (0 <? listCount metrics)%nat 5
    + Z.max 0 (20 - Z.of_nat (List.length (List.filter isError warnings)) * 10
                  - Z.of_nat (List.length (List.filter isWarning warnings)) * 3).
Proof.
  unfold calculateHealthScore.
  repeat match goal with |- context [if ?c then _ else _] =>
    lazymatch c with
    | (_ <=? _)%Z => destruct c
    end
  end; simpl; lia.
Qed.

Lemma health_score_range sections metrics warnings :
  0 <= score (calculateHealthScore sections metrics warnings) <= 100.
Proof.
  rewrite score_calculateHealthScore.
  pose proof (bonus_range (hasTitle sections) 10).
  pose proof (bonus_range (hasFrontmatter sections) 10).
  pose proof (bonus_range (hasUrl sections) 10).
  pose proof (bonus_range (hasContent sections) 5).
  pose proof (bonus_range (hasMetadata sections) 5).
  pose proof (bonus_range (100 <? wordCount metrics)%nat 10).
  pose proof (bonus_range (300 <? wordCount metrics)%nat 5).
  pose proof (bonus_range (0 <? headingCount metrics)%nat 10).
  pose proof (bonus_range (3 <? headingCount metrics)%nat 5).
  pose proof (bonus_range (2 <? paragraphCount metrics)%nat 5).
  pose proof (bonus_range (0 <? listCount metrics)%nat 5).
  lia.
Qed.

Lemma readability_score_range markdown sections metrics :
  0 <= r_score (analyzeAIReadability markdown sections metrics) <= 100.
Proof. unfold analyzeAIReadability. cbn [r_score]. lia. Qed.

End Scores.

(** C9. For every input string, the empty one included, the health score
    and the AI-readability score of the analysis lie between 0 and 100. *)
Theorem analyzer_scores_within_bounds (markdown : string) :
  (0 <= Analyzer.score (Analyzer.health (Analyzer.analyzeMarkdownStructure markdown)) <= 100)%Z
  /\ (0 <= Analyzer.r_score
             (Analyzer.aiReadability (Analyzer.analyzeMarkdownStructure markdown)) <= 100)%Z.
Proof.
  unfold Analyzer.analyzeMarkdownStructure.
  cbn [Analyzer.health Analyzer.aiReadability]. split.
  - apply health_score_range.
  - apply readability_score_range.
Qed.

(** The scenario of the specification: a title and one short line. *)
Example analyzer_short_document :
  let a := Analyzer.analyzeMarkdownStructure
             ("# Title" ++ Scenario.n ++ Scenario.n ++ "Short.")%string in
  Analyzer.hasTitle (Analyzer.sections a) = true
  /\ Analyzer.wordCount (Analyzer.metrics a) = 2
  /\ Analyzer.headings a
     = [{| Analyzer.level := 1; Analyzer.text := "Title"%string; Analyzer.line := 1 |}]
  /\ map Analyzer.severity (Analyzer.warnings a)
     = [Analyzer.error; Analyzer.warning; Analyzer.info; Analyzer.warning]
  /\ Analyzer.score (Analyzer.health a) = 24%Z
  /\ Analyzer.grade (Analyzer.health a) = Analyzer.Poor.
Proof. vm_compute. repeat split; reflexivity. Qed.

Example analyzer_empty_document :
  let a := Analyzer.analyzeMarkdownStructure ""%string in
  Analyzer.score (Analyzer.health a) = 0%Z
  /\ Analyzer.r_score (Analyzer.aiReadability a) = 65%Z.
Proof. vm_compute. split; reflexivity. Qed.

(** ** Link extraction (claim C8) *)

(** C8 does not hold of the code: [extractLinks] compares [mailto:] and
    [tel:] case-sensitively (only [javascript:] is lower-cased first), so
    hrefs that spell those schemes in upper case are returned as links. *)
Lemma extractLinks_keeps_uppercase_schemes :
  Crawl.extractLinks Scenario.contactPage
  = ["MAILTO:sales@example.com"; "Tel:+15550100"; "/pricing"]%string.
Proof. vm_compute. reflexivity. Qed.

(** ** Error classification of single-page extraction (claim C6) *)

(** C6 does not hold of the route's own extractor: an upstream 404 is
    reported with status 502, an address [fetch] rejects as unparsable with
    502, and a non-HTML response is accepted; the library extractor
    classifies the same 404 as 400. *)
Lemma extract_route_reports_404_as_502 :
  ExtractRoute.POST Scenario.missingPage (Js.JStr "https://example.com/missing")
  = ExtractRoute.ErrorJson 502 "Upstream error: 404"
  /\ ExtractRoute.POST Scenario.missingPage (Js.JStr "http://")
     = ExtractRoute.ErrorJson 502 "Unable to fetch URL."
  /\ (exists d, ExtractRoute.POST Scenario.missingPage (Js.JStr "https://example.com/feed.json")
                = ExtractRoute.Mdf d)
  /\ Extractor.errorStatus
       (Extractor.extractStructuredContent Scenario.missingPage "https://example.com/missing")
     = Some 400%N.
Proof.
  repeat split; try (vm_compute; reflexivity).
  eexists. vm_compute. reflexivity.
Qed.

(** ** Failures during traversal (claim C1) *)

(** C1 does not hold of the code: the canonical of a fetched page is
    normalized outside any [try], so a page with an empty canonical href
    makes the whole crawl answer 400 although the root parsed. *)
Lemma crawl_fails_on_empty_canonical :
  Crawl.normalizeUrl Scenario.emptyCanonical "example.com" None = Js.Ok Scenario.home
  /\ forall fuel,
       Crawl.POST Scenario.emptyCanonical (S fuel)
         (Scenario.request "example.com" Js.JUndefined)
       = Some (Crawl.ErrorJson 400 "Unable to normalize URL: ").
Proof.
  split.
  - vm_compute. reflexivity.
  - intros fuel. vm_compute. reflexivity.
Qed.

(** ** The frontier loop: how one turn changes the state *)

(** Splits a hypothesis [iteration ... = Ok s'] into the paths through
    the loop body. *)
Ltac paths H :=
  unfold Crawl.iteration, Js.bind in H;
  repeat match type of H with
  | context [match ?x with _ => _ end] => destruct x eqn:?
  end;
  try discriminate H;
  injection H as H; subst.

Section Frontier.
Import Js Crawl.
Variable W : World.
Variable cfg : Config.


Lemma iteration_pages (s s' : CrawlState) (current : QueueItem) :
  iteration W cfg s current = Ok s' ->
  List.length (pages s') <= S (List.length (pages s)).
Proof.
  intros H. paths H; cbn [pages note record enqueue addVisited];
    rewrite ?length_app; simpl; lia.
Qed.

Lemma step_Next (s s' : CrawlState) :
  step W cfg s = Next s' ->
  exists current remaining,
    queue s = current :: remaining
    /\ List.length (pages s) < MAX_PAGES
    /\ iteration W cfg (setQueue remaining s) current = Ok s'.
Proof.
  unfold step. destruct (queue s) as [|current remaining]; [discriminate|].
  destruct (Nat.ltb_spec (List.length (pages s)) MAX_PAGES); [|discriminate].
  destruct (iteration W cfg (setQueue remaining s) current) eqn:E; [|discriminate].
  intros [= <-]. eauto.
Qed.

Lemma step_Done (s : CrawlState) :
  step W cfg s = Done <-> queue s = [] \/ MAX_PAGES <= List.length (pages s).
Proof.
  unfold step. destruct (queue s) as [|current remaining].
  - split; auto.
  - destruct (Nat.ltb_spec (List.length (pages s)) MAX_PAGES).
    + destruct (iteration W cfg (setQueue remaining s) current);
        split; try discriminate; intros [? | ?]; [discriminate | lia | discriminate | lia].
    + split; auto.
Qed.

Lemma reachable_pages (s0 s : CrawlState) :
  List.length (pages s0) <= MAX_PAGES ->
  reachable W cfg s0 s ->
  List.length (pages s) <= MAX_PAGES.
Proof.
  intros H0 Hr. induction Hr as [|s s' _ IH Hstep]; [assumption|].
  apply step_Next in Hstep as (current & remaining & _ & Hlt & Hit).
  apply iteration_pages in Hit. cbn [pages setQueue] in Hit. lia.
Qed.

(** Where [loop] stops, and that what it passes through is reachable. *)
Lemma loop_Finished (fuel : nat) (s0 s : CrawlState) :
  loop W cfg fuel s0 = Finished s ->
  reachable W cfg s0 s /\ step W cfg s = Done.
Proof.
  revert s0. induction fuel as [|fuel IH]; intros s0; simpl; [discriminate|].
  destruct (step W cfg s0) eqn:E; try discriminate.
  - intros [= <-]. split; [constructor | assumption].
  - intros H. apply IH in H as [Hr Hd]. split; [|assumption].
    clear -Hr E. induction Hr.
    + econstructor; [constructor | eassumption].
    + econstructor; eassumption.
Qed.

Lemma loop_Running (fuel : nat) (s0 s : CrawlState) :
  loop W cfg fuel s0 = Running s -> reachable W cfg s0 s.
Proof.
  revert s0. induction fuel as [|fuel IH]; intros s0; simpl.
  - intros [= <-]. constructor.
  - destruct (step W cfg s0) eqn:E; try discriminate.
    intros H. apply IH in H. clear -H E. induction H.
    + econstructor; [constructor | eassumption].
    + econstructor; eassumption.
Qed.

End Frontier.

Lemma reachable_stateAfter W cfg fuel s0 :
  Crawl.reachable W cfg s0 (Crawl.stateAfter W cfg fuel s0).
Proof.
  unfold Crawl.stateAfter. destruct (Crawl.loop W cfg fuel s0) eqn:E.
  - apply loop_Finished in E. tauto.
  - constructor.
  - apply loop_Running in E. assumption.
Qed.

(** ** The page budget (claim C2) *)

(** C2. In every state the crawl loop reaches, at most [MAX_PAGES] = 120
    pages are recorded; the loop stops exactly when the queue is empty or
    the count has reached the budget; and the pages array a crawl returns
    has at most 120 entries. *)
Theorem page_budget_respected (W : Crawl.World) :
  (forall cfg normalizedRoot s,
     Crawl.reachable W cfg (Crawl.initial normalizedRoot) s ->
     List.length (Crawl.pages s) <= 120
     /\ (Crawl.step W cfg s = Crawl.Done <->
         Crawl.queue s = [] \/ List.length (Crawl.pages s) = 120))
  /\ (forall fuel payload format site pages,
        Crawl.POST W fuel payload = Some (Crawl.Sitemap format site pages) ->
        List.length pages <= 120).
Proof.
  split.
  - intros cfg normalizedRoot s Hr.
    assert (Hle : List.length (Crawl.pages s) <= Crawl.MAX_PAGES).
    { eapply reachable_pages; [|eassumption]. simpl. unfold Crawl.MAX_PAGES. lia. }
    split; [exact Hle|].
    rewrite step_Done. unfold Crawl.MAX_PAGES in *. intuition lia.
  - intros fuel payload format site pages. unfold Crawl.POST.
    destruct (String.eqb _ _); [discriminate|].
    destruct (Crawl.normalizeUrl _ _ _) as [normalizedRoot|]; [|discriminate].
    destruct (Crawl.newURL _ _) as [root|]; [|discriminate].
    destruct (Crawl.loop _ _ _ _) as [s| |] eqn:E; try discriminate.
    intros [= _ _ <-]. apply loop_Finished in E as [Hr _].
    eapply reachable_pages in Hr; [exact Hr|]. simpl. unfold Crawl.MAX_PAGES. lia.
Qed.

Lemma page_budget_witness :
  exists pages,
    Crawl.POST Scenario.oneLink 5 (Scenario.request "example.com" Js.JUndefined)
    = Some (Crawl.Sitemap "json" "example.com" pages)
    /\ List.length pages <= 120.
Proof.
  eexists. split.
  - vm_compute. reflexivity.
  - apply (proj2 (page_budget_respected Scenario.oneLink) 5
             (Scenario.request "example.com" Js.JUndefined) "json" "example.com").
    vm_compute. reflexivity.
Defined.

(** ** Numbers: the clamped depth limit *)

Section Numbers.
Import Js Crawl.

Lemma leb_Fin (x y : Q) : leb (Fin x) (Fin y) = true <-> (x <= y)%Q.
Proof. cbn [leb]. apply Qle_bool_iff. Qed.

Lemma ltb_Fin (x y : Q) : ltb (Fin x) (Fin y) = true <-> (x < y)%Q.
Proof.
  cbn [ltb leb]. rewrite negb_true_iff, <- not_true_iff_false, Qle_bool_iff.
  split; [apply Qnot_le_lt | apply Qlt_not_le].
Qed.

Lemma leb_total (x y : Q) : leb (Fin x) (Fin y) = false -> leb (Fin y) (Fin x) = true.
Proof.
  rewrite leb_Fin, <- not_true_iff_false, leb_Fin. intros H.
  apply Qlt_le_weak, Qnot_le_lt. assumption.
Qed.

Lemma clamp_bounds (v : JsNumber) :
  leb (Fin 1) (clamp v (Fin 1) MAX_DEPTH) = true
  /\ leb (clamp v (Fin 1) MAX_DEPTH) MAX_DEPTH = true.
Proof.
  destruct v as [| |q|]; try (split; reflexivity).
  unfold clamp, MAX_DEPTH. cbn [Number_isNaN Math_max].
  destruct (leb (Fin q) (Fin 1)) eqn:E1; cbn [Math_min].
  - split; reflexivity.
  - destruct (leb (Fin q) (Fin 4)) eqn:E4.
    + split; [apply leb_total; assumption | assumption].
    + split; reflexivity.
Qed.



Lemma child_within_max (limit : JsNumber) (d : nat) :
  leb limit MAX_DEPTH = true -> ltb (ofNat d) limit = true -> S d <= 4.
Proof.
  unfold MAX_DEPTH. destruct limit as [| |q|]; try discriminate.
  unfold ofNat. rewrite ltb_Fin, leb_Fin. intros Hle Hlt.
  assert (H : (inject_Z (Z.of_nat d) < inject_Z 4)%Q) by (eapply Qlt_le_trans; eassumption).
  rewrite <- Zlt_Qlt in H. lia.
Qed.
End Numbers.

(** ** Depth of what is enqueued and fetched (claim C3) *)

Section Depth.
Import Js Crawl.
Variable W : World.
Variable cfg : Config.




Lemma discover_depth (seen : gset string) (canonical : Url.URL)
    (current : QueueItem) (href : string) (item : QueueItem) :
  discover W cfg seen canonical current href = Some item ->
  depth item = S (depth current).
Proof.
  unfold discover.
  repeat match goal with
  | |- context [match ?x with _ => _ end] => destruct x; try discriminate
  end.
  intros [= <-]. cbn [depth]. lia.
Qed.

Lemma In_omap_discover seen canonical current hrefs item :
  In item (omap (discover W cfg seen canonical current) hrefs) ->
  depth item = S (depth current).
Proof.
  rewrite <- list_elem_of_In, list_elem_of_omap.
  intros (href & _ & H). eapply discover_depth; eassumption.
Qed.

(** What one turn adds to the log and to the queue. *)
Lemma iteration_adds (s s' : CrawlState) (current : QueueItem) :
  iteration W cfg s current = Ok s' ->
  exists events items,
    log s' = (log s ++ events)%list
    /\ queue s' = (queue s ++ items)%list
    /\ (forall e, In e events ->
          (exists target, e = Fetched current target)
          \/ (exists dequeued canonicalUrl, e = Resolved dequeued canonicalUrl)
          \/ (exists item, e = Enqueued item /\ In item items))
    /\ (forall item, In item items ->
          In (Enqueued item) events
          /\ depth item = S (depth current)
          /\ ltb (ofNat (depth current)) (depthLimit cfg) = true
          /\ exists target, In (Fetched current target) events).
Proof.
  intros H. paths H; cbn [log queue note record enqueue addVisited].
  all: match goal with
       | |- exists events items,
              (((?l ++ ?e1) ++ ?e2) ++ map Enqueued ?n)%list = (?l ++ events)%list /\ _ =>
           exists (e1 ++ e2 ++ map Enqueued n)%list, n
       | |- exists events items, ((?l ++ ?e1) ++ ?e2)%list = (?l ++ events)%list /\ _ =>
           exists (e1 ++ e2)%list, []
       | |- exists events items, (?l ++ ?e1)%list = (?l ++ events)%list /\ _ =>
           exists e1, []
       | |- exists events items, ?l = (?l ++ events)%list /\ _ =>
           exists [], []
       end.
  all: split; [rewrite ?app_nil_r, <- ?app_assoc; reflexivity|].
  all: split; [rewrite ?app_nil_r; reflexivity|].
  all: split.
  all: try (intros item Hin; solve [destruct Hin]).
  all: try (intros e He; rewrite ?in_app_iff in He; cbn [In] in He;
            rewrite ?in_map_iff in He;
            repeat match type of He with
                   | _ \/ _ => destruct He as [He | He]
                   | False => contradiction
                   | ex _ => destruct He as (? & <- & ?)
                   end;
            subst; solve [eauto 7]).
  all: intros item Hin; split;
    [ rewrite !in_app_iff, in_map_iff; eauto 6 | ].
  all: split; [eapply In_omap_discover; eassumption | ].
  all: split; [reflexivity | eexists; left; reflexivity].
Qed.




End Depth.




(** ** One record per canonical (claim C4) *)

Section Records.
Import Js Crawl.
Variable W : World.
Variable cfg : Config.

Lemma newURL_Ok (target : string) (u : Url.URL) :
  newURL W target = Ok u -> URL_new W target None = Some u.
Proof. unfold newURL. destruct (URL_new W target None); congruence. Qed.

Lemma admits_gates (canonicalUrl : string) (canonical : Url.URL) :
  newURL W canonicalUrl = Ok canonical ->
  admits W cfg canonicalUrl =
    isSameHost (root cfg) canonical
    && negb (isBlockedPath canonical || negb (robots cfg (Url.pathname canonical))).
Proof. intros H. unfold admits. rewrite (newURL_Ok _ _ H). reflexivity. Qed.

(** What one turn does to the records: nothing, or one new record for a
    canonical that was resolved in this turn, passed the gates and was
    not recorded before. *)
Lemma iteration_records (s s' : CrawlState) (current : QueueItem) :
  iteration W cfg s current = Ok s' ->
  (pages s' = pages s /\ recorded s' = recorded s
   /\ forall d c, In (Resolved d c) (log s') ->
        In (Resolved d c) (log s) \/ admits W cfg c = false \/ c ∈ recorded s)
  \/ (exists p d,
        pages s' = (pages s ++ [p])%list
        /\ recorded s' = {[ url p ]} ∪ recorded s
        /\ (url p ∉ recorded s)
        /\ admits W cfg (url p) = true
        /\ In (Resolved d (url p)) (log s')
        /\ forall d' c, In (Resolved d' c) (log s') ->
             In (Resolved d' c) (log s) \/ c = url p).
Proof.
  intros H. paths H.
  all: cbn [pages recorded log note record enqueue addVisited url].
  all: repeat match goal with
       | E : newURL W _ = Ok _ |- _ => apply admits_gates in E
       | E : bool_decide _ = true |- _ => apply bool_decide_eq_true in E
       | E : bool_decide _ = false |- _ => apply bool_decide_eq_false in E
       | E : negb _ = true |- _ => apply negb_true_iff in E
       | E : negb _ = false |- _ => apply negb_false_iff in E
       end.
  all: first
    [ (* no new record *)
      left; split; [reflexivity|]; split; [reflexivity|];
      intros d c Hin; rewrite ?in_app_iff, ?in_map_iff in Hin; cbn [In] in Hin;
      repeat match type of Hin with
             | _ \/ _ => destruct Hin as [Hin | Hin]
             | False => contradiction
             | ex _ => destruct Hin as (? & [=] & ?)
             | _ = _ => injection Hin as <- <- || discriminate Hin
             end;
      solve [ auto
            | right; left;
              match goal with E : admits W cfg _ = _ |- _ => rewrite E end;
              repeat match goal with E : _ = _ :> bool |- _ => rewrite E end; reflexivity ]
    | (* a new record *)
      right; eexists; eexists;
      split; [reflexivity|]; split; [reflexivity|]; cbn [url];
      split; [assumption|];
      split; [match goal with E : admits W cfg _ = _ |- _ => rewrite E end;
              repeat match goal with E : _ = _ :> bool |- _ => rewrite E end; reflexivity|];
      split; [rewrite ?in_app_iff; cbn [In]; eauto 6|];
      intros d' c Hin; rewrite ?in_app_iff, ?in_map_iff in Hin; cbn [In] in Hin;
      repeat match type of Hin with
             | _ \/ _ => destruct Hin as [Hin | Hin]
             | False => contradiction
             | ex _ => destruct Hin as (? & [=] & ?)
             | _ = _ => injection Hin as <- <- || discriminate Hin
             end; auto ].
Qed.

Definition records_ok (s : CrawlState) : Prop :=
  (forall u, u ∈ recorded s <-> In u (map url (pages s)))
  /\ NoDup (map url (pages s))
  /\ (forall p, In p (pages s) ->
        admits W cfg (url p) = true /\ exists d, In (Resolved d (url p)) (log s))
  /\ (forall d c, In (Resolved d c) (log s) -> admits W cfg c = true ->
        In c (map url (pages s))).

Lemma initial_records (normalizedRoot : string) : records_ok (initial normalizedRoot).
Proof.
  unfold records_ok, initial. cbn [recorded pages log map]. repeat split.
  - intros H. set_solver.
  - intros [].
  - apply NoDup_nil_2.
  - destruct H.
  - destruct H.
  - intros d c [[=] | []].
Qed.

Lemma step_records (s s' : CrawlState) :
  records_ok s -> step W cfg s = Next s' -> records_ok s'.
Proof.
  intros (Hrec & Hnd & Hpg & Hres) Hstep.
  apply step_Next in Hstep as (current & remaining & _ & _ & Hit).
  pose proof (iteration_adds W cfg _ _ _ Hit) as (events & items & Hlog & _).
  cbn [log setQueue] in Hlog.
  assert (Hsub : forall e, In e (log s) -> In e (log s')).
  { intros e. rewrite Hlog, in_app_iff. auto. }
  apply iteration_records in Hit.
  cbn [pages recorded log setQueue] in Hit.
  destruct Hit as [(Hp & Hr & Hnew) | (p & d & Hp & Hr & Hfresh & Hadm & Hin & Hnew)].
  - unfold records_ok. rewrite Hp, Hr. repeat split; try assumption.
    + apply Hrec.
    + apply Hrec.
    + apply Hpg. assumption.
    + destruct (Hpg p H) as (_ & d & Hd). exists d. auto.
    + intros d c Hin Hadm.
      destruct (Hnew d c Hin) as [Hold | [Hno | Hthere]].
      * eapply Hres; eassumption.
      * congruence.
      * apply Hrec. assumption.
  - unfold records_ok. rewrite Hp, Hr, map_app. cbn [map]. repeat split.
    + rewrite elem_of_union, elem_of_singleton, in_app_iff, Hrec. cbn [In]. intuition.
    + rewrite elem_of_union, elem_of_singleton, in_app_iff, Hrec. cbn [In]. intuition.
    + apply NoDup_app. split; [assumption|]. split.
      * intros u Hu ->%list_elem_of_singleton. apply Hfresh, Hrec.
        apply list_elem_of_In. assumption.
      * apply NoDup_singleton.
    + apply in_app_iff in H as [H | [<- | []]]; [apply Hpg; assumption | assumption].
    + apply in_app_iff in H as [H | [<- | []]].
      * destruct (Hpg p0 H) as (_ & d0 & Hd0). exists d0. auto.
      * exists d. assumption.
    + intros d' c Hc Hadm'. rewrite in_app_iff. cbn [In].
      destruct (Hnew d' c Hc) as [Hold | ->]; [|auto].
      left. eapply Hres; eassumption.
Qed.

Lemma reachable_records (normalizedRoot : string) (s : CrawlState) :
  reachable W cfg (initial normalizedRoot) s -> records_ok s.
Proof.
  induction 1 as [|s s' _ IH Hstep].
  - apply initial_records.
  - eapply step_records; eassumption.
Qed.

(** Counting the records of one canonical. *)
Lemma recordsFor_absent (c : string) (ps : list PageEntry) :
  ~ In c (map url ps) -> recordsFor c ps = [].
Proof.
  induction ps as [|p ps IH]; [reflexivity|]. cbn [map In recordsFor List.filter].
  intros H. destruct (String.eqb_spec (url p) c) as [E | E]; [tauto|].
  apply IH. tauto.
Qed.

Lemma recordsFor_NoDup (c : string) (ps : list PageEntry) :
  NoDup (map url ps) -> List.length (recordsFor c ps) <= 1.
Proof.
  induction ps as [|p ps IH]; [simpl; lia|]. cbn [map recordsFor List.filter].
  intros Hnd. apply NoDup_cons in Hnd as [Hnotin Hnd].
  destruct (String.eqb_spec (url p) c) as [E | E].
  - subst c. fold (recordsFor (url p) ps). rewrite recordsFor_absent; [simpl; lia|].
    rewrite <- list_elem_of_In. assumption.
  - apply IH. assumption.
Qed.

Lemma recordsFor_present (c : string) (ps : list PageEntry) :
  In c (map url ps) -> 1 <= List.length (recordsFor c ps).
Proof.
  induction ps as [|p ps IH]; [intros []|]. cbn [map In recordsFor List.filter].
  intros [E | H].
  - rewrite E, String.eqb_refl. simpl. lia.
  - destruct (String.eqb (url p) c); [simpl; lia | apply IH; assumption].
Qed.

End Records.

(** What the loop keeps of the records, the canonical of a page being
    the text the loop computes for it ([normalizeUrl] of the raw [href] of
    the canonical link, or of the final URL): in every state the crawl
    reaches, the pages list holds at most one record per canonical; when
    some dequeued URL resolved to the canonical [c] and [c] passes the gates
    of the loop (same host as the root, path not blocked, robots allow), it
    holds exactly one record for [c]; a canonical that fails a gate has no
    record; and the [url] of every record is the canonical some dequeued
    URL resolved to. *)
Lemma one_record_per_canonical (W : Crawl.World) (cfg : Crawl.Config)
    (normalizedRoot : string) (s : Crawl.CrawlState) :
  Crawl.reachable W cfg (Crawl.initial normalizedRoot) s ->
  (forall c, List.length (Crawl.recordsFor c (Crawl.pages s)) <= 1)
  /\ (forall d c,
        In (Crawl.Resolved d c) (Crawl.log s) ->
        Crawl.admits W cfg c = true ->
        List.length (Crawl.recordsFor c (Crawl.pages s)) = 1)
  /\ (forall c, Crawl.admits W cfg c = false -> Crawl.recordsFor c (Crawl.pages s) = [])
  /\ (forall p, In p (Crawl.pages s) ->
        exists d, In (Crawl.Resolved d (Crawl.url p)) (Crawl.log s)).
Proof.
  intros Hr. destruct (reachable_records W cfg normalizedRoot s Hr) as (_ & Hnd & Hpg & Hres).
  split; [|split; [|split]].
  - intros c. apply recordsFor_NoDup. exact Hnd.
  - intros d c Hin Hadm.
    pose proof (recordsFor_NoDup c _ Hnd).
    pose proof (recordsFor_present c _ (Hres d c Hin Hadm)). lia.
  - intros c Hadm. apply recordsFor_absent. intros Hin.
    apply in_map_iff in Hin as (p & <- & Hp).
    destruct (Hpg p Hp) as [Hyes _]. congruence.
  - intros p Hp. apply Hpg. exact Hp.
Qed.

(** The gates are by design: two distinct dequeued URLs resolve to the same
    canonical, the denylisted [/login], and the result holds no record for
    it. *)
Example no_record_for_blocked_canonical :
  let payload := Scenario.request "example.com" Js.JUndefined in
  let cfg := Crawl.configOf Scenario.blockedCanonical payload
               (Scenario.rootOf Scenario.blockedCanonical Scenario.home) in
  let s := Crawl.stateAfter Scenario.blockedCanonical cfg 5 (Crawl.initial Scenario.home) in
  In (Crawl.Resolved "https://example.com/a" "https://example.com/login") (Crawl.log s)
  /\ In (Crawl.Resolved "https://example.com/b" "https://example.com/login") (Crawl.log s)
  /\ Crawl.recordsFor "https://example.com/login" (Crawl.pages s) = []
  /\ exists only,
       Crawl.POST Scenario.blockedCanonical 5 payload
       = Some (Crawl.Sitemap "json" "example.com" [only])
       /\ Crawl.url only = Scenario.home.
Proof.
  cbv zeta.
  split; [vm_compute; repeat first [left; reflexivity | right]|].
  split; [vm_compute; repeat first [left; reflexivity | right]|].
  split; [vm_compute; reflexivity|].
  eexists. split; vm_compute; reflexivity.
Qed.

(** C4 fails in the code.  The pages [/a] and [/b] of a site both carry
    [<link rel="canonical" href="/c">].  Resolved against the address of the
    page, as the library's [collectCanonical] resolves it, the link names
    the page [https://example.com/c] of the site in both cases, and that
    address passes the gates of the loop.  The loop hands the raw [href] to
    [normalizeUrl] without a base, which reads [/c] as the host [c]: both
    pages resolve to [https://c/], which is off the site, so the result
    holds no record for the canonical of the two pages (and none for the
    pages themselves). *)
Theorem relative_canonical_gets_no_record :
  let W := Scenario.relativeCanonical in
  let payload := Scenario.request "example.com" Js.JUndefined in
  let cfg := Crawl.configOf W payload (Scenario.rootOf W Scenario.home) in
  let s := Crawl.stateAfter W cfg 5 (Crawl.initial Scenario.home) in
  let a := "https://example.com/a"%string in
  let b := "https://example.com/b"%string in
  let c := "https://example.com/c"%string in
  (In (Crawl.Fetched {| Crawl.item_url := a; Crawl.depth := 1 |} a) (Crawl.log s)
   /\ In (Crawl.Fetched {| Crawl.item_url := b; Crawl.depth := 1 |} b) (Crawl.log s))
  /\ (ExtractorDom.collectCanonical W Scenario.relativePage a = Some c
      /\ ExtractorDom.collectCanonical W Scenario.relativePage b = Some c
      /\ Crawl.admits W cfg c = true)
  /\ (In (Crawl.Resolved a "https://c/") (Crawl.log s)
      /\ In (Crawl.Resolved b "https://c/") (Crawl.log s))
  /\ Crawl.recordsFor c (Crawl.pages s) = []
  /\ Crawl.POST W 5 payload
     = Some (Crawl.Sitemap "json" "example.com"
               [ {| Crawl.url := Scenario.home; Crawl.ai_url := "https://ai.example.com/";
                    Crawl.type := Crawl.homepage; Crawl.priority := 1 |} ]).
Proof.
  cbv zeta.
  split; [split; vm_compute; repeat first [left; reflexivity | right]|].
  split; [repeat split; vm_compute; reflexivity|].
  split; [split; vm_compute; repeat first [left; reflexivity | right]|].
  split; vm_compute; reflexivity.
Qed.

(** ** Regular expressions: greedy runs of one character set *)

Section Runs.
Import Regex.
Variable p : ascii -> bool.

Lemma length_dropRun (s : string) :
  String.length s - String.length (dropRun p s) = runLen p s
  /\ String.length (dropRun p s) <= String.length s.
Proof.
  induction s as [|a s [IH1 IH2]]; simpl; [lia|].
  destruct (p a); simpl; lia.
Qed.

(** A greedy [p{lo,}] that nothing follows takes the whole run. *)
Lemma iterate_run (step : cursor -> Cont -> option cursor) (budget lo : nat)
    (before : option ascii) (s : string) (cs : list (nat * string)) :
  (forall c k, step c k = run (Char p) c k) ->
  lo + String.length s <= budget ->
  exists last,
    iterate step true budget lo None (Cursor before s cs) Some
    = if (lo <=? runLen p s)%nat then Some (Cursor last (dropRun p s) cs) else None.
Proof.
  intros Hstep. revert budget lo before.
  induction s as [|a s IH]; intros budget lo before Hb.
  - destruct budget as [|budget]; destruct lo as [|lo]; simpl in *;
      rewrite ?Hstep; simpl; eauto; lia.
  - destruct budget as [|budget]; [simpl in Hb; lia|].
    destruct lo as [|lo];
      cbn [iterate exhausted decr runLen dropRun]; rewrite Hstep; cbn [run rest caps];
      destruct (p a) eqn:Hp; cbn [orElse Nat.leb]; eauto.
    + unfold consumed. cbn [rest String.length].
      replace (S (String.length s) - String.length s) with 1 by lia. cbn [Nat.eqb].
      destruct (IH budget 0 (Some a)) as [last E]; [simpl in Hb; lia|].
      rewrite E. cbn [Nat.leb orElse]. eauto.
    + destruct (IH budget lo (Some a)) as [last E]; [simpl in Hb; lia|].
      rewrite E. eauto.
Qed.

Lemma matchAt_run (lo : nat) (before : option ascii) (s : string) :
  exists last,
    matchAt (Repeat true lo None (Char p)) before s
    = if (lo <=? runLen p s)%nat then Some (Cursor last (dropRun p s) []) else None.
Proof.
  unfold matchAt. cbn [run rest]. apply iterate_run; [reflexivity | lia].
Qed.


Variable lo : nat.
Variable repl : string.
Hypothesis lo_positive : 1 <= lo.

Let r : regex := Repeat true lo None (Char p).
Let f : list (nat * string) -> string := fun _ => repl.

Lemma replaceFrom_nil (before : option ascii) (k : nat) : replaceFrom r f before "" k = "".
Proof.
  destruct k; [|reflexivity]. cbn [replaceFrom].
  destruct (matchAt_run lo before "") as [last E]. fold r in E. rewrite E.
  cbn [runLen]. destruct (Nat.leb_spec lo 0); [lia | reflexivity].
Qed.

(** Where nothing matches, a global replace changes nothing. *)
Lemma replaceFrom_noLongRun (s : string) (before : option ascii) :
  noLongRun p lo s = true -> replaceFrom r f before s 0 = s.
Proof.
  revert before. induction s as [|a s IH]; intros before H.
  - apply replaceFrom_nil.
  - cbn [noLongRun] in H. apply andb_true_iff in H as [Hrun Hrest].
    cbn [replaceFrom]. destruct (matchAt_run lo before (String a s)) as [last E].
    fold r in E. rewrite E.
    apply Nat.ltb_lt in Hrun. destruct (Nat.leb_spec lo (runLen p (String a s))); [lia|].
    rewrite IH; [reflexivity | assumption].
Qed.

Hypothesis repl_short :
  forall t, runLen p t = 0 -> noLongRun p lo t = true -> noLongRun p lo (repl ++ t) = true.

(** After a global replace of the runs of [lo] or more, none is left. *)
Lemma replaceFrom_runs (s : string) :
  (forall before,
      noLongRun p lo (replaceFrom r f before s 0) = true
      /\ (runLen p s < lo -> runLen p (replaceFrom r f before s 0) = runLen p s))
  /\ (forall before k, runLen p s = k ->
        noLongRun p lo (replaceFrom r f before s k) = true
        /\ runLen p (replaceFrom r f before s k) = 0).
Proof.
  induction s as [|a s [IHL IHS]].
  - split; intros; rewrite replaceFrom_nil; cbn [noLongRun runLen];
      (split; [apply andb_true_iff; split; [apply Nat.ltb_lt; lia | reflexivity] | reflexivity]).
  - assert (L : forall before,
               noLongRun p lo (replaceFrom r f before (String a s) 0) = true
               /\ (runLen p (String a s) < lo ->
                   runLen p (replaceFrom r f before (String a s) 0) = runLen p (String a s))).
    { intros before. cbn [replaceFrom].
      destruct (matchAt_run lo before (String a s)) as [last E]. fold r in E. rewrite E.
      destruct (Nat.leb_spec lo (runLen p (String a s))) as [Hlong | Hshort].
      - cbn [rest caps]. unfold f at 1.
        destruct (length_dropRun (String a s)) as [Hlen _]. rewrite Hlen.
        cbn [runLen] in *. destruct (p a) eqn:Hp; [|lia].
        destruct (IHS (Some a) (runLen p s) eq_refl) as [Hn H0].
        split; [apply repl_short; assumption | lia].
      - destruct (IHL (Some a)) as [Hn Hkeep]. cbn [runLen noLongRun] in *.
        destruct (p a) eqn:Hp.
        + rewrite Hkeep by lia. split; [|lia].
          apply andb_true_iff. split; [apply Nat.ltb_lt; lia | assumption].
        + split; [|reflexivity].
          apply andb_true_iff. split; [apply Nat.ltb_lt; lia | assumption]. }
    split; [exact L|].
    intros before k Hk. destruct k as [|k].
    + destruct (L before) as [Hn Hkeep]. split; [assumption|]. rewrite Hkeep; lia.
    + cbn [replaceFrom]. cbn [runLen] in Hk. destruct (p a); [|discriminate].
      apply IHS. lia.
Qed.

End Runs.

(** ** The sanitizer on its own output (claim C7) *)

Section Trimming.
Import Js Regex.
Variable p : ascii -> bool.
Variable lo : nat.

Lemma noLongRun_tail (a : ascii) (s : string) :
  noLongRun p lo (String a s) = true -> noLongRun p lo s = true.
Proof. cbn [noLongRun]. intros H. apply andb_true_iff in H. tauto. Qed.

Lemma noLongRun_trimStart (s : string) :
  noLongRun p lo s = true -> noLongRun p lo (trimStart s) = true.
Proof.
  induction s as [|a s IH]; [trivial|]. intros H. cbn [trimStart].
  destruct (isWhiteSpace a); [|exact H]. apply IH. eapply noLongRun_tail. exact H.
Qed.

Lemma runLen_trimEnd (s : string) : runLen p (trimEnd s) <= runLen p s.
Proof.
  induction s as [|a s IH]; [simpl; lia|]. cbn [trimEnd].
  destruct (trimEnd s) as [|b t] eqn:E.
  - destruct (isWhiteSpace a); cbn [runLen]; destruct (p a); simpl; lia.
  - cbn [runLen] in *. destruct (p a); lia.
Qed.

Lemma noLongRun_trimEnd (s : string) :
  noLongRun p lo s = true -> noLongRun p lo (trimEnd s) = true.
Proof.
  induction s as [|a s IH]; [trivial|]. intros H.
  pose proof (runLen_trimEnd (String a s)) as Hle.
  cbn [noLongRun] in H. apply andb_true_iff in H as [Hrun Hrest].
  apply Nat.ltb_lt in Hrun. specialize (IH Hrest).
  cbn [trimEnd] in *. destruct (trimEnd s) as [|b t].
  - destruct (isWhiteSpace a); [exact IH|].
    cbn [noLongRun]. apply andb_true_iff. split; [apply Nat.ltb_lt; lia | exact IH].
  - cbn [noLongRun]. apply andb_true_iff. split; [apply Nat.ltb_lt; lia | exact IH].
Qed.

Lemma noLongRun_trim (s : string) :
  noLongRun p lo s = true -> noLongRun p lo (trim s) = true.
Proof. intros H. apply noLongRun_trimEnd, noLongRun_trimStart, H. Qed.

End Trimming.

Section Sanitized.
Import Js Regex Sanitizer.

Lemma two_newlines_short (t : string) :
  runLen (Ascii.eqb LF) t = 0 -> noLongRun (Ascii.eqb LF) 3 t = true -> noLongRun (Ascii.eqb LF) 3 (nl ++ nl ++ t) = true.
Proof.
  intros H0 Hn. change (nl ++ nl ++ t)%string with (String LF (String LF t)).
  cbn [noLongRun runLen]. rewrite Ascii.eqb_refl, H0, Hn. reflexivity.
Qed.

Lemma collapseBlankLines_noLongRun (s : string) :
  noLongRun (Ascii.eqb LF) 3 (collapseBlankLines s) = true.
Proof.
  unfold collapseBlankLines, replaceAll, blankLines, atLeast, lit.
  assert (Hrepl : forall t, runLen (Ascii.eqb LF) t = 0 ->
                    noLongRun (Ascii.eqb LF) 3 t = true ->
                    noLongRun (Ascii.eqb LF) 3 ((nl ++ nl) ++ t) = true).
  { intros t. change ((nl ++ nl) ++ t)%string with (nl ++ nl ++ t)%string.
    apply two_newlines_short. }
  destruct (replaceFrom_runs (Ascii.eqb LF) 3 (nl ++ nl) ltac:(lia) Hrepl s) as [L _].
  apply L.
Qed.

Lemma collapseBlankLines_fixed (s : string) :
  noLongRun (Ascii.eqb LF) 3 s = true -> collapseBlankLines s = s.
Proof.
  unfold collapseBlankLines, replaceAll, blankLines, atLeast, lit.
  apply (replaceFrom_noLongRun (Ascii.eqb LF) 3 (nl ++ nl)). lia.
Qed.

Lemma removeDashes_noLongRun (s : string) :
  noLongRun (Ascii.eqb "-") 20 (removeDashes s) = true.
Proof.
  unfold removeDashes, replaceAll, dashRun, atLeast, lit, erase.
  destruct (replaceFrom_runs (Ascii.eqb "-") 20 "" ltac:(lia) (fun t _ H => H) s) as [L _].
  apply L.
Qed.

Lemma removeDashes_fixed (s : string) :
  noLongRun (Ascii.eqb "-") 20 s = true -> removeDashes s = s.
Proof.
  unfold removeDashes, replaceAll, dashRun, atLeast, lit, erase.
  apply (replaceFrom_noLongRun (Ascii.eqb "-") 20 ""). lia.
Qed.

End Sanitized.

(** C7, as amended.  Of the four passes only the blank-line collapse
    (pass 7) is a fixed point on the pipeline's own output: the output never
    holds three newlines in a row, so the pass leaves it unchanged.  As
    passes on their own, the dash removal (pass 2) and the blank-line
    collapse are idempotent. *)
Theorem blank_line_collapse_fixed_on_output (text : string) :
  Sanitizer.collapseBlankLines (Sanitizer.sanitizeMarkdown text)
  = Sanitizer.sanitizeMarkdown text
  /\ Sanitizer.collapseBlankLines (Sanitizer.collapseBlankLines text)
     = Sanitizer.collapseBlankLines text
  /\ Sanitizer.removeDashes (Sanitizer.removeDashes text) = Sanitizer.removeDashes text.
Proof.
  split; [|split].
  - unfold Sanitizer.sanitizeMarkdown.
    apply collapseBlankLines_fixed, noLongRun_trim, collapseBlankLines_noLongRun.
  - apply collapseBlankLines_fixed, collapseBlankLines_noLongRun.
  - apply removeDashes_fixed, removeDashes_noLongRun.
Qed.

(** C7 as stated fails for passes 1 to 3: a later pass, or the removal
    itself, can produce new matches, which a second run then removes. *)
Lemma sanitizer_passes_fire_again :
  (let text := ("Drag and" ++ Scenario.dashes10 ++ Scenario.dashes10 ++ " drop")%string in
   Sanitizer.sanitizeMarkdown text = "### Drag and drop"%string
   /\ Sanitizer.removeNoise (Sanitizer.sanitizeMarkdown text) = ""%string)
  /\ (let text := (Scenario.dashes10 ++ "explore more -" ++ Scenario.dashes10)%string in
      Sanitizer.sanitizeMarkdown text = (Scenario.dashes10 ++ Scenario.dashes10)%string
      /\ Sanitizer.removeDashes (Sanitizer.sanitizeMarkdown text) = ""%string)
  /\ (let text := "explore explore more -more -x"%string in
      Sanitizer.sanitizeMarkdown text = "explore more -x"%string
      /\ Sanitizer.removeFooter (Sanitizer.sanitizeMarkdown text) = "x"%string).
Proof. vm_compute. repeat split; reflexivity. Qed.

(** ** URL texts: characters and strings *)

(** Facts about one character are settled by going through all 256. *)
Ltac all_chars c :=
  destruct c as [[] [] [] [] [] [] [] []]; vm_compute; try reflexivity; try discriminate;
  try tauto.

Section UrlStrings.
Import Js Url.

Lemma lowerChar_idempotent (c : ascii) : lowerChar (lowerChar c) = lowerChar c.
Proof. all_chars c. Qed.

Lemma hostChar_visible (c : ascii) : hostChar c = true -> isC0OrSpace c = false.
Proof. all_chars c. Qed.

Lemma hostChar_not_delimiter (c : ascii) : hostChar c = true -> oneOf "/\?#" c = false.
Proof. all_chars c. Qed.

Lemma hostChar_not_colon (c : ascii) : hostChar c = true -> oneOf ":" c = false.
Proof. all_chars c. Qed.

Lemma hostChar_not_slash (c : ascii) : hostChar c = true -> isSlash c = false.
Proof. all_chars c. Qed.

Lemma pathChar_visible (c : ascii) : pathChar c = true -> isC0OrSpace c = false.
Proof. all_chars c. Qed.

Lemma pathChar_not_delimiter (c : ascii) : pathChar c = true -> oneOf "?#" c = false.
Proof. all_chars c. Qed.

Lemma pathChar_toSlash (c : ascii) : pathChar c = true -> toSlash c = c.
Proof. all_chars c. Qed.

Lemma pathChar_plain (c : ascii) : pathChar c = true -> inPathSet c = false.
Proof. all_chars c. Qed.

Lemma toSlash_no_backslash (c : ascii) : Ascii.eqb (toSlash c) "\" = false.
Proof. all_chars c. Qed.

Lemma pathChar_pctEncode (c : ascii) : every pathChar (pctEncode c) = true.
Proof. all_chars c. Qed.

Lemma pctEncode_no_slash (c : ascii) :
  every (fun a => negb (Ascii.eqb a "/")) (pctEncode c) = true.
Proof. all_chars c. Qed.

Lemma fragmentChar_visible (c : ascii) : fragmentChar c = true -> isC0OrSpace c = false.
Proof. all_chars c. Qed.

Lemma fragmentChar_plain (c : ascii) : fragmentChar c = true -> inFragmentSet c = false.
Proof. all_chars c. Qed.

Lemma digit_not_colon (c : ascii) : isDigit c = true -> oneOf ":" c = false.
Proof. all_chars c. Qed.

Lemma queryChar_visible (c : ascii) : queryChar c = true -> isC0OrSpace c = false.
Proof. all_chars c. Qed.

Lemma queryChar_not_hash (c : ascii) : queryChar c = true -> oneOf "#" c = false.
Proof. all_chars c. Qed.

Lemma queryChar_plain (c : ascii) : queryChar c = true -> inSpecialQuerySet c = false.
Proof. all_chars c. Qed.

Lemma queryChar_of_plain (c : ascii) : inSpecialQuerySet c = false -> queryChar c = true.
Proof. all_chars c. Qed.

Lemma queryChar_pctEncode (c : ascii) : every queryChar (pctEncode c) = true.
Proof. all_chars c. Qed.

Lemma fragmentChar_of_plain (c : ascii) : inFragmentSet c = false -> fragmentChar c = true.
Proof. all_chars c. Qed.

Lemma fragmentChar_pctEncode (c : ascii) : every fragmentChar (pctEncode c) = true.
Proof. all_chars c. Qed.

Lemma digit_visible (c : ascii) : isDigit c = true -> isC0OrSpace c = false.
Proof. all_chars c. Qed.

Lemma digit_not_delimiter (c : ascii) : isDigit c = true -> oneOf "/\?#" c = false.
Proof. all_chars c. Qed.

Lemma tab_is_blank (c : ascii) : isC0OrSpace c = false -> isTabOrNewline c = false.
Proof. all_chars c. Qed.

Lemma append_empty (s : string) : (s ++ "")%string = s.
Proof.
  induction s as [|c s IH]; [reflexivity|].
  change (String c (s ++ "") = String c s). rewrite IH. reflexivity.
Qed.

Lemma append_associative (a b c : string) :
  ((a ++ b) ++ c)%string = (a ++ (b ++ c))%string.
Proof.
  induction a as [|x a IH]; [reflexivity|].
  change (String x ((a ++ b) ++ c) = String x (a ++ (b ++ c))). rewrite IH. reflexivity.
Qed.

(** Strings all of whose characters satisfy a test. *)
Lemma every_append (q : ascii -> bool) (a b : string) :
  every q (a ++ b) = every q a && every q b.
Proof.
  induction a as [|c a IH]; [reflexivity|]. simpl. rewrite IH.
  apply andb_assoc.
Qed.

Lemma every_impl (q q' : ascii -> bool) (s : string) :
  (forall c, q c = true -> q' c = true) -> every q s = true -> every q' s = true.
Proof.
  intros Hq. induction s as [|c s IH]; [trivial|]. cbn [every].
  rewrite !andb_true_iff. intros [H1 H2]. auto.
Qed.

Lemma every_encodeWith (inSet q : ascii -> bool) (s : string) :
  (forall c, inSet c = false -> q c = true) ->
  (forall c, every q (pctEncode c) = true) ->
  every q (encodeWith inSet s) = true.
Proof.
  intros Hplain Hpct. induction s as [|c s IH]; [reflexivity|]. cbn [encodeWith].
  destruct (inSet c) eqn:E.
  - rewrite every_append, Hpct, IH. reflexivity.
  - cbn [every]. rewrite (Hplain c E), IH. reflexivity.
Qed.

Lemma encodeWith_plain (inSet : ascii -> bool) (s : string) :
  every (fun c => negb (inSet c)) s = true -> encodeWith inSet s = s.
Proof.
  induction s as [|c s IH]; [reflexivity|]. cbn [every encodeWith].
  rewrite andb_true_iff, negb_true_iff. intros [-> H]. rewrite IH; trivial.
Qed.

Lemma mapChars_fixed (f : ascii -> ascii) (q : ascii -> bool) (s : string) :
  (forall c, q c = true -> f c = c) -> every q s = true -> mapChars f s = s.
Proof.
  intros Hf. induction s as [|c s IH]; [reflexivity|]. cbn [every mapChars].
  rewrite andb_true_iff. intros [H1 H2]. rewrite (Hf c H1), IH; trivial.
Qed.

Lemma dropWhile_none (q : ascii -> bool) (s : string) :
  every (fun c => negb (q c)) s = true -> dropWhile q s = s /\ dropWhileEnd q s = s
  /\ remove q s = s.
Proof.
  induction s as [|c s IH]; [auto|]. cbn [every dropWhile dropWhileEnd remove].
  rewrite andb_true_iff, negb_true_iff. intros [E H]. rewrite E.
  destruct (IH H) as (_ & -> & ->). destruct s; auto.
Qed.

(** [upTo]: the split is at the first stop character. *)
Lemma upTo_append (stop : ascii -> bool) (a b : string) :
  every (fun c => negb (stop c)) a = true ->
  match b with String c _ => stop c = true | "" => True end ->
  upTo stop (a ++ b) = (a, b).
Proof.
  intros Ha Hb. induction a as [|c a IH].
  - destruct b as [|c b]; [reflexivity|]. simpl in *. rewrite Hb. reflexivity.
  - cbn [every] in Ha. apply andb_true_iff in Ha as [Hc Ha]. apply negb_true_iff in Hc.
    simpl. rewrite Hc, (IH Ha). reflexivity.
Qed.

Lemma upTo_spec (stop : ascii -> bool) (s a b : string) :
  upTo stop s = (a, b) ->
  s = (a ++ b)%string /\ every (fun c => negb (stop c)) a = true.
Proof.
  revert a b. induction s as [|c s IH]; intros a b; cbn [upTo].
  - intros [= <- <-]. auto.
  - destruct (stop c) eqn:E.
    + intros [= <- <-]. auto.
    + destruct (upTo stop s) as [a' b'] eqn:E'. intros [= <- <-].
      destruct (IH a' b' eq_refl) as [-> Ha].
      split; [reflexivity | cbn [every]; rewrite E, Ha; reflexivity].
Qed.

Lemma toLowerCase_idempotent (s : string) : toLowerCase (toLowerCase s) = toLowerCase s.
Proof.
  induction s as [|c s IH]; [reflexivity|]. cbn [toLowerCase].
  rewrite lowerChar_idempotent, IH. reflexivity.
Qed.

End UrlStrings.

(** ** URL paths: segments and dot segments *)

Section UrlPaths.
Import Js Url.

(** *** Splitting and joining *)

Lemma splitChar_nonempty (sep : ascii) (s : string) : splitChar sep s <> [].
Proof.
  destruct s as [|c s]; cbn [splitChar]; [discriminate|].
  destruct (splitChar sep s); [discriminate|]. destruct (Ascii.eqb c sep); discriminate.
Qed.

Lemma join_cons (sep p : string) (ps : list string) :
  ps <> [] -> join sep (p :: ps) = (p ++ sep ++ join sep ps)%string.
Proof. destruct ps; [congruence | reflexivity]. Qed.

Lemma join_splitChar (sep : ascii) (s : string) :
  join (String sep "") (splitChar sep s) = s.
Proof.
  induction s as [|c s IH]; [reflexivity|]. cbn [splitChar].
  destruct (splitChar sep s) as [|piece pieces] eqn:E.
  - destruct (splitChar_nonempty sep s E).
  - destruct (Ascii.eqb_spec c sep) as [->|_].
    + rewrite join_cons by discriminate. rewrite IH. reflexivity.
    + destruct pieces as [|q pieces].
      * cbn [join] in *. rewrite IH. reflexivity.
      * rewrite join_cons in * by discriminate. simpl. rewrite <- IH. reflexivity.
Qed.

Definition without (sep : ascii) (s : string) : bool :=
  every (fun a => negb (Ascii.eqb a sep)) s.

Lemma splitChar_without (sep : ascii) (s : string) :
  without sep s = true -> splitChar sep s = [s].
Proof.
  unfold without. induction s as [|c s IH]; [reflexivity|]. cbn [every splitChar].
  rewrite andb_true_iff, negb_true_iff. intros [E H]. rewrite (IH H), E. reflexivity.
Qed.

Lemma splitChar_separator (sep : ascii) (a b : string) :
  without sep a = true ->
  splitChar sep (a ++ String sep b) = a :: splitChar sep b.
Proof.
  unfold without. induction a as [|c a IH].
  - intros _. simpl. destruct (splitChar sep b) as [|q qs] eqn:E.
    + destruct (splitChar_nonempty sep b E).
    + rewrite Ascii.eqb_refl. reflexivity.
  - cbn [every]. rewrite andb_true_iff, negb_true_iff. intros [E H].
    simpl. rewrite (IH H), E. reflexivity.
Qed.

Lemma splitChar_append (sep : ascii) (a b : string) :
  splitChar sep (a ++ String sep b) = (splitChar sep a ++ splitChar sep b)%list.
Proof.
  induction a as [|c a IH].
  - apply (splitChar_separator sep "" b). reflexivity.
  - simpl. rewrite IH. destruct (splitChar sep a) as [|q qs] eqn:E.
    + destruct (splitChar_nonempty sep a E).
    + simpl. destruct (Ascii.eqb c sep); reflexivity.
Qed.

Lemma splitChar_join (sep : ascii) (l : list string) :
  l <> [] -> Forall (fun seg => without sep seg = true) l ->
  splitChar sep (join (String sep "") l) = l.
Proof.
  induction l as [|p l IH]; [congruence|]. intros _ H.
  inversion H as [|? ? Hp Hl]; subst.
  destruct l as [|q l].
  - apply splitChar_without, Hp.
  - rewrite join_cons by discriminate.
    change (p ++ String sep "" ++ join (String sep "") (q :: l))%string
      with (p ++ String sep (join (String sep "") (q :: l)))%string.
    rewrite splitChar_separator by exact Hp. rewrite IH; [reflexivity | discriminate | exact Hl].
Qed.

Lemma splitChar_pieces (sep : ascii) (s : string) :
  Forall (fun seg => without sep seg = true) (splitChar sep s).
Proof.
  induction s as [|c s IH]; [repeat constructor|]. cbn [splitChar].
  destruct (splitChar sep s) as [|q qs]; [repeat constructor|].
  inversion IH; subst.
  destruct (Ascii.eqb c sep) eqn:E; repeat constructor; trivial.
  unfold without in *. cbn [every]. rewrite E. simpl. assumption.
Qed.

Lemma every_splitChar (q : ascii -> bool) (sep : ascii) (s : string) :
  every q s = true -> Forall (fun seg => every q seg = true) (splitChar sep s).
Proof.
  induction s as [|c s IH]; [repeat constructor|]. cbn [every splitChar].
  rewrite andb_true_iff. intros [Hc H]. specialize (IH H).
  destruct (splitChar sep s) as [|p ps]; [repeat constructor|].
  inversion IH; subst.
  destruct (Ascii.eqb c sep); repeat constructor; trivial.
  cbn [every]. rewrite Hc. assumption.
Qed.

Lemma every_join (q : ascii -> bool) (sep : ascii) (l : list string) :
  q sep = true -> Forall (fun seg => every q seg = true) l ->
  every q (join (String sep "") l) = true.
Proof.
  intros Hsep. induction l as [|p l IH]; [reflexivity|]. intros H.
  inversion H as [|? ? Hp Hl]; subst. destruct l as [|p' l]; [exact Hp|].
  rewrite join_cons by discriminate. rewrite !every_append, Hp. cbn [every].
  rewrite Hsep. apply IH, Hl.
Qed.

(** *** Dot segments *)

Lemma resolve_nonempty (segs stack : list string) : segs <> [] -> resolve stack segs <> [].
Proof.
  revert stack. induction segs as [|seg segs IH]; [congruence|]. intros stack _.
  destruct segs as [|seg' segs].
  - cbn [resolve]. destruct (isDoubleDot seg); [|destruct (isSingleDot seg)];
      cbn [rev]; intros E; apply app_eq_nil in E as [_ E]; discriminate.
  - cbn [resolve] in *.
    destruct (isDoubleDot seg); [|destruct (isSingleDot seg)]; apply IH; discriminate.
Qed.

(** [resolve] leaves no dot segment, and what holds of the segments it
    reads (and of the empty one) holds of those it returns. *)
Lemma resolve_segments (q : string -> Prop) (segs stack : list string) :
  q "" -> Forall q segs -> Forall (fun seg => q seg /\ isDot seg = false) stack ->
  Forall (fun seg => q seg /\ isDot seg = false) (resolve stack segs).
Proof.
  intros Hempty. revert stack. induction segs as [|seg segs IH]; intros stack Hsegs Hstack.
  - apply List.Forall_rev, Hstack.
  - inversion Hsegs as [|? ? Hseg Hrest]; subst. cbn [resolve].
    assert (Htl : Forall (fun seg => q seg /\ isDot seg = false) (List.tl stack))
      by (destruct stack; [constructor | inversion Hstack; assumption]).
    destruct (isDoubleDot seg) eqn:E2; [|destruct (isSingleDot seg) eqn:E1].
    + apply IH; [assumption|]. destruct segs; [constructor|]; auto.
    + apply IH; [assumption|]. destruct segs; [constructor|]; auto.
    + apply IH; [assumption|]. constructor; [|assumption].
      split; [assumption|]. unfold isDot. rewrite E1, E2. reflexivity.
Qed.

Lemma resolve_plain (segs stack : list string) :
  forallb (fun seg => negb (isDot seg)) segs = true ->
  resolve stack segs = (rev stack ++ segs)%list.
Proof.
  revert stack. induction segs as [|seg segs IH]; intros stack.
  - intros _. cbn [resolve]. rewrite app_nil_r. reflexivity.
  - cbn [forallb]. rewrite andb_true_iff, negb_true_iff. unfold isDot at 1.
    rewrite orb_false_iff. intros [[E1 E2] H]. cbn [resolve]. rewrite E1, E2.
    rewrite (IH _ H). cbn [rev]. rewrite <- app_assoc. reflexivity.
Qed.

(** *** Paths *)

Lemma startsWith_slash (p : string) :
  startsWith p "/" = true -> p = String "/" (tail p).
Proof.
  destruct p as [|c p]; [discriminate|]. cbn [startsWith tail].
  destruct (Ascii.eqb_spec c "/") as [->|]; [reflexivity | discriminate].
Qed.

Lemma encodeWith_path (seg : string) :
  every (fun c => negb (Ascii.eqb c "\")) seg = true ->
  every pathChar (encodeWith inPathSet seg) = true.
Proof.
  induction seg as [|c seg IH]; [reflexivity|]. cbn [every encodeWith].
  rewrite andb_true_iff. intros [Hc H]. destruct (inPathSet c) eqn:E.
  - rewrite every_append, pathChar_pctEncode. apply IH, H.
  - cbn [every]. unfold pathChar at 1. rewrite E, Hc. apply IH, H.
Qed.

Lemma encodeWith_without (inSet : ascii -> bool) (seg : string) :
  without "/" seg = true -> without "/" (encodeWith inSet seg) = true.
Proof.
  unfold without. induction seg as [|c seg IH]; [reflexivity|]. cbn [every encodeWith].
  rewrite andb_true_iff. intros [Hc H]. destruct (inSet c).
  - rewrite every_append, pctEncode_no_slash. apply IH, H.
  - cbn [every]. rewrite Hc. apply IH, H.
Qed.

Lemma every_mapChars (f : ascii -> ascii) (q : ascii -> bool) (s : string) :
  (forall c, q (f c) = true) -> every q (mapChars f s) = true.
Proof.
  intros H. induction s as [|c s IH]; [reflexivity|]. cbn [mapChars every].
  rewrite H. exact IH.
Qed.

Lemma every_tail (q : ascii -> bool) (s : string) :
  every q s = true -> every q (tail s) = true.
Proof.
  destruct s as [|c s]; [trivial|]. cbn [every tail]. rewrite andb_true_iff. tauto.
Qed.

(** What [canonPath] returns is a path of the model. *)
Lemma canonPath_pathOk (raw : string) : pathOk (canonPath raw) = true.
Proof.
  unfold canonPath. cbv zeta.
  set (body := if startsWith (mapChars toSlash raw) "/"
               then tail (mapChars toSlash raw) else mapChars toSlash raw).
  set (segs := map (encodeWith inPathSet) (splitChar "/" body)).
  assert (Hbody : every (fun c => negb (Ascii.eqb c "\")) body = true).
  { assert (H : every (fun c => negb (Ascii.eqb c "\")) (mapChars toSlash raw) = true)
      by (apply every_mapChars; intros c; rewrite toSlash_no_backslash; reflexivity).
    unfold body. destruct (startsWith _ "/"); [apply every_tail|]; exact H. }
  assert (Hsegs : Forall (fun seg => every pathChar seg = true /\ without "/" seg = true) segs).
  { unfold segs. apply List.Forall_map.
    pose proof (every_splitChar _ "/" body Hbody) as H1.
    pose proof (splitChar_pieces "/" body) as H2.
    rewrite List.Forall_forall in *. intros seg Hin.
    split; [apply encodeWith_path, H1, Hin | apply encodeWith_without, H2, Hin]. }
  pose proof (resolve_segments _ segs [] (conj eq_refl eq_refl) Hsegs (List.Forall_nil _)) as Hres.
  assert (Hne : resolve [] segs <> []).
  { apply resolve_nonempty. unfold segs. intros E. apply map_eq_nil in E.
    exact (splitChar_nonempty _ _ E). }
  unfold pathOk. cbn [tail].
  rewrite splitChar_join;
    [|exact Hne | eapply List.Forall_impl; [|exact Hres]; cbv beta; tauto].
  apply andb_true_iff. split; [apply andb_true_iff; split|].
  - destruct (join "/" (resolve [] segs)); reflexivity.
  - change (pathChar "/" && every pathChar (join "/" (resolve [] segs)) = true).
    apply andb_true_iff. split; [reflexivity|].
    apply every_join; [reflexivity|]. eapply List.Forall_impl; [|exact Hres]. cbv beta. tauto.
  - apply forallb_forall. rewrite List.Forall_forall in Hres. intros seg Hin.
    destruct (Hres seg Hin) as [_ ->]. reflexivity.
Qed.

Lemma encodeWith_segments (segs : list string) :
  Forall (fun seg => every pathChar seg = true) segs ->
  map (encodeWith inPathSet) segs = segs.
Proof.
  induction 1 as [|seg segs Hseg _ IH]; [reflexivity|]. cbn [map]. rewrite IH.
  rewrite encodeWith_plain; [reflexivity|].
  eapply every_impl; [|exact Hseg]. intros c Hc. cbv beta.
  rewrite (pathChar_plain c Hc). reflexivity.
Qed.

(** A path of the model is left as it is. *)
Lemma canonPath_fixed (p : string) : pathOk p = true -> canonPath p = p.
Proof.
  unfold pathOk. rewrite !andb_true_iff. intros [[Hs Hp] Hd]. unfold canonPath. cbv zeta.
  rewrite (mapChars_fixed toSlash pathChar p pathChar_toSlash Hp). rewrite Hs.
  assert (E : map (encodeWith inPathSet) (splitChar "/" (tail p)) = splitChar "/" (tail p))
    by (apply encodeWith_segments, every_splitChar, every_tail, Hp).
  rewrite E, (resolve_plain _ [] Hd). cbn [rev app]. rewrite join_splitChar.
  symmetry. apply startsWith_slash, Hs.
Qed.

Lemma pathOk_root : pathOk "/" = true.
Proof. reflexivity. Qed.

End UrlPaths.

(** ** Hosts: IPv4 addresses *)

Section Ipv4.
Import Js Url.

(** Facts about one octet are settled by going through all 256. *)
Definition octetOk (o : N) : bool :=
  let t := portText o in
  every isDigit t && negb (String.eqb t "") && numeric t
  && match ipv4Number t with Some n => N.eqb n o | None => false end.

Lemma octets_ok : forallb octetOk (map N.of_nat (seq 0 256)) = true.
Proof. vm_compute. reflexivity. Qed.

Lemma octet_ok (o : N) : (o < 256)%N -> octetOk o = true.
Proof.
  intros H. pose proof octets_ok as Hall. rewrite forallb_forall in Hall. apply Hall.
  apply in_map_iff. exists (N.to_nat o). split; [apply N2Nat.id|]. apply in_seq. lia.
Qed.

Lemma octet_facts (o : N) :
  (o < 256)%N ->
  every isDigit (portText o) = true /\ portText o <> ""
  /\ numeric (portText o) = true /\ ipv4Number (portText o) = Some o.
Proof.
  intros H. pose proof (octet_ok o H) as Hok. unfold octetOk in Hok. cbv zeta in Hok.
  rewrite !andb_true_iff in Hok. destruct Hok as [[[H1 H2] H3] H4].
  split; [exact H1|]. split; [|split; [exact H3|]].
  - intros E. rewrite E in H2. discriminate H2.
  - destruct (ipv4Number (portText o)) as [n|]; [|discriminate].
    apply N.eqb_eq in H4. congruence.
Qed.

Lemma digit_not_dot (c : ascii) : isDigit c = true -> negb (Ascii.eqb c ".") = true.
Proof. all_chars c. Qed.

(** Four octets in dotted-decimal form. *)
Definition dotted (o3 o2 o1 o0 : N) : string :=
  join "." [portText o3; portText o2; portText o1; portText o0].

Lemma ipv4Text_dotted (n : N) :
  ipv4Text n
  = dotted ((n / 16777216) mod 256) ((n / 65536) mod 256) ((n / 256) mod 256) (n mod 256).
Proof.
  unfold ipv4Text, dotted. cbn [map].
  change (256 ^ 3)%N with 16777216%N. change (256 ^ 2)%N with 65536%N.
  change (256 ^ 1)%N with 256%N. change (256 ^ 0)%N with 1%N.
  rewrite N.div_1_r. reflexivity.
Qed.

Section Octets.
Variables o3 o2 o1 o0 : N.
Hypothesis small3 : (o3 < 256)%N.
Hypothesis small2 : (o2 < 256)%N.
Hypothesis small1 : (o1 < 256)%N.
Hypothesis small0 : (o0 < 256)%N.

Lemma dotted_parts :
  splitChar "." (dotted o3 o2 o1 o0) = [portText o3; portText o2; portText o1; portText o0].
Proof.
  unfold dotted. apply splitChar_join; [discriminate|].
  repeat constructor; unfold without;
    (eapply every_impl; [apply digit_not_dot|]); apply octet_facts; assumption.
Qed.

Lemma dotted_chars :
  every (fun c => isDigit c || Ascii.eqb c ".") (dotted o3 o2 o1 o0) = true.
Proof.
  unfold dotted. apply every_join; [reflexivity|].
  repeat constructor;
    (eapply every_impl; [|apply octet_facts; eassumption]);
    intros c Hc; cbv beta; rewrite Hc; reflexivity.
Qed.

Lemma dotted_nonempty : dotted o3 o2 o1 o0 <> "".
Proof.
  destruct (octet_facts o3 small3) as (_ & Hne & _). unfold dotted.
  rewrite join_cons by discriminate. destruct (portText o3); [congruence | discriminate].
Qed.

Lemma dotted_endsInNumber : endsInNumber (dotted o3 o2 o1 o0) = true.
Proof.
  unfold endsInNumber. rewrite dotted_parts. cbn [rev app].
  destruct (octet_facts o0 small0) as (_ & Hne & Hnum & _).
  destruct (portText o0) as [|c t]; [congruence | exact Hnum].
Qed.

Lemma dotted_parse :
  parseIPv4 (dotted o3 o2 o1 o0)
  = Some (o0 + (o3 * 16777216 + (o2 * 65536 + (o1 * 256 + 0))))%N.
Proof.
  unfold parseIPv4, ipv4Parts. rewrite dotted_parts. cbv zeta. cbn [rev app].
  destruct (octet_facts o3 small3) as (_ & _ & _ & E3).
  destruct (octet_facts o2 small2) as (_ & _ & _ & E2).
  destruct (octet_facts o1 small1) as (_ & _ & _ & E1).
  destruct (octet_facts o0 small0) as (_ & Hne & _ & E0).
  destruct (portText o0) as [|c t] eqn:Et; [congruence|]. rewrite <- Et in *.
  cbn [List.length Nat.ltb Nat.leb map]. rewrite E3, E2, E1, E0.
  cbn [allSome option_map rev app existsb List.length Nat.sub N.of_nat Pos.of_succ_nat].
  rewrite !(proj2 (N.ltb_ge _ _)) by lia. cbn [orb].
  change (256 ^ 1)%N with 256%N.
  rewrite (proj2 (N.leb_gt _ _)) by lia.
  reflexivity.
Qed.

End Octets.

Lemma octets_sum (n : N) :
  (n < 4294967296)%N ->
  (n mod 256 + ((n / 16777216) mod 256 * 16777216
                + ((n / 65536) mod 256 * 65536 + ((n / 256) mod 256 * 256 + 0))))%N = n.
Proof.
  intros H.
  pose proof (N.div_mod n 256 ltac:(lia)).
  pose proof (N.div_mod (n / 256) 256 ltac:(lia)).
  pose proof (N.div_mod (n / 256 / 256) 256 ltac:(lia)).
  pose proof (N.mod_lt n 256 ltac:(lia)).
  pose proof (N.mod_lt (n / 256) 256 ltac:(lia)).
  pose proof (N.mod_lt (n / 256 / 256) 256 ltac:(lia)).
  assert (E2 : (n / 65536 = n / 256 / 256)%N) by (rewrite N.Div0.div_div; reflexivity).
  assert (E3 : (n / 16777216 = n / 256 / 256 / 256)%N)
    by (rewrite !N.Div0.div_div; reflexivity).
  assert (Hs : (n / 256 / 256 / 256 < 256)%N).
  { apply N.Div0.div_lt_upper_bound. apply N.Div0.div_lt_upper_bound.
    apply N.Div0.div_lt_upper_bound. lia. }
  rewrite E2, E3, (N.mod_small (n / 256 / 256 / 256) 256 Hs).
  pose proof (N.div_mod (n / 256 / 256) 256 ltac:(lia)). lia.
Qed.

(** The serializer writes what the parser reads back. *)
Lemma parseIPv4_ipv4Text (n : N) :
  (n < 4294967296)%N -> parseIPv4 (ipv4Text n) = Some n.
Proof.
  intros H. rewrite ipv4Text_dotted.
  rewrite dotted_parse by (apply N.mod_lt; lia). rewrite (octets_sum n H). reflexivity.
Qed.

Lemma allSome_length {A : Type} (l : list (option A)) (r : list A) :
  allSome l = Some r -> List.length r = List.length l.
Proof.
  revert r. induction l as [|[a|] l IH]; intros r; cbn [allSome]; try discriminate.
  - intros [= <-]. reflexivity.
  - destruct (allSome l) as [r'|]; [|discriminate]. intros [= <-].
    cbn [List.length]. rewrite (IH r' eq_refl). reflexivity.
Qed.

(** An IPv4 address has 32 bits. *)
Lemma parseIPv4_range (d : string) (n : N) : parseIPv4 d = Some n -> (n < 4294967296)%N.
Proof.
  unfold parseIPv4. cbv zeta.
  destruct (4 <? List.length (ipv4Parts d))%nat eqn:Elen; [discriminate|].
  destruct (allSome (map ipv4Number (ipv4Parts d))) as [numbers|] eqn:Enum; [|discriminate].
  apply allSome_length in Enum. rewrite length_map in Enum. apply Nat.ltb_ge in Elen.
  destruct numbers as [|a [|b [|c [|e [|f numbers]]]]]; cbn [List.length] in Enum;
    try lia; cbn [rev app]; try discriminate;
    cbn [existsb List.length Nat.sub N.of_nat Pos.of_succ_nat];
    repeat match goal with
           | |- context [(255 <? ?x)%N] => destruct (N.ltb_spec 255 x); cbn [orb]
           end; try discriminate;
    match goal with
    | |- context [(?p <=? ?x)%N] => destruct (N.leb_spec p x)
    end; try discriminate; intros [= <-]; cbn [ipv4Sum Nat.sub N.of_nat Pos.of_succ_nat];
    change (256 ^ 4)%N with 4294967296%N in *; change (256 ^ 3)%N with 16777216%N in *;
    change (256 ^ 2)%N with 65536%N in *; change (256 ^ 1)%N with 256%N in *; lia.
Qed.

End Ipv4.

(** ** Hosts: IPv6 addresses *)

Section Ipv6.
Import Js Url.

Definition piece (p : N) : Prop := (p < 65536)%N.

(** An IPv6 address: eight 16-bit pieces. *)
Definition address (a : list N) : Prop := List.length a = 8 /\ List.Forall piece a.

(** *** Hexadecimal digits *)

Definition nibbleOk (d : N) : bool :=
  match hexValue (hexChar d) with Some x => N.eqb x d | None => false end
  && isHexDigit (hexChar d).

Lemma nibbles_ok : forallb nibbleOk (map N.of_nat (seq 0 16)) = true.
Proof. vm_compute. reflexivity. Qed.

Lemma nibble_facts (d : N) :
  (d < 16)%N -> hexValue (hexChar d) = Some d /\ isHexDigit (hexChar d) = true.
Proof.
  intros H. pose proof nibbles_ok as Hall. rewrite forallb_forall in Hall.
  assert (Hin : In d (map N.of_nat (seq 0 16))).
  { apply in_map_iff. exists (N.to_nat d). split; [apply N2Nat.id|]. apply in_seq. lia. }
  specialize (Hall d Hin). unfold nibbleOk in Hall. apply andb_true_iff in Hall as [H1 H2].
  split; [|exact H2]. destruct (hexValue (hexChar d)) as [x|]; [|discriminate].
  apply N.eqb_eq in H1. congruence.
Qed.

Definition isHex (c : ascii) : bool :=
  match hexValue c with Some _ => true | None => false end.

Lemma hexValue_small (c : ascii) (d : N) : hexValue c = Some d -> (d < 16)%N.
Proof.
  destruct c as [[] [] [] [] [] [] [] []]; vm_compute; intros [= <-]; reflexivity.
Qed.

Lemma hexDigit_isHex (c : ascii) : isHexDigit c = true -> isHex c = true.
Proof. all_chars c. Qed.

Lemma isHex_not_colon (c : ascii) : isHex c = true -> Ascii.eqb c ":" = false.
Proof. all_chars c. Qed.

(** What follows a piece: nothing, or a character that is no hex digit. *)
Definition notHex (rest : string) : Prop :=
  match rest with
  | "" => True
  | String c _ => hexValue c = None
  end.

Definition digitsValue16 (ds : list N) (v : N) : N :=
  fold_left (fun acc d => (acc * 16 + d)%N) ds v.

Lemma readHex_digits (ds : list N) :
  forall (budget : nat) (rest : string) (v : N) (l : nat),
    List.Forall (fun d => (d < 16)%N) ds -> List.length ds <= budget -> notHex rest ->
    readHex budget (string_of_list_ascii (map hexChar ds) ++ rest) v l
    = (digitsValue16 ds v, l + List.length ds, rest).
Proof.
  induction ds as [|d ds IH]; intros budget rest v l Hds Hlen Hrest.
  - cbn [map string_of_list_ascii List.length digitsValue16 fold_left].
    rewrite Nat.add_0_r. change ("" ++ rest)%string with rest.
    destruct budget; [destruct rest; reflexivity|].
    destruct rest as [|c r]; [reflexivity|]. cbn [readHex]. cbn [notHex] in Hrest.
    rewrite Hrest. reflexivity.
  - apply List.Forall_cons_iff in Hds as [Hd Hds]. cbn [List.length] in Hlen.
    destruct budget as [|budget]; [lia|].
    cbn [map string_of_list_ascii].
    change (String (hexChar d) (string_of_list_ascii (map hexChar ds)) ++ rest)%string
      with (String (hexChar d) (string_of_list_ascii (map hexChar ds) ++ rest)).
    cbn [readHex]. rewrite (proj1 (nibble_facts d Hd)).
    rewrite (IH budget rest _ _ Hds ltac:(lia) Hrest).
    cbn [digitsValue16 fold_left List.length]. f_equal. f_equal. lia.
Qed.

Definition nibbles (p : N) : list N :=
  dropZeros [(p / 4096) mod 16; (p / 256) mod 16; (p / 16) mod 16]%N ++ [p mod 16]%N.

Lemma hexText_nibbles (p : N) : hexText p = string_of_list_ascii (map hexChar (nibbles p)).
Proof. reflexivity. Qed.

Lemma dropZeros_Forall (q : N -> Prop) (l : list N) :
  List.Forall q l -> List.Forall q (dropZeros l).
Proof.
  induction 1 as [|x l Hx Hl IH]; [constructor|]. cbn [dropZeros].
  destruct x; [exact IH | constructor; assumption].
Qed.

Lemma dropZeros_length (l : list N) : List.length (dropZeros l) <= List.length l.
Proof.
  induction l as [|x l IH]; [reflexivity|]. cbn [dropZeros]. destruct x; cbn [List.length]; lia.
Qed.

Lemma dropZeros_value (l m : list N) :
  digitsValue16 (dropZeros l ++ m) 0 = digitsValue16 (l ++ m) 0.
Proof.
  induction l as [|x l IH]; [reflexivity|]. cbn [dropZeros]. destruct x; [|reflexivity].
  rewrite IH. reflexivity.
Qed.

Lemma nibbles_small (p : N) : List.Forall (fun d => (d < 16)%N) (nibbles p).
Proof.
  unfold nibbles. apply List.Forall_app. split.
  - apply dropZeros_Forall. repeat constructor; apply N.mod_lt; lia.
  - repeat constructor. apply N.mod_lt. lia.
Qed.

Lemma nibbles_length (p : N) : 1 <= List.length (nibbles p) <= 4.
Proof.
  unfold nibbles. rewrite length_app. cbn [List.length].
  pose proof (dropZeros_length [(p / 4096) mod 16; (p / 256) mod 16; (p / 16) mod 16]%N) as H.
  cbn [List.length] in H. lia.
Qed.

Lemma nibbles_value (p : N) : piece p -> digitsValue16 (nibbles p) 0 = p.
Proof.
  unfold piece, nibbles. intros H. rewrite dropZeros_value.
  cbn [app digitsValue16 fold_left].
  pose proof (N.div_mod p 16 ltac:(lia)).
  pose proof (N.div_mod (p / 16) 16 ltac:(lia)).
  pose proof (N.div_mod (p / 16 / 16) 16 ltac:(lia)).
  assert (E2 : (p / 256 = p / 16 / 16)%N) by (rewrite N.Div0.div_div; reflexivity).
  assert (E3 : (p / 4096 = p / 16 / 16 / 16)%N) by (rewrite !N.Div0.div_div; reflexivity).
  assert (Hs : (p / 16 / 16 / 16 < 16)%N).
  { apply N.Div0.div_lt_upper_bound. apply N.Div0.div_lt_upper_bound.
    apply N.Div0.div_lt_upper_bound. lia. }
  rewrite E2, E3, (N.mod_small (p / 16 / 16 / 16) 16 Hs). lia.
Qed.

(** Reading a piece that the serializer wrote. *)
Lemma readHex_hexText (p : N) (rest : string) :
  piece p -> notHex rest ->
  exists len, readHex 4 (hexText p ++ rest) 0 0 = (p, len, rest) /\ len <> 0.
Proof.
  intros Hp Hrest. rewrite hexText_nibbles.
  rewrite (readHex_digits (nibbles p) 4 rest 0 0 (nibbles_small p)
             (proj2 (nibbles_length p)) Hrest).
  rewrite (nibbles_value p Hp). eexists. split; [reflexivity|].
  pose proof (nibbles_length p). lia.
Qed.

Lemma every_nibbles (ds : list N) :
  List.Forall (fun d => (d < 16)%N) ds ->
  every isHexDigit (string_of_list_ascii (map hexChar ds)) = true.
Proof.
  induction 1 as [|d ds Hd _ IH]; [reflexivity|]. cbn [map string_of_list_ascii every].
  rewrite (proj2 (nibble_facts d Hd)). exact IH.
Qed.

Lemma hexText_chars (p : N) : every isHexDigit (hexText p) = true.
Proof. rewrite hexText_nibbles. apply every_nibbles, nibbles_small. Qed.

Lemma hexText_head (p : N) :
  exists c t, hexText p = String c t /\ isHex c = true.
Proof.
  pose proof (hexText_chars p) as H. rewrite hexText_nibbles in *.
  pose proof (nibbles_length p) as Hlen.
  destruct (nibbles p) as [|d ds]; [cbn [List.length] in Hlen; lia|].
  cbn [map string_of_list_ascii every] in *. apply andb_true_iff in H as [H _].
  eexists. eexists. split; [reflexivity | apply hexDigit_isHex, H].
Qed.

(** *** The parser on what the serializer writes *)

Definition joinHex (ps : list N) : string := join ":" (map hexText ps).

Definition startsHex (s : string) : Prop :=
  match s with
  | String c _ => isHex c = true
  | "" => False
  end.

Lemma startsHex_hexText (p : N) (rest : string) : startsHex (hexText p ++ rest).
Proof. destruct (hexText_head p) as (c & t & -> & Hc). exact Hc. Qed.

Lemma joinHex_cons (p q : N) (ps : list N) :
  joinHex (p :: q :: ps) = (hexText p ++ ":" ++ joinHex (q :: ps))%string.
Proof. reflexivity. Qed.

Lemma joinHex_starts (p : N) (ps : list N) : startsHex (joinHex (p :: ps)).
Proof.
  destruct ps as [|q ps].
  - unfold joinHex. cbn [map join]. rewrite <- (append_empty (hexText p)).
    apply startsHex_hexText.
  - rewrite joinHex_cons. apply startsHex_hexText.
Qed.

(** One turn of the loop on a piece. *)
Lemma readPieces_piece (fuel : nat) (s : string) (acc : list N) (comp : option nat) :
  startsHex s -> List.length acc < 8 ->
  readPieces (S fuel) s acc comp
  = let '(value, length, rest) := readHex 4 s 0 0 in
    match rest with
    | "" => Some ((acc ++ [value])%list, comp)
    | String d rest' =>
        if Ascii.eqb d "." then
          if (length =? 0)%nat then None
          else if (6 <? List.length acc)%nat then None
          else
            match readIpv4Tail 5 0 s [] with
            | Some [a; b; c'; d'] =>
                Some ((acc ++ [a * 256 + b; c' * 256 + d'])%N%list, comp)
            | _ => None
            end
        else if Ascii.eqb d ":" then
          match rest' with
          | "" => None
          | _ => readPieces fuel rest' (acc ++ [value]) comp
          end
        else None
    end.
Proof.
  intros Hs Hacc. destruct s as [|c s]; [destruct Hs|]. cbn [startsHex] in Hs.
  cbn [readPieces]. rewrite (proj2 (Nat.eqb_neq _ _)) by lia.
  rewrite (isHex_not_colon c Hs). reflexivity.
Qed.

Lemma length_cat (a b : string) :
  String.length (a ++ b) = String.length a + String.length b.
Proof.
  induction a as [|c a IH]; [reflexivity|].
  change (String c a ++ b)%string with (String c (a ++ b)). cbn [String.length].
  rewrite IH. reflexivity.
Qed.

Lemma notHex_colon (t : string) : notHex (":" ++ t).
Proof. reflexivity. Qed.

(** A run of pieces up to the end of the text. *)
Lemma read_run (ps : list N) :
  forall (acc : list N) (comp : option nat) (fuel : nat),
    ps <> [] -> List.Forall piece ps -> List.length acc + List.length ps <= 8 ->
    String.length (joinHex ps) < fuel ->
    readPieces fuel (joinHex ps) acc comp = Some ((acc ++ ps)%list, comp).
Proof.
  induction ps as [|p ps IH]; intros acc comp fuel Hne Hps Hlen Hfuel; [congruence|].
  apply List.Forall_cons_iff in Hps as [Hp Hps]. cbn [List.length] in Hlen.
  destruct fuel as [|fuel]; [lia|].
  rewrite readPieces_piece by (try apply joinHex_starts; lia).
  destruct ps as [|q ps].
  - unfold joinHex. cbn [map join]. rewrite <- (append_empty (hexText p)).
    destruct (readHex_hexText p "" Hp I) as (len & -> & _). reflexivity.
  - rewrite joinHex_cons in *.
    destruct (readHex_hexText p (":" ++ joinHex (q :: ps)) Hp (notHex_colon _))
      as (len & -> & _).
    change (":" ++ joinHex (q :: ps))%string with (String ":" (joinHex (q :: ps))).
    cbv iota. cbn [Ascii.eqb Bool.eqb]. cbv iota.
    pose proof (joinHex_starts q ps) as Hq.
    rewrite length_cat in Hfuel. cbn [String.length] in Hfuel.
    change (String.length (":" ++ joinHex (q :: ps)))
      with (S (String.length (joinHex (q :: ps)))) in Hfuel.
    destruct (joinHex (q :: ps)) as [|c t] eqn:E; [destruct Hq|]. rewrite <- E in *.
    rewrite (IH (acc ++ [p])%list comp fuel); [| discriminate | exact Hps | | lia].
    + rewrite <- app_assoc. reflexivity.
    + rewrite length_app. cbn [List.length] in *. lia.
Qed.

(** A run of pieces before [::]. *)
Lemma read_pre (pre : list N) :
  forall (acc : list N) (fuel : nat) (t : string),
    pre <> [] -> List.Forall piece pre -> List.length acc + List.length pre < 8 ->
    String.length (joinHex pre ++ "::" ++ t) < fuel ->
    exists fuel',
      String.length t < fuel'
      /\ readPieces fuel (joinHex pre ++ "::" ++ t) acc None
         = readPieces fuel' t (acc ++ pre ++ [0%N])%list
             (Some (S (List.length acc + List.length pre))).
Proof.
  induction pre as [|p pre IH]; intros acc fuel t Hne Hps Hlen Hfuel; [congruence|].
  apply List.Forall_cons_iff in Hps as [Hp Hps]. cbn [List.length] in Hlen.
  destruct fuel as [|fuel]; [lia|].
  destruct pre as [|q pre].
  - unfold joinHex in *. cbn [map join] in *.
    rewrite readPieces_piece by (try apply startsHex_hexText; lia).
    destruct (readHex_hexText p ("::" ++ t) Hp (notHex_colon _)) as (len & -> & _).
    change ("::" ++ t)%string with (String ":" (String ":" t)).
    cbv iota. cbn [Ascii.eqb Bool.eqb]. cbv iota.
    rewrite length_cat in Hfuel.
    change (String.length ("::" ++ t)) with (S (S (String.length t))) in Hfuel.
    destruct fuel as [|fuel]; [lia|]. cbn [readPieces].
    rewrite (proj2 (Nat.eqb_neq _ _)) by (rewrite length_app; cbn [List.length]; lia).
    cbn [Ascii.eqb Bool.eqb]. cbv iota.
    exists fuel. split; [lia|]. rewrite <- app_assoc, length_app. cbn [List.length app].
    repeat f_equal; lia.
  - rewrite joinHex_cons in *.
    rewrite readPieces_piece by (try (rewrite append_associative; apply startsHex_hexText); lia).
    rewrite !append_associative.
    destruct (readHex_hexText p (":" ++ joinHex (q :: pre) ++ "::" ++ t) Hp (notHex_colon _))
      as (len & -> & _).
    change (":" ++ joinHex (q :: pre) ++ "::" ++ t)%string
      with (String ":" (joinHex (q :: pre) ++ "::" ++ t)).
    cbv iota. cbn [Ascii.eqb Bool.eqb]. cbv iota.
    rewrite !append_associative, length_cat in Hfuel.
    change (String.length (":" ++ joinHex (q :: pre) ++ "::" ++ t))
      with (S (String.length (joinHex (q :: pre) ++ "::" ++ t))) in Hfuel.
    pose proof (joinHex_starts q pre) as Hq.
    destruct (joinHex (q :: pre) ++ "::" ++ t)%string as [|c r] eqn:E.
    { destruct (joinHex (q :: pre)); [destruct Hq | discriminate E]. }
    rewrite <- E in *.
    destruct (IH (acc ++ [p])%list fuel t) as (fuel' & Hf & Eq);
      [discriminate | exact Hps | rewrite length_app; cbn [List.length] in *; lia | apply Nat.succ_lt_mono; (eapply Nat.le_lt_trans; [|exact Hfuel]); apply Nat.le_add_l |].
    exists fuel'. split; [exact Hf|]. rewrite Eq.
    replace ((acc ++ [p]) ++ (q :: pre) ++ [0%N])%list
      with (acc ++ (p :: q :: pre) ++ [0%N])%list by (rewrite <- app_assoc; reflexivity).
    replace (List.length (acc ++ [p]) + List.length (q :: pre))
      with (List.length acc + List.length (p :: q :: pre))
      by (rewrite length_app; cbn [List.length]; lia).
    reflexivity.
Qed.

(** *** What the serializer writes *)

Lemma plainFrom (ps : list N) :
  forall (index : nat) (comp : option nat),
    ps <> [] -> index + List.length ps = 8 ->
    (forall j, index <= j -> optNat_eqb comp j = false) ->
    ipv6From index comp false ps = joinHex ps.
Proof.
  induction ps as [|p ps IH]; intros index comp Hne Hlen Hcomp; [congruence|].
  cbn [ipv6From andb]. rewrite (Hcomp index (Nat.le_refl _)). cbn [List.length] in Hlen.
  destruct ps as [|q ps].
  - cbn [List.length] in Hlen. rewrite (proj2 (Nat.eqb_eq index 7)) by lia.
    cbn [ipv6From]. unfold joinHex. cbn [map join]. rewrite append_empty. reflexivity.
  - rewrite (proj2 (Nat.eqb_neq index 7)) by (cbn [List.length] in Hlen; lia).
    rewrite (IH (S index) comp); [reflexivity | discriminate | lia |].
    intros j Hj. apply Hcomp. lia.
Qed.

Lemma skipFrom (rest : list N) :
  forall (index : nat) (comp : option nat),
    ipv6From index comp true rest
    = ipv6From (index + zeroRun rest) comp false (skipn (zeroRun rest) rest).
Proof.
  induction rest as [|p rest IH]; intros index comp.
  - cbn [zeroRun skipn]. reflexivity.
  - destruct p as [|p].
    + cbn [ipv6From zeroRun skipn andb N.eqb]. rewrite IH. f_equal. lia.
    + cbn [zeroRun skipn]. rewrite Nat.add_0_r. reflexivity.
Qed.

Definition colons (pre : list N) : string :=
  fold_right (fun p acc => (hexText p ++ ":" ++ acc)%string) "" pre.

Lemma preFrom (pre : list N) :
  forall (index c : nat) (rest : list N),
    index + List.length pre = c -> c <= 7 ->
    ipv6From index (Some c) false (pre ++ 0%N :: rest)
    = (colons pre ++ (if (c =? 0)%nat then "::" else ":")
       ++ ipv6From (S c) (Some c) true rest)%string.
Proof.
  induction pre as [|p pre IH]; intros index c rest Hlen Hc.
  - cbn [List.length] in Hlen. rewrite Nat.add_0_r in Hlen. subst index.
    cbn [app ipv6From andb optNat_eqb colons fold_right]. rewrite Nat.eqb_refl.
    reflexivity.
  - cbn [List.length] in Hlen. cbn [app ipv6From andb optNat_eqb colons fold_right].
    rewrite (proj2 (Nat.eqb_neq c index)) by lia.
    rewrite (proj2 (Nat.eqb_neq index 7)) by lia.
    rewrite (IH (S index) c rest) by lia. rewrite !append_associative. reflexivity.
Qed.

Lemma colons_join (pre : list N) : pre <> [] -> colons pre = (joinHex pre ++ ":")%string.
Proof.
  induction pre as [|p pre IH]; [congruence|]. intros _. destruct pre as [|q pre].
  - cbn [colons fold_right]. unfold joinHex. cbn [map join]. reflexivity.
  - change (colons (p :: q :: pre)) with (hexText p ++ ":" ++ colons (q :: pre))%string.
    rewrite IH by discriminate. rewrite joinHex_cons, <- !append_associative. reflexivity.
Qed.

Lemma zeroRun_split (rest : list N) :
  rest = (repeat 0%N (zeroRun rest) ++ skipn (zeroRun rest) rest)%list.
Proof.
  induction rest as [|p rest IH]; [reflexivity|]. destruct p as [|p]; [|reflexivity].
  cbn [zeroRun repeat skipn app]. rewrite <- IH. reflexivity.
Qed.

(** Where the serializer compresses there is a zero piece. *)
Lemma longestRun_zero (pieces : list N) :
  forall (index : nat) (best : option (nat * nat)) (i len : nat),
    longestRun index pieces best = Some (i, len) ->
    best = Some (i, len)
    \/ (index <= i /\ i - index < List.length pieces /\ nth (i - index) pieces 1%N = 0%N).
Proof.
  induction pieces as [|p pieces IH]; intros index best i len; cbn [longestRun].
  - auto.
  - cbv zeta. intros H. apply IH in H as [H | (H1 & H2 & H3)].
    + destruct (1 <? zeroRun (p :: pieces))%nat eqn:Erun; cbn [andb] in H; [|auto].
      destruct (match best with Some (_, length) => (length <? zeroRun (p :: pieces))%nat
                | None => true end); [|auto].
      injection H as <- <-. right. rewrite Nat.sub_diag. cbn [List.length nth].
      split; [lia|]. split; [lia|]. destruct p; [reflexivity|]. discriminate Erun.
    + right. split; [lia|]. cbn [List.length]. split; [lia|].
      replace (i - index) with (S (i - S index)) by lia. exact H3.
Qed.

Lemma findCompress_zero (a : list N) (c : nat) :
  findCompress a = Some c ->
  exists pre rest, a = (pre ++ 0%N :: rest)%list /\ List.length pre = c.
Proof.
  unfold findCompress. destruct (longestRun 0 a None) as [[i len]|] eqn:E; [|discriminate].
  cbn [option_map fst]. intros [= <-].
  apply longestRun_zero in E as [E | (_ & Hlen & Hz)]; [discriminate|].
  rewrite Nat.sub_0_r in *.
  destruct (nth_split a 1%N Hlen) as (pre & rest & Ha & Hpre).
  exists pre, rest. rewrite Hz in Ha. auto.
Qed.

(** The pieces after [::], if any. *)
Definition tailText (post : list N) : string :=
  match post with
  | [] => ""
  | _ => joinHex post
  end.

(** The shapes of a serialized address. *)
Lemma ipv6Text_plain (a : list N) :
  List.length a = 8 -> findCompress a = None -> ipv6Text a = joinHex a.
Proof.
  intros Hlen Hc. unfold ipv6Text. rewrite Hc. apply plainFrom; [|exact Hlen | reflexivity].
  intros E. subst a. discriminate Hlen.
Qed.

Lemma ipv6Text_compressed (pre rest : list N) :
  List.length (pre ++ 0%N :: rest) = 8 ->
  findCompress (pre ++ 0%N :: rest) = Some (List.length pre) ->
  ipv6Text (pre ++ 0%N :: rest)
  = ((match pre with [] => "::" | _ => joinHex pre ++ "::" end)
     ++ tailText (skipn (zeroRun rest) rest))%string.
Proof.
  intros Hlen Hc. unfold ipv6Text. rewrite Hc.
  rewrite length_app in Hlen. cbn [List.length] in Hlen.
  rewrite (preFrom pre 0 (List.length pre) rest) by lia.
  rewrite skipFrom.
  assert (Hrest : List.length rest
                  = zeroRun rest + List.length (skipn (zeroRun rest) rest)).
  { rewrite (zeroRun_split rest) at 1. rewrite length_app, repeat_length. reflexivity. }
  assert (Hpost :
    ipv6From (S (List.length pre) + zeroRun rest) (Some (List.length pre)) false
      (skipn (zeroRun rest) rest)
    = tailText (skipn (zeroRun rest) rest)).
  { destruct (skipn (zeroRun rest) rest) as [|p post] eqn:E; [reflexivity|]. cbn [tailText].
    apply plainFrom; [discriminate | lia |].
    intros j Hj. cbn [optNat_eqb]. apply Nat.eqb_neq. lia. }
  rewrite Hpost. destruct pre as [|p pre].
  - reflexivity.
  - rewrite colons_join by discriminate. cbn [List.length Nat.eqb].
    rewrite !append_associative. reflexivity.
Qed.

(** *** Reading back *)

Lemma parseIPv6_start (c : ascii) (t : string) :
  Ascii.eqb c ":" = false ->
  parseIPv6 (String c t)
  = match readPieces (S (String.length (String c t))) (String c t) [] None with
    | None => None
    | Some (pieces', Some at_) =>
        Some (firstn at_ pieces' ++ repeat 0%N (8 - List.length pieces')
              ++ skipn at_ pieces')%list
    | Some (pieces', None) =>
        if (List.length pieces' =? 8)%nat then Some pieces' else None
    end.
Proof.
  intros H. destruct c as [[] [] [] [] [] [] [] []]; try reflexivity; discriminate H.
Qed.

Lemma parseIPv6_hex (s : string) :
  startsHex s ->
  parseIPv6 s
  = match readPieces (S (String.length s)) s [] None with
    | None => None
    | Some (pieces', Some at_) =>
        Some (firstn at_ pieces' ++ repeat 0%N (8 - List.length pieces')
              ++ skipn at_ pieces')%list
    | Some (pieces', None) =>
        if (List.length pieces' =? 8)%nat then Some pieces' else None
    end.
Proof.
  destruct s as [|c t]; [intros []|]. cbn [startsHex]. intros H.
  apply parseIPv6_start, isHex_not_colon, H.
Qed.

Lemma firstn_exact {A : Type} (l m : list A) : firstn (List.length l) (l ++ m) = l.
Proof. rewrite firstn_app, Nat.sub_diag, firstn_all, firstn_O, app_nil_r. reflexivity. Qed.

Lemma skipn_exact {A : Type} (l m : list A) : skipn (List.length l) (l ++ m) = m.
Proof. rewrite skipn_app, Nat.sub_diag, skipn_all. reflexivity. Qed.

(** The serializer writes what the parser reads back. *)
Lemma parseIPv6_ipv6Text (a : list N) : address a -> parseIPv6 (ipv6Text a) = Some a.
Proof.
  intros [Hlen Hall]. destruct (findCompress a) as [c|] eqn:Ec.
  - destruct (findCompress_zero a c Ec) as (pre & rest & -> & <-).
    rewrite (ipv6Text_compressed pre rest Hlen Ec).
    pose proof Hlen as Hlen'. rewrite length_app in Hlen'. cbn [List.length] in Hlen'.
    apply List.Forall_app in Hall as [Hpre Hrest].
    apply List.Forall_cons_iff in Hrest as [_ Hrest].
    pose proof (zeroRun_split rest) as Hsplit.
    set (post := skipn (zeroRun rest) rest) in *.
    assert (Hpost : List.Forall piece post).
    { rewrite Hsplit in Hrest. apply List.Forall_app in Hrest. apply Hrest. }
    assert (Hrl : List.length rest = zeroRun rest + List.length post).
    { rewrite Hsplit at 1. rewrite length_app, repeat_length. reflexivity. }
    set (J := tailText post).
    assert (Hread : forall acc at_ fuel,
               List.length acc + List.length post <= 8 -> String.length J < fuel ->
               readPieces fuel J acc (Some at_) = Some ((acc ++ post)%list, Some at_)).
    { intros acc at_ fuel Hacc Hfuel. unfold J, tailText in *.
      destruct post as [|p post'] eqn:Ep.
      - destruct fuel; [lia|]. rewrite app_nil_r. reflexivity.
      - apply read_run; [discriminate | exact Hpost | exact Hacc | exact Hfuel]. }
    destruct pre as [|p pre].
    + change ("::" ++ J)%string with (String ":" (String ":" J)).
      unfold parseIPv6. cbv beta iota zeta.
      rewrite (Hread [0%N] 1 (S (String.length J))) by (cbn [List.length] in *; lia).
      cbn [app firstn skipn List.length]. f_equal. rewrite Hsplit at 1.
      cbn [List.length] in Hlen'.
      replace (8 - S (List.length post)) with (zeroRun rest) by lia. reflexivity.
    + rewrite append_associative.
      rewrite parseIPv6_hex
        by (destruct pre; [unfold joinHex; cbn [map join] | rewrite joinHex_cons;
              rewrite !append_associative]; apply startsHex_hexText).
      destruct (read_pre (p :: pre) [] (S (String.length (joinHex (p :: pre) ++ "::" ++ J))) J)
        as (fuel' & Hf & ->); [discriminate | exact Hpre | cbn [List.length] in *; lia | lia |].
      rewrite app_nil_l. change (List.length (@nil N)) with 0. rewrite Nat.add_0_l.
      rewrite (Hread ((p :: pre) ++ [0%N])%list (S (List.length (p :: pre))) fuel')
        by first [exact Hf | rewrite length_app; cbn [List.length] in *; lia].
      replace (S (List.length (p :: pre))) with (List.length ((p :: pre) ++ [0%N]))
        by (rewrite length_app; cbn [List.length]; lia).
      rewrite firstn_exact, skipn_exact. f_equal.
      rewrite <- app_assoc. f_equal. cbn [app]. f_equal. rewrite Hsplit at 1. f_equal.
      f_equal. cbn [List.length]. rewrite !length_app. cbn [List.length] in *. lia.
  - rewrite (ipv6Text_plain a Hlen Ec).
    destruct a as [|p a]; [discriminate Hlen|].
    rewrite parseIPv6_hex by apply joinHex_starts.
    rewrite (read_run (p :: a) [] None);
      [| discriminate | exact Hall | cbn [List.length] in *; lia | lia].
    cbn [app]. rewrite Hlen. reflexivity.
Qed.

End Ipv6.

Section Ipv6Results.
Import Js Url.

Lemma readHex_small (budget : nat) :
  forall (s : string) (v : N) (l : nat) (v' : N) (l' : nat) (r : string),
    readHex budget s v l = (v', l', r) -> (v' < (v + 1) * 16 ^ N.of_nat budget)%N.
Proof.
  induction budget as [|budget IH]; intros s v l v' l' r.
  - cbn [readHex]. intros [= <- _ _]. cbn [N.of_nat]. rewrite N.pow_0_r. lia.
  - cbn [readHex]. destruct s as [|c s]; [intros [= <- _ _]|].
    + pose proof (N.pow_nonzero 16 (N.of_nat (S budget)) ltac:(lia)). nia.
    + destruct (hexValue c) as [d|] eqn:Ed.
      * intros H. apply IH in H. apply hexValue_small in Ed.
        rewrite Nat2N.inj_succ, N.pow_succ_r'.
        assert (((v * 16 + d + 1) * 16 ^ N.of_nat budget
                 <= (v + 1) * (16 * 16 ^ N.of_nat budget))%N) by nia.
        lia.
      * intros [= <- _ _].
        pose proof (N.pow_nonzero 16 (N.of_nat (S budget)) ltac:(lia)). nia.
Qed.

Lemma readIpv4Piece_small (s : string) :
  forall (start : option N) (p : N) (rest : string),
    readIpv4Piece s start = Some (p, rest) ->
    (forall q, start = Some q -> (q <= 255)%N) -> (p <= 255)%N.
Proof.
  induction s as [|c s IH]; intros start p rest; cbn [readIpv4Piece].
  - destruct start as [q|]; cbn [option_map]; [|discriminate]. intros [= <- _] H. auto.
  - destruct (isDigit c) eqn:Ec.
    + destruct start as [[|q]|].
      * discriminate.
      * cbv zeta.
        destruct (255 <? N.pos q * 10 + (N_of_ascii c - 48))%N eqn:E; [discriminate|].
        intros H _. apply (IH _ _ _ H). intros q' [= <-]. apply N.ltb_ge in E. exact E.
      * intros H _. apply (IH _ _ _ H). intros q' [= <-].
        clear -Ec. destruct c as [[] [] [] [] [] [] [] []]; vm_compute in Ec;
          try discriminate Ec; vm_compute; discriminate.
    + destruct start as [q|]; cbn [option_map]; [|discriminate]. intros [= <- _] H. auto.
Qed.

Lemma readIpv4Tail_small (fuel : nat) :
  forall (seen : nat) (s : string) (numbers r : list N),
    readIpv4Tail fuel seen s numbers = Some r ->
    List.Forall (fun q => (q <= 255)%N) numbers -> List.Forall (fun q => (q <= 255)%N) r.
Proof.
  induction fuel as [|fuel IH]; intros seen s numbers r; cbn [readIpv4Tail]; [discriminate|].
  destruct s as [|c s].
  - destruct (seen =? 4)%nat; [|discriminate]. intros [= <-]. auto.
  - cbv zeta.
    destruct (if (0 <? seen)%nat
              then if Ascii.eqb c "." && (seen <? 4)%nat then Some s else None
              else Some (String c s)) as [t|]; [|discriminate].
    destruct (readIpv4Piece t None) as [[p rest]|] eqn:Ep; [|discriminate].
    intros H Hn. apply (IH _ _ _ _ H). apply List.Forall_app. split; [exact Hn|].
    repeat constructor. apply (readIpv4Piece_small _ _ _ _ Ep). discriminate.
Qed.

(** What the loop of the parser keeps true of the pieces read. *)
Definition piecesOk (acc : list N) (comp : option nat) : Prop :=
  List.Forall piece acc /\ List.length acc <= 8
  /\ forall c, comp = Some c -> c <= List.length acc.

Lemma piecesOk_snoc (acc : list N) (comp : option nat) (v : N) :
  piecesOk acc comp -> List.length acc < 8 -> piece v -> piecesOk (acc ++ [v]) comp.
Proof.
  intros (H1 & H2 & H3) Hlen Hv. unfold piecesOk. rewrite length_app. cbn [List.length].
  split; [apply List.Forall_app; split; [exact H1 | repeat constructor; exact Hv]|].
  split; [lia|]. intros c Hc. specialize (H3 c Hc). lia.
Qed.

Lemma readPieces_ok (fuel : nat) :
  forall (s : string) (acc : list N) (comp : option nat) (acc' : list N) (comp' : option nat),
    readPieces fuel s acc comp = Some (acc', comp') ->
    piecesOk acc comp -> piecesOk acc' comp'.
Proof.
  induction fuel as [|fuel IH]; intros s acc comp acc' comp'; cbn [readPieces]; [discriminate|].
  destruct s as [|c s]; [intros [= <- <-]; auto|].
  destruct (Nat.eqb_spec (List.length acc) 8) as [|Hlen]; [discriminate|].
  intros H Hok. assert (Hlt : List.length acc < 8) by (destruct Hok as (_ & ? & _); lia).
  destruct (Ascii.eqb c ":").
  - destruct comp as [x|]; [discriminate|]. apply (IH _ _ _ _ _ H).
    destruct (piecesOk_snoc acc None 0%N Hok Hlt) as (H1 & H2 & _); [reflexivity|].
    split; [exact H1|]. split; [exact H2|]. intros c' [= <-].
    rewrite length_app. cbn [List.length]. lia.
  - destruct (readHex 4 (String c s) 0 0) as [[value len] rest] eqn:Ehex.
    assert (Hv : piece value).
    { apply readHex_small in Ehex. unfold piece. change (16 ^ N.of_nat 4)%N with 65536%N in Ehex.
      lia. }
    destruct rest as [|d rest'].
    + injection H as <- <-. apply piecesOk_snoc; assumption.
    + destruct (Ascii.eqb d ".").
      * destruct (len =? 0)%nat; [discriminate|].
        destruct (Nat.ltb_spec 6 (List.length acc)) as [|Hsix]; [discriminate|].
        destruct (readIpv4Tail 5 0 (String c s) []) as [numbers|] eqn:Etail; [|discriminate].
        apply readIpv4Tail_small in Etail; [|constructor].
        destruct numbers as [|a [|b [|c' [|d' [|e numbers]]]]]; try discriminate.
        injection H as <- <-.
        apply List.Forall_cons_iff in Etail as [Ha Etail].
        apply List.Forall_cons_iff in Etail as [Hb Etail].
        apply List.Forall_cons_iff in Etail as [Hc Etail].
        apply List.Forall_cons_iff in Etail as [Hd _].
        destruct Hok as (H1 & H2 & H3). unfold piecesOk. rewrite length_app.
        cbn [List.length]. split; [|split; [lia|]].
        -- apply List.Forall_app. split; [exact H1|]. repeat constructor; unfold piece; lia.
        -- intros x Hx. specialize (H3 x Hx). lia.
      * destruct (Ascii.eqb d ":"); [|discriminate].
        destruct rest' as [|e rest'']; [discriminate|]. apply (IH _ _ _ _ _ H).
        apply piecesOk_snoc; assumption.
Qed.

(** What the IPv6 parser returns is an address. *)
Lemma parseIPv6_address (s : string) (a : list N) : parseIPv6 s = Some a -> address a.
Proof.
  assert (Hfinal : forall t acc comp,
             piecesOk acc comp ->
             match readPieces (S (String.length t)) t acc comp with
             | Some (pieces', Some at_) =>
                 Some (firstn at_ pieces' ++ repeat 0%N (8 - List.length pieces')
                       ++ skipn at_ pieces')%list
             | Some (pieces', None) =>
                 if (List.length pieces' =? 8)%nat then Some pieces' else None
             | None => None
             end = Some a -> address a).
  { intros t acc comp Hok.
    destruct (readPieces (S (String.length t)) t acc comp) as [[pieces' comp']|] eqn:E;
      [|discriminate].
    apply readPieces_ok in E; [|exact Hok]. destruct E as (H1 & H2 & H3).
    destruct comp' as [at_|].
    - intros [= <-]. specialize (H3 at_ eq_refl). split.
      + rewrite !length_app, repeat_length, length_firstn, length_skipn. lia.
      + apply List.Forall_app. split; [apply Forall_take, H1|].
        apply List.Forall_app. split; [|apply Forall_drop, H1].
        apply List.Forall_forall. intros x Hx. apply repeat_spec in Hx. subst x. reflexivity.
    - destruct (Nat.eqb_spec (List.length pieces') 8) as [E|]; [|discriminate].
      intros [= <-]. split; assumption. }
  assert (Hempty : piecesOk [] None).
  { split; [constructor|]. split; [cbn; lia | discriminate]. }
  assert (Hzero : piecesOk [0%N] (Some 1)).
  { split; [repeat constructor|]. split; [cbn; lia|]. intros c [= <-]. cbn. lia. }
  destruct s as [|c s]; [apply (Hfinal "" [] None Hempty)|].
  destruct (Ascii.eqb_spec c ":") as [->|Hc].
  - destruct s as [|c' s]; [discriminate|].
    destruct (Ascii.eqb_spec c' ":") as [->|Hc'].
    + apply (Hfinal s [0%N] (Some 1) Hzero).
    + intros H. exfalso. revert H. clear -Hc'. unfold parseIPv6.
      destruct c' as [[] [] [] [] [] [] [] []]; try discriminate. congruence.
  - rewrite parseIPv6_start by (apply Ascii.eqb_neq, Hc).
    apply (Hfinal (String c s) [] None Hempty).
Qed.

Definition ipv6Char (c : ascii) : bool := isHexDigit c || Ascii.eqb c ":".

Lemma hexDigit_ipv6Char (c : ascii) : isHexDigit c = true -> ipv6Char c = true.
Proof. unfold ipv6Char. intros ->. reflexivity. Qed.

Lemma ipv6From_chars (ps : list N) :
  forall (index : nat) (comp : option nat) (ignore0 : bool),
    every ipv6Char (ipv6From index comp ignore0 ps) = true.
Proof.
  induction ps as [|p ps IH]; intros index comp ignore0; [reflexivity|]. cbn [ipv6From].
  destruct (ignore0 && (p =? 0)%N); [apply IH|].
  destruct (optNat_eqb comp index).
  - rewrite every_append, IH. destruct (index =? 0)%nat; reflexivity.
  - rewrite !every_append, IH.
    rewrite (every_impl isHexDigit ipv6Char _ hexDigit_ipv6Char (hexText_chars p)).
    destruct (index =? 7)%nat; reflexivity.
Qed.

Lemma ipv6Text_chars (a : list N) : every ipv6Char (ipv6Text a) = true.
Proof. apply ipv6From_chars. Qed.

End Ipv6Results.

(** ** Hosts: what the host parser returns *)

Section Hosts.
Import Js Url.
Variable T : Idna.

Lemma parseHost_bracket (inner : string) :
  parseHost T (String "[" inner)
  = if endsWith (String "[" inner) "]" then
      option_map (fun pieces => ("[" ++ ipv6Text pieces ++ "]")%string)
        (parseIPv6 (dropLast inner))
    else None.
Proof. reflexivity. Qed.

Lemma parseHost_plain (c : ascii) (t : string) :
  Ascii.eqb c "[" = false ->
  parseHost T (String c t)
  = match domainToASCII T (String c t) with
    | None => None
    | Some domain =>
        if String.eqb domain "" then None
        else if negb (every hostChar domain) then None
        else if endsInNumber domain then option_map ipv4Text (parseIPv4 domain)
        else Some domain
    end.
Proof.
  intros H. destruct c as [[] [] [] [] [] [] [] []]; try reflexivity; discriminate H.
Qed.

(** *** Characters *)

Lemma hostChar_plain (c : ascii) : hostChar c = true -> negb (Ascii.eqb c "%") = true.
Proof. all_chars c. Qed.

Lemma hostChar_ascii (c : ascii) : hostChar c = true -> isAscii c = true.
Proof. all_chars c. Qed.

Lemma hostChar_not_bracket (c : ascii) : hostChar c = true -> Ascii.eqb c "[" = false.
Proof. all_chars c. Qed.

Lemma digitDot_hostChar (c : ascii) :
  isDigit c || Ascii.eqb c "." = true -> hostChar c = true.
Proof. all_chars c. Qed.

Lemma digitDot_lower (c : ascii) : isDigit c || Ascii.eqb c "." = true -> lowerChar c = c.
Proof. all_chars c. Qed.

Lemma digit_not_x (c : ascii) : isDigit c = true -> Ascii.eqb c "x" = false.
Proof. all_chars c. Qed.

Lemma ipv6Char_lower (c : ascii) : ipv6Char c = true -> lowerChar c = c.
Proof. all_chars c. Qed.

(** The characters of a serialized host. *)
Definition hostTextChar (c : ascii) : bool := hostChar c || oneOf "[]:" c.

Lemma hostChar_hostTextChar (c : ascii) : hostChar c = true -> hostTextChar c = true.
Proof. unfold hostTextChar. intros ->. reflexivity. Qed.

Lemma ipv6Char_hostTextChar (c : ascii) : ipv6Char c = true -> hostTextChar c = true.
Proof. all_chars c. Qed.

Lemma ipv6Char_inside (c : ascii) :
  ipv6Char c = true -> Ascii.eqb c "[" = false /\ Ascii.eqb c "]" = false.
Proof. all_chars c; auto. Qed.

Lemma hostChar_outside (c : ascii) :
  hostChar c = true ->
  Ascii.eqb c ":" = false /\ Ascii.eqb c "[" = false /\ Ascii.eqb c "]" = false.
Proof. all_chars c; auto. Qed.

(** *** Strings *)

Lemma percentDecode_plain (s : string) :
  every (fun c => negb (Ascii.eqb c "%")) s = true -> percentDecode s = s.
Proof.
  induction s as [|c s IH]; [reflexivity|]. cbn [every]. rewrite andb_true_iff.
  intros [Hc Hs]. apply negb_true_iff in Hc. specialize (IH Hs). cbn [percentDecode].
  rewrite Hc. destruct s as [|a [|b rest]]; rewrite IH; reflexivity.
Qed.

Lemma toLowerCase_fixed (q : ascii -> bool) (s : string) :
  (forall c, q c = true -> lowerChar c = c) -> every q s = true -> toLowerCase s = s.
Proof.
  intros Hq. induction s as [|c s IH]; [reflexivity|]. cbn [every toLowerCase].
  rewrite andb_true_iff. intros [Hc Hs]. rewrite (Hq c Hc), (IH Hs). reflexivity.
Qed.

Lemma endsWith_append (a b : string) : endsWith (a ++ b) b = true.
Proof.
  induction a as [|c a IH].
  - change ("" ++ b)%string with b. destruct b; cbn [endsWith]; rewrite String.eqb_refl;
      reflexivity.
  - change (String c a ++ b)%string with (String c (a ++ b)). cbn [endsWith].
    rewrite IH. apply orb_true_r.
Qed.

Lemma removelast_snoc (l : list ascii) (c : ascii) : removelast (l ++ [c]) = l.
Proof. apply removelast_last. Qed.

Lemma list_ascii_append (a b : string) :
  list_ascii_of_string (a ++ b) = (list_ascii_of_string a ++ list_ascii_of_string b)%list.
Proof.
  induction a as [|c a IH]; [reflexivity|].
  change (String c a ++ b)%string with (String c (a ++ b)).
  cbn [list_ascii_of_string app]. rewrite IH. reflexivity.
Qed.

Lemma dropLast_append (t : string) (c : ascii) : dropLast (t ++ String c "") = t.
Proof.
  unfold dropLast. rewrite list_ascii_append. cbn [list_ascii_of_string].
  rewrite removelast_last. apply string_of_list_ascii_of_string.
Qed.

(** *** The kinds of host *)

Inductive hostKind : string -> Prop :=
| kind_ipv6 (a : list N) : address a -> hostKind ("[" ++ ipv6Text a ++ "]")
| kind_ipv4 (n : N) : (n < 4294967296)%N -> hostKind (ipv4Text n)
| kind_domain (h : string) :
    asciiDomain T h = Some h -> h <> "" -> every hostChar h = true ->
    endsInNumber h = false -> hostKind h.

Lemma asciiDomain_stable (d l : string) :
  asciiDomain T d = Some l -> asciiDomain T l = Some l.
Proof.
  unfold asciiDomain. cbv zeta.
  destruct (hasPunycode (toLowerCase d)) eqn:Ep.
  - destruct (valid T (toLowerCase d)) eqn:Ev; [|discriminate]. intros [= <-].
    rewrite toLowerCase_idempotent, Ep, Ev. reflexivity.
  - intros [= <-]. rewrite toLowerCase_idempotent, Ep. reflexivity.
Qed.

Lemma asciiDomain_lower (d l : string) : asciiDomain T d = Some l -> toLowerCase l = l.
Proof.
  unfold asciiDomain. cbv zeta.
  destruct (hasPunycode (toLowerCase d)); [destruct (valid T (toLowerCase d))|];
    try discriminate; intros [= <-]; apply toLowerCase_idempotent.
Qed.

Lemma domainToASCII_result (text l : string) :
  domainToASCII T text = Some l -> asciiDomain T l = Some l.
Proof.
  unfold domainToASCII. cbv zeta.
  destruct (every isAscii (percentDecode text)); [apply asciiDomain_stable|].
  destruct (toASCII T text) as [domain|]; [apply asciiDomain_stable | discriminate].
Qed.

Lemma domainToASCII_plain (h : string) :
  every hostChar h = true -> domainToASCII T h = asciiDomain T h.
Proof.
  intros H. unfold domainToASCII. cbv zeta.
  rewrite (percentDecode_plain h (every_impl _ _ h hostChar_plain H)).
  rewrite (every_impl _ _ h hostChar_ascii H). reflexivity.
Qed.

(** What the host parser returns. *)
Lemma parseHost_kind (text h : string) : parseHost T text = Some h -> hostKind h.
Proof.
  destruct text as [|c t]; [discriminate|].
  destruct (Ascii.eqb_spec c "[") as [->|Hc].
  - rewrite parseHost_bracket. destruct (endsWith _ "]"); [|discriminate].
    destruct (parseIPv6 (dropLast t)) as [a|] eqn:E; [|discriminate].
    intros [= <-]. apply kind_ipv6, (parseIPv6_address _ _ E).
  - rewrite parseHost_plain by (apply Ascii.eqb_neq, Hc).
    destruct (domainToASCII T (String c t)) as [d|] eqn:Ed; [|discriminate].
    destruct (String.eqb_spec d "") as [|Hne]; [discriminate|].
    destruct (every hostChar d) eqn:Echars; [|discriminate]. cbn [negb].
    destruct (endsInNumber d) eqn:Enum.
    + destruct (parseIPv4 d) as [n|] eqn:E4; [|discriminate]. intros [= <-].
      apply kind_ipv4, (parseIPv4_range d n E4).
    + intros [= <-]. apply kind_domain; try assumption.
      apply (domainToASCII_result _ _ Ed).
Qed.

Lemma startsWith_digits (l : string) : every isDigit l = true -> startsWith l "xn--" = false.
Proof.
  destruct l as [|c l]; [reflexivity|]. cbn [every startsWith]. rewrite andb_true_iff.
  intros [Hc _]. rewrite (digit_not_x c Hc). reflexivity.
Qed.

Lemma ipv4Text_chars (n : N) :
  (n < 4294967296)%N -> every (fun c => isDigit c || Ascii.eqb c ".") (ipv4Text n) = true.
Proof.
  intros H. rewrite ipv4Text_dotted. apply dotted_chars; apply N.mod_lt; lia.
Qed.

Lemma ipv4Text_plain (n : N) :
  (n < 4294967296)%N -> hasPunycode (ipv4Text n) = false.
Proof.
  intros H. unfold hasPunycode. rewrite ipv4Text_dotted.
  rewrite dotted_parts by (apply N.mod_lt; lia). cbn [existsb].
  rewrite !startsWith_digits; [reflexivity|..]; apply octet_facts; apply N.mod_lt; lia.
Qed.

(** The host parser reads a serialized host back. *)
Lemma kind_parseHost (h : string) : hostKind h -> parseHost T h = Some h.
Proof.
  intros [a Ha | n Hn | d Hd Hne Hchars Hnum].
  - change ("[" ++ ipv6Text a ++ "]")%string with (String "[" (ipv6Text a ++ "]")).
    rewrite parseHost_bracket.
    change (String "[" (ipv6Text a ++ "]")) with ("[" ++ (ipv6Text a ++ "]"))%string.
    rewrite <- append_associative, endsWith_append.
    rewrite dropLast_append, (parseIPv6_ipv6Text a Ha). cbn [option_map].
    rewrite append_associative. reflexivity.
  - pose proof (ipv4Text_chars n Hn) as Hchars.
    assert (Hhost : every hostChar (ipv4Text n) = true)
      by (apply (every_impl _ _ _ digitDot_hostChar Hchars)).
    assert (Hne : ipv4Text n <> "")
      by (rewrite ipv4Text_dotted; apply dotted_nonempty; apply N.mod_lt; lia).
    destruct (ipv4Text n) as [|c t] eqn:E; [congruence|].
    rewrite parseHost_plain
      by (cbn [every] in Hhost; apply andb_true_iff in Hhost as [Hc _];
          apply hostChar_not_bracket, Hc).
    rewrite <- E in *. rewrite (domainToASCII_plain _ Hhost).
    unfold asciiDomain. cbv zeta.
    rewrite (toLowerCase_fixed _ _ digitDot_lower Hchars), (ipv4Text_plain n Hn).
    destruct (String.eqb_spec (ipv4Text n) "") as [|_]; [congruence|].
    rewrite Hhost. cbn [negb].
    assert (Hnum : endsInNumber (ipv4Text n) = true)
      by (rewrite ipv4Text_dotted; apply dotted_endsInNumber; apply N.mod_lt; lia).
    rewrite Hnum, (parseIPv4_ipv4Text n Hn). reflexivity.
  - destruct d as [|c t]; [congruence|].
    rewrite parseHost_plain
      by (cbn [every] in Hchars; apply andb_true_iff in Hchars as [Hc _];
          apply hostChar_not_bracket, Hc).
    rewrite (domainToASCII_plain _ Hchars), Hd.
    destruct (String.eqb_spec (String c t) "") as [|_]; [congruence|].
    rewrite Hchars, Hnum. reflexivity.
Qed.

Lemma parseHost_stable (text h : string) :
  parseHost T text = Some h -> parseHost T h = Some h.
Proof. intros H. apply kind_parseHost, (parseHost_kind _ _ H). Qed.

(** *** What a serialized host looks like *)

Lemma kind_chars (h : string) : hostKind h -> every hostTextChar h = true.
Proof.
  intros [a Ha | n Hn | d Hd Hne Hchars Hnum].
  - rewrite !every_append. cbn [every].
    rewrite (every_impl _ _ _ ipv6Char_hostTextChar (ipv6Text_chars a)). reflexivity.
  - apply (every_impl _ _ _ hostChar_hostTextChar).
    apply (every_impl _ _ _ digitDot_hostChar), ipv4Text_chars, Hn.
  - apply (every_impl _ _ _ hostChar_hostTextChar), Hchars.
Qed.

Lemma kind_nonempty (h : string) : hostKind h -> h <> "".
Proof.
  intros [a Ha | n Hn | d Hd Hne Hchars Hnum].
  - discriminate.
  - rewrite ipv4Text_dotted. apply dotted_nonempty; apply N.mod_lt; lia.
  - exact Hne.
Qed.

Lemma kind_lower (h : string) : hostKind h -> toLowerCase h = h.
Proof.
  intros [a Ha | n Hn | d Hd Hne Hchars Hnum].
  - apply (toLowerCase_fixed (fun c => ipv6Char c || oneOf "[]" c)).
    + intros c Hc. revert Hc. clear. all_chars c.
    + rewrite !every_append. cbn [every].
      rewrite (every_impl ipv6Char (fun c => ipv6Char c || oneOf "[]" c) (ipv6Text a));
        [reflexivity | intros c ->; reflexivity | apply ipv6Text_chars].
  - apply (toLowerCase_fixed _ _ digitDot_lower), ipv4Text_chars, Hn.
  - apply (asciiDomain_lower _ _ Hd).
Qed.

(** The host state stops where the host ends. *)
Definition afterHost (rest : string) : Prop :=
  match rest with
  | "" => True
  | String c _ => c = ":"%char
  end.

Lemma hostEnd_rest (rest : string) : afterHost rest -> hostEnd false rest = ("", rest).
Proof. destruct rest as [|c r]; [reflexivity|]. cbn [afterHost]. intros ->. reflexivity. Qed.

Lemma hostEnd_outside (h rest : string) :
  every hostChar h = true -> afterHost rest -> hostEnd false (h ++ rest) = (h, rest).
Proof.
  intros Hh Hrest. induction h as [|c h IH]; [apply hostEnd_rest, Hrest|].
  cbn [every] in Hh. apply andb_true_iff in Hh as [Hc Hh].
  destruct (hostChar_outside c Hc) as (E1 & E2 & E3).
  change (String c h ++ rest)%string with (String c (h ++ rest)). cbn [hostEnd].
  rewrite E1, E2, E3. cbn [andb]. rewrite (IH Hh). reflexivity.
Qed.

Lemma hostEnd_inside (t rest : string) :
  every ipv6Char t = true -> afterHost rest ->
  hostEnd true (t ++ "]" ++ rest) = ((t ++ "]")%string, rest).
Proof.
  intros Ht Hrest. induction t as [|c t IH].
  - change ("" ++ "]" ++ rest)%string with (String "]" rest). cbn [hostEnd].
    cbn [Ascii.eqb Bool.eqb andb negb]. rewrite (hostEnd_rest rest Hrest). reflexivity.
  - cbn [every] in Ht. apply andb_true_iff in Ht as [Hc Ht].
    destruct (ipv6Char_inside c Hc) as (E2 & E3).
    change (String c t ++ "]" ++ rest)%string with (String c (t ++ "]" ++ rest)).
    cbn [hostEnd]. rewrite E2, E3. cbn [negb]. rewrite andb_false_r. rewrite (IH Ht).
    reflexivity.
Qed.

Lemma kind_hostEnd (h rest : string) :
  hostKind h -> afterHost rest -> hostEnd false (h ++ rest) = (h, rest).
Proof.
  intros [a Ha | n Hn | d Hd Hne Hchars Hnum] Hrest.
  - rewrite !append_associative.
    change ("[" ++ ipv6Text a ++ "]" ++ rest)%string
      with (String "[" (ipv6Text a ++ "]" ++ rest)).
    cbn [hostEnd]. cbn [Ascii.eqb Bool.eqb andb negb].
    rewrite (hostEnd_inside _ rest (ipv6Text_chars a) Hrest). reflexivity.
  - apply hostEnd_outside; [|exact Hrest].
    apply (every_impl _ _ _ digitDot_hostChar), ipv4Text_chars, Hn.
  - apply hostEnd_outside; assumption.
Qed.

End Hosts.

(** ** The URL parser: what it returns *)

Section UrlParsing.
Import Js Url.
Variable T : Idna.

Lemma splitScheme_scheme (s sch after : string) :
  splitScheme s = Some (sch, after) -> sch = "http" \/ sch = "https".
Proof.
  unfold splitScheme.
  repeat match goal with
  | |- context [match ?x with _ => _ end] => destruct x; try discriminate
  end; intros [= <- <-]; auto.
Qed.

Lemma parsePort_Some (sch digits : string) (n : N) :
  parsePort sch digits = Some (Some n) ->
  (n <=? 65535)%N = true /\ optN_eqb (defaultPort sch) (Some n) = false.
Proof.
  unfold parsePort. destruct digits as [|c digits]; [discriminate|].
  destruct (NilEmpty.uint_of_string (String c digits)) as [d|]; [|discriminate].
  cbv zeta. destruct (N.of_uint d <=? 65535)%N eqn:E; [|discriminate].
  destruct (optN_eqb (defaultPort sch) (Some (N.of_uint d))) eqn:E'; [discriminate|].
  intros [= <-]. auto.
Qed.

Lemma portText_nonempty (n : N) : portText n <> "".
Proof.
  unfold portText. destruct n as [|p]; [discriminate|]. cbn [N.to_uint].
  pose proof (DecimalPos.Unsigned.to_uint_nonnil p) as H.
  destruct (Pos.to_uint p); [congruence | discriminate ..].
Qed.

Lemma portText_digits (n : N) : every isDigit (portText n) = true.
Proof.
  unfold portText. induction (N.to_uint n) as [|d IH|d IH|d IH|d IH|d IH|d IH|d IH|d IH|d IH|d IH];
    [reflexivity | exact IH ..].
Qed.

Lemma parsePort_fixed (sch : string) (n : N) :
  (n <=? 65535)%N = true -> optN_eqb (defaultPort sch) (Some n) = false ->
  parsePort sch (portText n) = Some (Some n).
Proof.
  intros Hrange Hdefault. unfold parsePort.
  destruct (portText n) as [|c digits] eqn:E; [destruct (portText_nonempty n E)|].
  rewrite <- E. unfold portText. rewrite NilEmpty.usu, DecimalN.Unsigned.of_to.
  cbv zeta. rewrite Hrange, Hdefault. reflexivity.
Qed.

Lemma userinfoChar_of_plain (c : ascii) : inUserinfoSet c = false -> userinfoChar c = true.
Proof. all_chars c. Qed.

Lemma userinfoChar_pctEncode (c : ascii) : every userinfoChar (pctEncode c) = true.
Proof. all_chars c. Qed.

Lemma userinfoChar_plain (c : ascii) : userinfoChar c = true -> negb (inUserinfoSet c) = true.
Proof. all_chars c. Qed.

(** What [parseHttp] returns is a URL of the model. *)
Lemma parseHttp_wellFormed (input : string) (u : URL) :
  parseHttp T input = Some u -> wellFormed T u.
Proof.
  unfold parseHttp.
  destruct (splitScheme (preprocess input)) as [[sch after]|] eqn:Es; [|discriminate].
  destruct (upTo (oneOf "/\?#") (dropWhile isSlash after)) as [authority s2].
  destruct (match splitLast "@" authority with
            | Some (before, after0) => (before, after0)
            | None => ("", authority)
            end) as [credentials hostAndPort].
  destruct (upTo (oneOf ":") credentials) as [user pass].
  destruct (hostEnd false hostAndPort) as [hostText portPart].
  destruct (parseHost T hostText) as [h|] eqn:Eh; [|discriminate].
  destruct (parsePort sch (tail portPart)) as [p|] eqn:Ep; [|discriminate].
  destruct (upTo (oneOf "?#") s2) as [rawPath s3].
  destruct (upTo (oneOf "#") s3) as [queryPart fragmentPart].
  intros [= <-]. unfold wellFormed.
  cbn [scheme username password host port path opaque query fragment].
  split; [eapply splitScheme_scheme; eassumption|].
  split; [apply every_encodeWith; [apply userinfoChar_of_plain | apply userinfoChar_pctEncode]|].
  split; [apply every_encodeWith; [apply userinfoChar_of_plain | apply userinfoChar_pctEncode]|].
  split; [exists h; split; [reflexivity | apply (parseHost_stable T _ _ Eh)]|].
  split; [destruct p as [n|]; [eapply parsePort_Some; eassumption | exact I]|].
  split; [apply canonPath_pathOk|]. split; [reflexivity|].
  split.
  - destruct queryPart as [|c q]; [exact I|].
    apply every_encodeWith; [apply queryChar_of_plain | apply queryChar_pctEncode].
  - destruct fragmentPart as [|c f]; [exact I|].
    apply every_encodeWith; [apply fragmentChar_of_plain | apply fragmentChar_pctEncode].
Qed.

(** *** Reading back what was written *)

Definition visible (c : ascii) : bool := negb (isC0OrSpace c).

Lemma preprocess_visible (s : string) : every visible s = true -> preprocess s = s.
Proof.
  intros H. unfold preprocess.
  destruct (dropWhile_none isC0OrSpace s H) as (-> & -> & _).
  apply (dropWhile_none isTabOrNewline).
  eapply every_impl; [|exact H]. unfold visible. intros c Hc. cbv beta.
  apply negb_true_iff in Hc. rewrite (tab_is_blank c Hc). reflexivity.
Qed.

Definition portPart (p : option N) : string :=
  match p with Some n => (":" ++ portText n)%string | None => "" end.
Definition authorityText (user pass h : string) (p : option N) : string :=
  (credentialsText user pass ++ h ++ portPart p)%string.
Definition queryText (q : option string) : string :=
  match q with Some q => ("?" ++ q)%string | None => "" end.
Definition fragmentText (f : option string) : string :=
  match f with Some f => ("#" ++ f)%string | None => "" end.

Lemma href_parts (sch user pass h path : string) (p : option N) (q f : option string) :
  href (mkURL sch user pass (Some h) p path false q f)
  = (sch ++ "://" ++ authorityText user pass h p ++ path ++ queryText q
     ++ fragmentText f)%string.
Proof.
  unfold href, authorityText, portPart, queryText, fragmentText.
  cbn [scheme username password host port Url.path query fragment].
  rewrite !append_associative. reflexivity.
Qed.

End UrlParsing.

(** The parser at work: blanks stripped, scheme and host lower-cased, the
    default port dropped, backslashes read as slashes, dot segments
    resolved, the query encoded; credentials, the number forms of IPv4
    addresses, IPv6 addresses, percent-escapes in the host and names with
    Punycode labels. *)
Example parseHttp_examples :
  let parsed input := option_map Url.href (Url.parseHttp Scenario.tables input) in
  parsed "  HTTP://Example.COM:80\a\..\b/./?q=1 2#top " = Some "http://example.com/b/?q=1%202#top"
  /\ parsed "https://example.com:8443" = Some "https://example.com:8443/"
  /\ parsed "https://127.0.0.1:3000/x" = Some "https://127.0.0.1:3000/x"
  /\ parsed "https://user:pw@example.com/" = Some "https://user:pw@example.com/"
  /\ parsed "https://a@b@example.com/" = Some "https://a%40b@example.com/"
  /\ parsed "https://0x7f.1/" = Some "https://127.0.0.1/"
  /\ parsed "https://1.2.3.4./" = Some "https://1.2.3.4/"
  /\ parsed "https://[2001:DB8:0:0:1:0:0:1]/" = Some "https://[2001:db8::1:0:0:1]/"
  /\ parsed "https://[::ffff:1.2.3.4]:8080/" = Some "https://[::ffff:102:304]:8080/"
  /\ parsed "https://ex%41mple.com/a^b" = Some "https://example.com/a^b"
  /\ parsed "https://XN--bcher-kva.example/" = Some "https://xn--bcher-kva.example/"
  /\ parsed ("https://" ++ Scenario.buecher)%string = Some "https://xn--bcher-kva.example/"
  /\ parsed "https:///" = None
  /\ parsed "https://user@/" = None
  /\ parsed "https://1.2.3.4.5/" = None
  /\ parsed "https://a b/" = None.
Proof. vm_compute. repeat split; reflexivity. Qed.

Section UrlRoundTrip.
Import Js Url.
Variable T : Idna.

Lemma splitScheme_http (s : string) :
  splitScheme ("http://" ++ s) = Some ("http", ("//" ++ s)%string).
Proof. reflexivity. Qed.

Lemma splitScheme_https (s : string) :
  splitScheme ("https://" ++ s) = Some ("https", ("//" ++ s)%string).
Proof. reflexivity. Qed.

(** *** Credentials *)

Lemma splitLast_none (sep : ascii) (s : string) :
  every (fun c => negb (Ascii.eqb c sep)) s = true -> splitLast sep s = None.
Proof.
  induction s as [|c s IH]; [reflexivity|]. cbn [every splitLast].
  rewrite andb_true_iff, negb_true_iff. intros [Hc Hs]. rewrite (IH Hs), Hc. reflexivity.
Qed.

Lemma splitLast_append (sep : ascii) (a b : string) :
  every (fun c => negb (Ascii.eqb c sep)) b = true ->
  splitLast sep (a ++ String sep b) = Some (a, b).
Proof.
  intros Hb. induction a as [|c a IH].
  - change ("" ++ String sep b)%string with (String sep b). cbn [splitLast].
    rewrite (splitLast_none sep b Hb), Ascii.eqb_refl. reflexivity.
  - change (String c a ++ String sep b)%string with (String c (a ++ String sep b)).
    cbn [splitLast]. rewrite IH. reflexivity.
Qed.

Lemma userinfoChar_visible (c : ascii) : userinfoChar c = true -> visible c = true.
Proof. all_chars c. Qed.

Lemma userinfoChar_not_delimiter (c : ascii) :
  userinfoChar c = true -> negb (oneOf "/\?#" c) = true.
Proof. all_chars c. Qed.

Lemma userinfoChar_not_colon (c : ascii) :
  userinfoChar c = true -> negb (oneOf ":" c) = true.
Proof. all_chars c. Qed.

Lemma hostTextChar_visible (c : ascii) : hostTextChar c = true -> visible c = true.
Proof. all_chars c. Qed.

Lemma hostTextChar_not_delimiter (c : ascii) :
  hostTextChar c = true -> negb (oneOf "/\?#" c) = true.
Proof. all_chars c. Qed.

Lemma hostTextChar_not_at (c : ascii) :
  hostTextChar c = true -> negb (Ascii.eqb c "@") = true.
Proof. all_chars c. Qed.

Lemma digit_not_at (c : ascii) : isDigit c = true -> negb (Ascii.eqb c "@") = true.
Proof. all_chars c. Qed.

(** The characters of a serialized authority. *)
Lemma credentialsText_chars (q : ascii -> bool) (user pass : string) :
  (forall c, userinfoChar c = true -> q c = true) ->
  q ":"%char = true -> q "@"%char = true ->
  every userinfoChar user = true -> every userinfoChar pass = true ->
  every q (credentialsText user pass) = true.
Proof.
  intros Hq Hcolon Hat Hu Hp. unfold credentialsText.
  destruct (String.eqb user "" && String.eqb pass ""); [reflexivity|].
  rewrite !every_append, (every_impl _ _ _ Hq Hu). cbn [every]. rewrite Hat.
  destruct (String.eqb pass ""); [reflexivity|].
  change (every q (":" ++ pass)) with (q ":"%char && every q pass).
  rewrite Hcolon, (every_impl _ _ _ Hq Hp). reflexivity.
Qed.

Lemma portPart_chars (q : ascii -> bool) (p : option N) :
  (forall c, isDigit c = true -> q c = true) -> q ":"%char = true ->
  every q (portPart p) = true.
Proof.
  intros Hq Hcolon. destruct p as [n|]; [|reflexivity].
  change (q ":"%char && every q (portText n) = true). rewrite Hcolon.
  apply (every_impl isDigit q _ Hq), portText_digits.
Qed.

Lemma authorityText_chars (q : ascii -> bool) (user pass h : string) (p : option N) :
  (forall c, userinfoChar c = true -> q c = true) ->
  (forall c, hostTextChar c = true -> q c = true) ->
  (forall c, isDigit c = true -> q c = true) ->
  q ":"%char = true -> q "@"%char = true ->
  every userinfoChar user = true -> every userinfoChar pass = true -> hostKind T h ->
  every q (authorityText user pass h p) = true.
Proof.
  intros Hu Hh Hd Hcolon Hat Huser Hpass Hkind. unfold authorityText.
  rewrite !every_append, (credentialsText_chars q user pass Hu Hcolon Hat Huser Hpass).
  rewrite (every_impl _ _ _ Hh (kind_chars T h Hkind)).
  rewrite (portPart_chars q p Hd Hcolon). reflexivity.
Qed.

Lemma authorityText_nonempty (user pass h : string) (p : option N) :
  hostKind T h -> authorityText user pass h p <> "".
Proof.
  intros Hkind E. apply (kind_nonempty T h Hkind). unfold authorityText in E.
  destruct (credentialsText user pass); [|discriminate E].
  destruct h; [reflexivity | discriminate E].
Qed.

Lemma queryText_chars (q : ascii -> bool) (query : option string) :
  (forall c, queryChar c = true -> q c = true) ->
  q "?"%char = true ->
  match query with Some t => every queryChar t = true | None => True end ->
  every q (queryText query) = true.
Proof.
  intros Hq Hmark H. destruct query as [t|]; [|reflexivity].
  change (q "?"%char && every q t = true). rewrite Hmark. apply (every_impl queryChar q _ Hq), H.
Qed.

Lemma fragmentText_chars (q : ascii -> bool) (fragment : option string) :
  (forall c, fragmentChar c = true -> q c = true) ->
  q "#"%char = true ->
  match fragment with Some t => every fragmentChar t = true | None => True end ->
  every q (fragmentText fragment) = true.
Proof.
  intros Hq Hmark H. destruct fragment as [t|]; [|reflexivity].
  change (q "#"%char && every q t = true). rewrite Hmark. apply (every_impl fragmentChar q _ Hq), H.
Qed.

Lemma pathOk_chars (p : string) : pathOk p = true -> every pathChar p = true.
Proof. unfold pathOk. rewrite !andb_true_iff. tauto. Qed.

Lemma pathOk_slash (p : string) : pathOk p = true -> p = String "/" (tail p).
Proof.
  unfold pathOk. rewrite !andb_true_iff. intros [[H _] _]. apply startsWith_slash, H.
Qed.

Lemma eqb_empty (s : string) : String.eqb s "" = true <-> s = "".
Proof. apply String.eqb_eq. Qed.

(** Reading the credentials of a serialized authority. *)
Lemma credentials_read (user pass rest : string) :
  every userinfoChar user = true -> every userinfoChar pass = true ->
  every (fun c => negb (Ascii.eqb c "@")) rest = true ->
  exists credentials colonPass,
    match splitLast "@" (credentialsText user pass ++ rest) with
    | Some (before, after) => (before, after)
    | None => ("", (credentialsText user pass ++ rest)%string)
    end = (credentials, rest)
    /\ upTo (oneOf ":") credentials = (user, colonPass)
    /\ tail colonPass = pass.
Proof.
  intros Hu Hp Hrest. unfold credentialsText.
  assert (Huser : every (fun c => negb (oneOf ":" c)) user = true)
    by (apply (every_impl _ _ _ userinfoChar_not_colon Hu)).
  destruct (String.eqb_spec user "") as [-> | Hne]; cbn [andb].
  - destruct (String.eqb_spec pass "") as [-> | Hpne].
    + exists "", "". change ("" ++ rest)%string with rest.
      rewrite (splitLast_none "@" rest Hrest). auto.
    + exists (":" ++ pass)%string, (":" ++ pass)%string.
      change ("" ++ (":" ++ pass) ++ "@")%string with ((":" ++ pass) ++ "@")%string.
      rewrite append_associative.
      change ("@" ++ rest)%string with (String "@" rest).
      rewrite (splitLast_append "@" _ rest Hrest). auto.
  - destruct (String.eqb_spec pass "") as [-> | Hpne].
    + exists user, "". change (user ++ "" ++ "@")%string with (user ++ "@")%string.
      rewrite append_associative. change ("@" ++ rest)%string with (String "@" rest).
      rewrite (splitLast_append "@" _ rest Hrest).
      split; [reflexivity|]. split; [|reflexivity].
      rewrite <- (append_empty user) at 1. apply upTo_append; [exact Huser | exact I].
    + exists (user ++ ":" ++ pass)%string, (":" ++ pass)%string.
      rewrite !append_associative.
      replace (user ++ ":" ++ pass ++ "@" ++ rest)%string
        with ((user ++ ":" ++ pass) ++ String "@" rest)%string
        by (rewrite !append_associative; reflexivity).
      rewrite (splitLast_append "@" _ rest Hrest).
      split; [reflexivity|]. split; [|reflexivity].
      apply upTo_append; [exact Huser | reflexivity].
Qed.

(** Serializing a URL of the model and parsing the text gives it back. *)
Lemma parseHttp_href (u : URL) : wellFormed T u -> parseHttp T (href u) = Some u.
Proof.
  destruct u as [sch us pw ho po pa op qu fr]. unfold wellFormed.
  cbn [scheme username password host port path opaque query fragment].
  intros (Hsch & Hus & Hpw & (h & -> & Hstable) & Hport & Hpath & -> & Hq & Hf).
  pose proof (parseHost_kind T h h Hstable) as Hkind.
  rewrite href_parts.
  set (tl3 := (queryText qu ++ fragmentText fr)%string).
  set (A := authorityText us pw h po).
  assert (HA : forall q,
             (forall c, userinfoChar c = true -> q c = true) ->
             (forall c, hostTextChar c = true -> q c = true) ->
             (forall c, isDigit c = true -> q c = true) ->
             q ":"%char = true -> q "@"%char = true -> every q A = true).
  { intros q H1 H2 H3 H4 H5. apply (authorityText_chars q us pw h po); assumption. }
  assert (Hvis : every visible (sch ++ "://" ++ A ++ pa ++ tl3) = true).
  { unfold tl3. rewrite !every_append.
    rewrite (HA visible); try reflexivity;
      [|apply userinfoChar_visible | apply hostTextChar_visible
       |intros c Hc; unfold visible; rewrite (digit_visible c Hc); reflexivity].
    rewrite (every_impl pathChar visible pa); [| |apply pathOk_chars, Hpath];
      [|intros c Hc; unfold visible; rewrite (pathChar_visible c Hc); reflexivity].
    rewrite (queryText_chars visible qu); try reflexivity; [| |exact Hq];
      [|intros c Hc; unfold visible; rewrite (queryChar_visible c Hc); reflexivity].
    rewrite (fragmentText_chars visible fr); try reflexivity; [| |exact Hf];
      [|intros c Hc; unfold visible; rewrite (fragmentChar_visible c Hc); reflexivity].
    destruct Hsch as [-> | ->]; reflexivity. }
  unfold parseHttp. rewrite (preprocess_visible _ Hvis).
  assert (Hscheme : splitScheme (sch ++ "://" ++ A ++ pa ++ tl3)
                    = Some (sch, ("//" ++ A ++ pa ++ tl3)%string))
    by (destruct Hsch as [-> | ->]; [apply splitScheme_http | apply splitScheme_https]).
  rewrite Hscheme. cbv beta iota.
  assert (Hdelim : every (fun c => negb (oneOf "/\?#" c)) A = true).
  { apply HA; try reflexivity;
      [apply userinfoChar_not_delimiter | apply hostTextChar_not_delimiter|].
    intros c Hc. rewrite (digit_not_delimiter c Hc). reflexivity. }
  assert (Hslashes : dropWhile isSlash ("//" ++ A ++ pa ++ tl3) = (A ++ pa ++ tl3)%string).
  { pose proof (authorityText_nonempty us pw h po Hkind) as Hne. fold A in Hne.
    destruct A as [|c A']; [congruence|]. cbn [every] in Hdelim.
    apply andb_true_iff in Hdelim as [Hc _]. apply negb_true_iff in Hc.
    assert (Hs : isSlash c = false).
    { revert Hc. clear. destruct c as [[] [] [] [] [] [] [] []]; vm_compute; congruence. }
    simpl. rewrite Hs. reflexivity. }
  rewrite Hslashes.
  rewrite (upTo_append (oneOf "/\?#") A (pa ++ tl3));
    [|exact Hdelim | rewrite (pathOk_slash pa Hpath); reflexivity].
  cbv beta iota.
  assert (Hrest : every (fun c => negb (Ascii.eqb c "@")) (h ++ portPart po) = true).
  { rewrite every_append.
    rewrite (every_impl _ _ _ hostTextChar_not_at (kind_chars T h Hkind)).
    apply (portPart_chars (fun c => negb (Ascii.eqb c "@"))); [apply digit_not_at | reflexivity]. }
  destruct (credentials_read us pw (h ++ portPart po) Hus Hpw Hrest)
    as (credentials & colonPass & Hcred & Hup & Htail).
  unfold A, authorityText. rewrite Hcred. cbv beta iota. rewrite Hup. cbv beta iota.
  rewrite (kind_hostEnd T h (portPart po) Hkind) by (destruct po; reflexivity).
  cbv beta iota. rewrite Hstable.
  assert (Hportp : parsePort sch (tail (portPart po)) = Some po).
  { destruct po as [n|]; [|reflexivity]. change (parsePort sch (portText n) = Some (Some n)).
    destruct Hport as [H1 H2]. rewrite (parsePort_fixed sch n H1 H2). reflexivity. }
  rewrite Hportp.
  rewrite (upTo_append (oneOf "?#") pa tl3);
    [|eapply every_impl; [|apply pathOk_chars, Hpath];
      intros c Hc; cbv beta; rewrite (pathChar_not_delimiter c Hc); reflexivity
     |unfold tl3; destruct qu; [reflexivity|]; destruct fr; [reflexivity | exact I]].
  cbv beta iota. unfold tl3.
  rewrite (upTo_append (oneOf "#") (queryText qu) (fragmentText fr));
    [|apply (queryText_chars (fun c => negb (oneOf "#" c))); try reflexivity;
      [intros c Hc; rewrite (queryChar_not_hash c Hc); reflexivity | exact Hq]
     |destruct fr; [reflexivity | exact I]].
  cbv beta iota. rewrite (canonPath_fixed pa Hpath), Htail.
  rewrite !encodeWith_plain by (eapply every_impl; [apply userinfoChar_plain | assumption]).
  f_equal. f_equal.
  - destruct qu as [t|]; [|reflexivity]. change (Some (encodeWith inSpecialQuerySet t) = Some t).
    f_equal.
    apply encodeWith_plain. eapply every_impl; [|exact Hq].
    intros c Hc. cbv beta. rewrite (queryChar_plain c Hc). reflexivity.
  - destruct fr as [t|]; [|reflexivity]. change (Some (encodeWith inFragmentSet t) = Some t).
    f_equal.
    apply encodeWith_plain. eapply every_impl; [|exact Hf].
    intros c Hc. cbv beta. rewrite (fragmentChar_plain c Hc). reflexivity.
Qed.

End UrlRoundTrip.

(** ** The patterns of [normalizeUrl] *)

Section UrlPatterns.
Import Js Url Regex Crawl.

(** *** Anchored patterns *)

Lemma find_anchored (r : regex) (a : ascii) (s : string) :
  find (Cat InputStart r) (Some a) s = None.
Proof.
  revert a. induction s as [|b s IH]; intros a; cbn [find matchAt run prev]; [reflexivity|].
  rewrite IH. reflexivity.
Qed.

Lemma test_anchored (r : regex) (s : string) :
  test (Cat InputStart r) s
  = match matchAt (Cat InputStart r) None s with Some _ => true | None => false end.
Proof.
  unfold test. destruct s as [|a s]; cbn [find];
    destruct (matchAt (Cat InputStart r) None _); try reflexivity.
  rewrite find_anchored. reflexivity.
Qed.

Lemma iterate_exhausted (step : cursor -> Cont -> option cursor) (greedy : bool)
    (budget : nat) (c : cursor) (k : Cont) :
  iterate step greedy budget 0 (Some 0) c k = k c.
Proof. destruct budget; reflexivity. Qed.

(** [x?] before [k]. *)
Lemma run_optional (p : ascii -> bool) (before : option ascii) (s : string)
    (cs : list (nat * string)) (k : Cont) :
  run (Repeat true 0 (Some 1) (Char p)) (Cursor before s cs) k
  = match s with
    | String a s' =>
        orElse (if p a then k (Cursor (Some a) s' cs) else None) (k (Cursor before s cs))
    | "" => k (Cursor before "" cs)
    end.
Proof.
  destruct s as [|a s']; [reflexivity|].
  cbn [run rest Nat.add String.length iterate exhausted decr caps].
  destruct (p a); [|reflexivity].
  unfold consumed. cbn [rest String.length].
  replace (S (String.length s') - String.length s') with 1 by lia.
  cbn [Nat.eqb]. rewrite iterate_exhausted. reflexivity.
Qed.

Definition matched (r : option cursor) : bool :=
  match r with Some _ => true | None => false end.

Lemma matched_orElse (a b : option cursor) : matched (orElse a b) = matched a || matched b.
Proof. destruct a; reflexivity. Qed.

Lemma run_separator (before : option ascii) (s : string) (cs : list (nat * string)) :
  matched (run (text "://") (Cursor before s cs) Some) = startsWith s "://".
Proof.
  destruct s as [|a [|b [|c s]]]; cbn [text run lit rest caps startsWith matched];
    rewrite ?(Ascii.eqb_sym ":"), ?(Ascii.eqb_sym "/");
    repeat match goal with
    | |- context [Ascii.eqb ?x ?y] => destruct (Ascii.eqb x y); cbn [andb matched]
    end; try reflexivity.
  destruct s; reflexivity.
Qed.

(** What [/^https?:\/\//i] accepts. *)
Definition fc (c x : ascii) : bool := Ascii.eqb (foldChar c) (foldChar x).

Definition protocolPrefix (s : string) : bool :=
  match s with
  | String c1 (String c2 (String c3 (String c4 r))) =>
      fc c1 "h" && fc c2 "t" && fc c3 "t" && fc c4 "p" &&
      (match r with
       | String c5 r' => fc c5 "s" && startsWith r' "://"
       | "" => false
       end || startsWith r "://")
  | _ => false
  end.

Lemma test_protocolPattern (s : string) : test protocolPattern s = protocolPrefix s.
Proof.
  unfold protocolPattern. cbn [cat]. rewrite test_anchored.
  unfold matchAt. cbn [run prev textCi litCi].
  destruct s as [|c1 s]; [reflexivity|]. cbn [rest caps protocolPrefix]. fold (fc c1 "h").
  destruct (fc c1 "h"); [|destruct s as [|? [|? [|? ?]]]; reflexivity].
  destruct s as [|c2 s]; [reflexivity|]. cbn [run rest caps]. fold (fc c2 "t").
  destruct (fc c2 "t"); [|destruct s as [|? [|? ?]]; reflexivity].
  destruct s as [|c3 s]; [reflexivity|]. cbn [run rest caps]. fold (fc c3 "t").
  destruct (fc c3 "t"); [|destruct s as [|? ?]; reflexivity].
  destruct s as [|c4 s]; [reflexivity|]. cbn [run rest caps]. fold (fc c4 "p").
  destruct (fc c4 "p"); [|reflexivity]. cbn [andb].
  change (matched (run (Repeat true 0 (Some 1) (Char (fun b => fc b "s")))
                     (Cursor (Some c4) s []) (fun c' => run (text "://") c' Some))
          = (match s with
             | String c5 r' => fc c5 "s" && startsWith r' "://"
             | "" => false
             end || startsWith s "://")).
  rewrite run_optional. destruct s as [|c5 s].
  - reflexivity.
  - rewrite matched_orElse, (run_separator (Some c4)).
    destruct (fc c5 "s"); [|reflexivity]. rewrite run_separator. reflexivity.
Qed.

End UrlPatterns.

Section UrlPrefixes.
Import Js Url Regex Crawl.

Lemma startsWith_nil (s : string) : startsWith s "" = true.
Proof. destruct s; reflexivity. Qed.

Lemma startsWith_spec (s p : string) :
  startsWith s p = true -> exists t, s = (p ++ t)%string.
Proof.
  revert s. induction p as [|b p IH]; intros s; [exists s; reflexivity|].
  destruct s as [|a s]; [discriminate|]. cbn [startsWith]. rewrite andb_true_iff.
  intros [Hab H]. apply Ascii.eqb_eq in Hab as ->. destruct (IH s H) as [t ->].
  exists t. reflexivity.
Qed.

Lemma dropWhileEnd_cons (q : ascii -> bool) (c : ascii) (s : string) :
  q c && every q s = false -> dropWhileEnd q (String c s) = String c (dropWhileEnd q s).
Proof.
  intros H. cbn [dropWhileEnd]. destruct (dropWhileEnd q s) as [|b t] eqn:E; [|reflexivity].
  destruct (q c); [|reflexivity]. cbn [andb] in H.
  assert (Hall : every q s = true); [|congruence].
  clear H. revert E. induction s as [|a s IH]; [reflexivity|]. cbn [dropWhileEnd every].
  destruct (dropWhileEnd q s); [|discriminate]. destruct (q a); [|discriminate].
  intros _. apply IH. reflexivity.
Qed.

(** Removal of blanks leaves a prefix of visible characters alone. *)
Lemma preprocess_prefix (p s : string) :
  every visible p = true -> p <> "" ->
  preprocess (p ++ s) = (p ++ remove isTabOrNewline (dropWhileEnd isC0OrSpace s))%string.
Proof.
  intros Hp Hne. unfold preprocess.
  assert (E : dropWhile isC0OrSpace (p ++ s) = (p ++ s)%string).
  { destruct p as [|c p]; [congruence|]. cbn [every] in Hp.
    apply andb_true_iff in Hp as [Hc _]. apply negb_true_iff in Hc.
    simpl. rewrite Hc. reflexivity. }
  rewrite E. clear E Hne. induction p as [|c p IH]; [reflexivity|].
  cbn [every] in Hp. apply andb_true_iff in Hp as [Hc Hp]. apply negb_true_iff in Hc.
  change (String c p ++ s)%string with (String c (p ++ s)).
  rewrite dropWhileEnd_cons by (rewrite Hc; reflexivity).
  cbn [remove]. rewrite (tab_is_blank c Hc), (IH Hp). reflexivity.
Qed.

Lemma isHttpAbsolute_prefix (p s : string) :
  every visible p = true -> p <> "" ->
  (forall t, match splitScheme (p ++ t) with
             | Some (_, String a (String b _)) => isSlash a && isSlash b
             | _ => false
             end = true) ->
  isHttpAbsolute (p ++ s) = true.
Proof.
  intros Hp Hne H. unfold isHttpAbsolute. rewrite (preprocess_prefix p s Hp Hne). apply H.
Qed.

Lemma isHttpAbsolute_https (s : string) : isHttpAbsolute ("https://" ++ s) = true.
Proof.
  apply (isHttpAbsolute_prefix "https://" s); [reflexivity | discriminate | reflexivity].
Qed.

Lemma fold_h (c : ascii) : fc c "h" = true -> c = "h"%char \/ c = "H"%char.
Proof.
  intros H. destruct c as [[] [] [] [] [] [] [] []]; vm_compute in H;
    try discriminate H; auto.
Qed.

Lemma fold_t (c : ascii) : fc c "t" = true -> c = "t"%char \/ c = "T"%char.
Proof.
  intros H. destruct c as [[] [] [] [] [] [] [] []]; vm_compute in H;
    try discriminate H; auto.
Qed.

Lemma fold_p (c : ascii) : fc c "p" = true -> c = "p"%char \/ c = "P"%char.
Proof.
  intros H. destruct c as [[] [] [] [] [] [] [] []]; vm_compute in H;
    try discriminate H; auto.
Qed.

Lemma fold_s (c : ascii) : fc c "s" = true -> c = "s"%char \/ c = "S"%char.
Proof.
  intros H. destruct c as [[] [] [] [] [] [] [] []]; vm_compute in H;
    try discriminate H; auto.
Qed.

(** An input with the protocol prefix is parsed as an absolute http(s) URL. *)
Lemma protocolPrefix_absolute (s : string) :
  protocolPrefix s = true -> isHttpAbsolute s = true.
Proof.
  destruct s as [|c1 [|c2 [|c3 [|c4 r]]]]; try discriminate. cbn [protocolPrefix].
  rewrite !andb_true_iff. intros [[[[H1 H2] H3] H4] H5].
  apply fold_h in H1. apply fold_t in H2. apply fold_t in H3. apply fold_p in H4.
  apply orb_true_iff in H5 as [H5 | H5].
  - destruct r as [|c5 r]; [discriminate|]. apply andb_true_iff in H5 as [H5 H6].
    apply fold_s in H5. apply startsWith_spec in H6 as [t ->].
    destruct H1 as [-> | ->], H2 as [-> | ->], H3 as [-> | ->], H4 as [-> | ->],
      H5 as [-> | ->];
      match goal with
      | |- isHttpAbsolute
             (String ?a (String ?b (String ?c (String ?d (String ?e ("://" ++ ?t)%string))))) = true =>
          apply (isHttpAbsolute_prefix
                   (String a (String b (String c (String d (String e "://"))))) t);
            [reflexivity | discriminate | reflexivity]
      end.
  - apply startsWith_spec in H5 as [t ->].
    destruct H1 as [-> | ->], H2 as [-> | ->], H3 as [-> | ->], H4 as [-> | ->];
      match goal with
      | |- isHttpAbsolute
             (String ?a (String ?b (String ?c (String ?d ("://" ++ ?t)%string)))) = true =>
          apply (isHttpAbsolute_prefix
                   (String a (String b (String c (String d "://")))) t);
            [reflexivity | discriminate | reflexivity]
      end.
Qed.

Lemma protocolPrefix_href (T : Idna) (u : URL) :
  wellFormed T u -> protocolPrefix (href u) = true.
Proof.
  destruct u as [sch us pw ho po pa op qu fr]. unfold wellFormed.
  cbn [scheme username password host port path opaque query fragment].
  intros (Hsch & _ & _ & (h & -> & _) & _ & _ & -> & _). rewrite href_parts.
  destruct Hsch as [-> | ->]; simpl;
    destruct (authorityText us pw h po ++ pa ++ queryText qu ++ fragmentText fr)%string;
    reflexivity.
Qed.

End UrlPrefixes.

Section TrailingRun.
Import Js Url Regex.
Variable p : ascii -> bool.

(** A greedy [p{lo,}] before [$] takes the whole rest or fails. *)
Lemma iterate_run_end (step : cursor -> Cont -> option cursor) (k : Cont) (budget lo : nat)
    (before : option ascii) (s : string) (cs : list (nat * string)) :
  (forall c k, step c k = run (Char p) c k) ->
  (forall c, k c = run InputEnd c Some) ->
  lo + String.length s <= budget ->
  exists last,
    iterate step true budget lo None (Cursor before s cs) k
    = if (lo <=? String.length s)%nat && every p s
      then Some (Cursor last "" cs) else None.
Proof.
  intros Hstep Hk. revert budget lo before.
  induction s as [|a s IH]; intros budget lo before Hb.
  - destruct budget as [|budget]; destruct lo as [|lo]; simpl in *;
      rewrite ?Hstep, ?Hk; simpl; eauto; lia.
  - destruct budget as [|budget]; [simpl in Hb; lia|].
    destruct lo as [|lo];
      cbn [iterate exhausted decr every String.length]; rewrite Hstep; cbn [run rest caps];
      destruct (p a) eqn:Hp; cbn [orElse Nat.leb andb]; rewrite ?Hk; cbn [run rest orElse];
      eauto.
    + unfold consumed. cbn [rest String.length].
      replace (S (String.length s) - String.length s) with 1 by lia. cbn [Nat.eqb].
      destruct (IH budget 0 (Some a)) as [last E]; [simpl in Hb; lia|].
      rewrite E. cbn [Nat.leb andb]. destruct (every p s); cbn [orElse]; eauto.
    + destruct (IH budget lo (Some a)) as [last E]; [simpl in Hb; lia|].
      rewrite E. eauto.
    + rewrite andb_false_r. eauto.
Qed.

Lemma dropWhileEnd_every (s : string) : every p s = true -> dropWhileEnd p s = "".
Proof.
  induction s as [|a s IH]; [reflexivity|]. cbn [every dropWhileEnd].
  rewrite andb_true_iff. intros [-> H]. rewrite (IH H). reflexivity.
Qed.

(** [s.replace(/p+$/, "")] drops the trailing run. *)
Lemma replace_trailing (s : string) :
  replace (Cat (plus (Char p)) InputEnd) (fun _ => "") s = dropWhileEnd p s.
Proof.
  unfold replace. generalize (@None ascii) as before.
  induction s as [|a s IH]; intros before; cbn [find];
    unfold matchAt, plus; cbn [run rest];
    match goal with
    | |- context [iterate ?step true ?budget 1 None (Cursor before ?t []) ?k] =>
        destruct (iterate_run_end step k budget 1 before t []
                    (fun _ _ => eq_refl) (fun _ => eq_refl) (Nat.le_refl _)) as [last E];
        rewrite E; clear E
    end.
  - reflexivity.
  - cbn [String.length Nat.leb]. cbn [andb].
    destruct (every p (String a s)) eqn:Hall.
    + rewrite (dropWhileEnd_every _ Hall). reflexivity.
    + rewrite dropWhileEnd_cons by exact Hall. specialize (IH (Some a)).
      destruct (find _ (Some a) s) as [[n c]|]; cbn [take]; simpl; rewrite <- IH; reflexivity.
Qed.

Lemma dropWhileEnd_idempotent (s : string) :
  dropWhileEnd p (dropWhileEnd p s) = dropWhileEnd p s.
Proof.
  induction s as [|a s IH]; [reflexivity|]. cbn [dropWhileEnd].
  destruct (dropWhileEnd p s) as [|b t] eqn:E.
  - destruct (p a) eqn:Hp; [reflexivity|]. cbn [dropWhileEnd]. rewrite Hp. reflexivity.
  - cbn [dropWhileEnd] in *. rewrite IH. reflexivity.
Qed.

Lemma dropWhileEnd_split (s : string) :
  exists t, s = (dropWhileEnd p s ++ t)%string /\ every p t = true.
Proof.
  induction s as [|a s (t & E & Ht)]; [exists ""; auto|]. cbn [dropWhileEnd].
  destruct (dropWhileEnd p s) as [|b d] eqn:Ed.
  - change (s = t) in E. subst t. destruct (p a) eqn:Hp.
    + exists (String a s). split; [reflexivity|]. cbn [every]. rewrite Hp. exact Ht.
    + exists s. split; [reflexivity | exact Ht].
  - exists t. split; [|exact Ht]. rewrite E at 1. reflexivity.
Qed.

End TrailingRun.

(** ** Idempotent normalization (claim C5) *)

Section Normalization.
Import Js Url Regex Crawl.

(** The steps of the crawl's [normalizeUrl] on the parsed URL. *)
Definition crawlForm (target : URL) : URL :=
  let target := set_protocol target "https:" in
  let target := set_hash target "" in
  let target := set_search target "" in
  if negb (String.eqb (pathname target) "/") then
    let target :=
      set_pathname target
        (Regex.replace trailingSlashes (fun _ => "") (pathname target)) in
    if String.eqb (pathname target) "" then set_pathname target "/"
    else target
  else target.

(** What they leave: an https URL of the model without query and fragment
    whose path is the root or does not end with a slash. *)
Definition normalForm (T : Idna) (u : URL) : Prop :=
  wellFormed T u /\ scheme u = "https" /\ query u = None /\ fragment u = None
  /\ (path u = "/" \/ dropWhileEnd (Ascii.eqb "/") (path u) = path u).

Lemma pathOk_nonempty (p : string) : pathOk p = true -> p <> "".
Proof. intros H E. subst p. discriminate H. Qed.

Lemma pathOk_stripped (p : string) :
  pathOk p = true ->
  dropWhileEnd (Ascii.eqb "/") p = "" \/ pathOk (dropWhileEnd (Ascii.eqb "/") p) = true.
Proof.
  intros H. destruct (dropWhileEnd_split (Ascii.eqb "/") p) as (t & E & Ht).
  destruct (dropWhileEnd (Ascii.eqb "/") p) as [|c d]; [left; reflexivity|]. right.
  assert (Hp : p = String c (d ++ t)) by exact E. clear E. subst p.
  unfold pathOk in *. cbn [startsWith tail every] in *.
  rewrite every_append in H. rewrite !andb_true_iff in *.
  destruct H as [[Hs [Hc [Hd _]]] Hdots].
  split; [split; [|split; assumption]|].
  - destruct (d ++ t)%string; destruct d; exact Hs.
  - destruct t as [|a t]; [rewrite append_empty in Hdots; exact Hdots|].
    cbn [every] in Ht. apply andb_true_iff in Ht as [Ha _].
    apply Ascii.eqb_eq in Ha as <-.
    rewrite splitChar_append, forallb_app, andb_true_iff in Hdots. apply Hdots.
Qed.

Lemma set_protocol_https (sch us pw h pa : string) (po : option N) (qu fr : option string) :
  sch = "http" \/ sch = "https" ->
  set_protocol (mkURL sch us pw (Some h) po pa false qu fr) "https:"
  = mkURL "https" us pw (Some h) (if optN_eqb po (Some 443%N) then None else po) pa false
      qu fr.
Proof. intros [-> | ->]; reflexivity. Qed.

Lemma crawlForm_steps (sch us pw h pa : string) (po : option N) (qu fr : option string) :
  sch = "http" \/ sch = "https" ->
  crawlForm (mkURL sch us pw (Some h) po pa false qu fr)
  = mkURL "https" us pw (Some h) (if optN_eqb po (Some 443%N) then None else po)
      (if String.eqb pa "/" then pa
       else canonPath (remove isTabOrNewline (dropWhileEnd (Ascii.eqb "/") pa)))
      false None None.
Proof.
  intros Hsch. unfold crawlForm. rewrite (set_protocol_https sch us pw h pa po qu fr Hsch).
  cbv zeta. unfold set_hash, set_search, pathname.
  cbn [scheme username password host port path opaque query fragment].
  destruct (String.eqb pa "/"); cbn [negb]; [reflexivity|].
  unfold set_pathname. cbn [scheme username password host port path opaque query fragment].
  unfold trailingSlashes, lit. rewrite replace_trailing.
  set (p' := remove isTabOrNewline (dropWhileEnd (Ascii.eqb "/") pa)).
  destruct (String.eqb_spec (canonPath p') "") as [E|_]; [|reflexivity].
  pose proof (canonPath_pathOk p') as H. rewrite E in H. discriminate H.
Qed.

Lemma remove_path (p : string) : every pathChar p = true -> remove isTabOrNewline p = p.
Proof.
  intros H. apply (dropWhile_none isTabOrNewline).
  eapply every_impl; [|exact H]. intros c Hc. cbv beta.
  rewrite (tab_is_blank c (pathChar_visible c Hc)). reflexivity.
Qed.

Lemma remove_stripped (p : string) :
  every pathChar p = true ->
  remove isTabOrNewline (dropWhileEnd (Ascii.eqb "/") p) = dropWhileEnd (Ascii.eqb "/") p.
Proof.
  intros H. apply remove_path.
  destruct (dropWhileEnd_split (Ascii.eqb "/") p) as (t & E & _).
  rewrite E, every_append, andb_true_iff in H. apply H.
Qed.

Lemma crawlForm_normalForm (T : Idna) (target : URL) :
  wellFormed T target -> normalForm T (crawlForm target).
Proof.
  destruct target as [sch us pw ho po pa op qu fr]. unfold wellFormed.
  cbn [scheme username password host port path opaque query fragment].
  intros (Hsch & Hus & Hpw & (h & -> & Hhost) & Hport & Hpath & -> & _).
  rewrite (crawlForm_steps sch us pw h pa po qu fr Hsch).
  assert (Hpath' :
    let p' := if String.eqb pa "/" then pa
              else canonPath (remove isTabOrNewline (dropWhileEnd (Ascii.eqb "/") pa)) in
    pathOk p' = true /\ (p' = "/" \/ dropWhileEnd (Ascii.eqb "/") p' = p')).
  { cbv zeta. destruct (String.eqb_spec pa "/") as [->|_]; [split; [reflexivity | left; reflexivity]|].
    rewrite (remove_stripped pa (pathOk_chars pa Hpath)).
    destruct (pathOk_stripped pa Hpath) as [E | Hok].
    - rewrite E. split; [reflexivity | left; reflexivity].
    - rewrite (canonPath_fixed _ Hok). split; [exact Hok|]. right.
      apply dropWhileEnd_idempotent. }
  cbv zeta in Hpath'. destruct Hpath' as [Hok Hend].
  unfold normalForm, wellFormed.
  cbn [scheme username password host port path opaque query fragment].
  repeat split; try assumption; auto.
  - exists h. split; [reflexivity | exact Hhost].
  - destruct po as [n|]; [|exact I]. cbn [optN_eqb].
    destruct (N.eqb n 443) eqn:E; [exact I|]. destruct Hport as [Hrange _].
    split; [exact Hrange|]. change (N.eqb 443 n = false). rewrite N.eqb_sym. exact E.
Qed.

Lemma crawlForm_fixed (T : Idna) (u : URL) : normalForm T u -> crawlForm u = u.
Proof.
  destruct u as [sch us pw ho po pa op qu fr]. unfold normalForm, wellFormed.
  cbn [scheme username password host port path opaque query fragment].
  intros ((_ & _ & _ & (h & -> & _) & Hport & Hpath & -> & _) & -> & -> & -> & Hend).
  rewrite crawlForm_steps by (right; reflexivity). f_equal.
  - destruct po as [n|]; [|reflexivity]. cbn [optN_eqb]. destruct Hport as [_ H].
    change (N.eqb 443 n = false) in H. rewrite N.eqb_sym, H. reflexivity.
  - destruct (String.eqb_spec pa "/") as [->|Hne]; [reflexivity|].
    destruct Hend as [E | E]; [congruence|].
    rewrite E, (remove_path pa (pathOk_chars pa Hpath)). apply canonPath_fixed, Hpath.
Qed.

(** Without a base, the crawl's [normalizeUrl] parses an absolute http(s)
    text. *)
Lemma URL_new_protocol (W : World) (input : string) (base : option string) :
  test protocolPattern input = true -> URL_new W input base = parseHttp (idna W) input.
Proof.
  intros H. unfold URL_new. rewrite test_protocolPattern in H.
  rewrite (protocolPrefix_absolute input H). reflexivity.
Qed.

Lemma URL_new_https (W : World) (input : string) (base : option string) :
  URL_new W ("https://" ++ input) base = parseHttp (idna W) ("https://" ++ input).
Proof. unfold URL_new. rewrite isHttpAbsolute_https. reflexivity. Qed.

Lemma normalizeUrl_crawlForm (W : World) (input : string) (base : option string) :
  normalizeUrl W input base
  = match (if test protocolPattern input then URL_new W input None
           else match base with
                | Some (String _ _ as b) => URL_new W input (Some b)
                | _ => URL_new W ("https://" ++ input) None
                end) with
    | None => Throw ("Unable to normalize URL: " ++ input)
    | Some target => Ok (toString (crawlForm target))
    end.
Proof. reflexivity. Qed.

Lemma normalizeUrl_normalForm (W : World) (input u : string) :
  normalizeUrl W input None = Ok u -> exists v, normalForm (idna W) v /\ u = href v.
Proof.
  rewrite normalizeUrl_crawlForm.
  destruct (test protocolPattern input) eqn:E;
    [rewrite (URL_new_protocol W input None E) | rewrite URL_new_https];
    match goal with
    | |- context [parseHttp ?i ?t] =>
        destruct (parseHttp i t) as [target|] eqn:Ep; [|discriminate]
    end;
    intros [= <-]; exists (crawlForm target);
    (split; [eapply crawlForm_normalForm, parseHttp_wellFormed; eassumption | reflexivity]).
Qed.

Lemma normalizeUrl_href (W : World) (v : URL) (base : option string) :
  normalForm (idna W) v -> normalizeUrl W (href v) base = Ok (href v).
Proof.
  intros Hv. pose proof Hv as (Hwf & _).
  assert (Ht : test protocolPattern (href v) = true)
    by (rewrite test_protocolPattern; apply (protocolPrefix_href _ _ Hwf)).
  rewrite normalizeUrl_crawlForm, Ht, (URL_new_protocol W _ None Ht).
  rewrite (parseHttp_href _ v Hwf), (crawlForm_fixed _ v Hv). reflexivity.
Qed.

(** The conservative mode. *)
Lemma set_hash_wellFormed (T : Idna) (u : URL) :
  wellFormed T u -> wellFormed T (set_hash u "") /\ fragment (set_hash u "") = None.
Proof.
  unfold wellFormed, set_hash.
  cbn [scheme username password host port path opaque query fragment].
  intros (H1 & H2 & H3 & H4 & H5 & H6 & H7 & H8 & _). repeat split; assumption.
Qed.

Lemma set_hash_fixed (u : URL) : fragment u = None -> set_hash u "" = u.
Proof. destruct u. cbn [fragment]. intros ->. reflexivity. Qed.

Lemma protocol_http (T : Idna) (u : URL) :
  wellFormed T u -> existsb (String.eqb (protocol u)) ["http:"; "https:"] = true.
Proof. intros ([E | E] & _); unfold protocol; rewrite E; reflexivity. Qed.

Lemma conservative_normalForm (W : World) (input u : string) :
  Extractor.normalizeUrl W input = Extractor.Return u ->
  exists v, wellFormed (idna W) v /\ fragment v = None /\ u = href v.
Proof.
  unfold Extractor.normalizeUrl. cbv zeta.
  destruct (test protocolPattern input) eqn:E;
    [rewrite (URL_new_protocol W input None E) | rewrite URL_new_https];
    match goal with
    | |- context [parseHttp ?i ?t] =>
        destruct (parseHttp i t) as [target|] eqn:Ep; [|discriminate]
    end;
    apply parseHttp_wellFormed in Ep; rewrite (protocol_http _ target Ep); cbn [negb];
    intros [= <-]; exists (set_hash target "");
    destruct (set_hash_wellFormed _ target Ep) as [H1 H2]; auto.
Qed.

Lemma conservative_href (W : World) (v : URL) :
  wellFormed (idna W) v -> fragment v = None ->
  Extractor.normalizeUrl W (href v) = Extractor.Return (href v).
Proof.
  intros Hwf Hf.
  assert (Ht : test protocolPattern (href v) = true)
    by (rewrite test_protocolPattern; apply (protocolPrefix_href _ _ Hwf)).
  unfold Extractor.normalizeUrl. cbv zeta. rewrite Ht, (URL_new_protocol W _ None Ht).
  rewrite (parseHttp_href _ v Hwf), (protocol_http _ v Hwf). cbn [negb].
  rewrite (set_hash_fixed v Hf). reflexivity.
Qed.

End Normalization.

(** C5.  URL normalization is idempotent in both modes.  Crawl mode: when
    [normalizeUrl(input)] returns [u], [normalizeUrl(u)] returns [u] again,
    with or without a base.  Conservative mode: when [normalizeUrl(input)]
    returns [u], [normalizeUrl(u)] returns [u] again. *)
Theorem normalizeUrl_idempotent :
  (forall (W : Crawl.World) (input u : string) (base : option string),
      Crawl.normalizeUrl W input None = Js.Ok u ->
      Crawl.normalizeUrl W u base = Js.Ok u)
  /\ (forall (W : Crawl.World) (input u : string),
        Extractor.normalizeUrl W input = Extractor.Return u ->
        Extractor.normalizeUrl W u = Extractor.Return u).
Proof.
  split.
  - intros W input u base H.
    destruct (normalizeUrl_normalForm W input u H) as (v & Hv & ->).
    apply normalizeUrl_href, Hv.
  - intros W input u H.
    destruct (conservative_normalForm W input u H) as (v & Hwf & Hf & ->).
    apply conservative_href; assumption.
Qed.

Lemma normalizeUrl_idempotent_witness :
  let W := Scenario.emptyCanonical in
  let input := "HTTP://Example.COM:80/a/../b//?x=1#frag" in
  Crawl.normalizeUrl W input None = Js.Ok "https://example.com/b"
  /\ Crawl.normalizeUrl W "https://example.com/b" None = Js.Ok "https://example.com/b"
  /\ Extractor.normalizeUrl W input = Extractor.Return "http://example.com/b//?x=1"
  /\ Extractor.normalizeUrl W "http://example.com/b//?x=1"
     = Extractor.Return "http://example.com/b//?x=1".
Proof.
  cbv zeta. split; [vm_compute; reflexivity|].
  split; [apply (proj1 normalizeUrl_idempotent Scenario.emptyCanonical
                   "HTTP://Example.COM:80/a/../b//?x=1#frag" "https://example.com/b" None);
          vm_compute; reflexivity|].
  split; [vm_compute; reflexivity|].
  apply (proj2 normalizeUrl_idempotent Scenario.emptyCanonical
           "HTTP://Example.COM:80/a/../b//?x=1#frag" "http://example.com/b//?x=1").
  vm_compute. reflexivity.
Defined.

(** ** Error classification of the library extractor *)

Section Classification.
Import Js Crawl Extractor.
Variable W : World.

(** A response the library extractor rejects with status 400. *)
Definition badResponse (r : Response) : Prop :=
  (ok r = false /\ (status r < 500)%N)
  \/ (ok r = true
      /\ (includes (match contentType r with Some h => h | None => "" end) "text/html" = false
          \/ exists size text document,
               body r = BodyOf size text document
               /\ (size = 0%N \/ (MAX_DOCUMENT_BYTES < size)%N))).

Ltac cases :=
  repeat match goal with
  | H : exists _, _ |- _ => destruct H
  | H : _ /\ _ |- _ => destruct H
  | H : _ \/ _ |- _ => destruct H
  | H : Some _ = Some _ |- _ => inversion H; subst; clear H
  | H : body ?r = _, H' : body ?r = _ |- _ => rewrite H in H'; inversion H'; subst; clear H'
  end;
  try discriminate; try congruence; try lia.

Lemma fetchHtml_status (target : string) :
  (errorStatus (fetchHtml W target) = Some 502%N <->
     fetch W target = None
     \/ exists r, fetch W target = Some r /\ ok r = false /\ (500 <= status r)%N)
  /\ (errorStatus (fetchHtml W target) = Some 400%N <->
        exists r, fetch W target = Some r /\ badResponse r)
  /\ (forall n, errorStatus (fetchHtml W target) = Some n -> n = 400%N \/ n = 502%N).
Proof.
  unfold fetchHtml, badResponse.
  destruct (fetch W target) as [r|]; cbn [errorStatus];
    [|split; [|split]; [split; auto | split; intros H; cases | intros n H; cases; auto]].
  destruct (ok r) eqn:Eok; cbn [negb].
  - destruct (includes _ "text/html") eqn:Ehtml; cbn [negb errorStatus].
    + destruct (body r) as [message | size text document] eqn:Ebody; cbn [errorStatus].
      * split; [|split]; [split; intros H; cases | split; intros H; cases | intros n H; cases].
      * destruct (N.eqb_spec size 0) as [->|Hne]; cbn [errorStatus];
          [|destruct (N.ltb_spec MAX_DOCUMENT_BYTES size) as [Hbig | Hsmall]; cbn [errorStatus]].
        -- split; [|split]; [split; intros H; cases | split; intros H; cases | intros n H; cases; auto].
           exists r. split; [reflexivity|]. right. split; [exact Eok|].
           right. exists 0%N, text, document. auto.
        -- split; [|split]; [split; intros H; cases | split; intros H; cases | intros n H; cases; auto].
           exists r. split; [reflexivity|]. right. split; [exact Eok|].
           right. exists size, text, document. auto.
        -- split; [|split]; [split; intros H; cases | split; intros H; cases | intros n H; cases].
    + split; [|split]; [split; intros H; cases | split; intros H; cases | intros n H; cases; auto].
      exists r. split; [reflexivity|]. right. auto.
  - destruct (N.leb_spec 500 (status r)) as [Hge | Hlt]; cbn [errorStatus].
    + split; [|split]; [split; intros H; cases | split; intros H; cases | intros n H; cases; auto].
      right. exists r. auto.
    + split; [|split]; [split; intros H; cases | split; intros H; cases | intros n H; cases; auto].
      exists r. split; [reflexivity|]. left. auto.
Qed.

End Classification.

(** The library extractor ([lib/extractor]) classifies its failures as
    the specification says: status 502 exactly when the origin cannot be
    reached or answers with a status of 500 or more, status 400 exactly when
    the address cannot be normalized or the response is below 500 without
    being a success, is not HTML, is empty or is oversize; no other status
    is ever carried. *)
Theorem lib_extractor_classifies_errors (W : Crawl.World) (inputUrl : string) :
  let outcome := Extractor.extractStructuredContent W inputUrl in
  (Extractor.errorStatus outcome = Some 502%N <->
     exists target,
       Extractor.normalizeUrl W inputUrl = Extractor.Return target
       /\ (Crawl.fetch W target = None
           \/ exists r, Crawl.fetch W target = Some r
                        /\ Crawl.ok r = false /\ (500 <= Crawl.status r)%N))
  /\ (Extractor.errorStatus outcome = Some 400%N <->
        (forall target, Extractor.normalizeUrl W inputUrl <> Extractor.Return target)
        \/ exists target r,
             Extractor.normalizeUrl W inputUrl = Extractor.Return target
             /\ Crawl.fetch W target = Some r /\ badResponse r)
  /\ (forall n, Extractor.errorStatus outcome = Some n -> n = 400%N \/ n = 502%N).
Proof.
  cbv zeta. unfold Extractor.extractStructuredContent.
  destruct (Extractor.normalizeUrl W inputUrl) as [target | message status | message] eqn:E.
  - destruct (fetchHtml_status W target) as (H502 & H400 & Hany).
    split; [|split].
    + rewrite H502. split.
      * intros H. exists target. auto.
      * intros (t & [= <-] & H). exact H.
    + rewrite H400. split.
      * intros (r & H). right. exists target, r. tauto.
      * intros [H | (t & r & [= <-] & H)]; [destruct (H target eq_refl) | exists r; exact H].
    + exact Hany.
  - assert (Hs : status = 400%N).
    { revert E. unfold Extractor.normalizeUrl. cbv zeta.
      destruct (Crawl.URL_new _ _ _); [destruct (negb _)|]; congruence. }
    subst status. cbn [Extractor.errorStatus]. split; [|split].
    + split; [discriminate | intros (t & H & _); discriminate].
    + split; [intros _; left; discriminate | reflexivity].
    + intros n [= <-]. auto.
  - exfalso. revert E. unfold Extractor.normalizeUrl. cbv zeta.
    destruct (Crawl.URL_new _ _ _); [destruct (negb _)|]; discriminate.
Qed.

(** ** Pages that cannot be fetched *)

Section Absorbed.
Import Js Crawl.
Variable W : World.

(** A fetch the crawl gives up on: the request fails, or the response is
    not a success, not HTML, empty or oversize. *)
Definition unusable (target : string) : Prop :=
  fetch W target = None
  \/ exists r,
       fetch W target = Some r
       /\ (ok r = false
           \/ includes (match contentType r with Some h => h | None => "" end) "text/html"
              = false
           \/ exists size content document,
                body r = BodyOf size content document
                /\ (size = 0%N \/ (MAX_DOCUMENT_BYTES < size)%N)).

Lemma fetchPage_unusable (target : string) : unusable target -> fetchPage W target = Ok None.
Proof.
  unfold unusable, fetchPage.
  intros [-> | (r & -> & [-> | [Hhtml | (size & content & document & -> & Hsize)]])];
    try reflexivity.
  - destruct (ok r); cbn [negb]; [|reflexivity]. rewrite Hhtml. reflexivity.
  - destruct (ok r); cbn [negb]; [|reflexivity].
    destruct (includes _ "text/html"); cbn [negb]; [|reflexivity].
    destruct Hsize as [-> | Hbig]; [reflexivity|].
    apply N.ltb_lt in Hbig. rewrite Hbig, orb_true_r. reflexivity.
Qed.

End Absorbed.

(** A page that cannot be fetched is skipped: the turn of the loop that
    dequeued it completes, and records and enqueues nothing. *)
Theorem fetch_failures_absorbed (W : Crawl.World) (cfg : Crawl.Config)
    (s : Crawl.CrawlState) (current : Crawl.QueueItem) (target : string) :
  Crawl.normalizeUrl W (Crawl.item_url current) None = Js.Ok target ->
  unusable W target ->
  exists s',
    Crawl.iteration W cfg s current = Js.Ok s'
    /\ Crawl.pages s' = Crawl.pages s
    /\ Crawl.queue s' = Crawl.queue s
    /\ Crawl.recorded s' = Crawl.recorded s.
Proof.
  intros Hnorm Hfetch. apply fetchPage_unusable in Hfetch.
  unfold Crawl.iteration, Js.bind. rewrite Hnorm.
  destruct (bool_decide (target ∈ Crawl.visited s)); [eauto|].
  destruct (Crawl.newURL W target) as [currentUrl|message] eqn:Hnew.
  2: { exfalso. unfold Crawl.newURL in Hnew.
       destruct (normalizeUrl_normalForm W _ _ Hnorm) as (v & Hv & ->).
       destruct Hv as (Hwf & _).
       rewrite (URL_new_protocol W (Url.href v) None) in Hnew
         by (rewrite test_protocolPattern; apply (protocolPrefix_href _ _ Hwf)).
       rewrite (parseHttp_href _ v Hwf) in Hnew. discriminate. }
  destruct (negb (Crawl.isSameHost (Crawl.root cfg) currentUrl)); [eauto|].
  destruct (negb (Crawl.robots cfg (Url.pathname currentUrl))); [eauto|].
  destruct (Crawl.isBlockedPath currentUrl); [eauto|].
  rewrite Hfetch. eauto.
Qed.

Lemma fetch_failures_absorbed_witness :
  let W := Scenario.missingPage in
  let cfg := Crawl.configOf W (Scenario.request "example.com" Js.JUndefined)
               (Scenario.rootOf W Scenario.home) in
  let s := Crawl.setQueue [] (Crawl.initial Scenario.home) in
  exists s',
    Crawl.iteration W cfg s
      {| Crawl.item_url := "https://example.com/missing"; Crawl.depth := 1 |} = Js.Ok s'
    /\ Crawl.pages s' = Crawl.pages s
    /\ Crawl.queue s' = Crawl.queue s
    /\ Crawl.recorded s' = Crawl.recorded s.
Proof.
  cbv zeta.
  apply (fetch_failures_absorbed Scenario.missingPage _ _
           {| Crawl.item_url := "https://example.com/missing"; Crawl.depth := 1 |}
           "https://example.com/missing").
  - vm_compute. reflexivity.
  - right. exists Scenario.notFound. split; [vm_compute; reflexivity|]. left. reflexivity.
Defined.

(** ** The crawl loop stops *)

Section Termination.
Import Js Crawl.
Variable W : World.
Variable cfg : Config.
Hypothesis limit_max : leb (depthLimit cfg) MAX_DEPTH = true.

(** The items a dequeued item can put on the queue: the links of its
    page that pass the gates, nothing being visited yet. *)
Definition offspring (current : QueueItem) : list QueueItem :=
  match normalizeUrl W (item_url current) None with
  | Ok normalizedCurrent =>
      match fetchPage W normalizedCurrent with
      | Ok (Some page) =>
          match normalizeUrl W
                  (match canonical page with Some c => c | None => finalUrl page end) None with
          | Ok canonicalUrl =>
              match newURL W canonicalUrl with
              | Ok canonical => omap (discover W cfg ∅ canonical current) (links page)
              | Throw _ => []
              end
          | Throw _ => []
          end
      | _ => []
      end
  | Throw _ => []
  end.

(** A bound on the turns of the loop an item and what descends from it
    take, [levels] being the levels left below the item. *)
Fixpoint weight (levels : nat) (item : QueueItem) : nat :=
  match levels with
  | O => 1
  | S levels' =>
      S (if ltb (ofNat (depth item)) (depthLimit cfg)
         then list_sum (map (weight levels') (offspring item))
         else 0)
  end.

Definition load (s : CrawlState) : nat :=
  list_sum (map (fun item => weight (4 - depth item) item) (queue s)).

Lemma discover_unseen (seen : gset string) (canonical : Url.URL) (current : QueueItem)
    (href : string) (item : QueueItem) :
  discover W cfg seen canonical current href = Some item ->
  discover W cfg ∅ canonical current href = Some item.
Proof.
  unfold discover.
  destruct (normalizeUrl W href (Some (Url.href canonical))) as [normalizedLink|];
    [|discriminate].
  destruct (URL_new W normalizedLink None) as [linkUrl|]; [|discriminate].
  destruct (negb (isSameHost (root cfg) linkUrl)); [discriminate|].
  destruct (isBlockedPath linkUrl); [discriminate|].
  destruct (negb (robots cfg (Url.pathname linkUrl))); [discriminate|].
  destruct (bool_decide (normalizedLink ∈ seen)); [discriminate|].
  rewrite bool_decide_eq_false_2 by set_solver. trivial.
Qed.

Lemma omap_discover_le (f : QueueItem -> nat) (seen : gset string) (canonical : Url.URL)
    (current : QueueItem) (hrefs : list string) :
  list_sum (map f (omap (discover W cfg seen canonical current) hrefs))
  <= list_sum (map f (omap (discover W cfg ∅ canonical current) hrefs)).
Proof.
  induction hrefs as [|href hrefs IH]; [reflexivity|]. cbn [omap list_omap].
  destruct (discover W cfg seen canonical current href) as [item|] eqn:E.
  - rewrite (discover_unseen _ _ _ _ _ E). unfold list_sum in *. cbn [map fold_right]. lia.
  - destruct (discover W cfg ∅ canonical current href); unfold list_sum in *;
      cbn [map fold_right]; lia.
Qed.

(** What one turn puts on the queue. *)
Lemma iteration_queue (s s' : CrawlState) (current : QueueItem) :
  iteration W cfg s current = Ok s' ->
  exists items,
    queue s' = (queue s ++ items)%list
    /\ (forall item, In item items -> depth item = S (depth current))
    /\ forall f : QueueItem -> nat,
         list_sum (map f items)
         <= if ltb (ofNat (depth current)) (depthLimit cfg)
            then list_sum (map f (offspring current)) else 0.
Proof.
  intros H. paths H; cbn [queue note record enqueue addVisited visited].
  all: match goal with
       | |- exists items, (?q ++ ?n)%list = (?q ++ items)%list /\ _ => exists n
       | |- exists items, ?q = (?q ++ items)%list /\ _ => exists []
       end.
  all: split; [rewrite ?app_nil_r; reflexivity|].
  all: split; [intros item Hin; try solve [destruct Hin];
               eapply In_omap_discover; eassumption|].
  all: intros measure; try (unfold list_sum; cbn [map fold_right]; lia).
  all: unfold offspring;
    repeat match goal with
    | E : ?x = _ |- context [match ?x with _ => _ end] => rewrite E
    end;
    apply omap_discover_le.
Qed.

Lemma weight_positive (levels : nat) (item : QueueItem) : 1 <= weight levels item.
Proof. destruct levels; cbn [weight]; lia. Qed.

Lemma load_queue (s : CrawlState) (current : QueueItem) (remaining : list QueueItem) :
  queue s = current :: remaining ->
  load s = weight (4 - depth current) current + load (setQueue remaining s).
Proof. unfold load. intros ->. reflexivity. Qed.

(** Every turn of the loop lowers the load. *)
Lemma step_load (s s' : CrawlState) : step W cfg s = Next s' -> load s' < load s.
Proof.
  intros Hstep. apply step_Next in Hstep as (current & remaining & Hq & _ & Hit).
  rewrite (load_queue s current remaining Hq).
  apply iteration_queue in Hit as (items & Hitems & Hdepth & Hsum).
  unfold load at 1. rewrite Hitems, map_app, list_sum_app.
  fold (load (setQueue remaining s)).
  enough (list_sum (map (fun item => weight (4 - depth item) item) items)
          < weight (4 - depth current) current) by lia.
  destruct (ltb (ofNat (depth current)) (depthLimit cfg)) eqn:Hlt.
  - pose proof (child_within_max _ _ limit_max Hlt) as Hd.
    replace (4 - depth current) with (S (3 - depth current)) by lia.
    cbn [weight]. rewrite Hlt.
    specialize (Hsum (weight (3 - depth current))). try rewrite Hlt in Hsum.
    replace (map (fun item => weight (4 - depth item) item) items)
      with (map (weight (3 - depth current)) items); [lia|].
    apply map_ext_in. intros item Hin. rewrite (Hdepth item Hin). reflexivity.
  - specialize (Hsum (fun item => weight (4 - depth item) item)). try rewrite Hlt in Hsum.
    pose proof (weight_positive (4 - depth current) current). lia.
Qed.

Definition stopped (o : Outcome) : Prop :=
  match o with
  | Running _ => False
  | _ => True
  end.

Lemma loop_stops (fuel : nat) (s : CrawlState) : load s < fuel -> stopped (loop W cfg fuel s).
Proof.
  revert s. induction fuel as [|fuel IH]; intros s Hload; [lia|]. cbn [loop].
  destruct (step W cfg s) as [|s'|message] eqn:E; try exact I.
  apply IH. apply step_load in E. lia.
Qed.

Lemma loop_more (fuel extra : nat) (s : CrawlState) :
  stopped (loop W cfg fuel s) -> loop W cfg (fuel + extra) s = loop W cfg fuel s.
Proof.
  revert s. induction fuel as [|fuel IH]; intros s; cbn [loop Nat.add]; [contradiction|].
  destruct (step W cfg s); auto.
Qed.

End Termination.

(** Every crawl request is answered: with enough turns the loop stops, and
    the answer no longer depends on how many turns are allowed. *)
Theorem crawl_answers (W : Crawl.World) (payload : Crawl.Payload) :
  exists fuel response,
    forall fuel', fuel <= fuel' -> Crawl.POST W fuel' payload = Some response.
Proof.
  unfold Crawl.POST. cbv zeta.
  destruct (String.eqb (Crawl.inputUrlOf payload) ""); [exists 0; eauto|].
  destruct (Crawl.normalizeUrl W (Crawl.inputUrlOf payload) None) as [normalizedRoot|message];
    [|exists 0; eauto].
  destruct (Crawl.newURL W normalizedRoot) as [root|message]; [|exists 0; eauto].
  set (cfg := Crawl.configOf W payload root).
  set (s0 := Crawl.initial normalizedRoot).
  assert (Hmax : Js.leb (Crawl.depthLimit cfg) Crawl.MAX_DEPTH = true)
    by apply clamp_bounds.
  pose proof (loop_stops W cfg Hmax (S (load W cfg s0)) s0 (Nat.lt_succ_diag_r _)) as Hstop.
  exists (S (load W cfg s0)).
  destruct (Crawl.loop W cfg (S (load W cfg s0)) s0) as [s|message|s] eqn:E;
    [eexists | eexists | contradiction];
    intros fuel' Hle;
    replace fuel' with (S (load W cfg s0) + (fuel' - S (load W cfg s0))) by lia;
    rewrite (loop_more W cfg _ _ s0) by (rewrite E; exact I);
    rewrite E; reflexivity.
Qed.

(** ** The crawl fetches only what passes the gates *)

Section Gates.
Import Js Crawl.
Variable W : World.
Variable cfg : Config.




End Gates.



(** ** Every address is fetched once *)

Section FetchOnce.
Import Js Crawl.
Variable W : World.
Variable cfg : Config.








End FetchOnce.



(** ** The traversal is breadth first *)

Section BreadthFirst.
Import Js Crawl.
Variable W : World.
Variable cfg : Config.

(** The depths at which pages were fetched, in order. *)
Fixpoint fetchedDepths (events : list Event) : list nat :=
  match events with
  | [] => []
  | Fetched item _ :: events' => depth item :: fetchedDepths events'
  | _ :: events' => fetchedDepths events'
  end.

Lemma fetchedDepths_app (a b : list Event) :
  fetchedDepths (a ++ b) = fetchedDepths a ++ fetchedDepths b.
Proof.
  induction a as [|e a IH]; [reflexivity|]. destruct e; cbn [app fetchedDepths];
    rewrite IH; reflexivity.
Qed.

Lemma fetchedDepths_Enqueued (items : list QueueItem) :
  fetchedDepths (map Enqueued items) = [].
Proof. induction items as [|i items IH]; [reflexivity | exact IH]. Qed.

(** The queue holds items of level [d], then items of level [d + 1]. *)
Definition levels (d : nat) (q : list QueueItem) : Prop :=
  exists here below,
    q = here ++ below
    /\ Forall (fun item => depth item = d) here
    /\ Forall (fun item => depth item = S d) below.

Definition breadthFirst (s : CrawlState) : Prop :=
  exists d,
    levels d (queue s)
    /\ Forall (fun k => k <= d) (fetchedDepths (log s))
    /\ StronglySorted le (fetchedDepths (log s)).

(** What one turn fetches is the dequeued item, if anything. *)
Lemma iteration_depths (s s' : CrawlState) (current : QueueItem) :
  iteration W cfg s current = Ok s' ->
  fetchedDepths (log s') = fetchedDepths (log s)
  \/ fetchedDepths (log s') = fetchedDepths (log s) ++ [depth current].
Proof.
  intros H. paths H; cbn [log note record enqueue addVisited].
  all: rewrite ?fetchedDepths_app, ?fetchedDepths_Enqueued; cbn [fetchedDepths];
    rewrite ?app_nil_r; auto.
Qed.

Lemma StronglySorted_snoc (l : list nat) (k : nat) :
  StronglySorted le l -> Forall (fun j => j <= k) l -> StronglySorted le (l ++ [k]).
Proof.
  induction 1 as [|a l Hl IH Ha]; intros Hk; cbn [app].
  - repeat constructor.
  - inversion Hk; subst. constructor; [apply IH; assumption|].
    apply List.Forall_app. split; [assumption | repeat constructor; assumption].
Qed.

Lemma two_levels_sorted (d : nat) (here below : list nat) :
  Forall (fun k => k = d) here -> Forall (fun k => k = S d) below ->
  StronglySorted le (here ++ below).
Proof.
  intros Hh Hb. induction Hh as [|a here -> Hhere IH]; cbn [app].
  - induction Hb as [|b below -> Hbelow IH]; constructor; [exact IH|].
    eapply List.Forall_impl; [|exact Hbelow]. cbv beta. intros k ->. lia.
  - constructor; [exact IH|]. apply List.Forall_app. split.
    + eapply List.Forall_impl; [|exact Hhere]. cbv beta. intros k ->. lia.
    + eapply List.Forall_impl; [|exact Hb]. cbv beta. intros k ->. lia.
Qed.

Lemma levels_sorted (d : nat) (q : list QueueItem) :
  levels d q ->
  StronglySorted le (map depth q) /\ Forall (fun item => d <= depth item <= S d) q.
Proof.
  intros (here & below & -> & Hh & Hb). split.
  - rewrite map_app. apply (two_levels_sorted d); apply List.Forall_map; assumption.
  - apply List.Forall_app. split; (eapply List.Forall_impl; [|eassumption]); cbv beta;
      intros x Hx; lia.
Qed.

Lemma step_breadthFirst (s s' : CrawlState) :
  breadthFirst s -> step W cfg s = Next s' -> breadthFirst s'.
Proof.
  intros (d & (here & below & Hq & Hh & Hb) & Hle & Hsorted) Hstep.
  apply step_Next in Hstep as (current & remaining & Hqueue & _ & Hit).
  pose proof (iteration_depths _ _ _ Hit) as Hdepths.
  apply (iteration_adds W cfg) in Hit as (events & items & _ & Hitems & _ & Hnew).
  assert (Hchildren : forall item, In item items -> depth item = S (depth current))
    by (intros item Hin; apply Hnew, Hin).
  cbn [log queue setQueue] in *. rewrite Hqueue in Hq.
  assert (Hitems' : forall k, depth current = k ->
            Forall (fun item => depth item = S k) items).
  { intros k <-. apply List.Forall_forall. exact Hchildren. }
  destruct here as [|first here]; cbn [app] in Hq.
  - (* the level [d] is exhausted: the head is of level [d + 1] *)
    destruct below as [|first below]; [discriminate|].
    injection Hq as Hfirst Hrest. subst first below.
    inversion Hb as [|? ? Hcur Hbelow]; subst.
    exists (S d). split; [|split].
    + exists remaining, items. rewrite Hitems.
      split; [reflexivity|]. split; [exact Hbelow | apply Hitems'; exact Hcur].
    + destruct Hdepths as [-> | ->].
      * eapply List.Forall_impl; [|exact Hle]. cbv beta. intros; lia.
      * apply List.Forall_app. split.
        -- eapply List.Forall_impl; [|exact Hle]. cbv beta. intros; lia.
        -- constructor; [lia | constructor].
    + destruct Hdepths as [-> | ->]; [exact Hsorted|].
      apply StronglySorted_snoc; [exact Hsorted|].
      eapply List.Forall_impl; [|exact Hle]. cbv beta. intros; lia.
  - injection Hq as Hfirst Hrest. subst first remaining.
    inversion Hh as [|? ? Hcur Hhere]; subst.
    exists (depth current). split; [|split].
    + exists here, (below ++ items). rewrite Hitems, app_assoc. split; [reflexivity|].
      split; [exact Hhere|]. apply List.Forall_app.
      split; [exact Hb | apply Hitems'; reflexivity].
    + destruct Hdepths as [-> | ->]; [exact Hle|].
      apply List.Forall_app. split; [exact Hle | constructor; [lia | constructor]].
    + destruct Hdepths as [-> | ->]; [exact Hsorted|].
      apply StronglySorted_snoc; assumption.
Qed.

Lemma reachable_breadthFirst (normalizedRoot : string) (s : CrawlState) :
  reachable W cfg (initial normalizedRoot) s -> breadthFirst s.
Proof.
  induction 1 as [|s s' _ IH Hstep].
  - exists 0. split; [|split; constructor].
    exists [{| item_url := normalizedRoot; depth := 0 |}], []. repeat constructor.
  - eapply step_breadthFirst; eassumption.
Qed.

End BreadthFirst.

(** The traversal is breadth first.  In every state the crawl reaches, the
    queue is ordered by depth and spans at most two consecutive levels, no
    queued item is shallower than a page already fetched, and the pages were
    fetched in order of depth. *)
Theorem traversal_is_breadth_first (W : Crawl.World) (cfg : Crawl.Config)
    (normalizedRoot : string) (s : Crawl.CrawlState) :
  Crawl.reachable W cfg (Crawl.initial normalizedRoot) s ->
  StronglySorted le (map Crawl.depth (Crawl.queue s))
  /\ (forall a b, In a (Crawl.queue s) -> In b (Crawl.queue s) ->
        Crawl.depth b <= S (Crawl.depth a))
  /\ (forall k item, In k (fetchedDepths (Crawl.log s)) -> In item (Crawl.queue s) ->
        k <= Crawl.depth item)
  /\ StronglySorted le (fetchedDepths (Crawl.log s)).
Proof.
  intros Hr.
  destruct (reachable_breadthFirst W cfg normalizedRoot s Hr) as (d & Hlv & Hle & Hsorted).
  destruct (levels_sorted d _ Hlv) as [Hq Hrange].
  rewrite List.Forall_forall in Hrange, Hle.
  split; [exact Hq|]. split; [|split; [|exact Hsorted]].
  - intros a b Ha Hb. pose proof (Hrange a Ha). pose proof (Hrange b Hb). lia.
  - intros k item Hk Hitem. pose proof (Hle k Hk). pose proof (Hrange item Hitem). lia.
Qed.

Lemma traversal_is_breadth_first_witness :
  let W := Scenario.chain in
  let cfg := Crawl.configOf W (Scenario.request "example.com" Js.JUndefined)
               (Scenario.rootOf W Scenario.home) in
  fetchedDepths (Crawl.log (Crawl.stateAfter W cfg 5 (Crawl.initial Scenario.home)))
  = [0; 1; 2]
  /\ StronglySorted le
       (fetchedDepths (Crawl.log (Crawl.stateAfter W cfg 5 (Crawl.initial Scenario.home)))).
Proof.
  cbv zeta. split; [vm_compute; reflexivity|].
  apply (traversal_is_breadth_first Scenario.chain
           (Crawl.configOf Scenario.chain (Scenario.request "example.com" Js.JUndefined)
              (Scenario.rootOf Scenario.chain Scenario.home))
           Scenario.home
           (Crawl.stateAfter Scenario.chain _ 5 (Crawl.initial Scenario.home))
           (reachable_stateAfter _ _ 5 _)).
Defined.

(** ** The shape of normalized URLs *)

Section NormalForm.
Import Js Url Regex Crawl.

Lemma hostTextChar_not_mark (c : ascii) :
  hostTextChar c = true -> negb (oneOf "?#" c) = true.
Proof. all_chars c. Qed.

Lemma userinfoChar_not_mark (c : ascii) :
  userinfoChar c = true -> negb (oneOf "?#" c) = true.
Proof. all_chars c. Qed.

Lemma digit_not_mark (c : ascii) : isDigit c = true -> oneOf "?#" c = false.
Proof. all_chars c. Qed.

Lemma lowerChar_slash (c : ascii) : lowerChar c = "/"%char -> c = "/"%char.
Proof.
  intros H. destruct c as [[] [] [] [] [] [] [] []]; vm_compute in H;
    try discriminate H; reflexivity.
Qed.

Lemma toLowerCase_root (p : string) : toLowerCase p = "/" <-> p = "/".
Proof.
  split; [|intros ->; reflexivity].
  destruct p as [|c [|c' p]]; try discriminate.
  cbn [toLowerCase]. intros [= H]. rewrite (lowerChar_slash c H). reflexivity.
Qed.

(** A path that [dropWhileEnd] leaves alone does not end with a slash. *)
Lemma no_trailing_slash (p : string) :
  dropWhileEnd (Ascii.eqb "/") p = p -> p <> "" -> endsWith p "/" = false.
Proof.
  induction p as [|a p IH]; [congruence|]. intros H _. cbn [dropWhileEnd] in H.
  cbn [endsWith].
  destruct (dropWhileEnd (Ascii.eqb "/") p) as [|b t] eqn:E.
  - destruct (Ascii.eqb "/" a) eqn:Ea; [discriminate|].
    injection H as <-. cbn. rewrite Ascii.eqb_sym, Ea. reflexivity.
  - injection H as H. rewrite (IH H) by (rewrite <- H; discriminate).
    rewrite <- H. cbn. destruct (Ascii.eqb a "/"); reflexivity.
Qed.

(** What the texts of URLs in normal form look like. *)
Lemma normalForm_text (T : Idna) (v : URL) :
  normalForm T v ->
  startsWith (href v) "https://" = true
  /\ every (fun c => negb (oneOf "?#" c)) (href v) = true
  /\ (pathname v = "/" \/ endsWith (pathname v) "/" = false).
Proof.
  destruct v as [sch us pw ho po pa op qu fr]. unfold normalForm, wellFormed, pathname.
  cbn [scheme username password host port path opaque query fragment].
  intros ((_ & Hus & Hpw & (h & -> & Hstable) & _ & Hpath & -> & _) & -> & -> & -> & Hend).
  pose proof (parseHost_kind T h h Hstable) as Hkind.
  rewrite href_parts. cbn [queryText fragmentText]. rewrite !append_empty.
  split; [|split].
  - destruct (authorityText us pw h po ++ pa)%string; reflexivity.
  - change ("https" ++ "://" ++ authorityText us pw h po ++ pa)%string
      with ("https://" ++ (authorityText us pw h po ++ pa))%string.
    rewrite !every_append.
    rewrite (authorityText_chars T (fun c => negb (oneOf "?#" c)) us pw h po);
      try reflexivity; try assumption;
      [|apply userinfoChar_not_mark | apply hostTextChar_not_mark
       |intros c Hc; rewrite (digit_not_mark c Hc); reflexivity].
    rewrite (every_impl pathChar (fun c => negb (oneOf "?#" c)) pa);
      [reflexivity | | apply pathOk_chars, Hpath].
    intros c Hc. rewrite (pathChar_not_delimiter c Hc). reflexivity.
  - destruct Hend as [-> | E]; [left; reflexivity | right].
    apply no_trailing_slash; [exact E | apply pathOk_nonempty, Hpath].
Qed.

Lemma URL_new_normalForm (W : World) (v : URL) (base : option string) :
  wellFormed (idna W) v -> URL_new W (href v) base = Some v.
Proof.
  intros Hwf. rewrite (URL_new_protocol W (href v) base)
    by (rewrite test_protocolPattern; apply (protocolPrefix_href _ _ Hwf)).
  apply parseHttp_href, Hwf.
Qed.

End NormalForm.

(** What a normalized URL looks like.  Crawl mode, without a base: the
    result starts with [https://], holds no [?] and no [#], parses back to a
    URL that serializes to it, with protocol [https:], no query and no
    fragment, and its path is the root or does not end with a slash.
    Conservative mode: the result parses back to an http(s) URL that
    serializes to it and has no fragment. *)
Theorem normalized_urls_shape (W : Crawl.World) (input u : string) :
  (Crawl.normalizeUrl W input None = Js.Ok u ->
   Js.startsWith u "https://" = true
   /\ Url.every (fun c => negb (Url.oneOf "?#" c)) u = true
   /\ exists v,
        Crawl.URL_new W u None = Some v /\ Url.href v = u
        /\ Url.protocol v = "https:"%string
        /\ Url.query v = None /\ Url.fragment v = None
        /\ (Url.pathname v = "/"%string \/ Js.endsWith (Url.pathname v) "/" = false))
  /\ (Extractor.normalizeUrl W input = Extractor.Return u ->
      exists v,
        Crawl.URL_new W u None = Some v /\ Url.href v = u
        /\ (Url.protocol v = "http:"%string \/ Url.protocol v = "https:"%string)
        /\ Url.fragment v = None).
Proof.
  split.
  - intros H. destruct (normalizeUrl_normalForm W input u H) as (v & Hv & ->).
    destruct (normalForm_text _ v Hv) as (Hs & Hm & Hp).
    split; [exact Hs|]. split; [exact Hm|]. exists v.
    destruct Hv as (Hwf & Hsch & Hq & Hf & _).
    split; [apply URL_new_normalForm, Hwf|]. split; [reflexivity|].
    unfold Url.protocol. rewrite Hsch. auto.
  - intros H. destruct (conservative_normalForm W input u H) as (v & Hwf & Hf & ->).
    exists v. split; [apply URL_new_normalForm, Hwf|]. split; [reflexivity|].
    split; [|exact Hf]. destruct Hwf as ([E | E] & _); unfold Url.protocol; rewrite E; auto.
Qed.

Lemma normalized_urls_shape_witness :
  let W := Scenario.emptyCanonical in
  Js.startsWith "https://example.com/Docs" "https://" = true
  /\ Url.every (fun c => negb (Url.oneOf "?#" c)) "https://example.com/Docs" = true
  /\ exists v,
       Crawl.URL_new W "https://example.com/Docs" None = Some v
       /\ Url.href v = "https://example.com/Docs"%string
       /\ Url.protocol v = "https:"%string
       /\ Url.query v = None /\ Url.fragment v = None
       /\ (Url.pathname v = "/"%string \/ Js.endsWith (Url.pathname v) "/" = false).
Proof.
  cbv zeta.
  apply (proj1 (normalized_urls_shape Scenario.emptyCanonical
                  "Example.com/Docs/?utm=1#intro" "https://example.com/Docs")).
  vm_compute. reflexivity.
Defined.

(** ** The fields of a page record *)

Section Fields.
Import Js Url Regex Crawl.
Variable W : World.
Variable cfg : Config.

(** What the record of a page holds, given the URL [v] its [url] parses to. *)
Definition fieldsOf (p : PageEntry) (v : URL) : Prop :=
  URL_new W (Crawl.url p) None = Some v
  /\ href v = Crawl.url p
  /\ ai_url p = ("https://ai." ++ siteDomain cfg ++ pathname v)%string
  /\ priority p = priorityForType (type p)
  /\ (type p = homepage <-> pathname v = "/").

Lemma buildAiUrl_path (v : URL) (domain : string) :
  buildAiUrl v domain = ("https://ai." ++ domain ++ pathname v)%string.
Proof.
  unfold buildAiUrl. destruct (String.eqb_spec (pathname v) "/") as [-> | _]; reflexivity.
Qed.

Lemma inferType_homepage (v : URL) (d : Document) :
  inferType v d = homepage <-> pathname v = "/".
Proof.
  unfold inferType. rewrite <- toLowerCase_root.
  destruct (String.eqb_spec (toLowerCase (pathname v)) "/") as [E | E]; [tauto|].
  split; [|tauto].
  repeat match goal with
         | |- context [if ?b then _ else _] => destruct b
         end; discriminate.
Qed.

Lemma record_fields (input canonicalUrl : string) (canonical : URL) (d : Document) :
  normalizeUrl W input None = Ok canonicalUrl ->
  newURL W canonicalUrl = Ok canonical ->
  fieldsOf {| Crawl.url := canonicalUrl;
              ai_url := buildAiUrl canonical (siteDomain cfg);
              type := inferType canonical d;
              priority := priorityForType (inferType canonical d) |} canonical.
Proof.
  intros Hn Hu. destruct (normalizeUrl_normalForm W _ _ Hn) as (v & (Hwf & _) & ->).
  apply newURL_Ok in Hu. rewrite (URL_new_normalForm W v None Hwf) in Hu.
  injection Hu as <-. unfold fieldsOf. cbn [Crawl.url ai_url type priority].
  split; [apply URL_new_normalForm, Hwf|]. split; [reflexivity|].
  split; [apply buildAiUrl_path|]. split; [reflexivity|]. apply inferType_homepage.
Qed.

Lemma iteration_fields (s s' : CrawlState) (current : QueueItem) :
  iteration W cfg s current = Ok s' ->
  forall p, In p (pages s') -> In p (pages s) \/ exists v, fieldsOf p v.
Proof.
  intros H. paths H.
  all: cbn [pages recorded log note record enqueue addVisited].
  all: intros p Hin; rewrite ?in_app_iff in Hin; cbn [In] in Hin.
  all: repeat match type of Hin with
              | _ \/ _ => destruct Hin as [Hin | Hin]
              | False => contradiction
              end; auto.
  all: subst p; right; eexists; eapply record_fields; eassumption.
Qed.

Lemma reachable_fields (normalizedRoot : string) (s : CrawlState) :
  reachable W cfg (initial normalizedRoot) s ->
  forall p, In p (pages s) -> exists v, fieldsOf p v.
Proof.
  induction 1 as [|s s' _ IH Hstep]; [intros p []|].
  apply step_Next in Hstep as (current & remaining & _ & _ & Hit).
  intros p Hp. destruct (iteration_fields _ _ _ Hit p Hp) as [Hold | Hnew]; auto.
Qed.

End Fields.

(** The fields of every page record of a crawl agree with one another: the
    record's [url] parses to a URL that serializes back to it; the [ai_url]
    is [https://ai.], the site domain and that URL's path; the [priority]
    is the one of the record's [type]; and the type is [homepage] exactly
    when the path is the root. *)
Theorem page_records_are_coherent (W : Crawl.World) (cfg : Crawl.Config)
    (normalizedRoot : string) (s : Crawl.CrawlState) (p : Crawl.PageEntry) :
  Crawl.reachable W cfg (Crawl.initial normalizedRoot) s ->
  In p (Crawl.pages s) ->
  exists v,
    Crawl.URL_new W (Crawl.url p) None = Some v
    /\ Url.href v = Crawl.url p
    /\ Crawl.ai_url p = ("https://ai." ++ Crawl.siteDomain cfg ++ Url.pathname v)%string
    /\ Crawl.priority p = Crawl.priorityForType (Crawl.type p)
    /\ (Crawl.type p = Crawl.homepage <-> Url.pathname v = "/"%string).
Proof.
  intros Hreach Hin. exact (reachable_fields W cfg normalizedRoot s Hreach p Hin).
Qed.

Lemma page_records_are_coherent_witness :
  let W := Scenario.oneLink in
  let cfg := Crawl.configOf W (Scenario.request "example.com" Js.JUndefined)
               (Scenario.rootOf W Scenario.home) in
  let p := {| Crawl.url := "https://example.com/a"; Crawl.ai_url := "https://ai.example.com/a";
              Crawl.type := Crawl.category; Crawl.priority := 5 # 10 |} in
  In p (Crawl.pages (Crawl.stateAfter W cfg 2 (Crawl.initial Scenario.home)))
  /\ exists v,
       Crawl.URL_new W (Crawl.url p) None = Some v
       /\ Url.href v = Crawl.url p
       /\ Crawl.ai_url p = ("https://ai." ++ Crawl.siteDomain cfg ++ Url.pathname v)%string
       /\ Crawl.priority p = Crawl.priorityForType (Crawl.type p)
       /\ (Crawl.type p = Crawl.homepage <-> Url.pathname v = "/"%string).
Proof.
  cbv zeta.
  assert (Hin : In {| Crawl.url := "https://example.com/a";
                      Crawl.ai_url := "https://ai.example.com/a";
                      Crawl.type := Crawl.category; Crawl.priority := 5 # 10 |}
                  (Crawl.pages
                     (Crawl.stateAfter Scenario.oneLink
                        (Crawl.configOf Scenario.oneLink
                           (Scenario.request "example.com" Js.JUndefined)
                           (Scenario.rootOf Scenario.oneLink Scenario.home))
                        2 (Crawl.initial Scenario.home))))
    by (vm_compute; auto).
  split; [exact Hin|].
  exact (page_records_are_coherent Scenario.oneLink _ Scenario.home _ _
           (reachable_stateAfter _ _ 2 _) Hin).
Defined.

(** A canonical with credentials is on the host of the root, and is
    recorded as it is written. *)
Example credentialed_canonical_is_recorded :
  Crawl.POST Scenario.credentialedCanonical 3 (Scenario.request "example.com" Js.JUndefined)
  = Some (Crawl.Sitemap "json" "example.com"
            [ {| Crawl.url := "https://user@example.com/x";
                 Crawl.ai_url := "https://ai.example.com/x";
                 Crawl.type := Crawl.category; Crawl.priority := 5 # 10 |} ]).
Proof. vm_compute. reflexivity. Qed.

(** ** Grades and warnings of the Structure Analyzer *)

Section Grades.
Import Analyzer.
Local Open Scope Z_scope.

Lemma grade_Excellent sections metrics warnings :
  grade (calculateHealthScore sections metrics warnings) = Excellent
  <-> 85 <= score (calculateHealthScore sections metrics warnings).
Proof.
  unfold calculateHealthScore.
  repeat match goal with |- context [if ?c then _ else _] =>
    lazymatch c with
    | (_ <=? _)%Z => destruct c eqn:?
    end
  end; rewrite ?Z.leb_le, ?Z.leb_gt in *; cbn [grade score];
    split; intros H; try discriminate H; try reflexivity; lia.
Qed.

Lemma count_when (f : ValidationWarning -> bool) (b : bool) (w : ValidationWarning) :
  List.length (List.filter f (when b w)) = if b && f w then 1%nat else 0%nat.
Proof. destruct b; cbn [when List.filter andb]; [destruct (f w)|]; reflexivity. Qed.

(** The error-severity warnings: the missing title and the missing content. *)
Lemma errors_validateStructure markdown sections metrics :
  List.length (List.filter isError (validateStructure markdown sections metrics))
  = ((if negb (hasTitle sections) then 1 else 0)
     + (if negb (hasContent sections) && (paragraphCount metrics <? 3)%nat then 1 else 0))%nat.
Proof.
  unfold validateStructure. cbv zeta.
  rewrite !List.filter_app, !List.length_app, !count_when.
  cbn [isError severity]. rewrite !andb_true_r, !andb_false_r.
  rewrite !Nat.add_0_r. reflexivity.
Qed.

(** The warning-severity ones: no source, few words, no headings. *)
Lemma warnings_validateStructure markdown sections metrics :
  List.length (List.filter isWarning (validateStructure markdown sections metrics))
  = ((if negb (hasUrl sections) && negb (hasFrontmatter sections) then 1 else 0)
     + (if (wordCount metrics <? 50)%nat then 1 else 0)
     + (if (headingCount metrics =? 0)%nat then 1 else 0))%nat.
Proof.
  unfold validateStructure. cbv zeta.
  rewrite !List.filter_app, !List.length_app, !count_when.
  cbn [isWarning severity]. rewrite !andb_true_r, !andb_false_r.
  rewrite ?Nat.add_0_r. cbn [Nat.add]. rewrite ?Nat.add_0_r, ?Nat.add_assoc. reflexivity.
Qed.

Lemma filter_nil_length {A : Type} (f : A -> bool) (l : list A) :
  List.filter f l = [] <-> List.length (List.filter f l) = 0%nat.
Proof. destruct (List.filter f l); simpl; split; intros H; congruence. Qed.

(** The health score of an analysis, with the warnings counted. *)
Lemma health_of_document markdown :
  let sections := extractSections markdown in
  let metrics := calculateMetrics markdown in
  score (health (analyzeMarkdownStructure markdown)) =
    bonus (hasTitle sections) 10 + bonus (hasFrontmatter sections) 10
    + bonus (hasUrl sections) 10 + bonus (hasContent sections) 5
    + bonus (hasMetadata sections) 5
    + bonus (100 <? wordCount metrics)%nat 10 + bonus (300 <? wordCount metrics)%nat 5
    + bonus (0 <? headingCount metrics)%nat 10 + bonus (3 <? headingCount metrics)%nat 5
    + bonus (2 <? paragraphCount metrics)%nat 5 + bonus (0 <? listCount metrics)%nat 5
    + Z.max 0 (20
               - Z.of_nat ((if negb (hasTitle sections) then 1 else 0)
                           + (if negb (hasContent sections)
                                 && (paragraphCount metrics <? 3)%nat then 1 else 0)) * 10
               - Z.of_nat ((if negb (hasUrl sections) && negb (hasFrontmatter sections)
                            then 1 else 0)
                           + (if (wordCount metrics <? 50)%nat then 1 else 0)
                           + (if (headingCount metrics =? 0)%nat then 1 else 0)) * 3).
Proof.
  cbv zeta. unfold analyzeMarkdownStructure. cbn [health].
  rewrite score_calculateHealthScore, errors_validateStructure, warnings_validateStructure.
  reflexivity.
Qed.

(** The points and the warning that depend on the word count. *)
Lemma word_points (words : nat) :
  let points := bonus (100 <? words)%nat 10 + bonus (300 <? words)%nat 5 in
  let few := Z.of_nat (if (words <? 50)%nat then 1 else 0) in
  0 <= points <= 15
  /\ ((few = 1 /\ points = 0 /\ (words < 50)%nat) \/ (few = 0 /\ (50 <= words)%nat)).
Proof.
  cbv zeta. destruct (Nat.ltb_spec words 50), (Nat.ltb_spec 100 words),
    (Nat.ltb_spec 300 words); cbn [bonus Z.of_nat]; lia.
Qed.

(** The points and the warning that depend on the number of headings. *)
Lemma heading_points (heads : nat) :
  let points := bonus (0 <? heads)%nat 10 + bonus (3 <? heads)%nat 5 in
  let none := Z.of_nat (if (heads =? 0)%nat then 1 else 0) in
  0 <= points <= 15
  /\ ((none = 1 /\ points = 0 /\ heads = 0%nat) \/ (none = 0 /\ (0 < heads)%nat)).
Proof.
  cbv zeta. destruct (Nat.eqb_spec heads 0), (Nat.ltb_spec 0 heads),
    (Nat.ltb_spec 3 heads); cbn [bonus Z.of_nat]; lia.
Qed.

(** The points and the error that depend on the number of paragraphs. *)
Lemma paragraph_points (paragraphs : nat) :
  let points := bonus (2 <? paragraphs)%nat 5 in
  0 <= points <= 5 /\ ((paragraphs <? 3)%nat = true -> points = 0).
Proof.
  cbv zeta. destruct (Nat.ltb_spec paragraphs 3), (Nat.ltb_spec 2 paragraphs);
    cbn [bonus]; split; try lia; intros; try discriminate; lia.
Qed.

End Grades.

(** The grade and the warnings of one analysis agree.  A document with an
    error-severity warning scores at most 80, so it is not graded Excellent;
    a document graded Excellent has a title, a source (URL section or front
    matter), at least one heading, at least 50 words, and no error-severity
    warning. *)
Theorem excellent_grade_is_earned (markdown : string) :
  let a := Analyzer.analyzeMarkdownStructure markdown in
  (List.filter Analyzer.isError (Analyzer.warnings a) <> [] ->
   (Analyzer.score (Analyzer.health a) <= 80)%Z
   /\ Analyzer.grade (Analyzer.health a) <> Analyzer.Excellent)
  /\ (Analyzer.grade (Analyzer.health a) = Analyzer.Excellent ->
      Analyzer.hasTitle (Analyzer.sections a) = true
      /\ (Analyzer.hasUrl (Analyzer.sections a) = true
          \/ Analyzer.hasFrontmatter (Analyzer.sections a) = true)
      /\ 0 < Analyzer.headingCount (Analyzer.metrics a)
      /\ 50 <= Analyzer.wordCount (Analyzer.metrics a)
      /\ List.filter Analyzer.isError (Analyzer.warnings a) = []).
Proof.
  cbv zeta.
  pose proof (health_of_document markdown) as Hscore. cbv zeta in Hscore.
  pose proof (grade_Excellent (Analyzer.extractSections markdown)
                (Analyzer.calculateMetrics markdown)
                (Analyzer.validateStructure markdown (Analyzer.extractSections markdown)
                   (Analyzer.calculateMetrics markdown))) as Hgrade.
  pose proof (errors_validateStructure markdown (Analyzer.extractSections markdown)
                (Analyzer.calculateMetrics markdown)) as Herr.
  unfold Analyzer.analyzeMarkdownStructure in *.
  cbn [Analyzer.health Analyzer.warnings Analyzer.sections Analyzer.metrics] in *.
  rewrite filter_nil_length, Hgrade, Herr.
  rewrite !Hscore. clear Hscore Hgrade Herr.
  destruct (Analyzer.extractSections markdown) as [title url content metadata front].
  destruct (Analyzer.calculateMetrics markdown) as [words paragraphs heads lists blocks links].
  cbn [Analyzer.hasTitle Analyzer.hasUrl Analyzer.hasContent Analyzer.hasMetadata
       Analyzer.hasFrontmatter Analyzer.wordCount Analyzer.paragraphCount
       Analyzer.headingCount Analyzer.listCount] in *.
  pose proof (word_points words) as Hw. pose proof (heading_points heads) as Hh.
  pose proof (paragraph_points paragraphs) as Hp.
  pose proof (bonus_range (0 <? lists)%nat 5%Z ltac:(lia)) as Hl.
  cbv zeta in Hw, Hh, Hp. rewrite !Nat2Z.inj_add.
  assert (Hpe : (paragraphs <? 3)%nat = true \/ (paragraphs <? 3)%nat = false)
    by (destruct (paragraphs <? 3)%nat; auto).
  generalize dependent (Z.of_nat (if (words <? 50)%nat then 1 else 0)%nat).
  generalize dependent (Z.of_nat (if (heads =? 0)%nat then 1 else 0)%nat).
  generalize dependent (Analyzer.bonus (0 <? lists)%nat 5%Z).
  generalize dependent (Analyzer.bonus (2 <? paragraphs)%nat 5%Z).
  intros pp Hp lp Hl none Hh few Hw.
  destruct Hp as [Hp Hp0].
  destruct Hpe as [Hpe | Hpe]; rewrite Hpe in *;
    [specialize (Hp0 eq_refl) | clear Hp0];
    destruct title, url, content, metadata, front;
    cbn [negb andb Analyzer.bonus Z.of_nat Nat.add];
    (split; [intros ?; split; lia | intros ?]); repeat split; try lia; auto.
Qed.

(** A document with front matter, the three MDF sections, a list and
    [k] further words. *)
Definition sampleDocument (k : nat) : string :=
  let n := Scenario.n in
  ("---" ++ n ++ "source: https://example.com/" ++ n ++ "---" ++ n
   ++ "# Title" ++ n ++ n ++ "## URL" ++ n ++ n ++ "https://example.com/" ++ n ++ n
   ++ "## Content" ++ n ++ n ++ "- one item" ++ n ++ n
   ++ String.concat " " (List.repeat "word" k) ++ n ++ n
   ++ "## Metadata" ++ n ++ n ++ "author: somebody" ++ n)%string.

Lemma excellent_grade_is_earned_witness :
  let a := Analyzer.analyzeMarkdownStructure (sampleDocument 100) in
  Analyzer.grade (Analyzer.health a) = Analyzer.Excellent
  /\ Analyzer.hasTitle (Analyzer.sections a) = true
  /\ (Analyzer.hasUrl (Analyzer.sections a) = true
      \/ Analyzer.hasFrontmatter (Analyzer.sections a) = true)
  /\ 0 < Analyzer.headingCount (Analyzer.metrics a)
  /\ 50 <= Analyzer.wordCount (Analyzer.metrics a)
  /\ List.filter Analyzer.isError (Analyzer.warnings a) = [].
Proof.
  cbv zeta.
  assert (H : Analyzer.grade (Analyzer.health
                (Analyzer.analyzeMarkdownStructure (sampleDocument 100)))
              = Analyzer.Excellent) by (vm_compute; reflexivity).
  split; [exact H|].
  exact (proj2 (excellent_grade_is_earned (sampleDocument 100)) H).
Defined.

(** ** robots.txt: groups for other crawlers *)

Section RobotsGroups.
Import Js Regex Crawl.

(** A line [User-agent: *]: the only line after which rules are kept. *)
Definition addressesAll (raw : string) : bool :=
  let line := trim raw in
  if String.eqb line "" || startsWith line "#" then false
  else
    let parts := splitChar ":" line in
    String.eqb (toLowerCase (trim (nth 0 parts ""))) "user-agent"
    && String.eqb (trim (nth 1 parts "")) "*".

Definition noRules : RobotsRules := {| disallow := []; allow := []; applies := false |}.

Lemma robotsLine_noRules (raw : string) :
  addressesAll raw = false -> robotsLine noRules raw = noRules.
Proof.
  unfold addressesAll, robotsLine. cbv zeta.
  destruct (String.eqb (trim raw) "" || startsWith (trim raw) "#"); [reflexivity|].
  destruct (String.eqb (toLowerCase (trim (nth 0 (splitChar ":" (trim raw)) ""))) "user-agent").
  - cbn [andb]. intros ->. reflexivity.
  - reflexivity.
Qed.

Lemma fold_noRules (lines : list string) :
  (forall raw, In raw lines -> addressesAll raw = false) ->
  fold_left robotsLine lines noRules = noRules.
Proof.
  induction lines as [|raw lines IH]; [reflexivity|]. intros H. cbn [fold_left].
  rewrite robotsLine_noRules by (apply H; left; reflexivity).
  apply IH. intros raw' Hin. apply H. right. exact Hin.
Qed.

End RobotsGroups.

(** A robots.txt without a line [User-agent: *] restricts nothing: the
    rules of groups addressed to other crawlers are not kept, and every path
    is allowed. *)
Theorem robots_for_others_ignored (contents : string) :
  (forall raw,
     In raw (Regex.split (Regex.Cat (Regex.Repeat true 0 (Some 1) (Regex.lit Js.CR))
                            (Regex.lit Js.LF)) contents) ->
     addressesAll raw = false) ->
  forall path, Crawl.parseRobots contents path = true.
Proof.
  intros H path. unfold Crawl.parseRobots. cbv zeta. fold noRules.
  rewrite (fold_noRules _ H). reflexivity.
Qed.

Lemma robots_for_others_ignored_witness :
  let contents := ("User-agent: Googlebot" ++ Scenario.n ++ "Disallow: /" ++ Scenario.n
                   ++ "# User-agent: *")%string in
  Crawl.parseRobots contents "/anything" = true.
Proof.
  cbv zeta. apply robots_for_others_ignored.
  intros raw Hin. vm_compute in Hin.
  repeat destruct Hin as [<- | Hin]; try reflexivity. destruct Hin.
Defined.

(** ** What the patterns match *)

Section RegexMeaning.
Import Js Regex.

(** *** What a pattern matches

    [matches r c c']: the pattern [r] can be matched from the cursor [c],
    ending at [c'].  [run] searches these matches in the order of ECMA-262;
    whether it finds one does not depend on the order. *)

Inductive iter (step : cursor -> cursor -> Prop) :
    nat -> option nat -> cursor -> cursor -> Prop :=
| iter_stop (hi : option nat) (c : cursor) : iter step 0 hi c c
| iter_must (lo : nat) (hi : option nat) (c m c' : cursor) :
    exhausted hi = false -> step c m -> iter step lo (decr hi) m c' ->
    iter step (S lo) hi c c'
| iter_more (hi : option nat) (c m c' : cursor) :
    exhausted hi = false -> step c m -> consumed c m <> 0 ->
    iter step 0 (decr hi) m c' -> iter step 0 hi c c'.

Fixpoint matches (r : regex) (c c' : cursor) : Prop :=
  match r with
  | Empty => c' = c
  | Char p =>
      exists a s', rest c = String a s' /\ p a = true /\ c' = Cursor (Some a) s' (caps c)
  | Cat r1 r2 => exists m, matches r1 c m /\ matches r2 m c'
  | Or r1 r2 => matches r1 c c' \/ matches r2 c c'
  | Repeat _ lo hi r1 => iter (matches r1) lo hi c c'
  | Group i r1 =>
      exists m, matches r1 c m
                /\ c' = Cursor (prev m) (rest m) ((i, take (consumed c m) (rest c)) :: caps m)
  | InputStart => prev c = None /\ c' = c
  | InputEnd => rest c = "" /\ c' = c
  | LineStart => atLineStart c = true /\ c' = c
  | LineEnd => atLineEnd c = true /\ c' = c
  | WordBoundary => atWordBoundary c = true /\ c' = c
  | NotAhead r1 => (~ exists m, matches r1 c m) /\ c' = c
  end.

Lemma orElse_found (a b : option cursor) : orElse a b <> None <-> a <> None \/ b <> None.
Proof. destruct a, b; cbn; split; intros H; try tauto; try (left; congruence); congruence. Qed.

Lemma iter_shorter (step : cursor -> cursor -> Prop) :
  (forall c m, step c m -> String.length (rest m) <= String.length (rest c)) ->
  forall lo hi c c', iter step lo hi c c' ->
    String.length (rest c') <= String.length (rest c).
Proof.
  intros Hstep lo hi c c' H. induction H as [| ? ? c m c' _ Hs _ IH | ? c m c' _ Hs _ _ IH];
    [lia | |]; specialize (Hstep c m Hs); lia.
Qed.

(** A match never moves backwards. *)
Lemma matches_shorter (r : regex) :
  forall c c', matches r c c' -> String.length (rest c') <= String.length (rest c).
Proof.
  induction r as [| p | r1 IH1 r2 IH2 | r1 IH1 r2 IH2 | g lo hi r1 IH1 | i r1 IH1
                  | | | | | | r1 IH1]; intros c c'; cbn [matches].
  - intros ->. lia.
  - intros (a & s' & E & _ & ->). rewrite E. cbn. lia.
  - intros (m & H1 & H2). specialize (IH1 _ _ H1). specialize (IH2 _ _ H2). lia.
  - intros [H | H]; auto.
  - apply iter_shorter. exact IH1.
  - intros (m & H1 & ->). cbn [rest]. auto.
  - intros (_ & ->). lia.
  - intros (_ & ->). lia.
  - intros (_ & ->). lia.
  - intros (_ & ->). lia.
  - intros (_ & ->). lia.
  - intros (_ & ->). lia.
Qed.

(** The loop of a quantifier finds a continuation that succeeds exactly
    when some sequence of iterations leads to one. *)
Lemma iterate_found (step : cursor -> Cont -> option cursor)
    (M : cursor -> cursor -> Prop) :
  (forall c k, step c k <> None <-> exists m, M c m /\ k m <> None) ->
  (forall c m, M c m -> String.length (rest m) <= String.length (rest c)) ->
  forall greedy budget lo hi c k,
    lo + String.length (rest c) <= budget ->
    (iterate step greedy budget lo hi c k <> None
     <-> exists c', iter M lo hi c c' /\ k c' <> None).
Proof.
  intros Hstep Hshort greedy budget.
  induction budget as [|budget IH]; intros lo hi c k Hb.
  - assert (lo = 0) by lia. subst lo. cbn [iterate]. split.
    + intros H. exists c. split; [constructor | exact H].
    + intros (c' & Hi & Hk). inversion Hi; subst; [exact Hk|].
      unfold consumed in *. lia.
  - cbn [iterate]. destruct lo as [|lo].
    + destruct (exhausted hi) eqn:Ex.
      * split.
        -- intros H. exists c. split; [constructor | exact H].
        -- intros (c' & Hi & Hk). inversion Hi; subst; [exact Hk | congruence].
      * assert (Hagain :
          step c (fun c' => if (consumed c c' =? 0)%nat then None
                            else iterate step greedy budget 0 (decr hi) c' k) <> None
          <-> exists m c', M c m /\ consumed c m <> 0
                           /\ iter M 0 (decr hi) m c' /\ k c' <> None).
        { rewrite Hstep. split.
          - intros (m & Hm & Hk). destruct (Nat.eqb_spec (consumed c m) 0) as [E | E];
              [congruence|].
            apply IH in Hk as (c' & Hi & Hk).
            + exists m, c'. auto.
            + specialize (Hshort c m Hm). unfold consumed in E. cbn [Nat.add]. lia.
          - intros (m & c' & Hm & E & Hi & Hk). exists m. split; [exact Hm|].
            destruct (Nat.eqb_spec (consumed c m) 0) as [E' | _]; [contradiction|].
            apply IH; [|eauto].
            specialize (Hshort c m Hm). unfold consumed in E. cbn [Nat.add]. lia. }
        assert (Hboth :
          (exists c', iter M 0 hi c c' /\ k c' <> None)
          <-> (exists m c', M c m /\ consumed c m <> 0
                            /\ iter M 0 (decr hi) m c' /\ k c' <> None)
              \/ k c <> None).
        { split.
          - intros (c' & Hi & Hk). inversion Hi; subst; [right; exact Hk|].
            left. eauto 8.
          - intros [(m & c' & Hm & E & Hi & Hk) | Hk].
            + exists c'. split; [|exact Hk]. eapply iter_more; eassumption.
            + exists c. split; [constructor | exact Hk]. }
        rewrite Hboth, <- Hagain. destruct greedy; rewrite orElse_found; tauto.
    + destruct (exhausted hi) eqn:Ex.
      * split; [congruence|]. intros (c' & Hi & _). inversion Hi; subst. congruence.
      * rewrite Hstep. split.
        -- intros (m & Hm & Hk). apply IH in Hk as (c' & Hi & Hk).
           ++ exists c'. split; [|exact Hk]. eapply iter_must; eassumption.
           ++ specialize (Hshort c m Hm). lia.
        -- intros (c' & Hi & Hk). inversion Hi; subst. exists m. split; [assumption|].
           apply IH; [|eauto].
           match goal with H : M c m |- _ => specialize (Hshort c m H) end. lia.
Qed.

(** The matcher is sound and complete: [run r c k] succeeds exactly when
    [r] has a match from [c] after which [k] succeeds. *)
Theorem run_found (r : regex) :
  forall c k, run r c k <> None <-> exists c', matches r c c' /\ k c' <> None.
Proof.
  induction r as [| p | r1 IH1 r2 IH2 | r1 IH1 r2 IH2 | g lo hi r1 IH1 | i r1 IH1
                  | | | | | | r1 IH1]; intros c k; cbn [run matches].
  - split; [eauto | intros (c' & -> & H); exact H].
  - destruct (rest c) as [|a s'].
    + split; [congruence|]. intros (c' & (a & s' & E & _) & _). discriminate.
    + destruct (p a) eqn:Ep.
      * split; [eauto 8|]. intros (c' & (a' & s'' & E & _ & ->) & H).
        injection E as <- <-. exact H.
      * split; [congruence|]. intros (c' & (a' & s'' & E & Hp & _) & _).
        injection E as <- <-. congruence.
  - rewrite IH1. split.
    + intros (m & H1 & H2). apply IH2 in H2 as (c' & H2 & Hk). eauto.
    + intros (c' & (m & H1 & H2) & Hk). exists m. split; [exact H1|]. apply IH2. eauto.
  - rewrite orElse_found, IH1, IH2. split.
    + intros [(c' & H & Hk) | (c' & H & Hk)]; eauto.
    + intros (c' & [H | H] & Hk); eauto.
  - apply (iterate_found (run r1) (matches r1) IH1 (matches_shorter r1)). lia.
  - rewrite IH1. split.
    + intros (m & H & Hk). eauto.
    + intros (c' & (m & H & ->) & Hk). eauto.
  - destruct (prev c).
    + split; [congruence|]. intros (c' & (E & _) & _). discriminate.
    + split; [eauto | intros (c' & (_ & ->) & H); exact H].
  - destruct (rest c).
    + split; [eauto | intros (c' & (_ & ->) & H); exact H].
    + split; [congruence|]. intros (c' & (E & _) & _). discriminate.
  - destruct (atLineStart c).
    + split; [eauto | intros (c' & (_ & ->) & H); exact H].
    + split; [congruence|]. intros (c' & (E & _) & _). discriminate.
  - destruct (atLineEnd c).
    + split; [eauto | intros (c' & (_ & ->) & H); exact H].
    + split; [congruence|]. intros (c' & (E & _) & _). discriminate.
  - destruct (atWordBoundary c).
    + split; [eauto | intros (c' & (_ & ->) & H); exact H].
    + split; [congruence|]. intros (c' & (E & _) & _). discriminate.
  - destruct (run r1 c Some) as [m|] eqn:E.
    + assert (Hm : exists m, matches r1 c m).
      { assert (H : run r1 c Some <> None) by congruence.
        apply IH1 in H as (m' & H & _). eauto. }
      split; [congruence|]. intros (c' & (Hn & _) & _). contradiction.
    + split.
      * intros H. exists c. split; [|exact H]. split; [|reflexivity].
        intros (m & Hm). assert (H' : run r1 c Some <> None) by (apply IH1; exists m; split; [exact Hm | discriminate]).
        congruence.
      * intros (c' & (_ & ->) & H). exact H.
Qed.

(** A match somewhere at or after the start of [s]. *)
Fixpoint somewhere (r : regex) (before : option ascii) (s : string) : Prop :=
  (exists c', matches r (Cursor before s []) c')
  \/ match s with
     | "" => False
     | String a s' => somewhere r (Some a) s'
     end.

Lemma matchAt_found (r : regex) (before : option ascii) (s : string) :
  matchAt r before s <> None <-> exists c', matches r (Cursor before s []) c'.
Proof.
  unfold matchAt. rewrite run_found. split.
  - intros (c' & H & _). eauto.
  - intros (c' & H). exists c'. split; [exact H | discriminate].
Qed.

Lemma find_found (r : regex) (before : option ascii) (s : string) :
  find r before s <> None <-> somewhere r before s.
Proof.
  revert before. induction s as [|a s IH]; intros before; cbn [find somewhere];
    rewrite <- matchAt_found.
  - destruct (matchAt r before ""); split; intros H; try tauto; try congruence.
    left. discriminate.
  - rewrite <- IH. destruct (matchAt r before (String a s)).
    + split; intros _; [left|]; discriminate.
    + destruct (find r (Some a) s) as [[n c]|]; split; intros H; try tauto;
        try congruence. right. discriminate.
Qed.

Lemma test_found (r : regex) (s : string) : test r s = true <-> somewhere r None s.
Proof.
  rewrite <- find_found. unfold test. destruct (find r None s); split; intros H;
    congruence.
Qed.

(** With the [g] flag: there is a first match exactly when there is a match. *)
Lemma matchesFrom_found (r : regex) (before : option ascii) (s : string) :
  matchesFrom r before s 0 <> [] <-> find r before s <> None.
Proof.
  revert before. induction s as [|a s IH]; intros before; cbn [matchesFrom find].
  - destruct (matchAt r before ""); split; intros H; congruence.
  - destruct (matchAt r before (String a s)).
    + split; intros _; discriminate.
    + rewrite IH. destruct (find r (Some a) s) as [[n c]|]; split; intros H; congruence.
Qed.

End RegexMeaning.

(** ** robots.txt: rules with wildcards *)

Section Wildcards.
Import Js Regex Crawl.

(** What [.] accepts. *)
Definition plain (c : ascii) : bool := negb (isLineTerminator c).

(** A path against the pieces of a rule: the first piece, then for each
    further piece any characters [.] accepts and the piece. *)
Fixpoint globs (pieces : list string) (s : string) : Prop :=
  match pieces with
  | [] => False
  | piece :: more =>
      match more with
      | [] => exists after, s = (piece ++ after)%string
      | _ :: _ =>
          exists mid after,
            s = (piece ++ mid ++ after)%string /\ Url.every plain mid = true
            /\ globs more after
      end
  end.

Lemma matches_text (t : string) :
  forall c c', matches (text t) c c' -> rest c = (t ++ rest c')%string.
Proof.
  induction t as [|a t IH]; intros c c'; [cbn; intros ->; reflexivity|].
  destruct t as [|b t].
  - cbn. intros (x & s' & E & Hx & ->). apply Ascii.eqb_eq in Hx. subst x. exact E.
  - change (text (String a (String b t))) with (Cat (lit a) (text (String b t))).
    cbn [matches lit]. intros (m & (x & s' & E & Hx & ->) & H2).
    apply Ascii.eqb_eq in Hx. subst x. apply IH in H2. cbn [rest] in H2.
    rewrite E, H2. reflexivity.
Qed.

Lemma text_matches (t : string) :
  forall c s', rest c = (t ++ s')%string -> exists c', matches (text t) c c' /\ rest c' = s'.
Proof.
  induction t as [|a t IH]; intros c s' E; [exists c; split; [reflexivity | exact E]|].
  destruct t as [|b t].
  - exists (Cursor (Some a) s' (caps c)). split; [|reflexivity].
    cbn. exists a, s'. rewrite Ascii.eqb_refl. auto.
  - change (text (String a (String b t))) with (Cat (lit a) (text (String b t))).
    destruct (IH (Cursor (Some a) (String b t ++ s') (caps c)) s' eq_refl) as (c' & H & E').
    exists c'. split; [|exact E']. cbn [matches lit].
    exists (Cursor (Some a) (String b t ++ s') (caps c)). split; [|exact H].
    exists a, (String b t ++ s')%string. rewrite Ascii.eqb_refl. auto.
Qed.

Lemma dots_consumed (lo : nat) (hi : option nat) (c c' : cursor) :
  iter (matches dot) lo hi c c' ->
  exists mid, rest c = (mid ++ rest c')%string /\ Url.every plain mid = true.
Proof.
  intros H. induction H as [| ? ? c m c' _ Hs _ IH | ? c m c' _ Hs _ _ IH].
  - exists ""%string. auto.
  - destruct Hs as (a & s' & E & Ha & ->). destruct IH as (mid & E' & Hmid).
    exists (String a mid). cbn [rest] in E'. rewrite E, E'. cbn. fold (plain a).
    unfold plain at 1. rewrite Ha, Hmid. auto.
  - destruct Hs as (a & s' & E & Ha & ->). destruct IH as (mid & E' & Hmid).
    exists (String a mid). cbn [rest] in E'. rewrite E, E'. cbn. fold (plain a).
    unfold plain at 1. rewrite Ha, Hmid. auto.
Qed.

Lemma dots_matches (mid : string) :
  forall c s', rest c = (mid ++ s')%string -> Url.every plain mid = true ->
    exists c', iter (matches dot) 0 None c c' /\ rest c' = s'.
Proof.
  induction mid as [|a mid IH]; intros c s' E Hmid.
  - exists c. split; [constructor | exact E].
  - cbn in Hmid. apply andb_true_iff in Hmid as [Ha Hmid].
    destruct (IH (Cursor (Some a) (mid ++ s') (caps c)) s' eq_refl Hmid) as (c' & H & E').
    exists c'. split; [|exact E'].
    apply (iter_more _ None c (Cursor (Some a) (mid ++ s') (caps c))); try reflexivity.
    + exists a, (mid ++ s')%string. auto.
    + unfold consumed. rewrite E.
      change (String a mid ++ s')%string with (String a (mid ++ s')).
      cbn [rest String.length]. lia.
    + exact H.
Qed.

(** [escaped.join(".*")] as a pattern. *)
Definition joined (pieces : list string) : option regex :=
  fold_right
    (fun seg acc =>
       match acc with
       | None => Some seg
       | Some r => Some (Cat seg (Cat (star dot) r))
       end) None (map text pieces).

Lemma joined_globs (pieces : list string) :
  pieces <> [] ->
  exists r, joined pieces = Some r
            /\ forall c, (exists c', matches r c c') <-> globs pieces (rest c).
Proof.
  induction pieces as [|piece more IH]; [congruence|]. intros _.
  destruct more as [|next more].
  - exists (text piece). split; [reflexivity|]. intros c. cbn [globs]. split.
    + intros (c' & H). apply matches_text in H. eauto.
    + intros (after & E). destruct (text_matches piece c after E) as (c' & H & _). eauto.
  - destruct (IH ltac:(discriminate)) as (r & Hr & Hglobs).
    exists (Cat (text piece) (Cat (star dot) r)). split.
    + unfold joined in *. cbn [map fold_right] in *. rewrite Hr. reflexivity.
    + intros c. change (globs (piece :: next :: more) (rest c))
        with (exists mid after,
                 rest c = (piece ++ mid ++ after)%string /\ Url.every plain mid = true
                 /\ globs (next :: more) after).
      cbn [matches star]. split.
      * intros (c' & m & H1 & m2 & H2 & H3).
        apply matches_text in H1. apply dots_consumed in H2 as (mid & E & Hmid).
        exists mid, (rest m2). rewrite H1, E. repeat split; auto.
        apply Hglobs. eauto.
      * intros (mid & after & E & Hmid & Hg).
        destruct (text_matches piece c _ E) as (m & H1 & E1).
        destruct (dots_matches mid m after E1 Hmid) as (m2 & H2 & E2).
        rewrite <- E2 in Hg. apply Hglobs in Hg as (c' & H3). eauto 8.
Qed.

Lemma matched_found (o : option cursor) : matched o = true <-> o <> None.
Proof. destruct o; cbn; split; intros H; congruence. Qed.

End Wildcards.

(** A robots rule with wildcards.  The rule, with a leading slash added
    when it has none, is cut at its [*]s; a path matches it exactly when the
    path starts with the first piece and goes on, for each further piece,
    with any characters other than line terminators followed by that piece.
    Whatever follows the last piece is accepted. *)
Theorem robots_wildcard_rules (path rule : string) :
  let normalizedRule := if Js.startsWith rule "/" then rule else ("/" ++ rule)%string in
  Js.includes normalizedRule "*" = true ->
  (Crawl.matchesRule path rule = true <-> globs (Js.splitChar "*" normalizedRule) path).
Proof.
  cbv zeta. intros Hstar. unfold Crawl.matchesRule.
  destruct rule as [|a rule]; [discriminate Hstar|].
  set (normalizedRule := if Js.startsWith (String a rule) "/" then String a rule
                         else ("/" ++ String a rule)%string) in *.
  destruct (String.eqb_spec normalizedRule "/") as [E | _];
    [rewrite E in Hstar; discriminate Hstar|].
  rewrite Hstar.
  destruct (joined_globs (Js.splitChar "*" normalizedRule)) as (r & Hr & Hglobs).
  { apply splitChar_nonempty. }
  unfold joined in Hr. rewrite Hr, test_anchored. fold (matched (Regex.matchAt (Regex.Cat Regex.InputStart r) None path)).
  rewrite matched_found, matchAt_found, <- (Hglobs (Regex.Cursor None path [])).
  cbn [matches]. split.
  - intros (c' & m & (_ & ->) & H). eauto.
  - intros (c' & H). exists c', (Regex.Cursor None path []). auto.
Qed.

Lemma robots_wildcard_rules_witness :
  Js.includes "/private/*/data" "*" = true
  /\ (Crawl.matchesRule "/private/x/data.json" "private/*/data" = true
      <-> globs (Js.splitChar "*" "/private/*/data") "/private/x/data.json").
Proof.
  split; [reflexivity|].
  apply (robots_wildcard_rules "/private/x/data.json" "private/*/data"). reflexivity.
Defined.

(** ** Titles and headings of the Structure Analyzer *)

Section Titles.
Import Js Regex Analyzer.

(** From any position, [.*] can run to the end of the line. *)
Lemma dots_to_line_end (s : string) :
  forall before cs,
    exists c', iter (matches dot) 0 None (Cursor before s cs) c' /\ atLineEnd c' = true.
Proof.
  induction s as [|a s IH]; intros before cs.
  - exists (Cursor before "" cs). split; [constructor | reflexivity].
  - destruct (isLineTerminator a) eqn:Ea.
    + exists (Cursor before (String a s) cs). split; [constructor | exact Ea].
    + destruct (IH (Some a) cs) as (c' & H & Hend). exists c'. split; [|exact Hend].
      apply (iter_more _ None _ (Cursor (Some a) s cs)); try reflexivity.
      * exists a, s. cbn [rest caps]. rewrite Ea. auto.
      * unfold consumed. cbn [rest String.length]. lia.
      * exact H.
Qed.

(** Where the title pattern matches, the heading pattern does. *)
Lemma title_is_heading (c : cursor) :
  (exists c', matches h1Line c c') -> exists c', matches headingLine c c'.
Proof.
  intros (c' & H). unfold h1Line, headingLine in *. cbn [cat] in *.
  destruct H as (m0 & (Hstart & ->) & m1 & Hhash & m2 & Hspace & Hdots).
  unfold plus in Hdots. cbn [matches] in Hdots.
  inversion Hdots as [| lo hi x m3 y _ Hstep Hmore |]; subst.
  pose proof Hstep as Hdot. cbn [matches dot] in Hdot.
  destruct Hdot as (a & s' & _ & _ & ->).
  destruct (dots_to_line_end s' (Some a) (caps m2)) as (c'' & Hrun & Hend).
  exists c''. exists c. split; [split; [exact Hstart | reflexivity]|].
  exists m1. split.
  { unfold between. cbn [matches].
    apply (iter_must _ 0 (Some 6) c m1 m1); [reflexivity | exact Hhash | constructor]. }
  exists m2. split; [exact Hspace|].
  exists c''. split; [|split; [exact Hend | reflexivity]].
  unfold plus. cbn [matches].
  apply (iter_must _ 0 None m2 (Cursor (Some a) s' (caps m2)) c'');
    [reflexivity | exact Hstep | exact Hrun].
Qed.

Lemma somewhere_covered (r r' : regex) :
  (forall c, (exists c', matches r c c') -> exists c', matches r' c c') ->
  forall s before, somewhere r before s -> somewhere r' before s.
Proof.
  intros Hcover. induction s as [|a s IH]; intros before; cbn [somewhere].
  - intros [H | []]. left. apply Hcover, H.
  - intros [H | H]; [left; apply Hcover, H | right; apply IH, H].
Qed.

Lemma title_counts_as_heading (markdown : string) :
  hasTitle (extractSections markdown) = true ->
  0 < headingCount (calculateMetrics markdown).
Proof.
  unfold extractSections, calculateMetrics. cbn [hasTitle headingCount].
  rewrite test_found. intros H.
  apply (somewhere_covered h1Line headingLine title_is_heading) in H.
  apply find_found, matchesFrom_found in H. unfold matchAll.
  destruct (matchesFrom headingLine None markdown 0); [congruence | cbn; lia].
Qed.

Lemma Forall_when (P : ValidationWarning -> Prop) (b : bool) (w : ValidationWarning) :
  (b = true -> P w) -> List.Forall P (when b w).
Proof. destruct b; intros H; constructor; auto. Qed.

End Titles.

(** A document with a title has a heading: when the analysis finds the
    main title, its heading count is at least one, so it carries no warning
    about the structure and the readability issues do not list missing
    headings. *)
Theorem titled_documents_have_headings (markdown : string) :
  let a := Analyzer.analyzeMarkdownStructure markdown in
  Analyzer.hasTitle (Analyzer.sections a) = true ->
  0 < Analyzer.headingCount (Analyzer.metrics a)
  /\ List.Forall (fun w => Analyzer.section w <> "Structure"%string) (Analyzer.warnings a)
  /\ ~ In "No headings - AI can't understand content hierarchy"%string
         (Analyzer.issues (Analyzer.aiReadability a)).
Proof.
  cbv zeta. unfold Analyzer.analyzeMarkdownStructure.
  cbn [Analyzer.sections Analyzer.metrics Analyzer.warnings Analyzer.aiReadability].
  intros Htitle. pose proof (title_counts_as_heading markdown Htitle) as Hheads.
  split; [exact Hheads|].
  assert (Hzero : (Analyzer.headingCount (Analyzer.calculateMetrics markdown) =? 0)%nat = false)
    by (apply Nat.eqb_neq; lia).
  split.
  - unfold Analyzer.validateStructure. cbv zeta.
    repeat (apply List.Forall_app; split);
      apply Forall_when; cbn [Analyzer.section]; intros; try discriminate.
    congruence.
  - unfold Analyzer.analyzeAIReadability. cbn [Analyzer.issues].
    rewrite Hzero, andb_false_r. cbn [Analyzer.say app].
    rewrite !in_app_iff. unfold Analyzer.say.
    repeat match goal with |- context [if ?b then _ else _] => destruct b end;
      cbn [In]; intros H; repeat destruct H as [H | H]; try discriminate H; auto.
Qed.

Lemma titled_documents_have_headings_witness :
  let a := Analyzer.analyzeMarkdownStructure ("# Title" ++ Scenario.n ++ "Short.")%string in
  Analyzer.hasTitle (Analyzer.sections a) = true
  /\ 0 < Analyzer.headingCount (Analyzer.metrics a)
  /\ List.Forall (fun w => Analyzer.section w <> "Structure"%string) (Analyzer.warnings a)
  /\ ~ In "No headings - AI can't understand content hierarchy"%string
         (Analyzer.issues (Analyzer.aiReadability a)).
Proof.
  cbv zeta. split; [vm_compute; reflexivity|].
  apply (titled_documents_have_headings ("# Title" ++ Scenario.n ++ "Short.")%string).
  vm_compute. reflexivity.
Defined.

(** ** The mirror address in the two routes *)

Section MirrorUrls.
Import Js Url Regex Crawl.

Lemma find_start (r : regex) (s : string) :
  find (Cat InputStart r) None s
  = match matchAt (Cat InputStart r) None s with
    | Some c => Some (0, c)
    | None => None
    end.
Proof.
  destruct s as [|a s]; cbn [find]; destruct (matchAt (Cat InputStart r) None _);
    try reflexivity.
  rewrite find_anchored. reflexivity.
Qed.

(** Removing [www.] leaves the rest of the name. *)
Lemma strip_suffix (x : string) :
  exists pre, x = (pre ++ Regex.replace wwwPrefix (fun _ => "") x)%string.
Proof.
  unfold Regex.replace, wwwPrefix. cbn [cat]. rewrite find_start.
  unfold matchAt. cbn [run prev textCi litCi lit].
  destruct x as [|c1 [|c2 [|c3 [|c4 x]]]]; cbn [rest caps];
    repeat match goal with
           | |- context [if ?b then _ else _] => destruct b
           end;
    try (exists ""%string; reflexivity).
  exists (String c1 (String c2 (String c3 (String c4 "")))). reflexivity.
Qed.

Lemma toLowerCase_append (a b : string) :
  toLowerCase (a ++ b) = (toLowerCase a ++ toLowerCase b)%string.
Proof.
  induction a as [|c a IH]; [reflexivity|].
  change (String c a ++ b)%string with (String c (a ++ b)). cbn [toLowerCase].
  rewrite IH. reflexivity.
Qed.

Lemma lower_suffix (a b : string) :
  toLowerCase (a ++ b) = (a ++ b)%string -> toLowerCase b = b.
Proof.
  induction a as [|c a IH]; [trivial|].
  change (String c a ++ b)%string with (String c (a ++ b)). cbn [toLowerCase].
  intros H. injection H as _ H. auto.
Qed.

(** On a lower-case host name the key is the name without [www.]. *)
Lemma hostKey_lower (x : string) :
  toLowerCase x = x -> hostKey x = Regex.replace wwwPrefix (fun _ => "") x.
Proof.
  intros H. unfold hostKey. destruct (strip_suffix x) as (pre & E).
  rewrite E in H. apply lower_suffix in H. exact H.
Qed.

Lemma wellFormed_hostname (T : Idna) (u : URL) :
  wellFormed T u -> toLowerCase (hostname u) = hostname u.
Proof.
  intros (_ & _ & _ & (h & Hh & Hstable) & _). unfold hostname. rewrite Hh.
  apply (kind_lower T), (parseHost_kind T h h Hstable).
Qed.

Variable W : World.
Variable cfg : Config.

(** The [url] of a record was produced by [normalizeUrl]. *)
Lemma iteration_normalized (s s' : CrawlState) (current : QueueItem) :
  iteration W cfg s current = Ok s' ->
  forall p, In p (pages s') ->
    In p (pages s) \/ exists input, normalizeUrl W input None = Ok (Crawl.url p).
Proof.
  intros H. paths H.
  all: cbn [pages recorded log note record enqueue addVisited].
  all: intros p Hin; rewrite ?in_app_iff in Hin; cbn [In] in Hin.
  all: repeat match type of Hin with
              | _ \/ _ => destruct Hin as [Hin | Hin]
              | False => contradiction
              end; auto.
  all: subst p; right; cbn [Crawl.url]; eauto.
Qed.

Lemma reachable_normalized (normalizedRoot : string) (s : CrawlState) :
  reachable W cfg (initial normalizedRoot) s ->
  forall p, In p (pages s) -> exists input, normalizeUrl W input None = Ok (Crawl.url p).
Proof.
  induction 1 as [|s s' _ IH Hstep]; [intros p []|].
  apply step_Next in Hstep as (current & remaining & _ & _ & Hit).
  intros p Hp. destruct (iteration_normalized _ _ _ Hit p Hp) as [Hold | Hnew]; auto.
Qed.

End MirrorUrls.

(** The two routes agree on the mirror address.  For every page record of a
    crawl, the mirror URL the JSON route builds from the record's [url] is
    the [ai_url] the crawler stored in the record. *)
Theorem mirror_url_agrees_with_crawl (W : Crawl.World) (payload : Crawl.Payload)
    (inputUrl normalizedRoot : string) (root : Url.URL)
    (s : Crawl.CrawlState) (p : Crawl.PageEntry) :
  Crawl.normalizeUrl W inputUrl None = Js.Ok normalizedRoot ->
  Crawl.newURL W normalizedRoot = Js.Ok root ->
  Crawl.reachable W (Crawl.configOf W payload root) (Crawl.initial normalizedRoot) s ->
  In p (Crawl.pages s) ->
  Mirror.buildMirrorUrl W (Crawl.url p) = Crawl.ai_url p.
Proof.
  intros Hnorm Hroot Hreach Hin.
  set (cfg := Crawl.configOf W payload root) in *.
  (* the root *)
  destruct (normalizeUrl_normalForm W _ _ Hnorm) as (r & (Hr & _) & ->).
  apply newURL_Ok in Hroot. rewrite (URL_new_normalForm W r None Hr) in Hroot.
  injection Hroot as <-.
  (* the record *)
  destruct (reachable_normalized W cfg _ s Hreach p Hin) as (input & Hp).
  destruct (normalizeUrl_normalForm W _ _ Hp) as (v & (Hv & _ & Hq & _) & Hurl).
  destruct (reachable_fields W cfg _ s Hreach p Hin) as (v' & Hnew & _ & Hai & _).
  rewrite Hurl, (URL_new_normalForm W v None Hv) in Hnew. injection Hnew as <-.
  destruct (reachable_records W cfg _ s Hreach) as (_ & _ & Hpg & _).
  destruct (Hpg p Hin) as (Hadm & _). unfold Crawl.admits in Hadm.
  rewrite Hurl, (URL_new_normalForm W v None Hv) in Hadm.
  apply andb_true_iff in Hadm as [Hsame _]. unfold Crawl.isSameHost in Hsame.
  apply String.eqb_eq in Hsame.
  rewrite !hostKey_lower in Hsame by (eapply wellFormed_hostname; eassumption).
  unfold Mirror.buildMirrorUrl. rewrite Hurl, (URL_new_normalForm W v None Hv).
  cbv zeta. unfold Mirror.search. rewrite Hq, Hai, <- Hsame, append_empty. reflexivity.
Qed.

Lemma mirror_url_agrees_with_crawl_witness :
  let W := Scenario.oneLink in
  let p := {| Crawl.url := "https://example.com/a"; Crawl.ai_url := "https://ai.example.com/a";
              Crawl.type := Crawl.category; Crawl.priority := 5 # 10 |} in
  Mirror.buildMirrorUrl W (Crawl.url p) = Crawl.ai_url p.
Proof.
  cbv zeta.
  apply (mirror_url_agrees_with_crawl Scenario.oneLink
           (Scenario.request "example.com" Js.JUndefined)
           "example.com" Scenario.home (Scenario.rootOf Scenario.oneLink Scenario.home)
           (Crawl.stateAfter Scenario.oneLink
              (Crawl.configOf Scenario.oneLink (Scenario.request "example.com" Js.JUndefined)
                 (Scenario.rootOf Scenario.oneLink Scenario.home))
              2 (Crawl.initial Scenario.home))).
  - vm_compute. reflexivity.
  - vm_compute. reflexivity.
  - apply reachable_stateAfter.
  - vm_compute. auto.
Defined.

(** ** Lines in normal form ([sanitizeLine]) *)

Section Squash.
Import Js Regex.
Variable p : ascii -> bool.
Variable sp : ascii.
Hypothesis p_sp : p sp = true.

(** A global replace of [p+] by one character of [p], read left to
    right: [inRun] tells whether the character before belonged to a run. *)
Fixpoint squashFrom (inRun : bool) (s : string) : string :=
  match s with
  | "" => ""
  | String a s' =>
      if p a then (if inRun then squashFrom true s' else String sp (squashFrom true s'))
      else String a (squashFrom false s')
  end.

Lemma replaceFrom_squash (s : string) :
  (forall before,
      replaceFrom (plus (Char p)) (fun _ => String sp "") before s 0 = squashFrom false s)
  /\ (forall before k, runLen p s = k ->
        replaceFrom (plus (Char p)) (fun _ => String sp "") before s k = squashFrom true s).
Proof.
  unfold plus. induction s as [|a s [IHL IHS]].
  - split; intros; rewrite replaceFrom_nil by lia; reflexivity.
  - assert (L : forall before,
               replaceFrom (Repeat true 1 None (Char p)) (fun _ => String sp "") before
                 (String a s) 0 = squashFrom false (String a s)).
    { intros before. cbn [replaceFrom].
      destruct (matchAt_run p 1 before (String a s)) as [last E]. rewrite E.
      destruct (length_dropRun p (String a s)) as [Hlen _].
      cbn [squashFrom]. destruct (p a) eqn:Hp.
      - replace (1 <=? runLen p (String a s))%nat with true
          by (cbn [runLen]; rewrite Hp; reflexivity).
        cbn [rest caps]. rewrite Hlen. cbn [runLen]. rewrite Hp.
        rewrite (IHS (Some a) (runLen p s) eq_refl). reflexivity.
      - replace (1 <=? runLen p (String a s))%nat with false
          by (cbn [runLen]; rewrite Hp; reflexivity).
        rewrite IHL. reflexivity. }
    split; [exact L|]. intros before k Hk. cbn [runLen] in Hk.
    destruct k as [|k].
    + rewrite L. cbn [squashFrom]. destruct (p a); [discriminate | reflexivity].
    + cbn [replaceFrom squashFrom]. destruct (p a); [|discriminate].
      apply IHS. lia.
Qed.

Lemma squash_starts (s : string) : runLen p (squashFrom true s) = 0.
Proof.
  induction s as [|a s IH]; [reflexivity|]. cbn [squashFrom].
  destruct (p a) eqn:Hp; [exact IH|]. cbn [runLen]. rewrite Hp. reflexivity.
Qed.

(** After it, no two characters of [p] are adjacent, ... *)
Lemma squash_short (s : string) : forall b, noLongRun p 2 (squashFrom b s) = true.
Proof.
  induction s as [|a s IH]; intros b; [reflexivity|]. cbn [squashFrom].
  destruct (p a) eqn:Hp.
  - destruct b; [apply IH|]. cbn [noLongRun runLen]. rewrite p_sp, squash_starts, IH.
    reflexivity.
  - cbn [noLongRun runLen]. rewrite Hp, IH. reflexivity.
Qed.

(** ... every character of [p] is the replacement, ... *)
Lemma squash_chars (s : string) :
  forall b, Url.every (fun c => negb (p c) || Ascii.eqb c sp) (squashFrom b s) = true.
Proof.
  induction s as [|a s IH]; intros b; [reflexivity|]. cbn [squashFrom].
  destruct (p a) eqn:Hp.
  - destruct b; [apply IH|]. cbn [Url.every]. rewrite Ascii.eqb_refl, orb_true_r, IH.
    reflexivity.
  - cbn [Url.every]. rewrite Hp, IH. reflexivity.
Qed.

(** ... and the other characters are where they were. *)
Lemma squash_remove (s : string) :
  forall b, Url.remove p (squashFrom b s) = Url.remove p s.
Proof.
  induction s as [|a s IH]; intros b; [reflexivity|]. cbn [squashFrom Url.remove].
  destruct (p a) eqn:Hp.
  - destruct b; [apply IH|]. cbn [Url.remove]. rewrite p_sp. apply IH.
  - cbn [Url.remove]. rewrite Hp, IH. reflexivity.
Qed.

Lemma squash_fixed (t : string) :
  Url.every (fun c => negb (p c) || Ascii.eqb c sp) t = true ->
  noLongRun p 2 t = true ->
  squashFrom false t = t /\ (runLen p t = 0 -> squashFrom true t = t).
Proof.
  induction t as [|a t IH]; [auto|]. cbn [Url.every noLongRun runLen squashFrom].
  intros He Hn. apply andb_true_iff in He as [Ha He]. apply andb_true_iff in Hn as [Hr Hn].
  destruct (IH He Hn) as [IH1 IH2]. destruct (p a) eqn:Hp.
  - cbn [negb orb] in Ha. apply Ascii.eqb_eq in Ha. subst a.
    apply Nat.ltb_lt in Hr. split; [|discriminate].
    rewrite IH2 by lia. reflexivity.
  - rewrite IH1. auto.
Qed.

End Squash.

Section TrimFacts.
Import Js Regex.

Lemma every_trimStart (q : ascii -> bool) (s : string) :
  Url.every q s = true -> Url.every q (trimStart s) = true.
Proof.
  induction s as [|a s IH]; [trivial|]. cbn [trimStart]. destruct (isWhiteSpace a); [|trivial].
  cbn [Url.every]. intros H. apply andb_true_iff in H as [_ H]. auto.
Qed.

Lemma every_trimEnd (q : ascii -> bool) (s : string) :
  Url.every q s = true -> Url.every q (trimEnd s) = true.
Proof.
  induction s as [|a s IH]; [trivial|]. cbn [trimEnd Url.every]. intros H.
  apply andb_true_iff in H as [Ha H]. specialize (IH H).
  destruct (trimEnd s) as [|b t].
  - destruct (isWhiteSpace a); [reflexivity|]. cbn [Url.every]. rewrite Ha. reflexivity.
  - change (Url.every q (String a (String b t))) with (q a && Url.every q (String b t)).
    rewrite Ha, IH. reflexivity.
Qed.

Lemma remove_trimStart (s : string) :
  Url.remove isWhiteSpace (trimStart s) = Url.remove isWhiteSpace s.
Proof.
  induction s as [|a s IH]; [reflexivity|]. cbn [trimStart Url.remove].
  destruct (isWhiteSpace a) eqn:Ha; [exact IH|]. cbn [Url.remove]. rewrite Ha. reflexivity.
Qed.

Lemma remove_trimEnd (s : string) :
  Url.remove isWhiteSpace (trimEnd s) = Url.remove isWhiteSpace s.
Proof.
  induction s as [|a s IH]; [reflexivity|]. cbn [trimEnd Url.remove]. rewrite <- IH.
  destruct (trimEnd s) as [|b t].
  - destruct (isWhiteSpace a) eqn:Ha; [reflexivity|]. cbn [Url.remove]. rewrite Ha.
    reflexivity.
  - change (Url.remove isWhiteSpace (String a (String b t)))
      with (if isWhiteSpace a then Url.remove isWhiteSpace (String b t)
            else String a (Url.remove isWhiteSpace (String b t))).
    reflexivity.
Qed.

(** No white space in front. *)
Definition headOk (s : string) : bool :=
  match s with
  | "" => true
  | String c _ => negb (isWhiteSpace c)
  end.

Lemma trimStart_head (s : string) : headOk (trimStart s) = true.
Proof.
  induction s as [|a s IH]; [reflexivity|]. cbn [trimStart].
  destruct (isWhiteSpace a) eqn:Ha; [exact IH|]. cbn [headOk]. rewrite Ha. reflexivity.
Qed.

Lemma trimStart_fixed (s : string) : headOk s = true -> trimStart s = s.
Proof.
  destruct s as [|a s]; [reflexivity|]. cbn [headOk trimStart].
  destruct (isWhiteSpace a); [discriminate | reflexivity].
Qed.

Lemma trimEnd_head (s : string) : headOk s = true -> headOk (trimEnd s) = true.
Proof.
  destruct s as [|a s]; [reflexivity|]. cbn [headOk trimEnd]. intros Ha.
  destruct (trimEnd s); [|exact Ha].
  destruct (isWhiteSpace a) eqn:E; [reflexivity|]. cbn [headOk]. rewrite E. reflexivity.
Qed.

Lemma trimEnd_fixed (s : string) : trimEnd (trimEnd s) = trimEnd s.
Proof.
  induction s as [|a s IH]; [reflexivity|]. cbn [trimEnd].
  destruct (trimEnd s) as [|b t] eqn:E.
  - destruct (isWhiteSpace a) eqn:Ha; [reflexivity|]. cbn [trimEnd]. rewrite Ha. reflexivity.
  - change (trimEnd (String a (String b t)))
      with (match trimEnd (String b t) with
            | "" => if isWhiteSpace a then "" else String a ""
            | u => String a u
            end)%string.
    rewrite IH. reflexivity.
Qed.

Lemma trim_fixed (s : string) : trim (trim s) = trim s.
Proof.
  unfold trim. rewrite (trimStart_fixed (trimEnd (trimStart s))).
  - apply trimEnd_fixed.
  - apply trimEnd_head, trimStart_head.
Qed.

Lemma every_trim (q : ascii -> bool) (s : string) :
  Url.every q s = true -> Url.every q (trim s) = true.
Proof. intros H. apply every_trimEnd, every_trimStart, H. Qed.

Lemma remove_trim (s : string) :
  Url.remove isWhiteSpace (trim s) = Url.remove isWhiteSpace s.
Proof. unfold trim. rewrite remove_trimEnd. apply remove_trimStart. Qed.

Lemma space_is_white : isWhiteSpace " " = true.
Proof. reflexivity. Qed.

(** [s.replace(/\s+/g, " ")] *)
Lemma replaceAll_spaces (s : string) :
  replaceAll (plus space) (fun _ => " "%string) s = squashFrom isWhiteSpace " " false s.
Proof. unfold replaceAll, space. apply replaceFrom_squash. Qed.

End TrimFacts.

(** [sanitizeLine] puts a line in a normal form.  It only touches white
    space: the other characters are the same, in the same order.  In the
    result every white-space character is a space, no two of them are
    adjacent, and none is at either end; so a second application changes
    nothing. *)
Theorem sanitizeLine_normalizes (value : string) :
  let line := ExtractorText.sanitizeLine value in
  Url.remove Js.isWhiteSpace line = Url.remove Js.isWhiteSpace value
  /\ Url.every (fun c => negb (Js.isWhiteSpace c) || Ascii.eqb c " ") line = true
  /\ Regex.noLongRun Js.isWhiteSpace 2 line = true
  /\ Js.trim line = line
  /\ ExtractorText.sanitizeLine line = line.
Proof.
  cbv zeta. unfold ExtractorText.sanitizeLine, ExtractorText.spaces.
  rewrite !replaceAll_spaces.
  set (squashed := squashFrom Js.isWhiteSpace " " false value).
  assert (Hchars : Url.every (fun c => negb (Js.isWhiteSpace c) || Ascii.eqb c " ")
                     (Js.trim squashed) = true)
    by apply every_trim, squash_chars.
  assert (Hshort : Regex.noLongRun Js.isWhiteSpace 2 (Js.trim squashed) = true)
    by apply noLongRun_trim, squash_short, space_is_white.
  split; [rewrite remove_trim; apply squash_remove, space_is_white|].
  split; [exact Hchars|]. split; [exact Hshort|]. split; [apply trim_fixed|].
  destruct (squash_fixed Js.isWhiteSpace " " (Js.trim squashed) Hchars Hshort) as [-> _].
  apply trim_fixed.
Qed.

(** ** Deduplication of topics and entities *)

Section Dedupe.
Import Js ExtractorText.

(** What the loop of [dedupe] keeps true of [ordered] and [seen]. *)
Definition deduped (acc : list string * gset string) : Prop :=
  (forall key, key ∈ snd acc <-> In key (map toLowerCase (fst acc)))
  /\ NoDup (map toLowerCase (fst acc))
  /\ List.Forall (fun x => x <> ""%string /\ trim x = x) (fst acc).

Lemma dedupeStep_deduped (acc : list string * gset string) (raw : string) :
  deduped acc -> deduped (dedupeStep acc raw).
Proof.
  intros (Hseen & Hnd & Hall). unfold dedupeStep. cbv zeta.
  destruct (String.eqb_spec (trim raw) "") as [E | E]; [repeat split; auto; apply Hseen|].
  destruct (bool_decide (toLowerCase (trim raw) ∈ acc.2)) eqn:Hin;
    [repeat split; auto; apply Hseen|].
  apply bool_decide_eq_false in Hin. unfold deduped. cbn [fst snd].
  rewrite map_app. cbn [map]. repeat split.
  - rewrite elem_of_union, elem_of_singleton, in_app_iff, Hseen. cbn [In]. intuition.
  - rewrite elem_of_union, elem_of_singleton, in_app_iff, Hseen. cbn [In]. intuition.
  - apply NoDup_app. split; [exact Hnd|]. split; [|apply NoDup_singleton].
    intros key Hkey ->%list_elem_of_singleton. apply Hin, Hseen, list_elem_of_In, Hkey.
  - apply List.Forall_app. split; [exact Hall|]. constructor; [|constructor].
    split; [exact E | apply trim_fixed].
Qed.

Lemma dedupeStep_grows (acc : list string * gset string) (raw : string) :
  (exists more, fst (dedupeStep acc raw) = (fst acc ++ more)%list
                /\ forall x, In x more -> x = trim raw)
  /\ (forall key, key ∈ snd acc -> key ∈ snd (dedupeStep acc raw))
  /\ (trim raw <> ""%string -> toLowerCase (trim raw) ∈ snd (dedupeStep acc raw)).
Proof.
  unfold dedupeStep. cbv zeta.
  destruct (String.eqb_spec (trim raw) "") as [E | E].
  - split; [exists []; rewrite app_nil_r; split; [reflexivity | intros x []]|].
    split; [auto | contradiction].
  - destruct (bool_decide (toLowerCase (trim raw) ∈ acc.2)) eqn:Hin.
    + apply bool_decide_eq_true in Hin.
      split; [exists []; rewrite app_nil_r; split; [reflexivity | intros x []]|]. auto.
    + cbn [fst snd]. split; [exists [trim raw]; split; [reflexivity|]|].
      * intros x [<- | []]. reflexivity.
      * split; intros; set_solver.
Qed.

Lemma fold_dedupe (values : list string) :
  forall acc,
    deduped acc ->
    deduped (fold_left dedupeStep values acc)
    /\ (exists more, fst (fold_left dedupeStep values acc) = (fst acc ++ more)%list
                     /\ forall x, In x more -> In x (map trim values))
    /\ (forall key, key ∈ snd acc -> key ∈ snd (fold_left dedupeStep values acc))
    /\ (forall raw, In raw values -> trim raw <> ""%string ->
          toLowerCase (trim raw) ∈ snd (fold_left dedupeStep values acc)).
Proof.
  induction values as [|raw values IH]; intros acc Hacc; cbn [fold_left].
  - split; [exact Hacc|]. split; [exists []; rewrite app_nil_r; split; [reflexivity|intros x []]|].
    split; [auto | intros raw []].
  - destruct (IH _ (dedupeStep_deduped acc raw Hacc)) as (Hd & (more & Hm & Hin) & Hmono & Hall).
    destruct (dedupeStep_grows acc raw) as ((first & Hf & Hfirst) & Hkeep & Hnew).
    split; [exact Hd|]. split; [|split].
    + exists (first ++ more)%list. rewrite Hm, Hf, <- app_assoc. split; [reflexivity|].
      intros x Hx. cbn [map In]. apply in_app_iff in Hx as [Hx | Hx]; [left | right; auto].
      symmetry. apply Hfirst, Hx.
    + intros key Hkey. apply Hmono, Hkeep, Hkey.
    + intros raw' [<- | Hraw] Hne; [apply Hmono, Hnew, Hne | apply Hall; assumption].
Qed.

(** On a list that is already free of duplicates the loop keeps every
    entry. *)
Lemma fold_distinct (values : list string) :
  forall acc,
    List.Forall (fun x => x <> ""%string /\ trim x = x) values ->
    NoDup (map toLowerCase values) ->
    (forall x, In x values -> toLowerCase x ∉ snd acc) ->
    fst (fold_left dedupeStep values acc) = (fst acc ++ values)%list.
Proof.
  induction values as [|x values IH]; intros acc Hall Hnd Hnew; cbn [fold_left].
  - rewrite app_nil_r. reflexivity.
  - apply List.Forall_cons_iff in Hall as [[Hne Htrim] Hall].
    cbn [map] in Hnd. apply NoDup_cons in Hnd as [Hx Hnd].
    assert (Hstep : dedupeStep acc x = ((fst acc ++ [x])%list, {[ toLowerCase x ]} ∪ snd acc)).
    { unfold dedupeStep. cbv zeta. rewrite Htrim.
      destruct (String.eqb_spec x "") as [E | _]; [contradiction|].
      rewrite bool_decide_eq_false_2 by (apply Hnew; left; reflexivity). reflexivity. }
    rewrite Hstep, IH; cbn [fst snd]; [rewrite <- app_assoc; reflexivity | exact Hall | exact Hnd |].
    intros y Hy. rewrite elem_of_union, elem_of_singleton. intros [E | Hin].
    + apply Hx. rewrite <- E. apply list_elem_of_In, in_map, Hy.
    + apply (Hnew y); [right; exact Hy | exact Hin].
Qed.

Lemma deduped_start : deduped ([], ∅).
Proof.
  unfold deduped. cbn [fst snd map]. repeat split.
  - intros H. set_solver.
  - intros [].
  - apply NoDup_nil_2.
  - constructor.
Qed.

(** The result for the first inputs begins the result for all of them. *)
Lemma dedupe_prefix (before after : list string) :
  exists more, dedupe (before ++ after) = (dedupe before ++ more)%list.
Proof.
  unfold dedupe. rewrite fold_left_app.
  destruct (fold_dedupe before _ deduped_start) as (Hd & _).
  destruct (fold_dedupe after _ Hd) as (_ & (more & Hm & _) & _).
  exists more. exact Hm.
Qed.

(** An input whose key did not occur before is appended. *)
Lemma dedupe_first (before after : list string) (raw : string) :
  trim raw <> ""%string ->
  (forall r, In r before -> toLowerCase (trim r) <> toLowerCase (trim raw)) ->
  exists more, dedupe (before ++ raw :: after) = (dedupe before ++ trim raw :: more)%list.
Proof.
  intros Hne Hnew. unfold dedupe. rewrite fold_left_app. cbn [fold_left].
  destruct (fold_dedupe before _ deduped_start) as (Hd & (first & Hf & Hin) & _).
  cbn [fst app] in Hf. set (acc := fold_left dedupeStep before ([], ∅)) in *.
  assert (Hstep : dedupeStep acc raw
                  = ((fst acc ++ [trim raw])%list, {[ toLowerCase (trim raw) ]} ∪ snd acc)).
  { unfold dedupeStep. cbv zeta.
    destruct (String.eqb_spec (trim raw) "") as [E | _]; [contradiction|].
    rewrite bool_decide_eq_false_2; [reflexivity|].
    intros Hseen. destruct Hd as (Hkeys & _). apply Hkeys in Hseen.
    apply in_map_iff in Hseen as (x & Hx & Hxin). rewrite Hf in Hxin.
    apply Hin, in_map_iff in Hxin as (r & <- & Hr). exact (Hnew r Hr Hx). }
  destruct (fold_dedupe after _ (dedupeStep_deduped acc raw Hd)) as (_ & (more & Hm & _) & _).
  exists more. rewrite Hm, Hstep. cbn [fst]. rewrite <- app_assoc. reflexivity.
Qed.

(** A blank input, or one whose key occurred before, changes nothing. *)
Lemma dedupe_later (before after : list string) (raw : string) :
  trim raw = ""%string
  \/ (exists r, In r before /\ trim r <> ""%string
                /\ toLowerCase (trim r) = toLowerCase (trim raw)) ->
  dedupe (before ++ raw :: after) = dedupe (before ++ after).
Proof.
  intros H. unfold dedupe. rewrite !fold_left_app. cbn [fold_left].
  destruct (fold_dedupe before _ deduped_start) as (_ & _ & _ & Hall).
  set (acc := fold_left dedupeStep before ([], ∅)) in *.
  assert (Hstep : dedupeStep acc raw = acc); [|rewrite Hstep; reflexivity].
  unfold dedupeStep. cbv zeta.
  destruct (String.eqb_spec (trim raw) "") as [E | Hne]; [reflexivity|].
  destruct H as [E | (r & Hr & Hrne & Hkey)]; [contradiction|].
  rewrite bool_decide_eq_true_2; [reflexivity|]. rewrite <- Hkey. apply Hall; assumption.
Qed.

End Dedupe.

(** [dedupe] keeps the first spelling of every entry, in the order of
    first appearance.  Its result holds trimmed, non-empty entries, no two
    of which are equal up to letter case; each of them is a trimmed input;
    every input that is not blank is represented, up to letter case;
    deduplicating the result again changes nothing.  An input that is not
    blank and differs, up to letter case, from every input before it is
    kept as it is spelled (trimmed), right after the entries that the
    inputs before it gave; a blank input, or one that equals an earlier
    input up to letter case, changes nothing. *)
Theorem dedupe_keeps_one_of_each (values : list string) :
  let result := ExtractorText.dedupe values in
  List.NoDup (map Js.toLowerCase result)
  /\ List.Forall (fun x => x <> ""%string /\ Js.trim x = x) result
  /\ (forall x, In x result -> In x (map Js.trim values))
  /\ (forall raw, In raw values -> Js.trim raw <> ""%string ->
        In (Js.toLowerCase (Js.trim raw)) (map Js.toLowerCase result))
  /\ ExtractorText.dedupe result = result
  /\ (forall before raw after,
        values = (before ++ raw :: after)%list ->
        Js.trim raw <> ""%string ->
        (forall r, In r before ->
           Js.toLowerCase (Js.trim r) <> Js.toLowerCase (Js.trim raw)) ->
        exists more,
          result = (ExtractorText.dedupe before ++ Js.trim raw :: more)%list)
  /\ (forall before raw after,
        values = (before ++ raw :: after)%list ->
        Js.trim raw = ""%string
        \/ (exists r, In r before /\ Js.trim r <> ""%string
                      /\ Js.toLowerCase (Js.trim r) = Js.toLowerCase (Js.trim raw)) ->
        result = ExtractorText.dedupe (before ++ after)).
Proof.
  cbv zeta.
  split; [|split; [|split; [|split; [|split; [|split]]]]].
  6: { intros before raw after -> Hne Hnew. apply dedupe_first; assumption. }
  6: { intros before raw after -> H. apply dedupe_later, H. }
  all: unfold ExtractorText.dedupe;
    destruct (fold_dedupe values _ deduped_start)
      as ((Hseen & Hnd & Hall) & (more & Hm & Hin) & _ & Hcover);
    cbn [fst snd] in Hm; cbn [app] in Hm.
  - apply NoDup_ListNoDup, Hnd.
  - exact Hall.
  - rewrite Hm. exact Hin.
  - intros raw Hraw Hne. apply Hseen, Hcover; assumption.
  - rewrite (fold_distinct _ ([], ∅) Hall Hnd); [reflexivity|].
    intros x _. cbn [snd]. set_solver.
Qed.

(** The spelling that comes first wins, whatever follows. *)
Example dedupe_first_spelling :
  ExtractorText.dedupe ["  News "; "b"; "NEWS"; ""; "news"; "B"; "c"]%string
  = ["News"; "b"; "c"]%string.
Proof. vm_compute. reflexivity. Qed.

(** ** Escaping for XML *)

Section Substitution.
Import Js Regex.

(** A global replace of the characters of [p] by [repl]. *)
Fixpoint substAll (p : ascii -> bool) (repl : string) (s : string) : string :=
  match s with
  | "" => ""
  | String a s' =>
      if p a then (repl ++ substAll p repl s')%string else String a (substAll p repl s')
  end.

Lemma replaceAll_chars (p : ascii -> bool) (repl : string) (s : string) :
  replaceAll (Char p) (fun _ => repl) s = substAll p repl s.
Proof.
  unfold replaceAll. generalize (@None ascii).
  induction s as [|a s IH]; intros before; [reflexivity|].
  cbn [replaceFrom substAll]. unfold matchAt. cbn [run rest caps].
  destruct (p a).
  - cbn [rest String.length].
    replace (S (String.length s) - String.length s) with 1 by lia.
    rewrite IH. reflexivity.
  - rewrite IH. reflexivity.
Qed.

Lemma substAll_append (p : ascii -> bool) (repl a b : string) :
  substAll p repl (a ++ b) = (substAll p repl a ++ substAll p repl b)%string.
Proof.
  induction a as [|c a IH]; [reflexivity|].
  change (String c a ++ b)%string with (String c (a ++ b)). cbn [substAll].
  rewrite IH. destruct (p c); [|reflexivity].
  rewrite append_associative. reflexivity.
Qed.

Lemma substAll_hit (p : ascii -> bool) (repl : string) (a : ascii) (s : string) :
  p a = true -> substAll p repl (String a s) = (repl ++ substAll p repl s)%string.
Proof. intros H. cbn [substAll]. rewrite H. reflexivity. Qed.

Lemma substAll_miss (p : ascii -> bool) (repl : string) (a : ascii) (s : string) :
  p a = false -> substAll p repl (String a s) = String a (substAll p repl s).
Proof. intros H. cbn [substAll]. rewrite H. reflexivity. Qed.

Lemma substAll_plain (p : ascii -> bool) (repl s : string) :
  Url.every (fun c => negb (p c)) s = true -> substAll p repl s = s.
Proof.
  induction s as [|a s IH]; [reflexivity|]. cbn [Url.every substAll]. intros H.
  apply andb_true_iff in H as [Ha H]. destruct (p a); [discriminate|].
  rewrite IH by exact H. reflexivity.
Qed.

End Substitution.

Section Entities.
Import Js Regex Sitemap.

(** The five characters [escapeXml] replaces. *)
Definition special (c : ascii) : bool :=
  Ascii.eqb c "&" || Ascii.eqb c "<" || Ascii.eqb c ">" || Ascii.eqb c Url.DQUOTE
  || Ascii.eqb c "'".

(** The characters that delimit markup and attribute values. *)
Definition markup (c : ascii) : bool :=
  Ascii.eqb c "<" || Ascii.eqb c ">" || Ascii.eqb c Url.DQUOTE || Ascii.eqb c "'".

Definition entityOf (c : ascii) : string :=
  if Ascii.eqb c "&" then "&amp;"
  else if Ascii.eqb c "<" then "&lt;"
  else if Ascii.eqb c ">" then "&gt;"
  else if Ascii.eqb c Url.DQUOTE then "&quot;"
  else if Ascii.eqb c "'" then "&apos;"
  else String c "".

Fixpoint entities (s : string) : string :=
  match s with
  | "" => ""
  | String c s' => (entityOf c ++ entities s')%string
  end.

Ltac which c :=
  destruct (Ascii.eqb_spec c "&") as [-> | ?];
  [|destruct (Ascii.eqb_spec c "<") as [-> | ?];
    [|destruct (Ascii.eqb_spec c ">") as [-> | ?];
      [|destruct (Ascii.eqb_spec c Url.DQUOTE) as [-> | ?];
        [|destruct (Ascii.eqb_spec c "'") as [-> | ?]]]]].

Lemma eqb_other (a c : ascii) : c <> a -> Ascii.eqb a c = false.
Proof. intros H. apply Ascii.eqb_neq. congruence. Qed.

(** The five passes amount to one pass that replaces each character by
    its entity. *)
Lemma escapeXml_entities (value : string) : escapeXml value = entities value.
Proof.
  unfold escapeXml, lit. cbv zeta. rewrite !replaceAll_chars.
  induction value as [|c value IH]; [reflexivity|].
  cbn [entities]. rewrite <- IH. clear IH. unfold entityOf.
  which c;
    repeat first
      [ rewrite substAll_append
      | rewrite (substAll_plain _ _ "&amp;") by reflexivity
      | rewrite (substAll_plain _ _ "&lt;") by reflexivity
      | rewrite (substAll_plain _ _ "&gt;") by reflexivity
      | rewrite (substAll_plain _ _ "&quot;") by reflexivity
      | rewrite (substAll_plain _ _ "&apos;") by reflexivity
      | rewrite substAll_hit by reflexivity
      | rewrite substAll_miss by first [reflexivity | apply eqb_other; assumption] ];
    rewrite ?(proj2 (Ascii.eqb_neq _ _)) by assumption; reflexivity.
Qed.

Lemma entityOf_markup (c : ascii) :
  Url.every (fun x => negb (markup x)) (entityOf c) = true.
Proof.
  unfold entityOf.
  which c; try reflexivity.
  cbn [Url.every]. unfold markup.
  rewrite !(proj2 (Ascii.eqb_neq _ _)) by assumption. reflexivity.
Qed.

Lemma entities_markup (s : string) : Url.every (fun x => negb (markup x)) (entities s) = true.
Proof.
  induction s as [|c s IH]; [reflexivity|]. cbn [entities].
  rewrite every_append, entityOf_markup, IH. reflexivity.
Qed.

(** No entity is the beginning of another text of entities. *)
Lemma entityOf_prefix (x y : ascii) (X Y : string) :
  (entityOf x ++ X)%string = (entityOf y ++ Y)%string -> x = y /\ X = Y.
Proof.
  unfold entityOf.
  which x; which y; cbn; intros H; try discriminate H;
    try (injection H as H; auto; fail);
    try (injection H as H; subst; auto; congruence).
  all: injection H; intros; subst; auto; congruence.
Qed.

Lemma entities_injective (a : string) : forall b, entities a = entities b -> a = b.
Proof.
  induction a as [|x a IH]; intros [|y b]; cbn [entities]; intros H.
  - reflexivity.
  - exfalso. revert H. unfold entityOf. which y; cbn; discriminate.
  - exfalso. revert H. unfold entityOf. which x; cbn; discriminate.
  - apply entityOf_prefix in H as [-> H]. rewrite (IH b H). reflexivity.
Qed.

Lemma entities_plain (s : string) :
  Url.every (fun c => negb (special c)) s = true -> entities s = s.
Proof.
  induction s as [|c s IH]; [reflexivity|]. cbn [Url.every entities]. intros H.
  apply andb_true_iff in H as [Hc H]. rewrite (IH H).
  unfold special in Hc. unfold entityOf.
  which c; try discriminate Hc. reflexivity.
Qed.

End Entities.

(** [escapeXml] makes a text safe to place in an element or an attribute
    value.  The result holds none of the characters that delimit markup
    (angle brackets and the two quotes); different texts have different
    results, so nothing is lost; and a text without any of the five
    replaced characters is returned as it is. *)
Theorem escapeXml_is_safe (value : string) :
  Url.every (fun c => negb (markup c)) (Sitemap.escapeXml value) = true
  /\ (forall other, Sitemap.escapeXml other = Sitemap.escapeXml value -> other = value)
  /\ (Url.every (fun c => negb (special c)) value = true -> Sitemap.escapeXml value = value).
Proof.
  rewrite escapeXml_entities. split; [apply entities_markup|]. split.
  - intros other. rewrite !escapeXml_entities. apply entities_injective.
  - apply entities_plain.
Qed.

Lemma escapeXml_is_safe_witness :
  Url.every (fun c => negb (special c)) "https://example.com/a" = true
  /\ Sitemap.escapeXml "https://example.com/a" = "https://example.com/a"%string.
Proof.
  split; [reflexivity|].
  apply (proj2 (proj2 (escapeXml_is_safe "https://example.com/a"))). reflexivity.
Defined.

(** ** Texts that contain a given piece *)

Section Containment.
Import Js Regex.

(** *** Pieces of a joined text *)

(** The pieces, each followed by the separator. *)
Fixpoint lead (sep : string) (pieces : list string) : string :=
  match pieces with
  | [] => ""
  | p :: ps => (p ++ sep ++ lead sep ps)%string
  end.

(** What follows the first piece of a joined text. *)
Definition follow (sep : string) (pieces : list string) : string :=
  match pieces with
  | [] => ""
  | _ :: _ => (sep ++ join sep pieces)%string
  end.

Lemma join_follow (sep x : string) (l : list string) :
  join sep (x :: l) = (x ++ follow sep l)%string.
Proof. destruct l; [symmetry; apply append_empty | reflexivity]. Qed.

Lemma join_lead (sep : string) (A : list string) (x : string) (l : list string) :
  join sep (A ++ x :: l) = (lead sep A ++ join sep (x :: l))%string.
Proof.
  induction A as [|a A IH]; [reflexivity|].
  change ((a :: A) ++ x :: l)%list with (a :: (A ++ x :: l))%list.
  rewrite join_cons by (destruct A; discriminate).
  rewrite IH. cbn [lead]. rewrite !append_associative. reflexivity.
Qed.

(** *** Trimming a text whose end is known *)

(** The text ends with a character that is not white space. *)
Definition endsOk (U : string) : Prop :=
  exists U0 z, U = (U0 ++ String z "")%string /\ isWhiteSpace z = false.

Lemma trimEnd_append (U V : string) :
  endsOk U -> trimEnd (U ++ V) = (U ++ trimEnd V)%string.
Proof.
  intros (U0 & z & -> & Hz). induction U0 as [|a U0 IH].
  - change (("" ++ String z "") ++ V)%string with (String z V).
    change (("" ++ String z "") ++ trimEnd V)%string with (String z (trimEnd V)).
    cbn [trimEnd]. rewrite Hz. destruct (trimEnd V); reflexivity.
  - change ((String a U0 ++ String z "") ++ V)%string
      with (String a ((U0 ++ String z "") ++ V)).
    change ((String a U0 ++ String z "") ++ trimEnd V)%string
      with (String a ((U0 ++ String z "") ++ trimEnd V)).
    cbn [trimEnd]. rewrite IH.
    destruct U0; reflexivity.
Qed.

Lemma endsOk_append (A U : string) : endsOk U -> endsOk (A ++ U).
Proof.
  intros (U0 & z & -> & Hz). exists (A ++ U0)%string, z.
  rewrite append_associative. auto.
Qed.

Lemma trimEnd_endsOk (t : string) : trimEnd t = t -> t <> ""%string -> endsOk t.
Proof.
  induction t as [|a t IH]; [congruence|]. intros H _. cbn [trimEnd] in H.
  destruct (trimEnd t) as [|b u] eqn:E.
  - destruct (isWhiteSpace a) eqn:Ha; [discriminate|].
    injection H as <-. exists ""%string, a. auto.
  - injection H as H. rewrite <- H in IH.
    destruct (IH eq_refl ltac:(discriminate)) as (U0 & z & Ez & Hz).
    exists (String a U0), z. rewrite <- H, Ez. auto.
Qed.

Lemma trimmed_shape (t : string) :
  trim t = t -> t <> ""%string ->
  endsOk t /\ exists x t', t = String x t' /\ isWhiteSpace x = false.
Proof.
  intros E Hne. split.
  - apply trimEnd_endsOk; [|exact Hne]. rewrite <- E at 1. unfold trim.
    rewrite trimEnd_fixed. exact E.
  - pose proof (trimEnd_head _ (trimStart_head t)) as Hh. fold (trim t) in Hh.
    rewrite E in Hh. destruct t as [|x t']; [congruence|].
    exists x, t'. split; [reflexivity|]. cbn [headOk] in Hh.
    destruct (isWhiteSpace x); [discriminate | reflexivity].
Qed.

(** *** A match at a known place *)

Fixpoint lastOf (before : option ascii) (P : string) : option ascii :=
  match P with
  | "" => before
  | String a P' => lastOf (Some a) P'
  end.

Lemma somewhere_at (r : regex) (P : string) :
  forall before S,
    (exists c', matches r (Cursor (lastOf before P) S []) c') ->
    somewhere r before (P ++ S).
Proof.
  induction P as [|a P IH]; intros before S H.
  - change ("" ++ S)%string with S. destruct S; left; exact H.
  - change (String a P ++ S)%string with (String a (P ++ S)). right. apply IH. exact H.
Qed.

Lemma lastOf_append (before : option ascii) (P : string) (z : ascii) :
  lastOf before (P ++ String z "") = Some z.
Proof.
  revert before. induction P as [|a P IH]; intros before; [reflexivity|].
  change (String a P ++ String z "")%string with (String a (P ++ String z "")).
  cbn [lastOf]. apply IH.
Qed.

(** *** Matches of runs and of texts *)

Lemma chars_matches (p : ascii -> bool) (hi : option nat) (mid : string) :
  hi = None ->
  forall c s', rest c = (mid ++ s')%string -> Url.every p mid = true ->
    exists c', iter (matches (Char p)) 0 hi c c' /\ rest c' = s'.
Proof.
  intros ->. induction mid as [|a mid IH]; intros c s' E Hmid.
  - exists c. split; [constructor | exact E].
  - cbn in Hmid. apply andb_true_iff in Hmid as [Ha Hmid].
    destruct (IH (Cursor (Some a) (mid ++ s') (caps c)) s' eq_refl Hmid) as (c' & H & E').
    exists c'. split; [|exact E'].
    apply (iter_more _ None c (Cursor (Some a) (mid ++ s') (caps c))); try reflexivity.
    + exists a, (mid ++ s')%string. auto.
    + unfold consumed. rewrite E.
      change (String a mid ++ s')%string with (String a (mid ++ s')).
      cbn [rest String.length]. lia.
    + exact H.
Qed.

Lemma one_char_matches (p : ascii -> bool) (a : ascii) (c : cursor) (s' : string) :
  rest c = String a s' -> p a = true ->
  exists c', iter (matches (Char p)) 1 None c c' /\ rest c' = s'.
Proof.
  intros E Ha. exists (Cursor (Some a) s' (caps c)). split; [|reflexivity].
  apply (iter_must _ 0 None c (Cursor (Some a) s' (caps c))); try reflexivity.
  - exists a, s'. auto.
  - constructor.
Qed.

Lemma every_any (s : string) : Url.every (fun _ => true) s = true.
Proof. induction s as [|a s IH]; [reflexivity|]. exact IH. Qed.

Lemma textCi_matches (t : string) :
  forall c s', rest c = (t ++ s')%string ->
    exists c', matches (textCi t) c c' /\ rest c' = s'.
Proof.
  induction t as [|a t IH]; intros c s' E; [exists c; split; [reflexivity | exact E]|].
  destruct t as [|b t].
  - exists (Cursor (Some a) s' (caps c)). split; [|reflexivity].
    cbn. exists a, s'. rewrite Ascii.eqb_refl. auto.
  - change (textCi (String a (String b t))) with (Cat (litCi a) (textCi (String b t))).
    destruct (IH (Cursor (Some a) (String b t ++ s') (caps c)) s' eq_refl) as (c' & H & E').
    exists c'. split; [|exact E']. cbn [matches litCi].
    exists (Cursor (Some a) (String b t ++ s') (caps c)). split; [|exact H].
    exists a, (String b t ++ s')%string. rewrite Ascii.eqb_refl. auto.
Qed.

End Containment.

(** ** The MDF of the extract route and the Structure Analyzer *)

Section RouteMdf.
Import Js Regex Analyzer.

(** The lines of the front matter before the source line, and the lines
    after the front matter. *)
Definition frontLines (content : ExtractMdf.StructuredContent) : list string :=
  (ExtractMdf.pushIf (ExtractMdf.title content)
     (fun t => ("title: " ++ ExtractMdf.quote ++ ExtractMdf.escape t ++ ExtractMdf.quote)%string)
   ++ ExtractMdf.pushIf (ExtractMdf.lastModified content) (fun m => ("lastmod: " ++ m)%string))%list.

Definition afterTitle (content : ExtractMdf.StructuredContent) : list string :=
  List.concat
    [ ExtractMdf.pushIf (ExtractMdf.description content) (fun d => (d ++ nl)%string);
      map (fun h => (ExtractMdf.hashes (ExtractMdf.level h) ++ " " ++ ExtractMdf.text h)%string)
        (ExtractMdf.headings content);
      map (fun p => (nl ++ p)%string) (ExtractMdf.paragraphs content);
      flat_map (fun list => ""%string :: map (fun item => ("- " ++ item)%string) list)
        (ExtractMdf.lists content);
      map (fun block =>
             (nl ++ ExtractMdf.fence
              ++ match ExtractMdf.language block with
                 | Some (String c s) => String c s
                 | _ => ""
                 end
              ++ nl ++ trim (ExtractMdf.code block) ++ nl ++ ExtractMdf.fence)%string)
        (ExtractMdf.codeBlocks content);
      match ExtractMdf.links content with
      | [] => []
      | _ :: _ =>
          (nl ++ "## Links")%string
          :: map (fun l => ("- [" ++ ExtractMdf.l_text l ++ "](" ++ ExtractMdf.href l ++ ")")%string)
               (ExtractMdf.links content)
      end ].

Definition bodyLines (content : ExtractMdf.StructuredContent) : list string :=
  (ExtractMdf.pushIf (ExtractMdf.title content) (fun t => ("# " ++ t ++ nl)%string)
   ++ afterTitle content)%list.

(** The front matter, up to its closing dashes. *)
Definition frontMatter (content : ExtractMdf.StructuredContent) : string :=
  ("---" ++ (nl ++ lead nl (frontLines content)) ++ "source: " ++ ExtractMdf.url content
   ++ nl ++ "---")%string.

Lemma formatAsMdf_shape (content : ExtractMdf.StructuredContent) :
  ExtractMdf.formatAsMdf content
  = (frontMatter content ++ trimEnd (nl ++ follow nl (bodyLines content)))%string.
Proof.
  unfold ExtractMdf.formatAsMdf. cbv zeta.
  match goal with
  | |- trim (join nl ?md) = _ =>
      assert (Hmd : md = (("---"%string :: frontLines content)
                          ++ ("source: " ++ ExtractMdf.url content)%string
                          :: ("---" ++ nl)%string :: bodyLines content)%list)
  end.
  { unfold frontLines, bodyLines, afterTitle. cbn [List.concat app].
    rewrite <- !app_assoc. reflexivity. }
  rewrite Hmd, join_lead, !join_follow. cbn [lead follow].
  rewrite join_follow. unfold trim.
  rewrite trimStart_fixed by reflexivity.
  rewrite <- trimEnd_append.
  - unfold frontMatter. rewrite !append_associative. reflexivity.
  - unfold frontMatter. rewrite <- !append_associative. apply endsOk_append.
    exists "--"%string, "-"%char. auto.
Qed.

(** A text that opens and closes with three dashes has front matter. *)
Lemma frontmatter_found (mid after : string) :
  test frontmatterBlock ("---" ++ mid ++ "---" ++ after) = true.
Proof.
  apply test_found. apply (somewhere_at frontmatterBlock "" None). cbn [lastOf].
  unfold frontmatterBlock. cbn [cat matches].
  set (c0 := Cursor None ("---" ++ mid ++ "---" ++ after) []).
  destruct (text_matches "---" c0 _ eq_refl) as (c1 & H1 & E1).
  destruct (chars_matches (fun _ => true) None mid eq_refl c1 _ E1 (every_any mid))
    as (c2 & H2 & E2).
  destruct (text_matches "---" c2 _ E2) as (c3 & H3 & _).
  exists c3, c0. split; [split; reflexivity|]. exists c1. split; [exact H1|].
  exists c2. split; [exact H2 | exact H3].
Qed.

(** A text that begins with the protocol, in lower case. *)
Lemma lower_protocol (url : string) :
  protocolPrefix url = true ->
  exists r, toLowerCase url = ("http://" ++ r)%string
            \/ toLowerCase url = ("https://" ++ r)%string.
Proof.
  destruct url as [|c1 [|c2 [|c3 [|c4 r]]]]; try discriminate. cbn [protocolPrefix].
  rewrite !andb_true_iff. intros [[[[H1 H2] H3] H4] H5].
  apply fold_h in H1. apply fold_t in H2. apply fold_t in H3. apply fold_p in H4.
  apply orb_true_iff in H5 as [H5 | H5].
  - destruct r as [|c5 r]; [discriminate|]. apply andb_true_iff in H5 as [H5 H6].
    apply fold_s in H5. apply startsWith_spec in H6 as [t ->].
    exists (toLowerCase t). right.
    destruct H1 as [-> | ->], H2 as [-> | ->], H3 as [-> | ->], H4 as [-> | ->],
      H5 as [-> | ->];
      match goal with
      | |- toLowerCase (String ?a (String ?b (String ?c (String ?d (String ?e (_ ++ t))))))
           = _ =>
          change (toLowerCase
                    (String a (String b (String c (String d (String e "://")))) ++ t)
                  = ("https://" ++ toLowerCase t)%string)
      end; rewrite toLowerCase_append; reflexivity.
  - apply startsWith_spec in H5 as [t ->].
    exists (toLowerCase t). left.
    destruct H1 as [-> | ->], H2 as [-> | ->], H3 as [-> | ->], H4 as [-> | ->];
      match goal with
      | |- toLowerCase (String ?a (String ?b (String ?c (String ?d (_ ++ t))))) = _ =>
          change (toLowerCase (String a (String b (String c (String d "://"))) ++ t)
                  = ("http://" ++ toLowerCase t)%string)
      end; rewrite toLowerCase_append; reflexivity.
Qed.

(** A source line with an http(s) address is found in the lower-cased text. *)
Lemma source_found (P url Q : string) :
  protocolPrefix url = true ->
  test sourceLine (toLowerCase (P ++ "source: " ++ url ++ Q)) = true.
Proof.
  intros Hurl. rewrite !toLowerCase_append.
  change (toLowerCase "source: ") with "source: "%string.
  apply test_found, somewhere_at.
  set (c0 := Cursor (lastOf None (toLowerCase P))
               ("source: " ++ toLowerCase url ++ toLowerCase Q) []).
  unfold sourceLine. cbn [cat matches].
  destruct (lower_protocol url Hurl) as (r & [E | E]).
  - destruct (textCi_matches "source:" c0 (" http://" ++ r ++ toLowerCase Q))
      as (c1 & H1 & E1).
    { unfold c0. cbn [rest]. rewrite E, !append_associative. reflexivity. }
    destruct (chars_matches isWhiteSpace None " " eq_refl c1
                ("http" ++ "://" ++ r ++ toLowerCase Q) E1 eq_refl) as (c2 & H2 & E2).
    destruct (textCi_matches "http" c2 _ E2) as (c3 & H3 & E3).
    destruct (text_matches "://" c3 _ E3) as (c4 & H4 & _).
    exists c4, c1. split; [exact H1|]. exists c2. split; [exact H2|].
    exists c3. split; [exact H3|]. exists c3. split; [constructor | exact H4].
  - destruct (textCi_matches "source:" c0 (" https://" ++ r ++ toLowerCase Q))
      as (c1 & H1 & E1).
    { unfold c0. cbn [rest]. rewrite E, !append_associative. reflexivity. }
    destruct (chars_matches isWhiteSpace None " " eq_refl c1
                ("http" ++ "s" ++ "://" ++ r ++ toLowerCase Q) E1 eq_refl) as (c2 & H2 & E2).
    destruct (textCi_matches "http" c2 _ E2) as (c3 & H3 & E3).
    destruct (text_matches "://" (Cursor (Some "s"%char) ("://" ++ r ++ toLowerCase Q) (caps c3))
                _ eq_refl) as (c5 & H5 & _).
    exists c5, c1. split; [exact H1|]. exists c2. split; [exact H2|].
    exists c3. split; [exact H3|].
    exists (Cursor (Some "s"%char) ("://" ++ r ++ toLowerCase Q) (caps c3)).
    split; [|exact H5].
    apply (iter_more _ (Some 1) c3
             (Cursor (Some "s"%char) ("://" ++ r ++ toLowerCase Q) (caps c3)));
      [reflexivity | | | constructor].
    + cbn [matches litCi]. exists "s"%char, ("://" ++ r ++ toLowerCase Q)%string. auto.
    + unfold consumed. rewrite E3. cbn [rest].
      change ("s" ++ "://" ++ r ++ toLowerCase Q)%string
        with (String "s" ("://" ++ r ++ toLowerCase Q)).
      cbn [String.length]. lia.
Qed.

(** A title line at the start of a line is found. *)
Lemma title_found (P : string) (x : ascii) (t' Q : string) :
  isWhiteSpace x = false ->
  test h1Line ((P ++ nl) ++ "# " ++ String x t' ++ Q) = true.
Proof.
  intros Hx. apply test_found, somewhere_at. unfold nl. rewrite lastOf_append.
  unfold h1Line. cbn [cat matches].
  set (c0 := Cursor (Some LF) ("# " ++ String x t' ++ Q) []).
  exists (Cursor (Some x) (t' ++ Q) []), c0. split; [split; reflexivity|].
  exists (Cursor (Some "#"%char) (" " ++ String x t' ++ Q) []). split.
  { cbn [lit matches]. exists "#"%char, (" " ++ String x t' ++ Q)%string. auto. }
  exists (Cursor (Some " "%char) (String x t' ++ Q) []). split.
  { apply (iter_must _ 0 None _ (Cursor (Some " "%char) (String x t' ++ Q) []));
      [reflexivity | | constructor].
    cbn [matches space]. exists " "%char, (String x t' ++ Q)%string. auto. }
  apply (iter_must _ 0 None _ (Cursor (Some x) (t' ++ Q) []));
    [reflexivity | | constructor].
  cbn [matches dot]. exists x, (t' ++ Q)%string. split; [reflexivity|].
  split; [|reflexivity].
  destruct x as [[] [] [] [] [] [] [] []]; vm_compute in Hx; try discriminate Hx;
    reflexivity.
Qed.

Lemma formatAsMdf_titled (content : ExtractMdf.StructuredContent) (t : string) :
  ExtractMdf.title content = Some t -> t <> ""%string -> trim t = t ->
  exists x t' Q,
    isWhiteSpace x = false
    /\ ExtractMdf.formatAsMdf content
       = (((frontMatter content ++ nl) ++ nl) ++ "# " ++ String x t' ++ Q)%string.
Proof.
  intros Ht Hne Htrim. rewrite formatAsMdf_shape.
  destruct (trimmed_shape t Htrim Hne) as (Hend & x & t' & -> & Hx).
  exists x, t', (trimEnd (nl ++ follow nl (afterTitle content))). split; [exact Hx|].
  unfold bodyLines. rewrite Ht. cbn [ExtractMdf.pushIf app follow].
  rewrite join_follow.
  replace (nl ++ nl ++ ("# " ++ String x t' ++ nl) ++ follow nl (afterTitle content))%string
    with ((nl ++ nl ++ "# " ++ String x t') ++ nl ++ follow nl (afterTitle content))%string
    by (rewrite !append_associative; reflexivity).
  rewrite trimEnd_append by (do 3 apply endsOk_append; exact Hend).
  rewrite !append_associative. reflexivity.
Qed.

End RouteMdf.

(** What the extract route returns is recognised by the Structure
    Analyzer.  The document starts with three dashes and has front matter,
    so its analysis never warns about a missing source; when the page
    address starts with [http://] or [https://] the source line counts as its
    URL; and when the page has a title (trimmed, as the extraction leaves
    it), the analysis finds the main title and reports no error about it. *)
Theorem extract_route_mdf_is_recognised (content : ExtractMdf.StructuredContent) :
  let mdf := ExtractMdf.formatAsMdf content in
  let analysis := Analyzer.analyzeMarkdownStructure mdf in
  Js.startsWith mdf "---" = true
  /\ Analyzer.hasFrontmatter (Analyzer.sections analysis) = true
  /\ List.Forall (fun w => Analyzer.section w <> "URL"%string) (Analyzer.warnings analysis)
  /\ (Regex.test Crawl.protocolPattern (ExtractMdf.url content) = true ->
      Analyzer.hasUrl (Analyzer.sections analysis) = true)
  /\ (forall t,
        ExtractMdf.title content = Some t -> t <> ""%string -> Js.trim t = t ->
        Analyzer.hasTitle (Analyzer.sections analysis) = true
        /\ List.Forall (fun w => Analyzer.section w <> "Title"%string)
             (Analyzer.warnings analysis)).
Proof.
  cbv zeta. unfold Analyzer.analyzeMarkdownStructure.
  cbn [Analyzer.sections Analyzer.warnings].
  assert (Hfront : Analyzer.hasFrontmatter
                     (Analyzer.extractSections (ExtractMdf.formatAsMdf content)) = true).
  { unfold Analyzer.extractSections. cbn [Analyzer.hasFrontmatter].
    rewrite formatAsMdf_shape. unfold frontMatter.
    replace (("---" ++ (Js.nl ++ lead Js.nl (frontLines content)) ++ "source: "
              ++ ExtractMdf.url content ++ Js.nl ++ "---")
             ++ Js.trimEnd (Js.nl ++ follow Js.nl (bodyLines content)))%string
      with ("---" ++ ((Js.nl ++ lead Js.nl (frontLines content)) ++ "source: "
                      ++ ExtractMdf.url content ++ Js.nl)
            ++ "---" ++ Js.trimEnd (Js.nl ++ follow Js.nl (bodyLines content)))%string
      by (rewrite !append_associative; reflexivity).
    apply frontmatter_found. }
  split; [rewrite formatAsMdf_shape; reflexivity|]. split; [exact Hfront|]. split; [|split].
  - unfold Analyzer.validateStructure. cbv zeta.
    repeat (apply List.Forall_app; split);
      apply Forall_when; cbn [Analyzer.section]; intros H; try discriminate.
    rewrite Hfront, andb_false_r in H. discriminate H.
  - rewrite test_protocolPattern. intros Hurl.
    unfold Analyzer.extractSections. cbn [Analyzer.hasUrl].
    rewrite formatAsMdf_shape. unfold frontMatter.
    replace (("---" ++ (Js.nl ++ lead Js.nl (frontLines content)) ++ "source: "
              ++ ExtractMdf.url content ++ Js.nl ++ "---")
             ++ Js.trimEnd (Js.nl ++ follow Js.nl (bodyLines content)))%string
      with (("---" ++ Js.nl ++ lead Js.nl (frontLines content)) ++ "source: "
            ++ ExtractMdf.url content
            ++ (Js.nl ++ "---" ++ Js.trimEnd (Js.nl ++ follow Js.nl (bodyLines content))))%string
      by (rewrite !append_associative; reflexivity).
    rewrite source_found by exact Hurl. apply orb_true_r.
  - intros t Ht Hne Htrim.
    destruct (formatAsMdf_titled content t Ht Hne Htrim) as (x & t' & Q & Hx & E).
    assert (Htitle : Analyzer.hasTitle
                       (Analyzer.extractSections (ExtractMdf.formatAsMdf content)) = true).
    { unfold Analyzer.extractSections. cbn [Analyzer.hasTitle]. rewrite E.
      apply title_found, Hx. }
    split; [exact Htitle|].
    unfold Analyzer.validateStructure. cbv zeta.
    repeat (apply List.Forall_app; split);
      apply Forall_when; cbn [Analyzer.section]; intros H; try discriminate.
    rewrite Htitle in H. discriminate H.
Qed.

(** A page with a title, one paragraph and an https address. *)
Definition samplePage : ExtractMdf.StructuredContent :=
  {| ExtractMdf.url := "https://example.com/a";
     ExtractMdf.title := Some "A page"%string;
     ExtractMdf.description := None;
     ExtractMdf.headings := [];
     ExtractMdf.paragraphs := ["Some text."%string];
     ExtractMdf.lists := [];
     ExtractMdf.codeBlocks := [];
     ExtractMdf.links := [];
     ExtractMdf.lastModified := None |}.

Lemma extract_route_mdf_is_recognised_witness :
  let analysis := Analyzer.analyzeMarkdownStructure (ExtractMdf.formatAsMdf samplePage) in
  Analyzer.hasUrl (Analyzer.sections analysis) = true
  /\ Analyzer.hasTitle (Analyzer.sections analysis) = true
  /\ List.Forall (fun w => Analyzer.section w <> "Title"%string)
       (Analyzer.warnings analysis).
Proof.
  cbv zeta.
  destruct (extract_route_mdf_is_recognised samplePage) as (_ & _ & _ & Hurl & Htitle).
  split; [apply Hurl; vm_compute; reflexivity|].
  apply (Htitle "A page"%string); [reflexivity | discriminate | reflexivity].
Defined.

(** ** Regular expressions: replacing long runs *)

Section Shrink.
Import Js Regex.
Variable p : ascii -> bool.
Variable lo : nat.
Variable repl : string.
Hypothesis lo_positive : 1 <= lo.

(** A global replace of [p{lo,}] by [repl], read left to right: [skip]
    tells whether the characters of [p] at hand belong to a run that was
    replaced. *)
Fixpoint shrink (skip : bool) (s : string) : string :=
  match s with
  | "" => ""
  | String a s' =>
      if p a then
        if skip then shrink true s'
        else if (lo <=? runLen p (String a s'))%nat then (repl ++ shrink true s')%string
        else String a (shrink false s')
      else String a (shrink false s')
  end.

Lemma replaceFrom_shrink (s : string) :
  (forall before,
      replaceFrom (Repeat true lo None (Char p)) (fun _ => repl) before s 0 = shrink false s)
  /\ (forall before k, runLen p s = k ->
        replaceFrom (Repeat true lo None (Char p)) (fun _ => repl) before s k
        = shrink true s).
Proof.
  induction s as [|a s [IHL IHS]].
  - split; intros; rewrite replaceFrom_nil by lia; reflexivity.
  - assert (L : forall before,
               replaceFrom (Repeat true lo None (Char p)) (fun _ => repl) before
                 (String a s) 0 = shrink false (String a s)).
    { intros before. cbn [replaceFrom].
      destruct (matchAt_run p lo before (String a s)) as [last E]. rewrite E.
      destruct (length_dropRun p (String a s)) as [Hlen _].
      cbn [shrink]. destruct (Nat.leb_spec lo (runLen p (String a s))) as [Hlong | Hshort].
      - cbn [rest caps]. rewrite Hlen.
        cbn [runLen] in *. destruct (p a) eqn:Hp; [|lia].
        rewrite (IHS (Some a) (runLen p s) eq_refl). reflexivity.
      - rewrite IHL. destruct (p a); reflexivity. }
    split; [exact L|]. intros before k Hk. cbn [runLen] in Hk.
    destruct k as [|k].
    + rewrite L. cbn [shrink]. destruct (p a); [discriminate | reflexivity].
    + cbn [replaceFrom shrink]. destruct (p a); [|discriminate].
      apply IHS. lia.
Qed.

Lemma runLen_fresh (P : string) (x : ascii) (X : string) :
  p x = false -> runLen p (P ++ String x X) = runLen p P.
Proof.
  intros Hx. induction P as [|a P IH].
  - change ("" ++ String x X)%string with (String x X). cbn [runLen]. rewrite Hx. reflexivity.
  - change (String a P ++ String x X)%string with (String a (P ++ String x X)).
    cbn [runLen]. rewrite IH. reflexivity.
Qed.

(** What precedes a character outside [p] is replaced on its own. *)
Lemma shrink_fresh (P : string) (x : ascii) (X : string) :
  p x = false ->
  forall b, shrink b (P ++ String x X) = (shrink b P ++ shrink false (String x X))%string.
Proof.
  intros Hx. induction P as [|a P IH]; intros b.
  - change ("" ++ String x X)%string with (String x X). cbn [shrink]. rewrite Hx.
    reflexivity.
  - change (String a P ++ String x X)%string with (String a (P ++ String x X)).
    cbn [shrink]. fold (runLen p (String a (P ++ String x X))).
    change (runLen p (String a (P ++ String x X)))
      with (runLen p (String a P ++ String x X)).
    rewrite (runLen_fresh (String a P) x X Hx), !IH.
    destruct (p a); [|reflexivity]. destruct b; [reflexivity|].
    destruct (lo <=? runLen p (String a P))%nat; [|reflexivity].
    rewrite append_associative. reflexivity.
Qed.

(** A text without characters of [p] is kept. *)
Lemma shrink_plain (M Q : string) :
  Url.every (fun c => negb (p c)) M = true ->
  shrink false (M ++ Q) = (M ++ shrink false Q)%string.
Proof.
  induction M as [|m M IH]; [reflexivity|]. cbn [Url.every]. intros H.
  apply andb_true_iff in H as [Hm H].
  change (String m M ++ Q)%string with (String m (M ++ Q)). cbn [shrink].
  destruct (p m); [discriminate|]. rewrite IH by exact H. reflexivity.
Qed.

Lemma runLen_stop (U0 : string) (z : ascii) (V : string) :
  p z = false -> runLen p ((U0 ++ String z "") ++ V) = runLen p (U0 ++ String z "").
Proof.
  intros Hz. rewrite append_associative.
  change (String z "" ++ V)%string with (String z V). rewrite !runLen_fresh by exact Hz.
  reflexivity.
Qed.

(** One more character after a character outside [p] makes no long run. *)
Lemma noLongRun_one_more (U0 : string) (z q : ascii) :
  2 <= lo -> p z = false ->
  noLongRun p lo (U0 ++ String z "") = true ->
  noLongRun p lo ((U0 ++ String z "") ++ String q "") = true.
Proof.
  intros Hlo Hz. induction U0 as [|a U0 IH].
  - intros _. change (("" ++ String z "") ++ String q "")%string with (String z (String q "")).
    cbn [noLongRun runLen]. rewrite Hz. clear lo_positive. destruct (p q);
      repeat (apply andb_true_iff; split); try reflexivity; apply Nat.ltb_lt; lia.
  - intros H. pose proof (runLen_stop (String a U0) z (String q "") Hz) as Hrun.
    change ((String a U0 ++ String z "") ++ String q "")%string
      with (String a ((U0 ++ String z "") ++ String q "")) in *.
    change (String a U0 ++ String z "")%string with (String a (U0 ++ String z "")) in *.
    cbn [noLongRun] in *. apply andb_true_iff in H as [Hr Hn].
    rewrite Hrun, Hr, (IH Hn). reflexivity.
Qed.

End Shrink.

(** ** The MDF of the library and the Structure Analyzer *)

Section LibraryMdf.
Import Js Regex Analyzer.

Definition notLF (c : ascii) : bool := negb (Ascii.eqb LF c).

(** [s.replace(/\n{3,}/g, "\n\n")] *)
Definition collapse (s : string) : string :=
  replaceAll ExtractorText.blankLines (fun _ => (nl ++ nl)%string) s.

Lemma collapse_shrink (s : string) :
  collapse s = shrink (Ascii.eqb LF) 3 (nl ++ nl) false s.
Proof.
  unfold collapse, replaceAll, ExtractorText.blankLines, atLeast, lit.
  apply replaceFrom_shrink. lia.
Qed.

(** A heading line of the MDF skeleton: it starts with [#], holds no line
    break and does not end with white space. *)
Definition marker (M : string) : Prop :=
  (exists M', M = String "#" M') /\ Url.every notLF M = true /\ endsOk M.

(** A marker line survives the formatting, and the text still begins with
    [# ]. *)
Lemma marker_kept (title : string) (before : list string) (M : string)
    (after : list string) :
  marker M ->
  exists Z Q,
    trim (collapse (join nl ((("# " ++ title)%string :: before) ++ M :: after)))
    = ("# " ++ Z ++ M ++ Q)%string.
Proof.
  intros ((M' & EM) & Hplain & Hend).
  rewrite join_lead, join_follow. cbn [lead].
  set (P := (title ++ nl ++ lead nl before)%string).
  set (F := follow nl after).
  replace ((("# " ++ title) ++ nl ++ lead nl before) ++ M ++ F)%string
    with ("# " ++ (P ++ M ++ F))%string
    by (unfold P; rewrite !append_associative; reflexivity).
  rewrite collapse_shrink.
  rewrite (shrink_plain (Ascii.eqb LF) 3 (nl ++ nl) "# ") by reflexivity.
  assert (E : (M ++ F)%string = String "#" (M' ++ F)) by (rewrite EM; reflexivity).
  rewrite E, (shrink_fresh (Ascii.eqb LF) 3 (nl ++ nl) P "#" (M' ++ F) eq_refl), <- E.
  rewrite (shrink_plain (Ascii.eqb LF) 3 (nl ++ nl) M) by exact Hplain.
  set (Z := shrink (Ascii.eqb LF) 3 (nl ++ nl) false P).
  set (Q := shrink (Ascii.eqb LF) 3 (nl ++ nl) false F).
  exists Z, (trimEnd Q). unfold trim. rewrite trimStart_fixed by reflexivity.
  replace ("# " ++ Z ++ M ++ Q)%string with (("# " ++ Z ++ M) ++ Q)%string
    by (rewrite !append_associative; reflexivity).
  rewrite trimEnd_append by (do 2 apply endsOk_append; exact Hend).
  rewrite !append_associative. reflexivity.
Qed.

(** A section heading is found in the lower-cased text. *)
Lemma h2_found (name P Q : string) :
  test (h2Named name) (P ++ ("## " ++ name) ++ Q) = true.
Proof.
  apply test_found, somewhere_at. unfold h2Named. cbn [cat matches].
  set (c0 := Cursor (lastOf None P) (("## " ++ name) ++ Q) []).
  destruct (text_matches "##" c0 (" " ++ name ++ Q)) as (c1 & H1 & E1).
  { unfold c0. cbn [rest]. rewrite !append_associative. reflexivity. }
  destruct (chars_matches isWhiteSpace None " " eq_refl c1 (name ++ Q) E1 eq_refl)
    as (c2 & H2 & E2).
  destruct (textCi_matches name c2 Q E2) as (c3 & H3 & _).
  exists c3, c1. split; [exact H1|]. exists c2. split; [exact H2 | exact H3].
Qed.

(** The white space a text begins with, when the text is not all white
    space. *)
Lemma ws_split (Z : string) :
  (exists A x B, Z = (A ++ String x B)%string /\ isWhiteSpace x = false) ->
  exists W x Z',
    Z = (W ++ String x Z')%string /\ Url.every isWhiteSpace W = true
    /\ isWhiteSpace x = false.
Proof.
  induction Z as [|a Z IH]; intros (A & x & B & E & Hx).
  - destruct A; discriminate E.
  - destruct (isWhiteSpace a) eqn:Ha.
    + destruct A as [|a' A].
      * change ("" ++ String x B)%string with (String x B) in E. congruence.
      * change (String a' A ++ String x B)%string with (String a' (A ++ String x B)) in E.
        injection E as _ E.
        destruct (IH (ex_intro _ A (ex_intro _ x (ex_intro _ B (conj E Hx)))))
          as (W & y & Z' & EW & HW & Hy).
        exists (String a W), y, Z'. rewrite EW. cbn [Url.every]. rewrite Ha, HW. auto.
    + exists ""%string, a, Z. auto.
Qed.

Lemma white_not_terminator (x : ascii) :
  isWhiteSpace x = false -> negb (isLineTerminator x) = true.
Proof.
  intros Hx. destruct x as [[] [] [] [] [] [] [] []]; vm_compute in Hx;
    try discriminate Hx; reflexivity.
Qed.

(** A text that begins with [# ] and goes on with something other than
    white space has a main title. *)
Lemma titled (A : string) (x : ascii) (B : string) :
  isWhiteSpace x = false -> test h1Line ("# " ++ A ++ String x B) = true.
Proof.
  intros Hx.
  destruct (ws_split (A ++ String x B)) as (W & y & Z' & E & HW & Hy); [eauto|].
  rewrite E. apply test_found, (somewhere_at h1Line "" None). cbn [lastOf].
  unfold h1Line. cbn [cat matches].
  set (c0 := Cursor None ("# " ++ W ++ String y Z') []).
  set (c1 := Cursor (Some "#"%char) (" " ++ W ++ String y Z') []).
  set (c2 := Cursor (Some " "%char) (W ++ String y Z') []).
  destruct (chars_matches isWhiteSpace None W eq_refl c2 (String y Z') eq_refl HW)
    as (c3 & H3 & E3).
  exists (Cursor (Some y) Z' (caps c3)), c0. split; [split; reflexivity|].
  exists c1. split.
  { cbn [lit matches]. exists "#"%char, (" " ++ W ++ String y Z')%string. auto. }
  exists c3. split.
  { apply (iter_must _ 0 None c1 c2); [reflexivity | | exact H3].
    cbn [matches space]. exists " "%char, (W ++ String y Z')%string. auto. }
  apply (iter_must _ 0 None c3 (Cursor (Some y) Z' (caps c3))); [reflexivity | | constructor].
  cbn [matches dot]. exists y, Z'. split; [exact E3|].
  split; [apply white_not_terminator, Hy | reflexivity].
Qed.

Lemma marker_url : marker "## URL".
Proof.
  split; [eexists; reflexivity|]. split; [reflexivity|].
  exists "## UR"%string, "L"%char. auto.
Qed.

Lemma marker_content : marker "## Content".
Proof.
  split; [eexists; reflexivity|]. split; [reflexivity|].
  exists "## Conten"%string, "t"%char. auto.
Qed.

Lemma marker_metadata : marker "## Metadata".
Proof.
  split; [eexists; reflexivity|]. split; [reflexivity|].
  exists "## Metadat"%string, "a"%char. auto.
Qed.

(** The three section headings in the formatted text. *)
Lemma formatAsMdf_markers (result : ExtractorText.ExtractionResult) :
  (exists Z Q, ExtractorText.formatAsMdf result = ("# " ++ Z ++ "## URL" ++ Q)%string)
  /\ (exists Z Q, ExtractorText.formatAsMdf result = ("# " ++ Z ++ "## Content" ++ Q)%string)
  /\ (exists Z Q, ExtractorText.formatAsMdf result = ("# " ++ Z ++ "## Metadata" ++ Q)%string).
Proof.
  unfold ExtractorText.formatAsMdf. cbv zeta. fold (collapse).
  match goal with
  | |- context [join nl (?first :: ?l)] => set (lines := first :: l)
  end.
  split; [|split].
  - destruct (marker_kept (ExtractorText.title result) (firstn 1 (List.tl lines)) "## URL"
                (skipn 3 lines) marker_url) as (Z & Q & E).
    exists Z, (Q ++ nl)%string. unfold collapse in *. change (join nl lines) with
      (join nl ((("# " ++ ExtractorText.title result)%string :: firstn 1 (List.tl lines))
                ++ "## URL"%string :: skipn 3 lines)).
    rewrite E, !append_associative. reflexivity.
  - destruct (marker_kept (ExtractorText.title result) (firstn 7 (List.tl lines))
                "## Content" (skipn 9 lines) marker_content) as (Z & Q & E).
    exists Z, (Q ++ nl)%string. unfold collapse in *. change (join nl lines) with
      (join nl ((("# " ++ ExtractorText.title result)%string :: firstn 7 (List.tl lines))
                ++ "## Content"%string :: skipn 9 lines)).
    rewrite E, !append_associative. reflexivity.
  - destruct (marker_kept (ExtractorText.title result) (firstn 10 (List.tl lines))
                "## Metadata" (skipn 12 lines) marker_metadata) as (Z & Q & E).
    exists Z, (Q ++ nl)%string. unfold collapse in *. change (join nl lines) with
      (join nl ((("# " ++ ExtractorText.title result)%string :: firstn 10 (List.tl lines))
                ++ "## Metadata"%string :: skipn 12 lines)).
    rewrite E, !append_associative. reflexivity.
Qed.

Lemma formatAsMdf_trimmed (result : ExtractorText.ExtractionResult) :
  exists T,
    ExtractorText.formatAsMdf result = (T ++ nl)%string
    /\ trim T = T /\ T <> ""%string /\ noLongRun (Ascii.eqb LF) 3 T = true.
Proof.
  unfold ExtractorText.formatAsMdf. cbv zeta.
  match goal with
  | |- context [join nl (?first :: ?l)] => set (lines := first :: l)
  end.
  exists (trim (replaceAll ExtractorText.blankLines (fun _ => (nl ++ nl)%string)
                  (join nl lines))).
  split; [reflexivity|]. split; [apply trim_fixed|]. split.
  - destruct (marker_kept (ExtractorText.title result) (firstn 1 (List.tl lines)) "## URL"
                (skipn 3 lines) marker_url) as (Z & Q & E).
    unfold collapse in E. change (join nl lines) with
      (join nl ((("# " ++ ExtractorText.title result)%string :: firstn 1 (List.tl lines))
                ++ "## URL"%string :: skipn 3 lines)).
    rewrite E. discriminate.
  - apply noLongRun_trim.
    change (replaceAll ExtractorText.blankLines (fun _ => (nl ++ nl)%string) (join nl lines))
      with (Sanitizer.collapseBlankLines (join nl lines)).
    apply collapseBlankLines_noLongRun.
Qed.

Lemma startsWith_prefix (prefix s : string) : startsWith (prefix ++ s) prefix = true.
Proof.
  induction prefix as [|a prefix IH]; [apply startsWith_nil|].
  change (String a prefix ++ s)%string with (String a (prefix ++ s)). cbn [startsWith].
  rewrite Ascii.eqb_refl, IH. reflexivity.
Qed.

Lemma white_LF (z : ascii) : isWhiteSpace z = false -> Ascii.eqb LF z = false.
Proof.
  intros Hz. destruct (Ascii.eqb_spec LF z) as [<- | _]; [discriminate Hz | reflexivity].
Qed.

End LibraryMdf.

(** The form of a library MDF document: it begins with [# ], it ends with
    exactly one line break (what precedes it is trimmed and not empty), and
    it holds no three line breaks in a row. *)
Theorem library_mdf_form (result : ExtractorText.ExtractionResult) :
  let mdf := ExtractorText.formatAsMdf result in
  Js.startsWith mdf "# " = true
  /\ (exists T, mdf = (T ++ Js.nl)%string /\ Js.trim T = T /\ T <> ""%string)
  /\ Regex.noLongRun (Ascii.eqb Js.LF) 3 mdf = true.
Proof.
  cbv zeta. split; [|split].
  - destruct (formatAsMdf_markers result) as ((Z & Q & ->) & _). apply startsWith_prefix.
  - destruct (formatAsMdf_trimmed result) as (T & E & Ht & Hne & _). eauto.
  - destruct (formatAsMdf_trimmed result) as (T & -> & Ht & Hne & Hn).
    assert (Hend : endsOk T).
    { apply trimEnd_endsOk; [|exact Hne]. rewrite <- Ht at 1. unfold Js.trim.
      rewrite trimEnd_fixed. exact Ht. }
    destruct Hend as (U0 & z & -> & Hz).
    apply (noLongRun_one_more (Ascii.eqb Js.LF) 3 U0 z Js.LF ltac:(lia)
             (white_LF z Hz) Hn).
Qed.

(** A library MDF document is complete for the Structure Analyzer: its
    analysis finds the title and the URL, content and metadata sections and
    at least one heading, so every warning it gives is about the content,
    and none is an error. *)
Theorem library_mdf_is_complete (result : ExtractorText.ExtractionResult) :
  let analysis := Analyzer.analyzeMarkdownStructure (ExtractorText.formatAsMdf result) in
  Analyzer.hasTitle (Analyzer.sections analysis) = true
  /\ Analyzer.hasUrl (Analyzer.sections analysis) = true
  /\ Analyzer.hasContent (Analyzer.sections analysis) = true
  /\ Analyzer.hasMetadata (Analyzer.sections analysis) = true
  /\ 0 < Analyzer.headingCount (Analyzer.metrics analysis)
  /\ List.Forall (fun w => Analyzer.section w = "Content"%string
                           /\ Analyzer.severity w <> Analyzer.error)
       (Analyzer.warnings analysis).
Proof.
  cbv zeta. unfold Analyzer.analyzeMarkdownStructure.
  cbn [Analyzer.sections Analyzer.warnings Analyzer.metrics].
  set (mdf := ExtractorText.formatAsMdf result).
  destruct (formatAsMdf_markers result) as ((Z1 & Q1 & E1) & (Z2 & Q2 & E2) & (Z3 & Q3 & E3)).
  fold mdf in E1, E2, E3.
  assert (Htitle : Analyzer.hasTitle (Analyzer.extractSections mdf) = true).
  { unfold Analyzer.extractSections. cbn [Analyzer.hasTitle]. rewrite E1.
    apply (titled Z1 "#" ("# URL" ++ Q1)). reflexivity. }
  assert (Hurl : Analyzer.hasUrl (Analyzer.extractSections mdf) = true).
  { unfold Analyzer.extractSections. cbn [Analyzer.hasUrl]. rewrite E1.
    replace ("# " ++ Z1 ++ "## URL" ++ Q1)%string with (("# " ++ Z1) ++ "## URL" ++ Q1)%string
      by (rewrite !append_associative; reflexivity).
    rewrite !toLowerCase_append.
    change (Js.toLowerCase "## URL") with ("## " ++ "url")%string.
    rewrite h2_found. reflexivity. }
  assert (Hcontent : Analyzer.hasContent (Analyzer.extractSections mdf) = true).
  { unfold Analyzer.extractSections. cbn [Analyzer.hasContent]. rewrite E2 at 1.
    replace ("# " ++ Z2 ++ "## Content" ++ Q2)%string
      with (("# " ++ Z2) ++ "## Content" ++ Q2)%string
      by (rewrite !append_associative; reflexivity).
    rewrite !toLowerCase_append.
    change (Js.toLowerCase "## Content") with ("## " ++ "content")%string.
    rewrite h2_found. reflexivity. }
  assert (Hmeta : Analyzer.hasMetadata (Analyzer.extractSections mdf) = true).
  { unfold Analyzer.extractSections. cbn [Analyzer.hasMetadata]. rewrite E3.
    replace ("# " ++ Z3 ++ "## Metadata" ++ Q3)%string
      with (("# " ++ Z3) ++ "## Metadata" ++ Q3)%string
      by (rewrite !append_associative; reflexivity).
    rewrite !toLowerCase_append.
    change (Js.toLowerCase "## Metadata") with ("## " ++ "metadata")%string.
    rewrite h2_found. reflexivity. }
  pose proof (title_counts_as_heading mdf Htitle) as Hheads.
  assert (Hzero : (Analyzer.headingCount (Analyzer.calculateMetrics mdf) =? 0)%nat = false)
    by (apply Nat.eqb_neq; lia).
  repeat (split; [assumption|]).
  unfold Analyzer.validateStructure. cbv zeta.
  rewrite Htitle, Hurl, Hcontent, Hmeta, Hzero. cbn [negb andb].
  repeat (apply List.Forall_app; split);
    apply Forall_when; cbn [Analyzer.section Analyzer.severity]; intros H;
    try discriminate H; (split; [reflexivity | discriminate]).
Qed.

(** ** Plain text and structured content of the JSON route *)

Section PlainText.
Import Js Regex Mirror.

Definition isMark (c : ascii) : bool := Url.oneOf "*_~#>-" c.
Definition plainSpace (c : ascii) : bool := negb (isWhiteSpace c) || Ascii.eqb c " ".

Lemma every_substAll (p q : ascii -> bool) (repl s : string) :
  Url.every q repl = true -> (forall c, p c = false -> q c = true) ->
  Url.every q (substAll p repl s) = true.
Proof.
  intros Hrepl Hq. induction s as [|a s IH]; [reflexivity|]. cbn [substAll].
  destruct (p a) eqn:Hp.
  - rewrite every_append, Hrepl, IH. reflexivity.
  - cbn [Url.every]. rewrite (Hq a Hp), IH. reflexivity.
Qed.

Lemma every_squash (p q : ascii -> bool) (sp : ascii) (s : string) :
  q sp = true -> Url.every q s = true ->
  forall b, Url.every q (squashFrom p sp b s) = true.
Proof.
  intros Hsp. induction s as [|a s IH]; [reflexivity|]. cbn [Url.every squashFrom].
  intros H b. apply andb_true_iff in H as [Ha H]. destruct (p a).
  - destruct b; [apply IH, H|]. cbn [Url.every]. rewrite Hsp, (IH H). reflexivity.
  - cbn [Url.every]. rewrite Ha, (IH H). reflexivity.
Qed.

(** What [stripMarkdown] computes after the three replacements that
    unwrap code and links. *)
Lemma stripMarkdown_steps (source : string) :
  exists unwrapped,
    stripMarkdown source
    = trim (squashFrom isWhiteSpace " " false (substAll isMark " " unwrapped)).
Proof.
  unfold stripMarkdown, marks, spaces, blank. cbv zeta.
  eexists. rewrite replaceAll_spaces, replaceAll_chars. reflexivity.
Qed.

(** Text without markdown marks, in which white space is single spaces. *)
Definition plainText (text : string) : Prop :=
  Url.every (fun c => negb (isMark c)) text = true
  /\ Url.every plainSpace text = true
  /\ noLongRun isWhiteSpace 2 text = true.

Lemma stripMarkdown_plainText (source : string) : plainText (stripMarkdown source).
Proof.
  destruct (stripMarkdown_steps source) as (unwrapped & ->). split; [|split].
  - apply every_trim, every_squash; [reflexivity|].
    apply every_substAll; [reflexivity|]. intros c Hc. rewrite Hc. reflexivity.
  - apply every_trim. apply (squash_chars isWhiteSpace " ").
  - apply noLongRun_trim, squash_short. reflexivity.
Qed.

Lemma every_consHead (q : ascii -> bool) (a : ascii) (pieces : list string) :
  q a = true -> List.Forall (fun piece => Url.every q piece = true) pieces ->
  List.Forall (fun piece => Url.every q piece = true) (consHead a pieces).
Proof.
  intros Ha H. destruct H as [|piece pieces Hp Hrest]; constructor; auto.
  - cbn [Url.every]. rewrite Ha. reflexivity.
  - cbn [Url.every]. rewrite Ha, Hp. reflexivity.
Qed.

(** The pieces of a split hold characters of the text only. *)
Lemma every_splitBehind (p q : ascii -> bool) (r : regex) (s : string) :
  Url.every q s = true ->
  forall before skip,
    List.Forall (fun piece => Url.every q piece = true) (splitBehind p r before s skip).
Proof.
  induction s as [|a s IH]; intros H before skip.
  - repeat constructor.
  - cbn [Url.every] in H. apply andb_true_iff in H as [Ha H]. cbn [splitBehind].
    destruct skip as [|skip]; [|apply IH, H].
    destruct (if match before with Some b => p b | None => false end
              then matchAt r before (String a s) else None) as [c|].
    + destruct (String.length (String a s) - String.length (rest c)).
      * apply every_consHead; [exact Ha | apply IH, H].
      * constructor; [reflexivity | apply IH, H].
    + apply every_consHead; [exact Ha | apply IH, H].
Qed.

(** A fact or sentence of the response: not empty, trimmed, without
    markdown marks, and with no white space but spaces. *)
Definition sentenceOk (f : string) : Prop :=
  f <> ""%string /\ trim f = f
  /\ Url.every (fun c => negb (isMark c)) f = true
  /\ Url.every plainSpace f = true.

Lemma splitSentences_ok (text : string) :
  Url.every (fun c => negb (isMark c)) text = true ->
  Url.every plainSpace text = true ->
  List.Forall sentenceOk (splitSentences text).
Proof.
  intros Hmarks Hspace. unfold splitSentences. apply List.Forall_forall. intros f Hf.
  apply filter_In in Hf as [Hin Hne]. apply in_map_iff in Hin as (piece & <- & Hin).
  pose proof (every_splitBehind (Url.oneOf ".!?") _ spaces text Hmarks None 0) as H1.
  pose proof (every_splitBehind (Url.oneOf ".!?") _ spaces text Hspace None 0) as H2.
  rewrite List.Forall_forall in H1, H2.
  unfold truthy in Hne. apply negb_true_iff, String.eqb_neq in Hne.
  split; [exact Hne|]. split; [apply trim_fixed|].
  split; apply every_trim; auto.
Qed.

(** A section with facts. *)
Definition sectionOk (e : Section) : Prop :=
  section e <> ""%string
  /\ 1 <= List.length (facts e) <= 5
  /\ List.Forall sentenceOk (facts e).

Lemma sectionOf_ok (index : nat) (block : string) (e : Section) :
  sectionOf index block = Some e -> sectionOk e.
Proof.
  unfold sectionOf. cbv zeta.
  destruct (negb (truthy (trim block))); [discriminate|].
  set (lines := Regex.split lineBreaks (trim block)).
  set (title := trim (Regex.replace headingMarks (fun _ => ""%string) (nth 0 lines ""%string))).
  set (body := stripMarkdown (join " " (List.tl lines))).
  destruct (firstn 5 (splitSentences body)) as [|f fs] eqn:Efacts; [discriminate|].
  intros [= <-]. unfold sectionOk. cbn [section facts]. split; [|split].
  - destruct (negb (truthy title)) eqn:Et.
    + destruct (index =? 0)%nat; discriminate.
    + unfold truthy in Et. rewrite negb_involutive in Et.
      apply String.eqb_neq in Et. exact Et.
  - rewrite <- Efacts. rewrite length_firstn. split; [|lia].
    destruct (splitSentences body); [discriminate Efacts | cbn; lia].
  - rewrite <- Efacts. apply Forall_take.
    destruct (stripMarkdown_plainText (join " " (List.tl lines))) as (Hm & Hs & _).
    apply splitSentences_ok; assumption.
Qed.

Lemma sectionsFrom_ok (blocks : list string) :
  forall index, List.Forall sectionOk (sectionsFrom index blocks).
Proof.
  induction blocks as [|block blocks IH]; intros index; cbn [sectionsFrom]; [constructor|].
  destruct (sectionOf index block) as [e|] eqn:E; [|apply IH].
  constructor; [eapply sectionOf_ok; exact E | apply IH].
Qed.

End PlainText.

(** [stripMarkdown] leaves plain text: the result holds none of the
    characters [* _ ~ # > -], its white space is single spaces (no line
    break, no tab, no two spaces in a row), and it is trimmed. *)
Theorem stripMarkdown_leaves_plain_text (source : string) :
  let text := Mirror.stripMarkdown source in
  Url.every (fun c => negb (Url.oneOf "*_~#>-" c)) text = true
  /\ Url.every (fun c => negb (Js.isWhiteSpace c) || Ascii.eqb c " ") text = true
  /\ Regex.noLongRun Js.isWhiteSpace 2 text = true
  /\ Js.trim text = text.
Proof.
  cbv zeta. destruct (stripMarkdown_plainText source) as (Hm & Hs & Hr).
  split; [exact Hm|]. split; [exact Hs|]. split; [exact Hr|].
  destruct (stripMarkdown_steps source) as (unwrapped & ->). apply trim_fixed.
Qed.

(** The structured content of the JSON response is never empty, and its
    sections are well formed: each has a name and between one and five
    facts, and each fact is a trimmed, non-empty sentence without markdown
    marks.  The only exception is the fallback for a page without any
    sentence: one section [Overview] without facts. *)
Theorem structured_content_is_well_formed (markdown : string) :
  let sentences := Mirror.splitSentences (Mirror.stripMarkdown markdown) in
  let structured := Mirror.buildStructuredContent markdown sentences in
  structured <> []
  /\ List.Forall
       (fun e =>
          Mirror.section e <> ""%string
          /\ List.length (Mirror.facts e) <= 5
          /\ List.Forall
               (fun f => f <> ""%string /\ Js.trim f = f
                         /\ Url.every (fun c => negb (Url.oneOf "*_~#>-" c)) f = true)
               (Mirror.facts e))
       structured
  /\ ((exists e, In e structured /\ Mirror.facts e = []) ->
      sentences = []
      /\ structured = [{| Mirror.section := "Overview"; Mirror.facts := [] |}]).
Proof.
  cbv zeta. unfold Mirror.buildStructuredContent. cbv zeta.
  pose proof (sectionsFrom_ok (Regex.split Mirror.sectionBreak markdown) 0) as Hsections.
  assert (Hsentences : List.Forall sentenceOk
                         (Mirror.splitSentences (Mirror.stripMarkdown markdown))).
  { destruct (stripMarkdown_plainText markdown) as (Hm & Hs & _).
    apply splitSentences_ok; assumption. }
  assert (Hweak : forall facts,
             List.Forall sentenceOk facts ->
             List.Forall
               (fun f => f <> ""%string /\ Js.trim f = f
                         /\ Url.every (fun c => negb (Url.oneOf "*_~#>-" c)) f = true)
               facts).
  { intros facts H. eapply List.Forall_impl; [|exact H].
    intros f (H1 & H2 & H3 & _). auto. }
  destruct (Mirror.sectionsFrom 0 (Regex.split Mirror.sectionBreak markdown))
    as [|e structured] eqn:E.
  - destruct (firstn 5 (Mirror.splitSentences (Mirror.stripMarkdown markdown)))
      as [|f fs] eqn:Ef.
    + split; [discriminate|]. split.
      * constructor; [|constructor]. cbn. split; [discriminate|]. split; [lia | constructor].
      * intros _. split; [|reflexivity].
        destruct (Mirror.splitSentences (Mirror.stripMarkdown markdown));
          [reflexivity | discriminate Ef].
    + split; [discriminate|]. split.
      * constructor; [|constructor]. cbn [Mirror.section Mirror.facts].
        split; [discriminate|]. rewrite <- Ef. split; [rewrite length_firstn; lia|].
        apply Hweak, Forall_take, Hsentences.
      * intros (e & [<- | []] & He). discriminate He.
  - split; [discriminate|]. split.
    + eapply List.Forall_impl; [|exact Hsections].
      intros s (Hname & Hlen & Hfacts). split; [exact Hname|]. split; [lia|].
      apply Hweak, Hfacts.
    + intros (s & Hin & Hs). rewrite List.Forall_forall in Hsections.
      destruct (Hsections s Hin) as (_ & Hlen & _). rewrite Hs in Hlen. cbn in Hlen. lia.
Qed.

Lemma structured_content_is_well_formed_witness :
  let sentences := Mirror.splitSentences (Mirror.stripMarkdown "") in
  let structured := Mirror.buildStructuredContent "" sentences in
  sentences = []
  /\ structured = [{| Mirror.section := "Overview"%string; Mirror.facts := [] |}].
Proof.
  cbv zeta.
  apply (proj2 (proj2 (structured_content_is_well_formed ""))).
  eexists. split; [left; reflexivity | reflexivity].
Defined.

(** ** What the matcher returns *)

Section RegexResults.
Import Js Regex.

Lemma orElse_Some (a b : option cursor) (x : cursor) :
  orElse a b = Some x -> a = Some x \/ b = Some x.
Proof. destruct a; cbn; auto. Qed.

Lemma iterate_sound (step : cursor -> Cont -> option cursor)
    (M : cursor -> cursor -> Prop) :
  (forall c k x, step c k = Some x -> exists m, M c m /\ k m = Some x) ->
  forall greedy budget lo hi c k x,
    iterate step greedy budget lo hi c k = Some x ->
    exists c', iter M lo hi c c' /\ k c' = Some x.
Proof.
  intros Hstep greedy budget.
  induction budget as [|budget IH]; intros lo hi c k x; cbn [iterate].
  - destruct lo; [|discriminate]. intros H. exists c. split; [constructor | exact H].
  - destruct lo as [|lo].
    + destruct (exhausted hi) eqn:Ex.
      * intros H. exists c. split; [constructor | exact H].
      * intros H.
        assert (Hor :
          step c (fun c' => if (consumed c c' =? 0)%nat then None
                            else iterate step greedy budget 0 (decr hi) c' k) = Some x
          \/ k c = Some x)
          by (destruct greedy; apply orElse_Some in H; tauto).
        destruct Hor as [Hagain | Hstop]; [|exists c; split; [constructor | exact Hstop]].
        apply Hstep in Hagain as (m & Hm & Hk).
        destruct (Nat.eqb_spec (consumed c m) 0) as [E | E]; [discriminate|].
        apply IH in Hk as (c' & Hi & Hk). exists c'. split; [|exact Hk].
        eapply iter_more; eassumption.
    + destruct (exhausted hi) eqn:Ex; [discriminate|]. intros H.
      apply Hstep in H as (m & Hm & Hk). apply IH in Hk as (c' & Hi & Hk).
      exists c'. split; [|exact Hk]. eapply iter_must; eassumption.
Qed.

(** What the matcher returns comes from a match. *)
Theorem run_sound (r : regex) :
  forall c k x, run r c k = Some x -> exists c', matches r c c' /\ k c' = Some x.
Proof.
  induction r as [| p | r1 IH1 r2 IH2 | r1 IH1 r2 IH2 | g lo hi r1 IH1 | i r1 IH1
                  | | | | | | r1 IH1]; intros c k x; cbn [run matches].
  - eauto.
  - destruct (rest c) as [|a s'] eqn:E; [discriminate|].
    destruct (p a) eqn:Ep; [|discriminate]. eauto 8.
  - intros H. apply IH1 in H as (m & H1 & H). apply IH2 in H as (c' & H2 & H). eauto.
  - intros H. apply orElse_Some in H as [H | H]; [apply IH1 in H | apply IH2 in H];
      destruct H as (c' & H & Hk); eauto.
  - apply iterate_sound. exact IH1.
  - intros H. apply IH1 in H as (m & H1 & H). eauto.
  - destruct (prev c) eqn:E; [discriminate | eauto].
  - destruct (rest c) eqn:E; [eauto | discriminate].
  - destruct (atLineStart c) eqn:E; [eauto | discriminate].
  - destruct (atLineEnd c) eqn:E; [eauto | discriminate].
  - destruct (atWordBoundary c) eqn:E; [eauto | discriminate].
  - destruct (run r1 c Some) as [m|] eqn:E; [discriminate|]. intros H.
    exists c. split; [|exact H]. split; [|reflexivity].
    intros (m & Hm).
    assert (H' : run r1 c Some <> None)
      by (apply run_found; exists m; split; [exact Hm | discriminate]).
    congruence.
Qed.

(** A run of characters of one set: what it consumes. *)
Lemma chars_consumed (p : ascii -> bool) (lo : nat) (hi : option nat) (c c' : cursor) :
  iter (matches (Char p)) lo hi c c' ->
  exists mid,
    rest c = (mid ++ rest c')%string /\ Url.every p mid = true
    /\ lo <= String.length mid
    /\ (forall h, hi = Some h -> String.length mid <= h)
    /\ caps c' = caps c.
Proof.
  intros H. induction H as [hi c | lo hi c m c' Hex Hs _ IH | hi c m c' Hex Hs _ _ IH].
  - exists ""%string. repeat split; auto. intros h _. cbn. lia.
  - destruct Hs as (a & s' & E & Ha & ->).
    destruct IH as (mid & E' & Hmid & Hlo & Hhi & Hcaps).
    exists (String a mid). cbn [rest caps] in *. rewrite E, E'. cbn [Url.every String.length].
    rewrite Ha, Hmid.
    split; [reflexivity|]. split; [reflexivity|]. split; [lia|]. split; [|exact Hcaps].
    intros h ->. destruct h as [|h]; [discriminate Hex|].
    specialize (Hhi h eq_refl). lia.
  - destruct Hs as (a & s' & E & Ha & ->).
    destruct IH as (mid & E' & Hmid & Hlo & Hhi & Hcaps).
    exists (String a mid). cbn [rest caps] in *. rewrite E, E'. cbn [Url.every String.length].
    rewrite Ha, Hmid.
    split; [reflexivity|]. split; [reflexivity|]. split; [lia|]. split; [|exact Hcaps].
    intros h ->. destruct h as [|h]; [discriminate Hex|].
    specialize (Hhi h eq_refl). lia.
Qed.

Lemma take_append (a b : string) : take (String.length a) (a ++ b) = a.
Proof.
  induction a as [|x a IH]; [destruct b; reflexivity|].
  change (String x a ++ b)%string with (String x (a ++ b)). cbn [String.length take].
  rewrite IH. reflexivity.
Qed.

Lemma length_append (a b : string) :
  String.length (a ++ b) = String.length a + String.length b.
Proof.
  induction a as [|x a IH]; [reflexivity|].
  change (String x a ++ b)%string with (String x (a ++ b)). cbn [String.length].
  rewrite IH. reflexivity.
Qed.

End RegexResults.

(** ** The headings of a document *)

Section Headings.
Import Js Regex Analyzer.

(** [k] hash signs. *)
Fixpoint sharps (k : nat) : string :=
  match k with
  | O => ""
  | S k' => String "#" (sharps k')
  end.

Lemma every_sharps (mid : string) :
  Url.every (Ascii.eqb "#") mid = true -> mid = sharps (String.length mid).
Proof.
  induction mid as [|a mid IH]; [reflexivity|]. cbn [Url.every String.length sharps].
  intros H. apply andb_true_iff in H as [Ha H]. apply Ascii.eqb_eq in Ha.
  rewrite <- Ha, <- (IH H). reflexivity.
Qed.

Lemma trimStart_white (w s : string) :
  Url.every isWhiteSpace w = true -> trimStart (w ++ s) = trimStart s.
Proof.
  induction w as [|a w IH]; [reflexivity|]. cbn [Url.every]. intros H.
  apply andb_true_iff in H as [Ha H].
  change (String a w ++ s)%string with (String a (w ++ s)). cbn [trimStart].
  rewrite Ha. apply IH, H.
Qed.

(** What a heading line looks like, and what is read from it. *)
Definition headingAt (l : string) (h : HeadingInfo) : Prop :=
  1 <= level h <= 6
  /\ exists w tail,
       l = (sharps (level h) ++ String w tail)%string
       /\ isWhiteSpace w = true
       /\ text h = trim (String w tail)
       /\ Url.every (fun c => negb (isLineTerminator c)) (text h) = true.

Lemma heading_read (l : string) (n : nat) (c : cursor) :
  find headingOfLine None l = Some (n, c) ->
  forall number,
    headingAt l {| level := String.length (capture 1 (caps c));
                   text := trim (capture 2 (caps c));
                   line := number |}.
Proof.
  unfold headingOfLine. cbn [cat]. rewrite find_start. unfold matchAt.
  destruct (run _ (Cursor None l []) Some) as [x|] eqn:E; [|discriminate].
  intros [= _ <-] number.
  apply run_sound in E as (c' & H & [= ->]). cbn [matches] in H.
  destruct H as (m0 & (_ & ->) & m1 & (g1 & Hhash & ->) & m2 & Hspace
                 & m3 & (g2 & Hdots & ->) & (Hend & ->)).
  unfold between, plus, lit, space, dot in *.
  apply chars_consumed in Hhash as (mid1 & E1 & Hmid1 & Hlo1 & Hhi1 & Hcaps1).
  apply chars_consumed in Hspace as (mid2 & E2 & Hmid2 & Hlo2 & _ & Hcaps2).
  apply chars_consumed in Hdots as (mid3 & E3 & Hmid3 & _ & _ & Hcaps3).
  cbn [rest caps prev] in *. specialize (Hhi1 6 eq_refl).
  rewrite Hend, append_empty in E3.
  assert (Hc1 : take (consumed (Cursor None l []) g1) l = mid1).
  { unfold consumed. cbn [rest]. rewrite E1, length_append.
    replace (String.length mid1 + String.length (rest g1) - String.length (rest g1))
      with (String.length mid1) by lia.
    apply take_append. }
  assert (Hc2 : take (consumed m2 g2) (rest m2) = mid3).
  { unfold consumed. rewrite Hend, E3. cbn [String.length]. rewrite Nat.sub_0_r.
    rewrite <- (append_empty mid3) at 2. apply take_append. }
  rewrite Hcaps3, Hcaps2, Hcaps1, Hc1, Hc2. cbn [capture Nat.eqb].
  unfold headingAt. cbn [level text]. split; [lia|].
  destruct mid2 as [|w mid2]; [cbn in Hlo2; lia|].
  cbn [Url.every] in Hmid2. apply andb_true_iff in Hmid2 as [Hw Hmid2].
  exists w, (mid2 ++ mid3)%string. split; [|split; [exact Hw|split]].
  - rewrite E1, E2, E3, <- (every_sharps mid1 Hmid1). reflexivity.
  - unfold trim. change (String w mid2 ++ mid3)%string with (String w (mid2 ++ mid3)).
    cbn [trimStart]. rewrite Hw, trimStart_white by exact Hmid2. reflexivity.
  - apply every_trim, Hmid3.
Qed.

(** The headings found in the lines from [index] on. *)
Lemma headingsFrom_located (lines : list string) :
  forall index,
    List.Forall
      (fun h => exists j, j < List.length lines /\ line h = index + j + 1
                          /\ headingAt (nth j lines ""%string) h)
      (headingsFrom index lines)
    /\ StronglySorted lt (map line (headingsFrom index lines)).
Proof.
  induction lines as [|l lines IH]; intros index; cbn [headingsFrom].
  - split; constructor.
  - destruct (IH (S index)) as [Hall Hsorted].
    assert (Hrest : List.Forall
                      (fun h => exists j, j < List.length (l :: lines)
                                          /\ line h = index + j + 1
                                          /\ headingAt (nth j (l :: lines) ""%string) h)
                      (headingsFrom (S index) lines)).
    { eapply List.Forall_impl; [|exact Hall]. intros h (j & Hj & Hline & Hat).
      exists (S j). cbn [List.length nth]. split; [lia|]. split; [lia | exact Hat]. }
    destruct (find headingOfLine None l) as [[n c]|] eqn:E; cbn [app map]; [|auto].
    split.
    + constructor; [|exact Hrest]. exists 0. cbn [List.length nth line].
      split; [lia|]. split; [lia|]. eapply heading_read. exact E.
    + constructor; [exact Hsorted|]. cbn [line].
      apply List.Forall_map. eapply List.Forall_impl; [|exact Hall].
      intros h (j & _ & Hline & _). lia.
Qed.

End Headings.

(** The headings the analyzer lists are where it says.  Each entry names
    a line of the document (numbered from one) that consists of as many [#]
    as its level, between one and six, then a white-space character and the
    rest; the entry's text is that rest, trimmed, and holds no line
    terminator.  The entries are in document order. *)
Theorem headings_are_located (markdown : string) :
  let lines := Js.splitChar Js.LF markdown in
  let found := Analyzer.extractHeadings markdown in
  List.Forall
    (fun h =>
       1 <= Analyzer.line h <= List.length lines
       /\ 1 <= Analyzer.level h <= 6
       /\ exists w tail,
            nth (Analyzer.line h - 1) lines ""%string
            = (sharps (Analyzer.level h) ++ String w tail)%string
            /\ Js.isWhiteSpace w = true
            /\ Analyzer.text h = Js.trim (String w tail)
            /\ Url.every (fun c => negb (Js.isLineTerminator c)) (Analyzer.text h) = true)
    found
  /\ StronglySorted lt (map Analyzer.line found).
Proof.
  cbv zeta. unfold Analyzer.extractHeadings.
  destruct (headingsFrom_located (Js.splitChar Js.LF markdown) 0) as [Hall Hsorted].
  split; [|exact Hsorted].
  eapply List.Forall_impl; [|exact Hall].
  intros h (j & Hj & Hline & Hlevel & Hat).
  replace (Analyzer.line h - 1) with j by lia.
  split; [lia|]. split; [exact Hlevel | exact Hat].
Qed.

(** ** Keyword lists *)

Section Keywords.
Import Js Regex ExtractorText.

(** The separators of a keyword list. *)
Definition isSeparator (c : ascii) : bool := Url.oneOf ",;" c || Ascii.eqb LF c.

Lemma matchAt_listSeparator (before : option ascii) (a : ascii) (s : string) :
  matchAt listSeparator before (String a s)
  = if isSeparator a then Some (Cursor (Some a) s []) else None.
Proof.
  unfold matchAt, listSeparator, lit, isSeparator. cbn [run rest caps].
  destruct (Url.oneOf ",;" a), (Ascii.eqb LF a); reflexivity.
Qed.

(** The pieces of the split hold no separator. *)
Lemma split_listSeparator (s : string) :
  forall before,
    List.Forall (fun piece => Url.every (fun c => negb (isSeparator c)) piece = true)
      (splitFrom listSeparator before s 0).
Proof.
  induction s as [|a s IH]; intros before; [repeat constructor|].
  cbn [splitFrom]. rewrite matchAt_listSeparator. destruct (isSeparator a) eqn:Ha.
  - cbn [rest String.length].
    replace (S (String.length s) - String.length s) with 1 by lia.
    constructor; [reflexivity | apply IH].
  - apply every_consHead; [rewrite Ha; reflexivity | apply IH].
Qed.

Lemma sanitizeLine_fixed (value : string) :
  sanitizeLine (sanitizeLine value) = sanitizeLine value.
Proof.
  unfold sanitizeLine, spaces. rewrite !replaceAll_spaces.
  set (squashed := squashFrom isWhiteSpace " " false value).
  assert (Hchars : Url.every (fun c => negb (isWhiteSpace c) || Ascii.eqb c " ")
                     (trim squashed) = true)
    by apply every_trim, squash_chars.
  assert (Hshort : noLongRun isWhiteSpace 2 (trim squashed) = true)
    by apply noLongRun_trim, squash_short, space_is_white.
  destruct (squash_fixed isWhiteSpace " " (trim squashed) Hchars Hshort) as [-> _].
  apply trim_fixed.
Qed.

Lemma every_sanitizeLine (q : ascii -> bool) (value : string) :
  q " "%char = true -> Url.every q value = true -> Url.every q (sanitizeLine value) = true.
Proof.
  intros Hsp H. unfold sanitizeLine, spaces. rewrite replaceAll_spaces.
  apply every_trim, every_squash; assumption.
Qed.

End Keywords.

(** The entries [extractListContent] reads from a keyword list are clean:
    none is empty, none holds a comma, a semicolon or a line break, and each
    is a line in the normal form of [sanitizeLine]. *)
Theorem keyword_entries_are_clean (value : string) :
  List.Forall
    (fun item =>
       item <> ""%string
       /\ Url.every (fun c => negb (Url.oneOf ",;" c || Ascii.eqb Js.LF c)) item = true
       /\ ExtractorText.sanitizeLine item = item)
    (ExtractorText.extractListContent value).
Proof.
  unfold ExtractorText.extractListContent. apply List.Forall_forall. intros item Hin.
  apply filter_In in Hin as [Hin Hlen]. apply in_map_iff in Hin as (piece & <- & Hin).
  pose proof (split_listSeparator value None) as Hpieces.
  rewrite List.Forall_forall in Hpieces. specialize (Hpieces piece Hin).
  split; [|split].
  - intros E. rewrite E in Hlen. discriminate Hlen.
  - apply (every_sanitizeLine (fun c => negb (isSeparator c))); [reflexivity | exact Hpieces].
  - apply sanitizeLine_fixed.
Qed.

(** ** The canonical address of the library extractor *)

(** When a page declares its canonical with an absolute http(s) address,
    the library extractor reports it in normalized form: what
    [collectCanonical] returns is what [normalizeUrl] makes of the declared
    address, and normalizing it again changes nothing. *)
Theorem library_canonical_is_normalized (W : Crawl.World) (document : Crawl.Document)
    (documentURL href : string) :
  Crawl.canonicalHref document = Some href ->
  Regex.test Crawl.protocolPattern (Js.trim href) = true ->
  match ExtractorDom.collectCanonical W document documentURL with
  | Some canonical =>
      Extractor.normalizeUrl W (Js.trim href) = Extractor.Return canonical
      /\ Extractor.normalizeUrl W canonical = Extractor.Return canonical
  | None => Extractor.errorStatus (Extractor.normalizeUrl W (Js.trim href)) = Some 400%N
  end.
Proof.
  intros Hhref Hprotocol. unfold ExtractorDom.collectCanonical. rewrite Hhref.
  cbn [option_map].
  destruct (Js.trim href) as [|c s] eqn:E; [discriminate Hprotocol|].
  unfold Extractor.normalizeUrl. cbv zeta.
  rewrite Hprotocol, !(URL_new_protocol W (String c s) _ Hprotocol).
  destruct (Url.parseHttp (Crawl.idna W) (String c s)) as [u|] eqn:Eu; [|reflexivity].
  pose proof (parseHttp_wellFormed _ _ _ Eu) as Hwf.
  rewrite (protocol_http _ u Hwf). cbn [negb]. split; [reflexivity|].
  destruct (set_hash_wellFormed _ u Hwf) as [Hwf' Hf].
  apply (conservative_href W (Url.set_hash u "") Hwf' Hf).
Qed.

Lemma library_canonical_is_normalized_witness :
  let document := {| Crawl.canonicalHref := Some " HTTPS://Example.com/a/../b?x=1#top "%string;
                     Crawl.anchors := []; Crawl.ogType := None;
                     Crawl.publishedTime := false |} in
  ExtractorDom.collectCanonical Scenario.oneLink document "https://example.com/"
  = Some "https://example.com/b?x=1"%string
  /\ Extractor.normalizeUrl Scenario.oneLink "https://example.com/b?x=1"
     = Extractor.Return "https://example.com/b?x=1"%string.
Proof.
  cbv zeta.
  pose proof (library_canonical_is_normalized Scenario.oneLink
                {| Crawl.canonicalHref := Some " HTTPS://Example.com/a/../b?x=1#top "%string;
                   Crawl.anchors := []; Crawl.ogType := None;
                   Crawl.publishedTime := false |}
                "https://example.com/" " HTTPS://Example.com/a/../b?x=1#top "
                eq_refl eq_refl) as H.
  vm_compute in H. destruct H as [_ H]. split; [vm_compute; reflexivity | exact H].
Defined.

(** Canonicals with credentials, an [xn--] label, a default port or a
    bracketed address. *)
Example library_canonical_examples :
  let declares href :=
    {| Crawl.canonicalHref := Some href; Crawl.anchors := []; Crawl.ogType := None;
       Crawl.publishedTime := false |} in
  ExtractorDom.collectCanonical Scenario.oneLink
    (declares " https://User:pw@XN--Bcher-kva.example:443/a/../b?x=1#top ")
    "https://example.com/"
  = Some "https://User:pw@xn--bcher-kva.example/b?x=1"%string
  /\ ExtractorDom.collectCanonical Scenario.oneLink
       (declares "http://[::FFFF:1.2.3.4]/^x") "https://example.com/"
     = Some "http://[::ffff:102:304]/^x"%string
  /\ Crawl.normalizeUrl Scenario.oneLink "http://0x7f.1/a^b/" None
     = Js.Ok "https://127.0.0.1/a^b"%string
  /\ Crawl.normalizeUrl Scenario.oneLink "1.2.3.4." None = Js.Ok "https://1.2.3.4/"%string.
Proof. cbv zeta. repeat split; vm_compute; reflexivity. Qed.

(** ** The root page of a crawl *)

Section RootFirst.
Import Js Crawl.
Variable W : World.
Variable cfg : Config.

(** The records are only ever added to. *)
Lemma step_pages (s s' : CrawlState) :
  step W cfg s = Next s' -> exists more, pages s' = (pages s ++ more)%list.
Proof.
  intros H. apply step_Next in H as (current & remaining & _ & _ & Hit).
  apply iteration_records in Hit. cbn [pages setQueue] in Hit.
  destruct Hit as [(Hp & _) | (p & d & Hp & _)].
  - exists []. rewrite app_nil_r. exact Hp.
  - exists [p]. exact Hp.
Qed.

Lemma reachable_pages_grow (s0 s : CrawlState) :
  reachable W cfg s0 s -> exists more, pages s = (pages s0 ++ more)%list.
Proof.
  induction 1 as [|s s' _ (more & IH) Hstep].
  - exists []. rewrite app_nil_r. reflexivity.
  - apply step_pages in Hstep as (last & Hlast). exists (more ++ last)%list.
    rewrite Hlast, IH, app_assoc. reflexivity.
Qed.

Lemma isSameHost_same (u : Url.URL) : isSameHost u u = true.
Proof. unfold isSameHost. apply String.eqb_refl. Qed.

(** The first turn of the loop, for a root that can be fetched and whose
    canonical passes the gates. *)
Lemma first_turn (normalizedRoot : string) (page : FetchResult) (canonicalUrl : string) :
  (exists input, normalizeUrl W input None = Ok normalizedRoot) ->
  newURL W normalizedRoot = Ok (root cfg) ->
  robots cfg (Url.pathname (root cfg)) = true ->
  isBlockedPath (root cfg) = false ->
  fetchPage W normalizedRoot = Ok (Some page) ->
  normalizeUrl W (match canonical page with Some x => x | None => finalUrl page end) None
  = Ok canonicalUrl ->
  admits W cfg canonicalUrl = true ->
  exists s1 p,
    step W cfg (initial normalizedRoot) = Next s1
    /\ pages s1 = [p] /\ Crawl.url p = canonicalUrl.
Proof.
  intros (input & Hinput) Hroot Hrobots Hblocked Hfetch Hcanonical Hadmits.
  destruct (normalizeUrl_normalForm W _ _ Hinput) as (v & Hv & ->).
  unfold admits in Hadmits.
  destruct (URL_new W canonicalUrl None) as [target|] eqn:Etarget; [|discriminate].
  apply andb_true_iff in Hadmits as [Hsame Hgates].
  apply negb_true_iff in Hgates.
  unfold step, initial. cbn [queue pages List.length].
  change (0 <? MAX_PAGES)%nat with true. cbv iota.
  unfold iteration, bind. cbn [item_url setQueue visited addVisited].
  rewrite (normalizeUrl_href W v None Hv).
  rewrite bool_decide_eq_false_2 by set_solver.
  rewrite Hroot, isSameHost_same, Hrobots, Hblocked. cbn [negb].
  rewrite Hfetch, Hcanonical. unfold newURL at 1. rewrite Etarget.
  rewrite Hsame, Hgates. cbn [negb].
  cbn [recorded note addVisited setQueue].
  rewrite bool_decide_eq_false_2 by set_solver.
  match goal with
  | |- context [if ?b then _ else _] => destruct b
  end; eexists; eexists; (split; [reflexivity|]); cbn [pages record enqueue note app];
    split; reflexivity.
Qed.

End RootFirst.

(** The empty text is not an address. *)
Lemma normalizeUrl_empty (W : Crawl.World) :
  Crawl.normalizeUrl W "" None = Js.Throw "Unable to normalize URL: ".
Proof.
  unfold Crawl.normalizeUrl, Crawl.URL_new. cbv zeta.
  replace (Regex.test Crawl.protocolPattern "") with false by (vm_compute; reflexivity).
  replace (Crawl.isHttpAbsolute ("https://" ++ "")) with true by (vm_compute; reflexivity).
  replace (Url.parseHttp (Crawl.idna W) ("https://" ++ "")) with (@None Url.URL).
  - reflexivity.
  - generalize (Crawl.idna W). intros T. cbv. reflexivity.
Qed.

(** The root page of a crawl comes first in its result, when there is a
    result.  Let the root pass the gates of the loop, its page be fetched,
    and its canonical normalize and pass the gates as well.  Then whatever
    the crawl answers is either the list of records, which begins with the
    record of that canonical, or the error answer 400 with the message
    that a later turn of the loop threw; the first turn itself goes
    through. *)
Theorem root_page_is_recorded_first (W : Crawl.World) (payload : Crawl.Payload) (fuel : nat)
    (normalizedRoot : string) (root : Url.URL) (page : Crawl.FetchResult)
    (canonicalUrl : string) (response : Crawl.HttpResponse) :
  Crawl.POST W fuel payload = Some response ->
  Crawl.normalizeUrl W (Crawl.inputUrlOf payload) None = Js.Ok normalizedRoot ->
  Crawl.newURL W normalizedRoot = Js.Ok root ->
  Crawl.loadRobots W root (Url.pathname root) = true ->
  Crawl.isBlockedPath root = false ->
  Crawl.fetchPage W normalizedRoot = Js.Ok (Some page) ->
  Crawl.normalizeUrl W
    (match Crawl.canonical page with Some x => x | None => Crawl.finalUrl page end) None
  = Js.Ok canonicalUrl ->
  Crawl.admits W (Crawl.configOf W payload root) canonicalUrl = true ->
  match response with
  | Crawl.Sitemap _ _ pages =>
      exists first more, pages = first :: more /\ Crawl.url first = canonicalUrl
  | Crawl.ErrorJson status message =>
      status = 400%N
      /\ exists s1 turns,
           Crawl.step W (Crawl.configOf W payload root) (Crawl.initial normalizedRoot)
           = Crawl.Next s1
           /\ Crawl.loop W (Crawl.configOf W payload root) turns s1 = Crawl.Failed message
  end.
Proof.
  intros Hpost Hnorm Hroot Hrobots Hblocked Hfetch Hcanonical Hadmits.
  unfold Crawl.POST in Hpost. cbv zeta in Hpost.
  destruct (String.eqb (Crawl.inputUrlOf payload) "") eqn:Einput.
  { apply String.eqb_eq in Einput.
    rewrite Einput, normalizeUrl_empty in Hnorm. discriminate Hnorm. }
  rewrite Hnorm, Hroot in Hpost.
  set (cfg := Crawl.configOf W payload root) in *.
  destruct (first_turn W cfg normalizedRoot page canonicalUrl
              (ex_intro _ _ Hnorm) Hroot Hrobots Hblocked Hfetch Hcanonical Hadmits)
    as (s1 & p & Hstep & Hpages & Hurl).
  destruct fuel as [|fuel]; [discriminate Hpost|]. cbn [Crawl.loop] in Hpost.
  rewrite Hstep in Hpost.
  destruct (Crawl.loop W cfg fuel s1) as [s|message|s] eqn:Eloop; try discriminate Hpost;
    injection Hpost as <-.
  - apply loop_Finished in Eloop as [Hreach _].
    apply reachable_pages_grow in Hreach as (more & ->).
    rewrite Hpages. exists p, more. auto.
  - split; [reflexivity|]. exists s1, fuel. auto.
Qed.

Lemma root_page_is_recorded_first_witness :
  exists first more,
    [ {| Crawl.url := "https://example.com/"; Crawl.ai_url := "https://ai.example.com/";
         Crawl.type := Crawl.homepage; Crawl.priority := 1 |};
      {| Crawl.url := "https://example.com/a"; Crawl.ai_url := "https://ai.example.com/a";
         Crawl.type := Crawl.category; Crawl.priority := 5 # 10 |} ]
    = first :: more
    /\ Crawl.url first = Scenario.home.
Proof.
  refine (root_page_is_recorded_first Scenario.oneLink
            (Scenario.request "example.com" Js.JUndefined) 5 Scenario.home
            (Scenario.rootOf Scenario.oneLink Scenario.home)
            {| Crawl.finalUrl := Scenario.home; Crawl.canonical := None;
               Crawl.document := {| Crawl.canonicalHref := None;
                                    Crawl.anchors := ["https://example.com/a"%string];
                                    Crawl.ogType := None; Crawl.publishedTime := false |};
               Crawl.links := ["https://example.com/a"%string] |}
            Scenario.home
            (Crawl.Sitemap "json" "example.com"
               [ {| Crawl.url := "https://example.com/";
                    Crawl.ai_url := "https://ai.example.com/";
                    Crawl.type := Crawl.homepage; Crawl.priority := 1 |};
                 {| Crawl.url := "https://example.com/a";
                    Crawl.ai_url := "https://ai.example.com/a";
                    Crawl.type := Crawl.category; Crawl.priority := 5 # 10 |} ])
            _ _ _ _ _ _ _ _);
    vm_compute; reflexivity.
Defined.

(** The error answer does occur: the root is fetched and passes every
    gate, and the canonical of the page it links to cannot be normalized. *)
Example root_recorded_then_crawl_fails :
  let W := Scenario.laterEmptyCanonical in
  let payload := Scenario.request "example.com" Js.JUndefined in
  let root := Scenario.rootOf W Scenario.home in
  Crawl.normalizeUrl W (Crawl.inputUrlOf payload) None = Js.Ok Scenario.home
  /\ Crawl.newURL W Scenario.home = Js.Ok root
  /\ Crawl.loadRobots W root (Url.pathname root) = true
  /\ Crawl.isBlockedPath root = false
  /\ (exists page,
        Crawl.fetchPage W Scenario.home = Js.Ok (Some page)
        /\ Crawl.normalizeUrl W
             (match Crawl.canonical page with Some x => x | None => Crawl.finalUrl page end)
             None
           = Js.Ok Scenario.home)
  /\ Crawl.admits W (Crawl.configOf W payload root) Scenario.home = true
  /\ Crawl.pages (Crawl.stateAfter W (Crawl.configOf W payload root) 1
                    (Crawl.initial Scenario.home))
     = [ {| Crawl.url := Scenario.home; Crawl.ai_url := "https://ai.example.com/";
            Crawl.type := Crawl.homepage; Crawl.priority := 1 |} ]
  /\ forall fuel,
       Crawl.POST W (S (S fuel)) payload
       = Some (Crawl.ErrorJson 400 "Unable to normalize URL: ").
Proof.
  cbv zeta.
  split; [vm_compute; reflexivity|]. split; [vm_compute; reflexivity|].
  split; [vm_compute; reflexivity|]. split; [vm_compute; reflexivity|].
  split; [eexists; split; [vm_compute; reflexivity | vm_compute; reflexivity]|].
  split; [vm_compute; reflexivity|]. split; [vm_compute; reflexivity|].
  intros fuel. vm_compute. reflexivity.
Qed.

(** ** The summary of the JSON route *)

Section Sentences.
Import Js Regex Mirror.

(** Text in which white space is single spaces, and that does not end
    with one. *)
Definition spaced (s : string) : Prop :=
  Url.every plainSpace s = true /\ noLongRun isWhiteSpace 2 s = true /\ trimEnd s = s.

(** A piece that [trim] and [filter(Boolean)] leave alone. *)
Definition solid (piece : string) : Prop :=
  piece <> ""%string /\ headOk piece = true /\ trimEnd piece = piece.

Lemma spaced_tail (a : ascii) (s : string) : spaced (String a s) -> spaced s.
Proof.
  intros (He & Hn & Ht). cbn [Url.every noLongRun] in *.
  apply andb_true_iff in He as [_ He]. apply andb_true_iff in Hn as [_ Hn].
  repeat split; try assumption.
  cbn [trimEnd] in Ht. destruct (trimEnd s) as [|b t] eqn:E.
  - destruct (isWhiteSpace a); [discriminate|]. injection Ht as <-. reflexivity.
  - injection Ht as <-. reflexivity.
Qed.

Lemma plainSpace_white (a : ascii) :
  plainSpace a = true -> isWhiteSpace a = true -> a = " "%char.
Proof.
  unfold plainSpace. intros H Ha. rewrite Ha in H. cbn in H.
  apply Ascii.eqb_eq in H. exact H.
Qed.

(** After a space of such a text comes a character that is not white
    space. *)
Lemma spaced_after (a : ascii) (s : string) :
  spaced (String a s) -> isWhiteSpace a = true ->
  exists b s', s = String b s' /\ isWhiteSpace b = false.
Proof.
  intros (_ & Hn & Ht) Ha. cbn [noLongRun runLen] in Hn. rewrite Ha in Hn.
  apply andb_true_iff in Hn as [Hr _]. apply Nat.ltb_lt in Hr.
  destruct s as [|b s'].
  - cbn [trimEnd] in Ht. rewrite Ha in Ht. discriminate Ht.
  - exists b, s'. split; [reflexivity|]. cbn [runLen] in Hr.
    destruct (isWhiteSpace b); [lia | reflexivity].
Qed.

Lemma matchAt_spaces (before : option ascii) (a : ascii) (s : string) :
  matchAt spaces before (String a s) <> None <-> isWhiteSpace a = true.
Proof.
  unfold spaces, plus, space.
  destruct (matchAt_run isWhiteSpace 1 before (String a s)) as [last ->].
  cbn [runLen]. destruct (isWhiteSpace a); cbn; split; intros H; congruence.
Qed.

Lemma matchAt_space (before : option ascii) (a b : ascii) (s : string) :
  isWhiteSpace a = true -> isWhiteSpace b = false ->
  exists last, matchAt spaces before (String a (String b s))
               = Some (Cursor last (String b s) []).
Proof.
  intros Ha Hb. unfold spaces, plus, space.
  destruct (matchAt_run isWhiteSpace 1 before (String a (String b s))) as [last ->].
  cbn [runLen dropRun]. rewrite Ha, Hb. cbn. eauto.
Qed.

Lemma splitBehind_nonempty (p : ascii -> bool) (r : regex) (s : string) :
  forall before skip, splitBehind p r before s skip <> [].
Proof.
  induction s as [|a s IH]; intros before skip; cbn [splitBehind]; [discriminate|].
  destruct skip; [|apply IH].
  destruct (if match before with Some b => p b | None => false end
            then matchAt r before (String a s) else None) as [c|].
  - destruct (String.length (String a s) - String.length (rest c)); [|discriminate].
    destruct (splitBehind p r (Some a) s 0); discriminate.
  - destruct (splitBehind p r (Some a) s 0); discriminate.
Qed.

Lemma join_consHead (sep : string) (a : ascii) (pieces : list string) :
  join sep (consHead a pieces) = String a (join sep pieces).
Proof.
  destruct pieces as [|piece [|next pieces]]; reflexivity.
Qed.

(** Splitting such a text behind the characters of [p] and joining the
    pieces with a space gives the text back; the pieces are solid, up to
    the first one, which continues what came before. *)
Lemma splitBehind_spaced (p : ascii -> bool) (s : string) :
  spaced s ->
  forall before,
    let pieces := splitBehind p spaces before s 0 in
    join " " pieces = s
    /\ List.Forall solid (List.tl pieces)
    /\ trimEnd (hd ""%string pieces) = hd ""%string pieces
    /\ (hd ""%string pieces = ""%string ->
        s = ""%string \/ exists a s', s = String a s' /\ isWhiteSpace a = true)
    /\ (forall a s', s = String a s' -> isWhiteSpace a = false ->
        headOk (hd ""%string pieces) = true).
Proof.
  induction s as [|a s IH]; intros Hs before; cbv zeta.
  - cbn. repeat split; auto; intros a s' [=].
  - pose proof (spaced_tail a s Hs) as Hs'. specialize (IH Hs' (Some a)).
    cbv zeta in IH. destruct IH as (Hjoin & Htail & Hend & Hempty & Hhead).
    pose proof (splitBehind_nonempty p spaces s (Some a) 0) as Hne.
    cbn [splitBehind].
    destruct (if match before with Some b => p b | None => false end
              then matchAt spaces before (String a s) else None) as [c|] eqn:Em.
    + (* a separator *)
      assert (Ha : isWhiteSpace a = true).
      { apply (matchAt_spaces before a s).
        destruct (match before with Some b => p b | None => false end);
          [congruence | discriminate]. }
      destruct (spaced_after a s Hs Ha) as (b & s' & -> & Hb).
      destruct (matchAt_space before a b s' Ha Hb) as (last & Em').
      assert (Ec : c = Cursor last (String b s') []).
      { destruct (match before with Some x => p x | None => false end);
          [congruence | discriminate]. }
      subst c. cbn [rest String.length].
      replace (S (S (String.length s')) - S (String.length s')) with 1 by lia.
      destruct Hs as (He & _). cbn [Url.every] in He. apply andb_true_iff in He as [He _].
      rewrite (plainSpace_white a He Ha) in *.
      destruct (splitBehind p spaces (Some " "%char) (String b s') 0) as [|first rest] eqn:E;
        [congruence|].
      cbn [hd List.tl] in *. split; [|split; [|split; [|split]]].
      * rewrite join_cons by discriminate. rewrite Hjoin. reflexivity.
      * constructor; [|exact Htail]. split; [|split; [|exact Hend]].
        -- intros ->. destruct (Hempty eq_refl) as [[=] | (x & y & [= <- <-] & Hx)].
           congruence.
        -- apply (Hhead b s' eq_refl Hb).
      * reflexivity.
      * intros _. right. eauto.
      * intros x y _ _. reflexivity.
    + (* no separator *)
      rewrite join_consHead, Hjoin.
      destruct (splitBehind p spaces (Some a) s 0) as [|first rest] eqn:E; [congruence|].
      cbn [consHead hd List.tl] in *. split; [reflexivity|]. split; [exact Htail|].
      split; [|split].
      * cbn [trimEnd]. rewrite Hend. destruct first as [|f first]; [|reflexivity].
        destruct (isWhiteSpace a) eqn:Ha; [|reflexivity].
        exfalso. destruct (Hempty eq_refl) as [-> | (x & y & -> & Hx)].
        -- destruct Hs as (_ & _ & Ht). cbn [trimEnd] in Ht. rewrite Ha in Ht.
           discriminate Ht.
        -- destruct (spaced_after a _ Hs Ha) as (b & s' & [= <- <-] & Hb). congruence.
      * discriminate.
      * intros x y [= <- <-] Hx. cbn [headOk]. rewrite Hx. reflexivity.
Qed.

Lemma solid_kept (pieces : list string) :
  List.Forall solid pieces ->
  List.filter truthy (map (fun sentence => trim sentence) pieces) = pieces.
Proof.
  induction 1 as [|piece pieces (Hne & Hh & He) _ IH]; [reflexivity|].
  assert (Etrim : trim piece = piece)
    by (unfold trim; rewrite (trimStart_fixed piece Hh); exact He).
  cbn [map List.filter]. rewrite Etrim.
  unfold truthy at 1. apply String.eqb_neq in Hne. rewrite Hne. cbn [negb].
  rewrite IH. reflexivity.
Qed.

(** The sentences of such a text, joined by spaces, are the text. *)
Lemma splitSentences_join (text : string) :
  spaced text -> headOk text = true -> join " " (splitSentences text) = text.
Proof.
  intros Hs Hh. unfold splitSentences.
  destruct (splitBehind_spaced (Url.oneOf ".!?") text Hs None)
    as (Hjoin & Htail & Hend & Hempty & Hhead).
  destruct (splitBehind (Url.oneOf ".!?") spaces None text 0) as [|first rest] eqn:E.
  { exfalso. eapply splitBehind_nonempty. exact E. }
  cbn [hd List.tl] in *. destruct text as [|a text'].
  - cbn [splitBehind] in E. injection E as <- <-. reflexivity.
  - cbn [headOk] in Hh. apply negb_true_iff in Hh.
    rewrite solid_kept; [exact Hjoin|]. constructor; [|exact Htail].
    split; [|split; [apply (Hhead a text' eq_refl Hh) | exact Hend]].
    intros ->. destruct (Hempty eq_refl) as [[=] | (x & y & [= <- <-] & Hx)]. congruence.
Qed.

Lemma startsWith_append (s a b : string) :
  startsWith s (a ++ b) = true -> startsWith s a = true.
Proof.
  revert s. induction a as [|x a IH]; intros s; [intros _; apply startsWith_nil|].
  change (String x a ++ b)%string with (String x (a ++ b)).
  destruct s as [|y s]; [discriminate|]. cbn [startsWith]. intros H.
  apply andb_true_iff in H as [Hxy H]. rewrite Hxy, (IH s H). reflexivity.
Qed.

Lemma startsWith_same (s : string) : startsWith s s = true.
Proof.
  induction s as [|a s IH]; [reflexivity|]. cbn [startsWith].
  rewrite Ascii.eqb_refl, IH. reflexivity.
Qed.

Lemma startsWith_under (a x y : string) :
  startsWith (a ++ y) (a ++ x) = startsWith y x.
Proof.
  induction a as [|c a IH]; [reflexivity|].
  change (String c a ++ y)%string with (String c (a ++ y)).
  change (String c a ++ x)%string with (String c (a ++ x)).
  cbn [startsWith]. rewrite Ascii.eqb_refl, IH. reflexivity.
Qed.

(** The join of the first pieces begins the join of all of them. *)
Lemma join_firstn (sep : string) (pieces : list string) :
  forall n, startsWith (join sep pieces) (join sep (firstn n pieces)) = true.
Proof.
  induction pieces as [|piece pieces IH]; intros n.
  - destruct n; reflexivity.
  - destruct n as [|n]; [apply startsWith_nil|]. cbn [firstn].
    destruct pieces as [|next pieces].
    + destruct n; apply startsWith_same.
    + destruct n as [|n].
      * cbn [firstn]. rewrite join_cons by discriminate.
        change (join sep [piece]) with piece.
        apply (startsWith_append _ piece ""). rewrite append_empty.
        apply startsWith_prefix.
      * specialize (IH (S n)). cbn [firstn] in *.
        rewrite (join_cons sep piece (next :: pieces)) by discriminate.
        rewrite (join_cons sep piece (next :: firstn n pieces)) by discriminate.
        rewrite !startsWith_under. exact IH.
Qed.

Lemma stripMarkdown_spaced (source : string) :
  spaced (stripMarkdown source) /\ headOk (stripMarkdown source) = true.
Proof.
  destruct (stripMarkdown_plainText source) as (_ & Hs & Hr).
  destruct (stripMarkdown_steps source) as (unwrapped & E).
  split; [split; [exact Hs | split; [exact Hr|]]|]; rewrite E; unfold trim.
  - apply trimEnd_fixed.
  - apply trimEnd_head, trimStart_head.
Qed.

End Sentences.

(** The summary of the JSON response is the beginning of the page's plain
    text.  The sentences of the stripped markdown, joined by single spaces,
    give the stripped markdown back; the summary, made of the first four,
    is a prefix of it, and is all of it when there are at most four
    sentences. *)
Theorem summary_begins_the_text (markdown : string) :
  let text := Mirror.stripMarkdown markdown in
  let sentences := Mirror.splitSentences text in
  Js.join " " sentences = text
  /\ Js.startsWith text (Mirror.buildSummary sentences) = true
  /\ (List.length sentences <= 4 -> Mirror.buildSummary sentences = text).
Proof.
  cbv zeta. destruct (stripMarkdown_spaced markdown) as [Hs Hh].
  pose proof (splitSentences_join _ Hs Hh) as Hjoin.
  split; [exact Hjoin|]. unfold Mirror.buildSummary.
  destruct (Mirror.splitSentences (Mirror.stripMarkdown markdown)) as [|first rest] eqn:E.
  - split; [apply startsWith_nil | intros _; exact Hjoin].
  - split.
    + rewrite <- Hjoin at 1. apply join_firstn.
    + intros Hlen. rewrite firstn_all2 by exact Hlen. exact Hjoin.
Qed.

Lemma summary_begins_the_text_witness :
  let sentences := Mirror.splitSentences (Mirror.stripMarkdown "# Hi. *There* you are!") in
  List.length sentences <= 4
  /\ Mirror.buildSummary sentences = "Hi. There you are!"%string.
Proof.
  cbv zeta.
  assert (H : List.length (Mirror.splitSentences
                             (Mirror.stripMarkdown "# Hi. *There* you are!")) <= 4)
    by (vm_compute; lia).
  split; [exact H|].
  rewrite (proj2 (proj2 (summary_begins_the_text "# Hi. *There* you are!")) H).
  vm_compute. reflexivity.
Defined.

(** ** What the dash and blank-line passes leave alone *)

Section Untouched.
Import Js Regex.
Variable p : ascii -> bool.
Variable lo : nat.
Variable repl : string.
Hypothesis repl_chars : Url.every p repl = true.
Hypothesis repl_short : String.length repl <= lo.

Lemma remove_append (a b : string) :
  Url.remove p (a ++ b) = (Url.remove p a ++ Url.remove p b)%string.
Proof.
  induction a as [|c a IH]; [reflexivity|].
  change (String c a ++ b)%string with (String c (a ++ b)). cbn [Url.remove].
  rewrite IH. destruct (p c); reflexivity.
Qed.

Lemma remove_all (s : string) : Url.every p s = true -> Url.remove p s = ""%string.
Proof.
  induction s as [|c s IH]; [reflexivity|]. cbn [Url.every Url.remove]. intros H.
  apply andb_true_iff in H as [Hc H]. rewrite Hc. exact (IH H).
Qed.

(** Replacing long runs of [p] by characters of [p] leaves the other
    characters where they are, ... *)
Lemma shrink_remove (s : string) :
  forall b, Url.remove p (shrink p lo repl b s) = Url.remove p s.
Proof.
  induction s as [|a s IH]; intros b; [reflexivity|]. cbn [shrink Url.remove].
  destruct (p a) eqn:Hp.
  - destruct b; [apply IH|].
    destruct (lo <=? runLen p (String a s))%nat.
    + rewrite remove_append, (remove_all repl repl_chars). apply IH.
    + cbn [Url.remove]. rewrite Hp. apply IH.
  - cbn [Url.remove]. rewrite Hp, IH. reflexivity.
Qed.

(** ... and, the replacement being no longer than the shortest run
    replaced, makes the text no longer. *)
Lemma shrink_length (s : string) :
  String.length (shrink p lo repl false s) <= String.length s
  /\ String.length (shrink p lo repl true s) + runLen p s <= String.length s.
Proof.
  induction s as [|a s [IH1 IH2]]; [cbn; lia|].
  cbn [shrink runLen String.length]. destruct (p a) eqn:Hp.
  - split; [|lia].
    destruct (Nat.leb_spec lo (S (runLen p s))); cbn [String.length].
    + rewrite length_append. lia.
    + lia.
  - cbn [String.length]. lia.
Qed.

End Untouched.

(** The dash pass and the blank-line pass of the sanitizer touch nothing
    else: the characters other than dashes, respectively line breaks, are
    the same in the same order, and the text does not get longer. *)
Theorem dash_and_blank_passes_keep_the_text (text : string) :
  (Url.remove (Ascii.eqb "-") (Sanitizer.removeDashes text) = Url.remove (Ascii.eqb "-") text
   /\ String.length (Sanitizer.removeDashes text) <= String.length text)
  /\ (Url.remove (Ascii.eqb Js.LF) (Sanitizer.collapseBlankLines text)
      = Url.remove (Ascii.eqb Js.LF) text
      /\ String.length (Sanitizer.collapseBlankLines text) <= String.length text).
Proof.
  assert (Hdash : Sanitizer.removeDashes text = shrink (Ascii.eqb "-") 20 "" false text).
  { unfold Sanitizer.removeDashes, Regex.replaceAll, Sanitizer.dashRun, Regex.atLeast,
      Regex.lit, Sanitizer.erase.
    apply (replaceFrom_shrink (Ascii.eqb "-") 20 ""). lia. }
  assert (Hblank : Sanitizer.collapseBlankLines text
                   = shrink (Ascii.eqb Js.LF) 3 (Js.nl ++ Js.nl) false text).
  { unfold Sanitizer.collapseBlankLines, Regex.replaceAll, Sanitizer.blankLines,
      Regex.atLeast, Regex.lit.
    apply (replaceFrom_shrink (Ascii.eqb Js.LF) 3 (Js.nl ++ Js.nl)). lia. }
  rewrite Hdash, Hblank. split; split.
  - apply shrink_remove. reflexivity.
  - apply (shrink_length (Ascii.eqb "-") 20 ""). cbn. lia.
  - apply shrink_remove. reflexivity.
  - apply (shrink_length (Ascii.eqb Js.LF) 3 (Js.nl ++ Js.nl)). vm_compute. lia.
Qed.
